(** * GridQ starter: dispatch engine and bi-objective frontier

    A shallow embedding of the numerical core of the repository:

    - [gridq_engine.core.schemas], [core.baseline], [core.validate],
      [core.metrics], [model.build], [model.constraints], [model.objective],
      [model.solve], [runners.backtest] and [forecast.providers] (module
      [Engine]);
    - [multi_objective_bess.py] (module [MultiObjective]).

    Python floats are modelled by exact rationals ([Q]).  Equality of
    numbers is therefore [Qeq] (written [==]); values the code stores are
    the values the code computes, so no rounding appears anywhere.  The
    places where the Python code leaves ordinary arithmetic are written
    out: a division of two Python floats by zero raises
    [ZeroDivisionError], a numpy division by zero yields an infinity or a
    NaN, [Series.max()] of an empty column is NaN, and the built-in [min]
    and [max] of an empty sequence raise [ValueError]. *)

From Stdlib Require Import QArith Qminmax Qabs Lqa Lia.
From Stdlib Require Import List String Bool Arith.
From Stdlib Require Import DecimalString.
Import ListNotations.

Open Scope Q_scope.

(** ** Python-level outcomes *)

(** The messages of [ValidationError] in [validate_dispatch_result], as
    data: which f-string it is, with the column name or the bound that
    the f-string prints. *)
Inductive violation : Type :=
| HasNegativeValues (col : string)          (* f"{col} has negative values" *)
| SocBelowMinimum (min_soc : Q)             (* f"SOC below minimum: {min_soc} kWh" *)
| SocAboveMaximum (max_soc : Q)             (* f"SOC above maximum: {max_soc} kWh" *)
| ChargeExceedsLimit (limit : Q)            (* f"Charge power exceeds limit: ... kW" *)
| DischargeExceedsLimit (limit : Q)         (* f"Discharge power exceeds limit: ... kW" *)
| GridImportExceedsLimit (limit : Q)        (* f"Grid import exceeds limit: ... kW" *)
| GridExportExceedsLimit (limit : Q).       (* f"Grid export exceeds limit: ... kW" *)

(** The exceptions the modelled code raises.  [ValidationError] is the
    class of [core/validate.py]; the others are built-ins. *)
Inductive exn : Type :=
| ZeroDivisionError
| ValueError (msg : string)
| RuntimeError (msg : string)
| ValidationError (what : violation)
| IndexError.

(** The class of an exception, which is all an [except SomeClass:] clause
    can look at. *)
Inductive exn_class : Type :=
| ZeroDivisionError_class
| ValueError_class
| RuntimeError_class
| ValidationError_class
| IndexError_class.

Definition class_of (e : exn) : exn_class :=
  match e with
  | ZeroDivisionError => ZeroDivisionError_class
  | ValueError _ => ValueError_class
  | RuntimeError _ => RuntimeError_class
  | ValidationError _ => ValidationError_class
  | IndexError => IndexError_class
  end.

(** What a call does: it returns, it raises, or (numpy arithmetic only)
    it carries on with an infinite value, which rationals cannot follow. *)
Inductive outcome (A : Type) : Type :=
| Returns (a : A)
| Raises (e : exn)
| NonFinite.

Arguments Returns {A} a.
Arguments Raises {A} e.
Arguments NonFinite {A}.

Definition bind {A B : Type} (m : outcome A) (k : A -> outcome B) : outcome B :=
  match m with
  | Returns a => k a
  | Raises e => Raises e
  | NonFinite => NonFinite
  end.

Notation "x <- m ;; k" := (bind m (fun x => k))
  (at level 61, m at next level, right associativity).

Definition raised_class {A : Type} (o : outcome A) : option exn_class :=
  match o with
  | Raises e => Some (class_of e)
  | _ => None
  end.

(** ** Numbers *)

Definition Qlt_bool (x y : Q) : bool := negb (Qle_bool y x).

(** [a / b] on two Python floats. *)
Definition py_div (a b : Q) : outcome Q :=
  if Qeq_bool b 0 then Raises ZeroDivisionError else Returns (a / b).

(** [NUMERICAL_TOLERANCE = 1e-6] of [core/constants.py]. *)
Definition NUMERICAL_TOLERANCE : Q := 1 # 1000000.

(** [f"{prefix}{t}"] for a non-negative integer [t]. *)
Definition fmt_index (prefix : string) (t : nat) : string :=
  (prefix ++ NilEmpty.string_of_uint (Nat.to_uint t))%string.

Module Engine.

(** ** Configuration ([core/schemas.py]) *)

Record BatteryConfig : Type := {
  capacity_kwh : Q;
  max_charge_kw : Q;
  max_discharge_kw : Q;
  charge_efficiency : Q;
  discharge_efficiency : Q;
  min_soc_frac : Q;
  max_soc_frac : Q;
  initial_soc_frac : Q;
  degradation_cost_gbp_per_kwh : Q
}.

Record TariffConfig : Type := {
  flat_import_price_gbp_per_kwh : option Q;
  flat_export_price_gbp_per_kwh : option Q;
  demand_charge_enabled : bool;
  demand_charge_gbp_per_kw : Q
}.

Record SiteConfig : Type := {
  site_id : string;
  battery : BatteryConfig;
  max_grid_import_kw : option Q;
  max_grid_export_kw : option Q
}.

Record RunConfig : Type := {
  run_id : string;
  timestep_minutes : Z;
  horizon_hours : Z;
  tariff : TariffConfig;
  solver_time_limit_seconds : Q;
  solver_gap_tolerance : Q
}.

(** The [Field(...)] range constraints of [BatteryConfig]. *)
Definition battery_schema (b : BatteryConfig) : Prop :=
  0 < capacity_kwh b /\ 0 < max_charge_kw b /\ 0 < max_discharge_kw b /\
  (0 <= charge_efficiency b /\ charge_efficiency b <= 1) /\
  (0 <= discharge_efficiency b /\ discharge_efficiency b <= 1) /\
  (0 <= min_soc_frac b /\ min_soc_frac b <= 1) /\
  (0 <= max_soc_frac b /\ max_soc_frac b <= 1) /\
  (0 <= initial_soc_frac b /\ initial_soc_frac b <= 1) /\
  0 <= degradation_cost_gbp_per_kwh b.

Definition cap_schema (c : option Q) : Prop :=
  match c with Some v => 0 < v | None => True end.

(** The [Field(...)] range constraints of [SiteConfig]. *)
Definition site_schema (s : SiteConfig) : Prop :=
  battery_schema (battery s) /\
  cap_schema (max_grid_import_kw s) /\ cap_schema (max_grid_export_kw s).

Definition min_soc (b : BatteryConfig) : Q := min_soc_frac b * capacity_kwh b.
Definition max_soc (b : BatteryConfig) : Q := max_soc_frac b * capacity_kwh b.
Definition initial_soc (b : BatteryConfig) : Q := initial_soc_frac b * capacity_kwh b.

(** ** Data frames *)

(** The input timeseries: the [load_kw] and [pv_kw] columns, and the two
    price columns when the frame has them.  A [DataFrame] keeps all its
    columns at one length, [len(ts)]. *)
Record Timeseries : Type := {
  ts_load_kw : list Q;
  ts_pv_kw : list Q;
  ts_import_price : option (list Q);
  ts_export_price : option (list Q)
}.

Definition ts_len (ts : Timeseries) : nat := List.length (ts_load_kw ts).

(** The rows [(load, pv)] read by [result.iloc[i]]. *)
Definition ts_rows (ts : Timeseries) : list (Q * Q) :=
  combine (ts_load_kw ts) (ts_pv_kw ts).

(** One row of the five output columns ([OUTPUT_COLUMNS]). *)
Record DispatchRow : Type := {
  grid_import_kw : Q;
  grid_export_kw : Q;
  battery_charge_kw : Q;
  battery_discharge_kw : Q;
  soc_kwh : Q
}.

Definition Dispatch : Type := list DispatchRow.

(** ** Baseline heuristic ([core/baseline.py]) *)

(** [min(limit, num / den)], the two headroom bounds of the loop body.
    [den] is a Python float.  [num] is a Python float in the first
    iteration (its [soc] is [initial_soc_frac * capacity_kwh]) and a
    [numpy.float64] afterwards (its [soc] is read back from the frame):
    the first division raises on a zero divisor, the second one yields
    [inf] or [nan] for [num >= 0], which [min] discards (neither is
    smaller than [limit]), and [-inf] for [num < 0]. *)
Definition headroom_limit (first_step : bool) (limit num den : Q) : outcome Q :=
  if Qeq_bool den 0 then
    if first_step then Raises ZeroDivisionError
    else if Qle_bool 0 num then Returns limit else NonFinite
  else Returns (Qmin limit (num / den)).

Definition apply_cap (flow : Q) (cap : option Q) : Q :=
  match cap with
  | Some c => Qmin flow c
  | None => flow
  end.

(** The flows chosen before the grid caps: (charge, discharge, import, export). *)
Definition baseline_flows (b : BatteryConfig) (timestep_hours : Q)
    (first_step : bool) (soc load pv : Q) : outcome (Q * Q * Q * Q) :=
  let net := pv - load in
  if Qlt_bool 0 net then
    max_charge <- headroom_limit first_step (max_charge_kw b)
                    (max_soc_frac b * capacity_kwh b - soc)
                    (timestep_hours * charge_efficiency b) ;;
    let charge_kw := Qmin net max_charge in
    let remaining_excess := net - charge_kw in
    Returns (charge_kw, 0, 0, remaining_excess)
  else
    let deficit := - net in
    den <- py_div timestep_hours (discharge_efficiency b) ;;
    max_discharge <- headroom_limit first_step (max_discharge_kw b)
                       (soc - min_soc_frac b * capacity_kwh b) den ;;
    let discharge_kw := Qmin deficit max_discharge in
    let remaining_deficit := deficit - discharge_kw in
    Returns (0, discharge_kw, remaining_deficit, 0).

(** One iteration of [for i in range(len(result))]; [prev] is the SOC
    stored by the previous iteration ([None] when [i == 0]). *)
Definition baseline_step (site : SiteConfig) (timestep_hours : Q)
    (prev : option Q) (load pv : Q) : outcome DispatchRow :=
  let b := battery site in
  let first_step := match prev with None => true | Some _ => false end in
  let soc := match prev with
             | None => initial_soc_frac b * capacity_kwh b
             | Some s => s
             end in
  flows <- baseline_flows b timestep_hours first_step soc load pv ;;
  let '(charge_kw, discharge_kw, grid_import, grid_export) := flows in
  let grid_import := apply_cap grid_import (max_grid_import_kw site) in
  let grid_export := apply_cap grid_export (max_grid_export_kw site) in
  drawn <- py_div (discharge_kw * timestep_hours) (discharge_efficiency b) ;;
  let new_soc := soc + charge_kw * timestep_hours * charge_efficiency b - drawn in
  let new_soc := Qmax (min_soc_frac b * capacity_kwh b)
                      (Qmin (max_soc_frac b * capacity_kwh b) new_soc) in
  Returns {| grid_import_kw := grid_import;
             grid_export_kw := grid_export;
             battery_charge_kw := charge_kw;
             battery_discharge_kw := discharge_kw;
             soc_kwh := new_soc |}.

Fixpoint baseline_loop (site : SiteConfig) (timestep_hours : Q)
    (prev : option Q) (rows : list (Q * Q)) : outcome Dispatch :=
  match rows with
  | [] => Returns []
  | (load, pv) :: rest =>
      r <- baseline_step site timestep_hours prev load pv ;;
      rs <- baseline_loop site timestep_hours (Some (soc_kwh r)) rest ;;
      Returns (r :: rs)
  end.

(** [compute_baseline_dispatch(timeseries, site_config, timestep_hours)]:
    the five output columns it adds to the copy of the timeseries.  The
    index of the frame has no duplicate labels (what [validate_timeseries]
    checks), so [result.at[result.index[i], col]] writes row [i] only. *)
Definition compute_baseline_dispatch (ts : Timeseries) (site : SiteConfig)
    (timestep_hours : Q) : outcome Dispatch :=
  baseline_loop site timestep_hours None (ts_rows ts).

(** ** Physical validator ([core/validate.py]) *)

(** [(df[col] < bound).any()] and [(df[col] > bound).any()]. *)
Definition any_below (col : list Q) (bound : Q) : bool :=
  existsb (fun v => Qlt_bool v bound) col.

Definition any_above (col : list Q) (bound : Q) : bool :=
  existsb (fun v => Qlt_bool bound v) col.

Definition column (f : DispatchRow -> Q) (df : Dispatch) : list Q := map f df.

Definition COL_GRID_IMPORT_KW : string := "grid_import_kw".
Definition COL_GRID_EXPORT_KW : string := "grid_export_kw".
Definition COL_BATTERY_CHARGE_KW : string := "battery_charge_kw".
Definition COL_BATTERY_DISCHARGE_KW : string := "battery_discharge_kw".
Definition COL_SOC_KWH : string := "soc_kwh".

(** [power_cols], each name with the column it selects. *)
Definition power_cols : list (string * (DispatchRow -> Q)) :=
  [ (COL_GRID_IMPORT_KW, grid_import_kw);
    (COL_GRID_EXPORT_KW, grid_export_kw);
    (COL_BATTERY_CHARGE_KW, battery_charge_kw);
    (COL_BATTERY_DISCHARGE_KW, battery_discharge_kw) ].

(** [for col in power_cols: if (df[col] < -tol).any(): raise ...] *)
Fixpoint check_non_negative (cols : list (string * (DispatchRow -> Q)))
    (df : Dispatch) : outcome unit :=
  match cols with
  | [] => Returns tt
  | (name, f) :: rest =>
      if any_below (column f df) (- NUMERICAL_TOLERANCE)
      then Raises (ValidationError (HasNegativeValues name))
      else check_non_negative rest df
  end.

Definition check_cap_above (col : list Q) (cap : option Q)
    (mk : Q -> violation) : outcome unit :=
  match cap with
  | Some c =>
      if any_above col (c + NUMERICAL_TOLERANCE)
      then Raises (ValidationError (mk c))
      else Returns tt
  | None => Returns tt
  end.

Definition validate_dispatch_result (df : Dispatch) (site_config : SiteConfig)
    : outcome unit :=
  _ <- check_non_negative power_cols df ;;
  let b := battery site_config in
  let min_soc := min_soc_frac b * capacity_kwh b in
  let max_soc := max_soc_frac b * capacity_kwh b in
  if any_below (column soc_kwh df) (min_soc - NUMERICAL_TOLERANCE)
  then Raises (ValidationError (SocBelowMinimum min_soc))
  else if any_above (column soc_kwh df) (max_soc + NUMERICAL_TOLERANCE)
  then Raises (ValidationError (SocAboveMaximum max_soc))
  else if any_above (column battery_charge_kw df)
            (max_charge_kw b + NUMERICAL_TOLERANCE)
  then Raises (ValidationError (ChargeExceedsLimit (max_charge_kw b)))
  else if any_above (column battery_discharge_kw df)
            (max_discharge_kw b + NUMERICAL_TOLERANCE)
  then Raises (ValidationError (DischargeExceedsLimit (max_discharge_kw b)))
  else
    _ <- check_cap_above (column grid_import_kw df)
           (max_grid_import_kw site_config) GridImportExceedsLimit ;;
    check_cap_above (column grid_export_kw df)
      (max_grid_export_kw site_config) GridExportExceedsLimit.

(** ** The linear program ([model/build.py], [constraints.py], [objective.py]) *)

(** A scalar decision variable: a coordinate of one of the five arrays
    [grid_import_kw], ..., [soc_kwh], or the scalar [peak_demand_kw]. *)
Inductive lp_var : Type :=
| grid_import (t : nat)
| grid_export (t : nat)
| battery_charge (t : nat)
| battery_discharge (t : nat)
| soc (t : nat)
| peak_demand.

(** A linopy linear expression: a sum of [coefficient * variable] terms
    and a constant. *)
Record linexpr : Type := {
  le_terms : list (Q * lp_var);
  le_const : Q
}.

Definition le_var (v : lp_var) : linexpr :=
  {| le_terms := [(1, v)]; le_const := 0 |}.

Definition le_num (c : Q) : linexpr :=
  {| le_terms := []; le_const := c |}.

Definition le_add (a b : linexpr) : linexpr :=
  {| le_terms := le_terms a ++ le_terms b; le_const := le_const a + le_const b |}.

Definition le_scale (a : linexpr) (k : Q) : linexpr :=
  {| le_terms := map (fun cv => (fst cv * k, snd cv)) (le_terms a);
     le_const := le_const a * k |}.

Definition le_sub (a b : linexpr) : linexpr := le_add a (le_scale b (-1)).

(** [expr / k]: linopy multiplies the expression by [1 / k], a division
    of Python floats. *)
Definition le_div (a : linexpr) (k : Q) : outcome linexpr :=
  inv <- py_div 1 k ;;
  Returns (le_scale a inv).

(** Python's [sum(e for t in T)]: the fold [((0 + e0) + e1) + ...]; the
    integer 0 it starts from is the constant expression 0. *)
Definition py_sum (es : list linexpr) : linexpr :=
  fold_left le_add es (le_num 0).

(** The value of an expression at an assignment of the variables. *)
Definition eval (rho : lp_var -> Q) (e : linexpr) : Q :=
  fold_right (fun cv acc => fst cv * rho (snd cv) + acc) 0 (le_terms e)
  + le_const e.

Inductive relop : Type := EQ | LE | GE.

Record constraint : Type := {
  con_name : string;
  con_lhs : linexpr;
  con_rel : relop;
  con_rhs : linexpr
}.

(** [model.add_variables(lower=..., coords=[T], name=...)]; [var_coords]
    is [Some n] for an array over [range(n)], [None] for a scalar. *)
Record var_decl : Type := {
  var_name : string;
  var_lower : Q;
  var_coords : option nat
}.

Inductive sense : Type := Minimize | Maximize.

Record Model : Type := {
  variables : list var_decl;
  constraints : list constraint;
  objective : option (linexpr * sense)
}.

Definition empty_model : Model :=
  {| variables := []; constraints := []; objective := None |}.

Definition add_variables (m : Model) (lower : Q) (coords : option nat)
    (name : string) : Model :=
  {| variables := variables m ++
                  [{| var_name := name; var_lower := lower; var_coords := coords |}];
     constraints := constraints m;
     objective := objective m |}.

Definition add_constraints (m : Model) (lhs : linexpr) (rel : relop)
    (rhs : linexpr) (name : string) : Model :=
  {| variables := variables m;
     constraints := constraints m ++
                    [{| con_name := name; con_lhs := lhs; con_rel := rel; con_rhs := rhs |}];
     objective := objective m |}.

Definition set_objective (m : Model) (obj : linexpr) (s : sense) : Model :=
  {| variables := variables m;
     constraints := constraints m;
     objective := Some (obj, s) |}.

(** [for t in T: body], threading the model. *)
Definition for_each (T : list nat) (body : Model -> nat -> Model) (m : Model) : Model :=
  fold_left body T m.

(** The same loop when the body may raise. *)
Fixpoint for_each_raising (T : list nat) (body : Model -> nat -> outcome Model)
    (m : Model) : outcome Model :=
  match T with
  | [] => Returns m
  | t :: rest => m' <- body m t ;; for_each_raising rest body m'
  end.

(** [arr[t]]; the arrays of the builder have [len(ts)] entries and [t]
    ranges over [range(len(ts))]. *)
Definition at_ (arr : list Q) (t : nat) : Q := nth t arr 0.

Definition site_balance_constraint (load_kw pv_kw : list Q) (t : nat) : constraint :=
  {| con_name := fmt_index "site_balance_" t;
     con_lhs := le_add (le_add (le_num (at_ load_kw t)) (le_var (battery_charge t)))
                       (le_var (grid_export t));
     con_rel := EQ;
     con_rhs := le_add (le_add (le_num (at_ pv_kw t)) (le_var (battery_discharge t)))
                       (le_var (grid_import t)) |}.

Definition add_site_balance (m : Model) (T : list nat) (load_kw pv_kw : list Q) : Model :=
  for_each T (fun m t =>
    let c := site_balance_constraint load_kw pv_kw t in
    add_constraints m (con_lhs c) (con_rel c) (con_rhs c) (con_name c)) m.

Definition add_battery_constraints (m : Model) (T : list nat) (b : BatteryConfig)
    (timestep_hours : Q) : outcome Model :=
  let min_soc := min_soc_frac b * capacity_kwh b in
  let max_soc := max_soc_frac b * capacity_kwh b in
  let m := for_each T (fun m t =>
    let m := add_constraints m (le_var (soc t)) GE (le_num min_soc)
               (fmt_index "soc_min_" t) in
    add_constraints m (le_var (soc t)) LE (le_num max_soc)
      (fmt_index "soc_max_" t)) m in
  let m := for_each T (fun m t =>
    let m := add_constraints m (le_var (battery_charge t)) LE
               (le_num (max_charge_kw b)) (fmt_index "charge_limit_" t) in
    add_constraints m (le_var (battery_discharge t)) LE
      (le_num (max_discharge_kw b)) (fmt_index "discharge_limit_" t)) m in
  for_each_raising T (fun m t =>
    let soc_prev := match t with
                    | O => le_num (initial_soc_frac b * capacity_kwh b)
                    | S t' => le_var (soc t')
                    end in
    drawn <- le_div (le_scale (le_var (battery_discharge t)) timestep_hours)
                    (discharge_efficiency b) ;;
    Returns (add_constraints m (le_var (soc t)) EQ
      (le_sub
         (le_add soc_prev
            (le_scale (le_scale (le_var (battery_charge t)) (charge_efficiency b))
                      timestep_hours))
         drawn)
      (fmt_index "soc_dynamics_" t))) m.

Definition add_grid_constraints (m : Model) (T : list nat) (site : SiteConfig) : Model :=
  let m := match max_grid_import_kw site with
           | Some cap => for_each T (fun m t =>
               add_constraints m (le_var (grid_import t)) LE (le_num cap)
                 (fmt_index "grid_import_limit_" t)) m
           | None => m
           end in
  match max_grid_export_kw site with
  | Some cap => for_each T (fun m t =>
      add_constraints m (le_var (grid_export t)) LE (le_num cap)
        (fmt_index "grid_export_limit_" t)) m
  | None => m
  end.

(** [peak_demand >= grid_import[t]], named [f"peak_ge_import_{t}"]. *)
Definition peak_constraint (t : nat) : constraint :=
  {| con_name := fmt_index "peak_ge_import_" t;
     con_lhs := le_var peak_demand;
     con_rel := GE;
     con_rhs := le_var (grid_import t) |}.

(** [add_objective] of [model/objective.py]; [peak] tells whether the
    [peak_demand] argument is a variable ([true]) or [None]. *)
Definition add_objective (m : Model) (T : list nat)
    (import_price export_price : list Q) (timestep_hours : Q)
    (degradation_cost_gbp_per_kwh demand_charge_gbp_per_kw : Q)
    (peak : bool) : Model :=
  let import_cost :=
    py_sum (map (fun t => le_scale (le_scale (le_var (grid_import t))
                                             (at_ import_price t))
                                   timestep_hours) T) in
  let export_revenue :=
    py_sum (map (fun t => le_scale (le_scale (le_var (grid_export t))
                                             (at_ export_price t))
                                   timestep_hours) T) in
  let degradation_cost :=
    py_sum (map (fun t =>
              le_scale (le_scale (le_add (le_var (battery_charge t))
                                         (le_var (battery_discharge t)))
                                 timestep_hours)
                       degradation_cost_gbp_per_kwh) T) in
  let objective := le_add (le_sub import_cost export_revenue) degradation_cost in
  let objective :=
    if peak
    then le_add objective (le_scale (le_var peak_demand) demand_charge_gbp_per_kw)
    else objective in
  set_objective m objective Minimize.

(** The price array of one direction: the timeseries column when the
    frame has it, else the flat tariff price repeated, else [ValueError]. *)
Definition choose_price (col : option (list Q)) (flat : option Q) (n : nat)
    (msg : string) : outcome (list Q) :=
  match col with
  | Some prices => Returns prices
  | None =>
      match flat with
      | Some p => Returns (repeat p n)
      | None => Raises (ValueError msg)
      end
  end.

(** The model once the two price arrays are known. *)
Definition assemble_model (site : SiteConfig) (run : RunConfig) (ts : Timeseries)
    (import_price export_price : list Q) : outcome Model :=
  let n := ts_len ts in
  let T := seq 0 n in
  let timestep_hours := inject_Z (timestep_minutes run) / 60 in
  let load_kw := ts_load_kw ts in
  let pv_kw := ts_pv_kw ts in
  let m := empty_model in
  let m := add_variables m 0 (Some n) "grid_import_kw" in
  let m := add_variables m 0 (Some n) "grid_export_kw" in
  let m := add_variables m 0 (Some n) "battery_charge_kw" in
  let m := add_variables m 0 (Some n) "battery_discharge_kw" in
  let m := add_variables m 0 (Some n) "soc_kwh" in
  let m := add_site_balance m T load_kw pv_kw in
  m <- add_battery_constraints m T (battery site) timestep_hours ;;
  let m := add_grid_constraints m T site in
  let enabled := demand_charge_enabled (tariff run) in
  let m := if enabled
           then
             let m := add_variables m 0 None "peak_demand_kw" in
             for_each T (fun m t =>
               let c := peak_constraint t in
               add_constraints m (con_lhs c) (con_rel c) (con_rhs c) (con_name c)) m
           else m in
  Returns (add_objective m T import_price export_price timestep_hours
             (degradation_cost_gbp_per_kwh (battery site))
             (if enabled then demand_charge_gbp_per_kw (tariff run) else 0)
             enabled).

Definition build_model (site : SiteConfig) (run : RunConfig) (ts : Timeseries)
    : outcome Model :=
  import_price <- choose_price (ts_import_price ts)
                    (flat_import_price_gbp_per_kwh (tariff run)) (ts_len ts)
                    "No import price provided in timeseries or tariff config" ;;
  export_price <- choose_price (ts_export_price ts)
                    (flat_export_price_gbp_per_kwh (tariff run)) (ts_len ts)
                    "No export price provided in timeseries or tariff config" ;;
  assemble_model site run ts import_price export_price.

(** ** Solver adapter ([model/solve.py]) *)

Record DispatchResult : Type := {
  objective_value_gbp : Q;
  solve_time_seconds : Q;
  solver_status : string;
  solver_termination_condition : string;
  gap : option Q
}.

(** What [model.solve(solver_name="highs", time_limit=...)] did: it raised
    an exception whose text is [e], or it came back and left [model.status],
    [model.termination_condition] (when the model has that attribute),
    [model.objective.value] and [model.solution] behind. *)
Inductive solver_run : Type :=
| SolverRaised (e : string)
| SolverFinished (status : string) (termination_condition : option string)
                 (objective_value : Q) (solution : Dispatch).

Section SolveModel.

(** The external LP solver, and the wall-clock time the call took. *)
Variable highs : Model -> Q -> solver_run.
Variable solve_time : Q.

Definition solve_model (model : Model) (run_config : RunConfig)
    : outcome (Dispatch * DispatchResult) :=
  match highs model (solver_time_limit_seconds run_config) with
  | SolverRaised e => Raises (RuntimeError ("Solver failed: " ++ e))
  | SolverFinished status termination_condition objective_value solution =>
      if negb (String.eqb status "ok")
      then Raises (RuntimeError ("Solver returned non-optimal status: " ++ status))
      else Returns (solution,
                    {| objective_value_gbp := objective_value;
                       solve_time_seconds := solve_time;
                       solver_status := status;
                       solver_termination_condition :=
                         match termination_condition with
                         | Some c => c
                         | None => "optimal"
                         end;
                       gap := None |})
  end.

End SolveModel.

(** ** Metrics ([core/metrics.py]) *)

(** A numpy float that may be NaN: [Series.max()] of an empty column is
    NaN, and NaN spreads through arithmetic. *)
Inductive npfloat : Type :=
| Finite (q : Q)
| NaN.

Definition np_lift2 (f : Q -> Q -> Q) (x y : npfloat) : npfloat :=
  match x, y with
  | Finite a, Finite b => Finite (f a b)
  | _, _ => NaN
  end.

Definition np_add : npfloat -> npfloat -> npfloat := np_lift2 Qplus.
Definition np_sub : npfloat -> npfloat -> npfloat := np_lift2 Qminus.
Definition np_mul : npfloat -> npfloat -> npfloat := np_lift2 Qmult.
(** Used where the divisor is known not to be zero. *)
Definition np_div : npfloat -> npfloat -> npfloat := np_lift2 Qdiv.

(** [series.sum()] (0 for an empty column) and [series.max()]. *)
Definition series_sum (col : list Q) : Q := fold_left Qplus col 0.

Definition series_max (col : list Q) : npfloat :=
  match col with
  | [] => NaN
  | x :: rest => Finite (fold_left Qmax rest x)
  end.

(** A dispatch frame with the two price columns merged in, as
    [run_backtest] prepares it for the metrics. *)
Record PricedRow : Type := {
  flows : DispatchRow;
  import_price_gbp_per_kwh : Q;
  export_price_gbp_per_kwh : Q
}.

Definition PricedDispatch : Type := list PricedRow.

Definition compute_cost (dispatch : PricedDispatch) (site_config : SiteConfig)
    (run_config : RunConfig) (timestep_hours : Q) : npfloat :=
  let import_cost :=
    series_sum (map (fun r => grid_import_kw (flows r) * import_price_gbp_per_kwh r
                              * timestep_hours) dispatch) in
  let export_revenue :=
    series_sum (map (fun r => grid_export_kw (flows r) * export_price_gbp_per_kwh r
                              * timestep_hours) dispatch) in
  let demand_charge :=
    if demand_charge_enabled (tariff run_config)
    then
      let peak_import_kw := series_max (map (fun r => grid_import_kw (flows r)) dispatch) in
      np_mul peak_import_kw (Finite (demand_charge_gbp_per_kw (tariff run_config)))
    else Finite 0 in
  let battery_throughput_kwh :=
    series_sum (map (fun r => (battery_charge_kw (flows r) + battery_discharge_kw (flows r))
                              * timestep_hours) dispatch) in
  let degradation_cost :=
    battery_throughput_kwh * degradation_cost_gbp_per_kwh (battery site_config) in
  np_add (np_add (Finite (import_cost - export_revenue)) demand_charge)
         (Finite degradation_cost).

Record Metrics : Type := {
  optimal_cost_gbp : npfloat;
  baseline_cost_gbp : npfloat;
  savings_gbp : npfloat;
  savings_pct : npfloat;
  optimal_peak_import_kw : npfloat;
  baseline_peak_import_kw : npfloat;
  peak_reduction_kw : npfloat;
  battery_throughput_kwh : Q;
  battery_cycles : Q;
  total_import_kwh : Q;
  total_export_kwh : Q
}.

(** [compute_metrics].  [capacity_kwh] is positive by its schema
    ([Field(..., gt=0)]), so the divisor of [battery_cycles] is not zero. *)
Definition compute_metrics (optimal_dispatch baseline_dispatch : PricedDispatch)
    (site_config : SiteConfig) (run_config : RunConfig) (timestep_hours : Q)
    : Metrics :=
  let optimal_cost := compute_cost optimal_dispatch site_config run_config timestep_hours in
  let baseline_cost := compute_cost baseline_dispatch site_config run_config timestep_hours in
  let savings := np_sub baseline_cost optimal_cost in
  let baseline_cost_not_zero :=
    match baseline_cost with
    | Finite b => negb (Qeq_bool b 0)
    | NaN => true
    end in
  let pct :=
    if baseline_cost_not_zero
    then np_mul (np_div savings baseline_cost) (Finite 100)
    else Finite 0 in
  let optimal_peak_kw := series_max (map (fun r => grid_import_kw (flows r)) optimal_dispatch) in
  let baseline_peak_kw := series_max (map (fun r => grid_import_kw (flows r)) baseline_dispatch) in
  let throughput :=
    series_sum (map (fun r => (battery_charge_kw (flows r) + battery_discharge_kw (flows r))
                              * timestep_hours) optimal_dispatch) in
  {| optimal_cost_gbp := optimal_cost;
     baseline_cost_gbp := baseline_cost;
     savings_gbp := savings;
     savings_pct := pct;
     optimal_peak_import_kw := optimal_peak_kw;
     baseline_peak_import_kw := baseline_peak_kw;
     peak_reduction_kw := np_sub baseline_peak_kw optimal_peak_kw;
     battery_throughput_kwh := throughput;
     battery_cycles := throughput / (2 * capacity_kwh (battery site_config));
     total_import_kwh :=
       series_sum (map (fun r => grid_import_kw (flows r) * timestep_hours) optimal_dispatch);
     total_export_kwh :=
       series_sum (map (fun r => grid_export_kw (flows r) * timestep_hours) optimal_dispatch) |}.

(** ** Input validation ([core/validate.py], [validate_timeseries]) *)

(** [REQUIRED_INPUT_COLUMNS] of [core/constants.py]. *)
Definition REQUIRED_INPUT_COLUMNS : list string :=
  [ "load_kw"; "pv_kw"; "import_price_gbp_per_kwh"; "export_price_gbp_per_kwh" ]%string.

(** A cell of an input column: a number, or NaN. *)
Definition cell : Type := option Q.

(** The index of the input frame: a [DatetimeIndex], its timestamps in
    nanoseconds since the epoch (none of them NaT), or an index of
    another class. *)
Inductive frame_index : Type :=
| DatetimeIndex (stamps : list Z)
| OtherIndex (size : nat).

(** The input frame as it is read from a bundle: the index and the
    columns by name (names are taken to be distinct). *)
Record InputFrame : Type := {
  index : frame_index;
  columns : list (string * list cell)
}.

(** [len(df)]. *)
Definition frame_len (df : InputFrame) : nat :=
  match index df with
  | DatetimeIndex stamps => List.length stamps
  | OtherIndex size => size
  end.

(** [df[col]], for a column the frame has. *)
Fixpoint lookup_column (cols : list (string * list cell)) (col : string)
    : option (list cell) :=
  match cols with
  | [] => None
  | (name, values) :: rest =>
      if String.eqb name col then Some values else lookup_column rest col
  end.

(** [col in df.columns]. *)
Definition has_column (df : InputFrame) (col : string) : bool :=
  match lookup_column (columns df) col with
  | Some _ => true
  | None => false
  end.

Definition column_values (df : InputFrame) (col : string) : list cell :=
  match lookup_column (columns df) col with
  | Some values => values
  | None => []
  end.

(** [s.endswith(suffix)]. *)
Definition endswith (s suffix : string) : bool :=
  let n := String.length s in
  let k := String.length suffix in
  if (k <=? n)%nat then String.eqb (substring (n - k) k s) suffix else false.

(** [index.is_monotonic_increasing]: no timestamp is below the one before. *)
Fixpoint is_monotonic_increasing (stamps : list Z) : bool :=
  match stamps with
  | a :: (b :: _) as rest => (a <=? b)%Z && is_monotonic_increasing rest
  | _ => true
  end.

(** [index.has_duplicates]. *)
Fixpoint has_duplicates (stamps : list Z) : bool :=
  match stamps with
  | [] => false
  | a :: rest => existsb (Z.eqb a) rest || has_duplicates rest
  end.

(** [index.to_series().diff().dropna()]: each timestamp less the one before. *)
Fixpoint time_diffs (stamps : list Z) : list Z :=
  match stamps with
  | a :: (b :: _) as rest => (b - a)%Z :: time_diffs rest
  | _ => []
  end.

(** [pd.Timedelta(minutes=m)], in nanoseconds. *)
Definition Timedelta_minutes (m : Z) : Z := (m * 60000000000)%Z.

(** [(df[col] < 0).any()]; a comparison with NaN is false. *)
Definition any_negative (values : list cell) : bool :=
  existsb (fun c => match c with
                    | Some v => Qlt_bool v 0
                    | None => false
                    end) values.

(** [df[col].isna().any()]. *)
Definition any_nan (values : list cell) : bool :=
  existsb (fun c => match c with
                    | Some _ => false
                    | None => true
                    end) values.

(** The messages of [ValidationError] in [validate_timeseries], as data;
    the set of missing columns is listed in the order of
    [REQUIRED_INPUT_COLUMNS]. *)
Inductive input_violation : Type :=
| MissingRequiredColumns (missing : list string)
| NotDatetimeIndex
| NotMonotonicIncreasing
| DuplicateTimestamps
| InconsistentTimestep (expected_timestep_minutes : Z)
| ContainsNegativeValues (col : string)
| NaNValuesFound (nan_cols : list string).

(** What [validate_timeseries] does: it returns [None], or it raises
    [ValidationError] with one of the messages above. *)
Inductive input_check : Type :=
| InputAccepted
| InputRejected (why : input_violation).

(** The loop over the required columns the frame has: the first power
    column with a negative value. *)
Fixpoint first_negative_power_column (df : InputFrame) (cols : list string)
    : option string :=
  match cols with
  | [] => None
  | col :: rest =>
      if endswith col "_kw" && any_negative (column_values df col)
      then Some col
      else first_negative_power_column df rest
  end.

Definition validate_timeseries (df : InputFrame) (expected_timestep_minutes : Z)
    : input_check :=
  let missing_cols := filter (fun col => negb (has_column df col)) REQUIRED_INPUT_COLUMNS in
  match missing_cols with
  | _ :: _ => InputRejected (MissingRequiredColumns missing_cols)
  | [] =>
      match index df with
      | OtherIndex _ => InputRejected NotDatetimeIndex
      | DatetimeIndex stamps =>
          if negb (is_monotonic_increasing stamps)
          then InputRejected NotMonotonicIncreasing
          else if has_duplicates stamps
          then InputRejected DuplicateTimestamps
          else if (1 <? List.length stamps)%nat
                  && negb (forallb (fun d => Z.eqb d (Timedelta_minutes
                                                        expected_timestep_minutes))
                                   (time_diffs stamps))
          then InputRejected (InconsistentTimestep expected_timestep_minutes)
          else
            match first_negative_power_column df
                    (filter (has_column df) REQUIRED_INPUT_COLUMNS) with
            | Some col => InputRejected (ContainsNegativeValues col)
            | None =>
                let nan_cols :=
                  filter (fun col => any_nan (column_values df col))
                         REQUIRED_INPUT_COLUMNS in
                match nan_cols with
                | _ :: _ => InputRejected (NaNValuesFound nan_cols)
                | [] => InputAccepted
                end
            end
      end
  end.

(** ** Run configuration ([core/schemas.py], [RunConfig.validate_timestep]) *)

(** The validator of [timestep_minutes]: [60 % v] is Python's modulo,
    which raises on a zero divisor. *)
Definition validate_timestep (v : Z) : outcome Z :=
  if (v =? 0)%Z then Raises ZeroDivisionError
  else if negb (60 mod v =? 0)%Z
  then Raises (ValueError ("Timestep " ++ DecimalString.NilZero.string_of_int (Z.to_int v)
                           ++ " must divide 60 evenly"))
  else Returns v.

(** ** Backtest runner ([runners/backtest.py]) *)

(** [dispatch_df[COL_IMPORT_PRICE] = timeseries[COL_IMPORT_PRICE].values]
    and the same for the export price: the frame with the two price
    columns merged in.  Assigning an array of another length than the
    frame raises [ValueError]. *)
Definition with_prices (d : Dispatch) (import_price export_price : list Q)
    : PricedDispatch :=
  map (fun row => {| flows := fst row;
                     import_price_gbp_per_kwh := fst (snd row);
                     export_price_gbp_per_kwh := snd (snd row) |})
      (combine d (combine import_price export_price)).

Definition merge_prices (d : Dispatch) (import_price export_price : list Q)
    : outcome PricedDispatch :=
  if (List.length import_price =? List.length d)%nat
     && (List.length export_price =? List.length d)%nat
  then Returns (with_prices d import_price export_price)
  else Raises (ValueError "Length of values does not match length of index").

(** The numbers of a column without NaN. *)
Fixpoint numbers (values : list cell) : option (list Q) :=
  match values with
  | [] => Some []
  | Some v :: rest => option_map (cons v) (numbers rest)
  | None :: _ => None
  end.

(** The four required columns of a frame that has them, free of NaN. *)
Definition required_columns (df : InputFrame) : option (list Q * list Q * list Q * list Q) :=
  match lookup_column (columns df) "load_kw", lookup_column (columns df) "pv_kw",
        lookup_column (columns df) "import_price_gbp_per_kwh",
        lookup_column (columns df) "export_price_gbp_per_kwh" with
  | Some load, Some pv, Some import_price, Some export_price =>
      match numbers load, numbers pv, numbers import_price, numbers export_price with
      | Some l, Some p, Some i, Some e => Some (l, p, i, e)
      | _, _, _, _ => None
      end
  | _, _, _, _ => None
  end.

(** What [run_backtest] raises: the [ValidationError] of
    [validate_timeseries], an [IndexError], or what the calls it makes
    raise. *)
Inductive backtest_exn : Type :=
| InputValidationError (why : input_violation)
| IndexError
| Propagated (e : exn).

Inductive backtest_outcome (A : Type) : Type :=
| BacktestReturns (a : A)
| BacktestRaises (e : backtest_exn)
| BacktestNonFinite.

Arguments BacktestReturns {A} a.
Arguments BacktestRaises {A} e.
Arguments BacktestNonFinite {A}.

Definition propagate {A : Type} (o : outcome A) : backtest_outcome A :=
  match o with
  | Returns a => BacktestReturns a
  | Raises e => BacktestRaises (Propagated e)
  | NonFinite => BacktestNonFinite
  end.

Section Backtest.

Variable highs : Model -> Q -> solver_run.
Variable solve_time : Q.

(** [run_backtest], from the loaded bundle [(site_config, run_config,
    timeseries)] to the pair [(dispatch_df, metrics)] it returns; reading
    the bundle and writing the results are left out.  The progress
    message prints [timeseries.index[0]] and [timeseries.index[-1]],
    which raise [IndexError] on a frame without rows.  A validated frame
    has the four required columns without NaN, so the last branch is
    never taken. *)
Definition run_backtest (site_config : SiteConfig) (run_config : RunConfig)
    (timeseries : InputFrame) : backtest_outcome (PricedDispatch * Metrics) :=
  match validate_timeseries timeseries (timestep_minutes run_config) with
  | InputRejected why => BacktestRaises (InputValidationError why)
  | InputAccepted =>
      if (frame_len timeseries =? 0)%nat then BacktestRaises IndexError
      else
        match required_columns timeseries with
        | Some (load_kw, pv_kw, import_price, export_price) =>
            let ts := {| ts_load_kw := load_kw; ts_pv_kw := pv_kw;
                         ts_import_price := Some import_price;
                         ts_export_price := Some export_price |} in
            propagate (
              model <- build_model site_config run_config ts ;;
              solved <- solve_model highs solve_time model run_config ;;
              let dispatch_df := fst solved in
              _ <- validate_dispatch_result dispatch_df site_config ;;
              dispatch_df <- merge_prices dispatch_df import_price export_price ;;
              let timestep_hours := inject_Z (timestep_minutes run_config) / 60 in
              baseline_dispatch <- compute_baseline_dispatch ts site_config timestep_hours ;;
              baseline_dispatch <- merge_prices baseline_dispatch import_price export_price ;;
              let metrics := compute_metrics dispatch_df baseline_dispatch site_config
                               run_config timestep_hours in
              Returns (dispatch_df, metrics))
        | None => BacktestNonFinite
        end
  end.

End Backtest.

(** ** Forecast providers ([forecast/providers.py]) *)

(** The providers hold a frame with a [DatetimeIndex] that is monotonic
    increasing without duplicates, as [validate_timeseries] requires.  On
    such an index the label slice [.loc[a:b]] is the run of rows from the
    first timestamp not below [a] to the last one not above [b], found by
    binary search, and [.loc[a]] is the one row at [a]. *)

(** The number of leading timestamps that satisfy [p]. *)
Fixpoint count_leading (p : Z -> bool) (stamps : list Z) : nat :=
  match stamps with
  | s :: rest => if p s then S (count_leading p rest) else O
  | [] => O
  end.

(** [index.searchsorted(v, side="left")] and [side="right"]. *)
Definition searchsorted_left (stamps : list Z) (v : Z) : nat :=
  count_leading (fun s => (s <? v)%Z) stamps.

Definition searchsorted_right (stamps : list Z) (v : Z) : nat :=
  count_leading (fun s => (s <=? v)%Z) stamps.

(** [l[lo:hi]]. *)
Definition iloc {X : Type} (lo hi : nat) (l : list X) : list X :=
  firstn (hi - lo) (skipn lo l).

(** The rows [lo:hi] of a frame. *)
Definition iloc_frame (lo hi : nat) (stamps : list Z) (cols : list (string * list cell))
    : InputFrame :=
  {| index := DatetimeIndex (iloc lo hi stamps);
     columns := map (fun c => (fst c, iloc lo hi (snd c))) cols |}.

(** [pd.Timedelta(hours=h)], in nanoseconds. *)
Definition Timedelta_hours (h : Z) : Z := (h * 3600000000000)%Z.

(** [HistoricalReplayProvider(historical_data).forecast(ts_now, horizon_hours)]. *)
Definition HistoricalReplayProvider_forecast
    (stamps : list Z) (cols : list (string * list cell))
    (ts_now : Z) (horizon_hours : Z) : outcome InputFrame :=
  let end_time := (ts_now + Timedelta_hours horizon_hours)%Z in
  let lo := searchsorted_left stamps ts_now in
  let hi := searchsorted_right stamps end_time in
  let hi :=
    if (0 <? List.length (iloc lo hi stamps))%nat
       && (end_time <=? last (iloc lo hi stamps) 0)%Z
    then (hi - 1)%nat
    else hi in
  if (List.length (iloc lo hi stamps) =? 0)%nat
  then Raises (ValueError "No historical data available for forecast")
  else Returns (iloc_frame lo hi stamps cols).

(** The position of the first timestamp equal to [v]. *)
Fixpoint get_loc (stamps : list Z) (v : Z) : nat :=
  match stamps with
  | s :: rest => if (s =? v)%Z then O else S (get_loc rest v)
  | [] => O
  end.

(** [pd.date_range(start=start, periods=periods, freq=f"{m}min")]. *)
Definition date_range (start : Z) (periods : nat) (m : Z) : list Z :=
  map (fun k => (start + Z.of_nat k * Timedelta_minutes m)%Z) (seq 0 periods).

(** [PersistenceProvider(historical_data, timestep_minutes).forecast(ts_now,
    horizon_hours)].  [int(x)] cuts towards zero.  What [pd.date_range]
    does with a negative number of periods is left open, as
    [negative_periods]. *)
Section Persistence.

Variable negative_periods : outcome InputFrame.

Definition PersistenceProvider_forecast
    (stamps : list Z) (cols : list (string * list cell)) (timestep_minutes : Z)
    (ts_now : Z) (horizon_hours : Z) : outcome InputFrame :=
  position <-
    (if negb (existsb (Z.eqb ts_now) stamps)
     then
       let prior := searchsorted_right stamps ts_now in
       if (prior =? 0)%nat
       then Raises (ValueError "No historical data available before")
       else Returns (prior - 1)%nat
     else Returns (get_loc stamps ts_now)) ;;
  num_steps <-
    (if (timestep_minutes =? 0)%Z then Raises ZeroDivisionError
     else Returns (Z.quot (horizon_hours * 60) timestep_minutes)) ;;
  if (num_steps <? 0)%Z
  then negative_periods
  else
    let forecast_index :=
      date_range (ts_now + Timedelta_minutes timestep_minutes) (Z.to_nat num_steps)
                 timestep_minutes in
    Returns {| index := DatetimeIndex forecast_index;
               columns := map (fun c => (fst c,
                                         repeat (nth position (snd c) None)
                                                (Z.to_nat num_steps)))
                              cols |}.

End Persistence.

End Engine.

Module MultiObjective.

(** ** [multi_objective_bess.py]: data *)

Record Config : Type := {
  capacity_kwh : Q;
  max_charge_kw : Q;
  max_discharge_kw : Q;
  efficiency : Q;
  min_soc_frac : Q;
  max_soc_frac : Q;
  initial_soc_frac : Q;
  demand_charge_per_kw : Q;
  timestep_hours : Q
}.

(** A point of the front; [dispatch] is the solution reshaped to its
    five rows [grid_import, grid_export, charge, discharge, soc]. *)
Record ParetoPoint : Type := {
  energy_cost : Q;
  peak_demand_kw : Q;
  total_cost : Q;
  dispatch : option (list (list Q))
}.

(** ** Built-ins and numpy helpers *)

(** [min(xs, key=key)]: the first element whose key no later element
    undercuts; [ValueError] on an empty sequence. *)
Definition py_min_by {A : Type} (key : A -> Q) (xs : list A) : outcome A :=
  match xs with
  | [] => Raises (ValueError "min() arg is an empty sequence")
  | x :: rest =>
      Returns (fold_left (fun best y => if Qlt_bool (key y) (key best) then y else best)
                         rest x)
  end.

Definition py_min (xs : list Q) : outcome Q := py_min_by (fun x => x) xs.

Definition py_max (xs : list Q) : outcome Q :=
  match xs with
  | [] => Raises (ValueError "max() arg is an empty sequence")
  | x :: rest =>
      Returns (fold_left (fun best y => if Qlt_bool best y then y else best) rest x)
  end.

(** [np.max(arr)]. *)
Definition np_max (arr : list Q) : outcome Q :=
  match arr with
  | [] => Raises (ValueError "zero-size array to reduction operation maximum which has no identity")
  | x :: rest => Returns (fold_left Qmax rest x)
  end.

Fixpoint zip_with (f : Q -> Q -> Q) (a b : list Q) : list Q :=
  match a, b with
  | x :: a', y :: b' => f x y :: zip_with f a' b'
  | _, _ => []
  end.

(** [a - b] on one-dimensional arrays, with numpy's broadcasting of a
    one-element array. *)
Definition np_subtract (a b : list Q) : outcome (list Q) :=
  if (List.length a =? List.length b)%nat then Returns (zip_with Qminus a b)
  else if (List.length b =? 1)%nat then Returns (map (fun x => x - hd 0 b) a)
  else if (List.length a =? 1)%nat then Returns (map (fun y => hd 0 a - y) b)
  else Raises (ValueError "operands could not be broadcast together").

(** [np.linspace(start, stop, num)]: [num] evenly spaced samples, the
    last one set to [stop]. *)
Definition linspace (start stop : Q) (num : nat) : list Q :=
  match num with
  | O => []
  | S O => [start]
  | S (S _ as div) =>
      let step := (stop - start) / inject_Z (Z.of_nat div) in
      map (fun i => if (i =? div)%nat then stop
                    else inject_Z (Z.of_nat i) * step + start)
          (seq 0 num)
  end.

(** [x.reshape(rows, cols)]. *)
Fixpoint split_rows (rows cols : nat) (x : list Q) : list (list Q) :=
  match rows with
  | O => []
  | S r => firstn cols x :: split_rows r cols (skipn cols x)
  end.

Definition reshape (rows cols : nat) (x : list Q) : outcome (list (list Q)) :=
  if (List.length x =? rows * cols)%nat then Returns (split_rows rows cols x)
  else Raises (ValueError "cannot reshape array").

Definition last_point (front : list ParetoPoint) : option ParetoPoint :=
  match rev front with
  | [] => None
  | p :: _ => Some p
  end.

(** ** The linear program of [solve_with_peak_limit] *)

(** What writing the program down can raise: [IndexError] from an array
    read or write out of range, [ZeroDivisionError] from [dt /
    cfg.efficiency]. *)
Inductive lp_error : Type :=
| ArrayIndexError
| FloatDivisionByZero.

Inductive attempt (A : Type) : Type :=
| Built (a : A)
| Fails (e : lp_error).

Arguments Built {A} a.
Arguments Fails {A} e.

Definition and_then {A B : Type} (m : attempt A) (k : A -> attempt B) : attempt B :=
  match m with
  | Built a => k a
  | Fails e => Fails e
  end.

Notation "x <~ m ;; k" := (and_then m (fun x => k))
  (at level 61, m at next level, right associativity).

(** [np.zeros(n)] and [np.zeros((rows, cols))]. *)
Definition zeros (n : nat) : list Q := repeat 0 n.

Definition zeros2 (rows cols : nat) : list (list Q) := repeat (zeros cols) rows.

(** The list with position [i] replaced. *)
Fixpoint upd {X : Type} (l : list X) (i : nat) (x : X) : list X :=
  match l, i with
  | [], _ => []
  | _ :: rest, O => x :: rest
  | y :: rest, S i' => y :: upd rest i' x
  end.

(** [arr[i]], [arr[i] = v] and [A[r, c] = v] for non-negative indices. *)
Definition get_item (arr : list Q) (i : nat) : attempt Q :=
  match nth_error arr i with
  | Some v => Built v
  | None => Fails ArrayIndexError
  end.

Definition set_item (arr : list Q) (i : nat) (v : Q) : attempt (list Q) :=
  if (i <? List.length arr)%nat then Built (upd arr i v) else Fails ArrayIndexError.

Definition set_entry (A : list (list Q)) (r c : nat) (v : Q) : attempt (list (list Q)) :=
  match nth_error A r with
  | Some row => row' <~ set_item row c v ;; Built (upd A r row')
  | None => Fails ArrayIndexError
  end.

(** [a / b] on two Python floats. *)
Definition float_div (a b : Q) : attempt Q :=
  if Qeq_bool b 0 then Fails FloatDivisionByZero else Built (a / b).

(** [for t in range(T)] over a state. *)
Fixpoint for_range {S : Type} (ts : list nat) (body : nat -> S -> attempt S) (s : S)
    : attempt S :=
  match ts with
  | [] => Built s
  | t :: rest => s' <~ body t s ;; for_range rest body s'
  end.

(** The index helpers. *)
Definition i_imp (T t : nat) : nat := t.
Definition i_exp (T t : nat) : nat := T + t.
Definition i_chg (T t : nat) : nat := 2 * T + t.
Definition i_dis (T t : nat) : nat := 3 * T + t.
Definition i_soc (T t : nat) : nat := 4 * T + t.

(** The arguments of [linprog]; an upper bound [None] is no bound. *)
Record Program : Type := {
  lp_c : list Q;
  lp_A_ub : list (list Q);
  lp_b_ub : list Q;
  lp_A_eq : list (list Q);
  lp_b_eq : list Q;
  lp_bounds : list (Q * option Q)
}.

(** The body of the loop that fills the objective. *)
Definition objective_step (cfg : Config) (T : nat) (import_price export_price : list Q)
    (t : nat) (c : list Q) : attempt (list Q) :=
  let dt := timestep_hours cfg in
  p <~ get_item import_price t ;;
  c <~ set_item c (i_imp T t) (p * dt) ;;
  q <~ get_item export_price t ;;
  set_item c (i_exp T t) (- q * dt).

(** The body of the loop that fills [A_eq] and [b_eq]. *)
Definition equality_step (cfg : Config) (T : nat) (load pv : list Q)
    (t : nat) (s : list (list Q) * list Q) : attempt (list (list Q) * list Q) :=
  let dt := timestep_hours cfg in
  let init_soc := initial_soc_frac cfg * capacity_kwh cfg in
  let A_eq := fst s in
  let b_eq := snd s in
  A_eq <~ set_entry A_eq t (i_imp T t) (- (1)) ;;
  A_eq <~ set_entry A_eq t (i_exp T t) 1 ;;
  A_eq <~ set_entry A_eq t (i_chg T t) 1 ;;
  A_eq <~ set_entry A_eq t (i_dis T t) (- (1)) ;;
  g <~ get_item pv t ;;
  l <~ get_item load t ;;
  b_eq <~ set_item b_eq t (g - l) ;;
  A_eq <~ set_entry A_eq (T + t) (i_soc T t) 1 ;;
  A_eq <~ set_entry A_eq (T + t) (i_chg T t) (- efficiency cfg * dt) ;;
  k <~ float_div dt (efficiency cfg) ;;
  A_eq <~ set_entry A_eq (T + t) (i_dis T t) k ;;
  if (t =? 0)%nat
  then b_eq <~ set_item b_eq (T + t) init_soc ;; Built (A_eq, b_eq)
  else A_eq <~ set_entry A_eq (T + t) (i_soc T (t - 1)) (- (1)) ;; Built (A_eq, b_eq).

(** The body of the loop that fills [A_ub] and [b_ub]. *)
Definition inequality_step (cfg : Config) (T : nat)
    (t : nat) (s : list (list Q) * list Q) : attempt (list (list Q) * list Q) :=
  let min_soc := min_soc_frac cfg * capacity_kwh cfg in
  let max_soc := max_soc_frac cfg * capacity_kwh cfg in
  let A_ub := fst s in
  let b_ub := snd s in
  A_ub <~ set_entry A_ub t (i_soc T t) 1 ;;
  b_ub <~ set_item b_ub t max_soc ;;
  A_ub <~ set_entry A_ub (T + t) (i_soc T t) (- (1)) ;;
  b_ub <~ set_item b_ub (T + t) (- min_soc) ;;
  Built (A_ub, b_ub).

(** The program [solve_with_peak_limit] hands to [linprog]. *)
Definition build_program (cfg : Config)
    (load pv import_price export_price : list Q) (peak_limit : Q)
    : attempt Program :=
  let T := List.length load in
  let n := (5 * T)%nat in
  c <~ for_range (seq 0 T) (objective_step cfg T import_price export_price) (zeros n) ;;
  eq <~ for_range (seq 0 T) (equality_step cfg T load pv)
          (zeros2 (2 * T) n, zeros (2 * T)) ;;
  ub <~ for_range (seq 0 T) (inequality_step cfg T) (zeros2 (2 * T) n, zeros (2 * T)) ;;
  let bounds :=
    repeat (0, Some peak_limit) T
    ++ repeat (0, None) T
    ++ repeat (0, Some (max_charge_kw cfg)) T
    ++ repeat (0, Some (max_discharge_kw cfg)) T
    ++ repeat (0, Some (capacity_kwh cfg)) T in
  Built {| lp_c := c;
           lp_A_ub := fst ub; lp_b_ub := snd ub;
           lp_A_eq := fst eq; lp_b_eq := snd eq;
           lp_bounds := bounds |}.

Section Frontier.

(** The external LP solver: [scipy.optimize.linprog(c, A_ub=..., b_ub=...,
    A_eq=..., b_eq=..., bounds=..., method='highs')] on the program that
    [solve_with_peak_limit] has written down for the given configuration,
    the four input arrays and the peak limit.  [Some (fun, x)] stands for
    a result with [result.success]; [None] for one without. *)
Variable linprog :
  Config -> list Q -> list Q -> list Q -> list Q -> Q -> option (Q * list Q).

(** The exception behind a failure to write the program down. *)
Definition raised_by (e : lp_error) : exn :=
  match e with
  | ArrayIndexError => IndexError
  | FloatDivisionByZero => ZeroDivisionError
  end.

(** The arrays of the program are filled first, which can raise; only
    then is the solver called. *)
Definition solve_with_peak_limit (cfg : Config)
    (load pv import_price export_price : list Q) (peak_limit : Q)
    : outcome (option ParetoPoint) :=
  let T := List.length load in
  match build_program cfg load pv import_price export_price peak_limit with
  | Fails e => Raises (raised_by e)
  | Built _ =>
      match linprog cfg load pv import_price export_price peak_limit with
      | None => Returns None
      | Some (result_fun, x) =>
          actual_peak <- np_max (firstn T x) ;;
          dispatch <- reshape 5 T x ;;
          Returns (Some {| energy_cost := result_fun;
                           peak_demand_kw := actual_peak;
                           total_cost := result_fun + actual_peak * demand_charge_per_kw cfg;
                           dispatch := Some dispatch |})
      end
  end.

(** The binary search [for _ in range(20)] over [(peak_min, peak_max)]. *)
Fixpoint bisect (solve : Q -> outcome (option ParetoPoint)) (rounds : nat)
    (peak_min peak_max : Q) : outcome (Q * Q) :=
  match rounds with
  | O => Returns (peak_min, peak_max)
  | S rounds' =>
      let mid := (peak_min + peak_max) / 2 in
      r <- solve mid ;;
      match r with
      | Some _ => bisect solve rounds' peak_min mid
      | None => bisect solve rounds' mid peak_max
      end
  end.

(** The guard of the sweep:
    [point and (not front or abs(point.energy_cost - front[-1].energy_cost) > 1e-6)]. *)
Definition accepts (front : list ParetoPoint) (point : option ParetoPoint) : bool :=
  match point with
  | None => false
  | Some p =>
      match last_point front with
      | None => true
      | Some prev => Qlt_bool (1 # 1000000) (Qabs (energy_cost p - energy_cost prev))
      end
  end.

(** One iteration of [for eps in epsilons], after the solve. *)
Definition sweep_step (front : list ParetoPoint) (point : option ParetoPoint)
    : list ParetoPoint :=
  match point with
  | Some p => if accepts front point then front ++ [p] else front
  | None => front
  end.

Fixpoint sweep (solve : Q -> outcome (option ParetoPoint)) (epsilons : list Q)
    (front : list ParetoPoint) : outcome (list ParetoPoint) :=
  match epsilons with
  | [] => Returns front
  | eps :: rest =>
      point <- solve eps ;;
      sweep solve rest (sweep_step front point)
  end.

Definition compute_pareto_front (cfg : Config)
    (load pv import_price export_price : list Q) (n_points : nat)
    : outcome (list ParetoPoint) :=
  let solve := solve_with_peak_limit cfg load pv import_price export_price in
  net_load <- np_subtract load pv ;;
  top <- np_max net_load ;;
  let peak_max := Qmax top (1 # 10) in
  let peak_min := 0 in
  bounds <- bisect solve 20 peak_min peak_max ;;
  let peak_max := snd bounds in
  let peak_min := peak_max in
  unconstrained <- solve 1000 ;;
  let peak_max :=
    match unconstrained with
    | Some u => Qmax (peak_demand_kw u * (11 # 10)) (peak_min * (3 # 2))
    | None => peak_max
    end in
  let epsilons := linspace peak_min peak_max n_points in
  sweep solve epsilons [].

End Frontier.

(** ** Operating-point selection *)

(** [score(pt)] of [select_operating_point].  Its two divisors are at
    least 1e-9, since a maximum is never below the minimum. *)
Definition score (preference e_min e_max p_min p_max : Q) (pt : ParetoPoint) : Q :=
  let e_norm := (energy_cost pt - e_min) / (e_max - e_min + (1 # 1000000000)) in
  let p_norm := (peak_demand_kw pt - p_min) / (p_max - p_min + (1 # 1000000000)) in
  (1 - preference) * e_norm + preference * p_norm.

Definition select_operating_point (front : list ParetoPoint) (preference : Q)
    : outcome ParetoPoint :=
  if Qeq_bool preference (1 # 2) then py_min_by total_cost front
  else
    e_min <- py_min (map energy_cost front) ;;
    e_max <- py_max (map energy_cost front) ;;
    p_min <- py_min (map peak_demand_kw front) ;;
    p_max <- py_max (map peak_demand_kw front) ;;
    py_min_by (score preference e_min e_max p_min p_max) front.

End MultiObjective.
(** * Specification vocabulary for the dispatch engine *)

Module EngineSpec.

Import Engine.

(** ** Dispatch invariants *)

(** Energy balance of one step:
    [load + charge + export = generation + discharge + import]. *)
Definition energy_balanced (load pv : Q) (r : DispatchRow) : Prop :=
  load + battery_charge_kw r + grid_export_kw r
  == pv + battery_discharge_kw r + grid_import_kw r.

Definition imbalance (load pv : Q) (r : DispatchRow) : Q :=
  load + battery_charge_kw r + grid_export_kw r
  - pv - battery_discharge_kw r - grid_import_kw r.

(** The SOC recurrence along a dispatch, started from [prev]:
    [soc[t] = soc[t-1] + charge[t]*eta_c*dt - discharge[t]*dt/eta_d]. *)
Fixpoint soc_dynamics (b : BatteryConfig) (dt : Q) (prev : Q) (d : Dispatch) : Prop :=
  match d with
  | [] => True
  | r :: rest =>
      soc_kwh r == prev + battery_charge_kw r * charge_efficiency b * dt
                   - battery_discharge_kw r * dt / discharge_efficiency b /\
      soc_dynamics b dt (soc_kwh r) rest
  end.

(** A cap leaves a flow alone unless the flow it returns sits at the cap. *)
Definition below_cap (flow : Q) (cap : option Q) : Prop :=
  match cap with
  | Some c => flow < c
  | None => True
  end.

Definition caps_slack (site : SiteConfig) (r : DispatchRow) : Prop :=
  below_cap (grid_import_kw r) (max_grid_import_kw site) /\
  below_cap (grid_export_kw r) (max_grid_export_kw site).

Definition balanced_unless_capped (site : SiteConfig) (row : Q * Q) (r : DispatchRow)
    : Prop :=
  caps_slack site r ->
  energy_balanced (fst row) (snd row) r /\
  Qabs (imbalance (fst row) (snd row) r) < NUMERICAL_TOLERANCE.

(** The validator's bounds, without any tolerance. *)
Definition hard_bounds (site : SiteConfig) (r : DispatchRow) : Prop :=
  (0 <= battery_charge_kw r /\ battery_charge_kw r <= max_charge_kw (battery site)) /\
  (0 <= battery_discharge_kw r /\
   battery_discharge_kw r <= max_discharge_kw (battery site)) /\
  (0 <= grid_import_kw r /\ 0 <= grid_export_kw r) /\
  (min_soc (battery site) <= soc_kwh r /\ soc_kwh r <= max_soc (battery site)) /\
  match max_grid_import_kw site with Some c => grid_import_kw r <= c | None => True end /\
  match max_grid_export_kw site with Some c => grid_export_kw r <= c | None => True end.

(** A well-formed configuration for the baseline: the schema's ranges,
    [min_soc_frac < max_soc_frac], and the initial SOC fraction between
    the two. *)
Definition well_formed_site (site : SiteConfig) : Prop :=
  site_schema site /\
  min_soc_frac (battery site) < max_soc_frac (battery site) /\
  min_soc_frac (battery site) <= initial_soc_frac (battery site) /\
  initial_soc_frac (battery site) <= max_soc_frac (battery site).

(** A well-formed input timeseries: no negative load or generation. *)
Definition well_formed_timeseries (ts : Timeseries) : Prop :=
  Forall (fun v => 0 <= v) (ts_load_kw ts) /\ Forall (fun v => 0 <= v) (ts_pv_kw ts) /\
  List.length (ts_load_kw ts) = List.length (ts_pv_kw ts).

(** ** What the validator checks *)

Definition cap_within (f : DispatchRow -> Q) (cap : option Q) (df : Dispatch) : Prop :=
  match cap with
  | Some c => Forall (fun r => f r <= c + NUMERICAL_TOLERANCE) df
  | None => True
  end.

(** Every bound the validator looks at, each with the tolerance. *)
Definition within_bounds (df : Dispatch) (site : SiteConfig) : Prop :=
  let b := battery site in
  Forall (fun r => - NUMERICAL_TOLERANCE <= grid_import_kw r) df /\
  Forall (fun r => - NUMERICAL_TOLERANCE <= grid_export_kw r) df /\
  Forall (fun r => - NUMERICAL_TOLERANCE <= battery_charge_kw r) df /\
  Forall (fun r => - NUMERICAL_TOLERANCE <= battery_discharge_kw r) df /\
  Forall (fun r => min_soc b - NUMERICAL_TOLERANCE <= soc_kwh r) df /\
  Forall (fun r => soc_kwh r <= max_soc b + NUMERICAL_TOLERANCE) df /\
  Forall (fun r => battery_charge_kw r <= max_charge_kw b + NUMERICAL_TOLERANCE) df /\
  Forall (fun r => battery_discharge_kw r <= max_discharge_kw b + NUMERICAL_TOLERANCE) df /\
  cap_within grid_import_kw (max_grid_import_kw site) df /\
  cap_within grid_export_kw (max_grid_export_kw site) df.

(** What a [ValidationError] names: the column or the bound, and a row
    of the dispatch that is beyond it. *)
Definition violated (df : Dispatch) (site : SiteConfig) (v : violation) : Prop :=
  let b := battery site in
  match v with
  | HasNegativeValues col =>
      exists f, In (col, f) power_cols /\
                exists r, In r df /\ f r < - NUMERICAL_TOLERANCE
  | SocBelowMinimum m =>
      m = min_soc b /\ exists r, In r df /\ soc_kwh r < m - NUMERICAL_TOLERANCE
  | SocAboveMaximum m =>
      m = max_soc b /\ exists r, In r df /\ m + NUMERICAL_TOLERANCE < soc_kwh r
  | ChargeExceedsLimit l =>
      l = max_charge_kw b /\
      exists r, In r df /\ l + NUMERICAL_TOLERANCE < battery_charge_kw r
  | DischargeExceedsLimit l =>
      l = max_discharge_kw b /\
      exists r, In r df /\ l + NUMERICAL_TOLERANCE < battery_discharge_kw r
  | GridImportExceedsLimit l =>
      max_grid_import_kw site = Some l /\
      exists r, In r df /\ l + NUMERICAL_TOLERANCE < grid_import_kw r
  | GridExportExceedsLimit l =>
      max_grid_export_kw site = Some l /\
      exists r, In r df /\ l + NUMERICAL_TOLERANCE < grid_export_kw r
  end.

(** The outcome of the validator, check by check. *)
Inductive validation_trace (df : Dispatch) (site : SiteConfig) : outcome unit -> Prop :=
| trace_accept :
    within_bounds df site -> validation_trace df site (Returns tt)
| trace_reject v :
    violated df site v -> ~ within_bounds df site ->
    validation_trace df site (Raises (ValidationError v)).

(** ** The baseline loop, step by step *)

(** The SOC a step starts from. *)
Definition soc_before (b : BatteryConfig) (prev : option Q) : Q :=
  match prev with
  | None => initial_soc b
  | Some s => s
  end.

Definition is_first (prev : option Q) : bool :=
  match prev with None => true | Some _ => false end.

(** What one iteration of the loop guarantees for the row it stores. *)
Record step_ok (site : SiteConfig) (dt : Q) (prev : option Q) (load pv : Q)
    (r : DispatchRow) : Prop := {
  ok_charge :
    0 <= battery_charge_kw r /\ battery_charge_kw r <= max_charge_kw (battery site);
  ok_discharge :
    0 <= battery_discharge_kw r /\
    battery_discharge_kw r <= max_discharge_kw (battery site);
  ok_soc : min_soc (battery site) <= soc_kwh r /\ soc_kwh r <= max_soc (battery site);
  ok_dynamics :
    soc_kwh r
    == soc_before (battery site) prev
       + battery_charge_kw r * charge_efficiency (battery site) * dt
       - battery_discharge_kw r * dt / discharge_efficiency (battery site);
  ok_import_cap :
    match max_grid_import_kw site with Some c => grid_import_kw r <= c | None => True end;
  ok_export_cap :
    match max_grid_export_kw site with Some c => grid_export_kw r <= c | None => True end;
  ok_grid_nonneg :
    cap_schema (max_grid_import_kw site) -> cap_schema (max_grid_export_kw site) ->
    0 <= grid_import_kw r /\ 0 <= grid_export_kw r;
  ok_balance :
    below_cap (grid_import_kw r) (max_grid_import_kw site) ->
    below_cap (grid_export_kw r) (max_grid_export_kw site) ->
    energy_balanced load pv r
}.

(** The loop keeps [step_ok] row after row, each step starting from the
    SOC the previous one stored. *)
Fixpoint rows_ok (site : SiteConfig) (dt : Q) (prev : option Q)
    (rows : list (Q * Q)) (d : Dispatch) : Prop :=
  match rows, d with
  | [], [] => True
  | (load, pv) :: rows', r :: d' =>
      step_ok site dt prev load pv r /\ rows_ok site dt (Some (soc_kwh r)) rows' d'
  | _, _ => False
  end.

(** ** Metrics *)

Definition np_is_zero (x : npfloat) : Prop :=
  match x with
  | Finite q => q == 0
  | NaN => False
  end.

(** ** The objective and the variables of the model *)

(** [sum(f(t) for t in T)] on numbers. *)
Definition sum_over (T : list nat) (f : nat -> Q) : Q :=
  fold_right (fun t acc => f t + acc) 0 T.

(** The objective of the specification, as a function of an assignment
    [rho] of the decision variables. *)
Definition objective_formula (rho : lp_var -> Q) (n : nat)
    (price_import price_export : list Q) (dt degradation_rate demand_rate : Q)
    (demand_charges : bool) : Q :=
  sum_over (seq 0 n) (fun t => rho (grid_import t) * at_ price_import t * dt)
  - sum_over (seq 0 n) (fun t => rho (grid_export t) * at_ price_export t * dt)
  + degradation_rate
    * sum_over (seq 0 n)
        (fun t => (rho (battery_charge t) + rho (battery_discharge t)) * dt)
  + (if demand_charges then rho peak_demand * demand_rate else 0).

Definition is_peak (v : lp_var) : bool :=
  match v with
  | peak_demand => true
  | _ => false
  end.

(** Whether a constraint has a term in [peak_demand]. *)
Definition mentions_peak (c : constraint) : bool :=
  existsb (fun cv => is_peak (snd cv)) (le_terms (con_lhs c) ++ le_terms (con_rhs c)).

Definition base_variables (n : nat) : list var_decl :=
  [ {| var_name := "grid_import_kw"; var_lower := 0; var_coords := Some n |};
    {| var_name := "grid_export_kw"; var_lower := 0; var_coords := Some n |};
    {| var_name := "battery_charge_kw"; var_lower := 0; var_coords := Some n |};
    {| var_name := "battery_discharge_kw"; var_lower := 0; var_coords := Some n |};
    {| var_name := "soc_kwh"; var_lower := 0; var_coords := Some n |} ].

Definition peak_variable : var_decl :=
  {| var_name := "peak_demand_kw"; var_lower := 0; var_coords := None |}.

(** A model whose variables are [V] and none of whose constraints has a
    term in [peak_demand]. *)
Definition plain (V : list var_decl) (m : Model) : Prop :=
  variables m = V /\ Forall (fun c => mentions_peak c = false) (constraints m).

(** The price array [build_model] uses for one direction. *)
Definition price_in_use (col : option (list Q)) (flat : option Q) (n : nat)
    (prices : list Q) : Prop :=
  col = Some prices \/ (col = None /\ exists p, flat = Some p /\ prices = repeat p n).

Definition with_flat_prices (run : RunConfig) (flat_import flat_export : option Q)
    : RunConfig :=
  {| run_id := run_id run;
     timestep_minutes := timestep_minutes run;
     horizon_hours := horizon_hours run;
     tariff := {| flat_import_price_gbp_per_kwh := flat_import;
                  flat_export_price_gbp_per_kwh := flat_export;
                  demand_charge_enabled := demand_charge_enabled (tariff run);
                  demand_charge_gbp_per_kw := demand_charge_gbp_per_kw (tariff run) |};
     solver_time_limit_seconds := solver_time_limit_seconds run;
     solver_gap_tolerance := solver_gap_tolerance run |}.

Definition with_price_columns (ts : Timeseries) (import_col export_col : option (list Q))
    : Timeseries :=
  {| ts_load_kw := ts_load_kw ts;
     ts_pv_kw := ts_pv_kw ts;
     ts_import_price := import_col;
     ts_export_price := export_col |}.

(** ** Sample configurations, timeseries and solvers *)

Definition crashing_solver (_ : Model) (_ : Q) : solver_run :=
  SolverRaised "HiGHS not installed".

Definition infeasible_solver (_ : Model) (_ : Q) : solver_run :=
  SolverFinished "warning" (Some "infeasible"%string) 0 [].

Definition default_run : RunConfig :=
  {| run_id := "run";
     timestep_minutes := 15;
     horizon_hours := 24;
     tariff := {| flat_import_price_gbp_per_kwh := None;
                  flat_export_price_gbp_per_kwh := None;
                  demand_charge_enabled := false;
                  demand_charge_gbp_per_kw := 0 |};
     solver_time_limit_seconds := 60;
     solver_gap_tolerance := 1 # 10000 |}.

Definition default_battery : BatteryConfig :=
  {| capacity_kwh := 10;
     max_charge_kw := 5;
     max_discharge_kw := 5;
     charge_efficiency := 95 # 100;
     discharge_efficiency := 95 # 100;
     min_soc_frac := 1 # 10;
     max_soc_frac := 9 # 10;
     initial_soc_frac := 1 # 2;
     degradation_cost_gbp_per_kwh := 0 |}.

Definition default_site : SiteConfig :=
  {| site_id := "site";
     battery := default_battery;
     max_grid_import_kw := None;
     max_grid_export_kw := None |}.

Definition sample_priced_row : PricedRow :=
  {| flows := {| grid_import_kw := 2; grid_export_kw := 0;
                 battery_charge_kw := 0; battery_discharge_kw := 0;
                 soc_kwh := 5 |};
     import_price_gbp_per_kwh := 15 # 100;
     export_price_gbp_per_kwh := 5 # 100 |}.

Definition idle_row (s : Q) : DispatchRow :=
  {| grid_import_kw := 0; grid_export_kw := 0;
     battery_charge_kw := 0; battery_discharge_kw := 0; soc_kwh := s |}.

Definition capped_site : SiteConfig :=
  {| site_id := "site";
     battery := default_battery;
     max_grid_import_kw := Some 1;
     max_grid_export_kw := None |}.

Definition evening_peak : Timeseries :=
  {| ts_load_kw := [10]; ts_pv_kw := [0];
     ts_import_price := None; ts_export_price := None |}.

Definition sunny_afternoon : Timeseries :=
  {| ts_load_kw := [10; 1; 0]; ts_pv_kw := [0; 4; 30];
     ts_import_price := None; ts_export_price := None |}.

Definition sunny_afternoon_dispatch : Dispatch :=
  Eval vm_compute in
    match compute_baseline_dispatch sunny_afternoon default_site (1 # 4) with
    | Returns d => d
    | _ => []
    end.

Definition lossy_battery : BatteryConfig :=
  {| capacity_kwh := 10;
     max_charge_kw := 5;
     max_discharge_kw := 5;
     charge_efficiency := 95 # 100;
     discharge_efficiency := 0;
     min_soc_frac := 1 # 10;
     max_soc_frac := 9 # 10;
     initial_soc_frac := 1 # 2;
     degradation_cost_gbp_per_kwh := 0 |}.

Definition lossy_site : SiteConfig :=
  {| site_id := "site";
     battery := lossy_battery;
     max_grid_import_kw := None;
     max_grid_export_kw := None |}.

Definition demand_run : RunConfig :=
  {| run_id := "run";
     timestep_minutes := 15;
     horizon_hours := 1;
     tariff := {| flat_import_price_gbp_per_kwh := Some (15 # 100);
                  flat_export_price_gbp_per_kwh := Some (5 # 100);
                  demand_charge_enabled := true;
                  demand_charge_gbp_per_kw := 15 |};
     solver_time_limit_seconds := 60;
     solver_gap_tolerance := 1 # 10000 |}.

Definition two_steps : Timeseries :=
  {| ts_load_kw := [5; 5]; ts_pv_kw := [3; 3];
     ts_import_price := Some [10 # 100; 30 # 100]; ts_export_price := None |}.

Definition two_step_model : Model :=
  Eval vm_compute in
    match build_model default_site demand_run two_steps with
    | Returns m => m
    | _ => empty_model
    end.

(** ** Feasible assignments of a built model *)

(** An assignment satisfies a constraint. *)
Definition holds (rho : lp_var -> Q) (c : constraint) : Prop :=
  match con_rel c with
  | EQ => eval rho (con_lhs c) == eval rho (con_rhs c)
  | LE => eval rho (con_lhs c) <= eval rho (con_rhs c)
  | GE => eval rho (con_rhs c) <= eval rho (con_lhs c)
  end.

Definition feasible (rho : lp_var -> Q) (m : Model) : Prop :=
  Forall (holds rho) (constraints m).

(** The physical invariants of step [t], read on an assignment. *)
Definition physical_at (site : SiteConfig) (dt : Q) (load_kw pv_kw : list Q)
    (rho : lp_var -> Q) (t : nat) : Prop :=
  let b := battery site in
  at_ load_kw t + rho (battery_charge t) + rho (grid_export t)
    == at_ pv_kw t + rho (battery_discharge t) + rho (grid_import t) /\
  rho (soc t)
    == match t with
       | O => initial_soc b
       | S t' => rho (soc t')
       end
       + rho (battery_charge t) * charge_efficiency b * dt
       - rho (battery_discharge t) * dt / discharge_efficiency b /\
  (min_soc b <= rho (soc t) /\ rho (soc t) <= max_soc b) /\
  rho (battery_charge t) <= max_charge_kw b /\
  rho (battery_discharge t) <= max_discharge_kw b /\
  match max_grid_import_kw site with
  | Some c => rho (grid_import t) <= c
  | None => True
  end /\
  match max_grid_export_kw site with
  | Some c => rho (grid_export t) <= c
  | None => True
  end.

(** The rows of the model, loop by loop. *)
Definition soc_bound_rows (b : BatteryConfig) (t : nat) : list constraint :=
  [ {| con_name := fmt_index "soc_min_" t; con_lhs := le_var (soc t); con_rel := GE;
       con_rhs := le_num (min_soc_frac b * capacity_kwh b) |};
    {| con_name := fmt_index "soc_max_" t; con_lhs := le_var (soc t); con_rel := LE;
       con_rhs := le_num (max_soc_frac b * capacity_kwh b) |} ].

Definition power_limit_rows (b : BatteryConfig) (t : nat) : list constraint :=
  [ {| con_name := fmt_index "charge_limit_" t; con_lhs := le_var (battery_charge t);
       con_rel := LE; con_rhs := le_num (max_charge_kw b) |};
    {| con_name := fmt_index "discharge_limit_" t;
       con_lhs := le_var (battery_discharge t);
       con_rel := LE; con_rhs := le_num (max_discharge_kw b) |} ].

Definition soc_dynamics_row (b : BatteryConfig) (dt : Q) (t : nat) : constraint :=
  {| con_name := fmt_index "soc_dynamics_" t;
     con_lhs := le_var (soc t);
     con_rel := EQ;
     con_rhs :=
       le_sub
         (le_add
            match t with
            | O => le_num (initial_soc_frac b * capacity_kwh b)
            | S t' => le_var (soc t')
            end
            (le_scale (le_scale (le_var (battery_charge t)) (charge_efficiency b)) dt))
         (le_scale (le_scale (le_var (battery_discharge t)) dt)
                   (1 / discharge_efficiency b)) |}.

Definition grid_limit_rows (prefix : string) (v : nat -> lp_var) (cap : option Q)
    (T : list nat) : list constraint :=
  match cap with
  | Some c =>
      map (fun t => {| con_name := fmt_index prefix t; con_lhs := le_var (v t);
                       con_rel := LE; con_rhs := le_num c |}) T
  | None => []
  end.

Definition physical_rows (site : SiteConfig) (dt : Q) (load_kw pv_kw : list Q)
    (T : list nat) : list constraint :=
  map (site_balance_constraint load_kw pv_kw) T
  ++ flat_map (soc_bound_rows (battery site)) T
  ++ flat_map (power_limit_rows (battery site)) T
  ++ map (soc_dynamics_row (battery site) dt) T
  ++ grid_limit_rows "grid_import_limit_" grid_import (max_grid_import_kw site) T
  ++ grid_limit_rows "grid_export_limit_" grid_export (max_grid_export_kw site) T.

(** The dispatch frame [solve_model] reads off a solution. *)
Definition dispatch_of (rho : lp_var -> Q) (n : nat) : Dispatch :=
  map (fun t => {| grid_import_kw := rho (grid_import t);
                   grid_export_kw := rho (grid_export t);
                   battery_charge_kw := rho (battery_charge t);
                   battery_discharge_kw := rho (battery_discharge t);
                   soc_kwh := rho (soc t) |})
      (seq 0 n).

(** The lower bound each of the five arrays was declared with. *)
Definition flows_non_negative (rho : lp_var -> Q) (n : nat) : Prop :=
  forall t, (t < n)%nat ->
    0 <= rho (grid_import t) /\ 0 <= rho (grid_export t) /\
    0 <= rho (battery_charge t) /\ 0 <= rho (battery_discharge t) /\
    0 <= rho (soc t).

Definition is_equality (c : constraint) : bool :=
  match con_rel c with
  | EQ => true
  | _ => false
  end.

Definition cap_rows (cap : option Q) (n : nat) : nat :=
  match cap with
  | Some _ => n
  | None => O
  end.

(** Import 2 kW at every step, battery idle at 5 kWh, peak 2 kW. *)
Definition idle_assignment (v : lp_var) : Q :=
  match v with
  | grid_import _ => 2
  | soc _ => 5
  | peak_demand => 2
  | _ => 0
  end.

(** ** A priced dispatch as an assignment *)

Definition zero_priced_row : PricedRow :=
  {| flows := {| grid_import_kw := 0; grid_export_kw := 0;
                 battery_charge_kw := 0; battery_discharge_kw := 0; soc_kwh := 0 |};
     import_price_gbp_per_kwh := 0;
     export_price_gbp_per_kwh := 0 |}.

(** The assignment a priced dispatch describes, with [peak] for the
    peak variable. *)
Definition assignment_of (d : PricedDispatch) (peak : Q) (v : lp_var) : Q :=
  match v with
  | grid_import t => grid_import_kw (flows (nth t d zero_priced_row))
  | grid_export t => grid_export_kw (flows (nth t d zero_priced_row))
  | battery_charge t => battery_charge_kw (flows (nth t d zero_priced_row))
  | battery_discharge t => battery_discharge_kw (flows (nth t d zero_priced_row))
  | soc t => soc_kwh (flows (nth t d zero_priced_row))
  | peak_demand => peak
  end.

Definition import_column (d : PricedDispatch) : list Q :=
  map (fun r => grid_import_kw (flows r)) d.

Definition np_finite (x : npfloat) : Prop :=
  match x with
  | Finite _ => True
  | NaN => False
  end.

(** Two numpy floats with the same finite value. *)
Definition np_eq (x y : npfloat) : Prop :=
  match x, y with
  | Finite a, Finite b => a == b
  | _, _ => False
  end.

Definition np_opp (x : npfloat) : npfloat :=
  match x with
  | Finite a => Finite (- a)
  | NaN => NaN
  end.

Definition without_demand_charge (run : RunConfig) : Prop :=
  demand_charge_enabled (tariff run) = false.

(** ** The baseline policy, step by step *)

(** A property [P soc_before (load, pv) row] holds at every step of a
    dispatch, each step starting from the SOC the previous one stored. *)
Fixpoint along (P : Q -> Q * Q -> DispatchRow -> Prop) (s : Q)
    (rows : list (Q * Q)) (d : Dispatch) : Prop :=
  match rows, d with
  | [], [] => True
  | row :: rows', r :: d' => P s row r /\ along P (soc_kwh r) rows' d'
  | _, _ => False
  end.

(** Self-consumption: with a PV surplus the battery only charges, from
    the surplus, and the rest at most is exported; with a deficit the
    battery only discharges, into the deficit, and the rest at most is
    imported. *)
Definition self_consumption (s : Q) (row : Q * Q) (r : DispatchRow) : Prop :=
  let net := snd row - fst row in
  (0 < net ->
   battery_discharge_kw r == 0 /\ grid_import_kw r == 0 /\
   (0 <= battery_charge_kw r /\ battery_charge_kw r <= net) /\
   (0 <= grid_export_kw r /\ grid_export_kw r <= net - battery_charge_kw r)) /\
  (net <= 0 ->
   battery_charge_kw r == 0 /\ grid_export_kw r == 0 /\
   (0 <= battery_discharge_kw r /\ battery_discharge_kw r <= - net) /\
   (0 <= grid_import_kw r /\ grid_import_kw r <= - net - battery_discharge_kw r)).

(** The SOC never falls at a surplus step and never rises at a deficit step. *)
Definition soc_follows_net (s : Q) (row : Q * Q) (r : DispatchRow) : Prop :=
  let net := snd row - fst row in
  (0 < net -> s <= soc_kwh r) /\ (net <= 0 -> soc_kwh r <= s).

(** The first [k] rows of a timeseries. *)
Definition truncate (k : nat) (ts : Timeseries) : Timeseries :=
  {| ts_load_kw := firstn k (ts_load_kw ts);
     ts_pv_kw := firstn k (ts_pv_kw ts);
     ts_import_price := option_map (firstn k) (ts_import_price ts);
     ts_export_price := option_map (firstn k) (ts_export_price ts) |}.

(** The first step has a PV surplus. *)
Definition starts_with_surplus (ts : Timeseries) : Prop :=
  match ts_rows ts with
  | (load, pv) :: _ => 0 < pv - load
  | [] => False
  end.

(** The baseline loop meets a division by zero: there is a first step,
    and either the discharge efficiency is 0 or the charge efficiency is
    0 and the first step has a PV surplus. *)
Definition division_by_zero_reached (site : SiteConfig) (ts : Timeseries) : Prop :=
  ts_rows ts <> [] /\
  (discharge_efficiency (battery site) == 0 \/
   (charge_efficiency (battery site) == 0 /\ starts_with_surplus ts)).

(** ** More on the validator *)

Definition flows_within_tolerance (df : Dispatch) : Prop :=
  Forall (fun r => - NUMERICAL_TOLERANCE <= grid_import_kw r) df /\
  Forall (fun r => - NUMERICAL_TOLERANCE <= grid_export_kw r) df /\
  Forall (fun r => - NUMERICAL_TOLERANCE <= battery_charge_kw r) df /\
  Forall (fun r => - NUMERICAL_TOLERANCE <= battery_discharge_kw r) df.

Definition some_flow_negative (df : Dispatch) : Prop :=
  exists r, In r df /\
    (grid_import_kw r < - NUMERICAL_TOLERANCE \/
     grid_export_kw r < - NUMERICAL_TOLERANCE \/
     battery_charge_kw r < - NUMERICAL_TOLERANCE \/
     battery_discharge_kw r < - NUMERICAL_TOLERANCE).

Definition some_soc_below (df : Dispatch) (site : SiteConfig) : Prop :=
  exists r, In r df /\ soc_kwh r < min_soc (battery site) - NUMERICAL_TOLERANCE.

(** ** Prices available to the builder *)

Definition price_available (col : option (list Q)) (flat : option Q) : Prop :=
  col <> None \/ flat <> None.

(** ** Input frames the validator accepts *)

Definition is_number (c : cell) : Prop := c <> None.

Definition non_negative_number (c : cell) : Prop :=
  exists v, c = Some v /\ 0 <= v.

(** The frame has the column, and its values satisfy [P]. *)
Definition column_with (P : list cell -> Prop) (df : InputFrame) (col : string) : Prop :=
  exists values, lookup_column (columns df) col = Some values /\ P values.

(** Each timestamp is [step] after the one before. *)
Definition equally_spaced (stamps : list Z) (step : Z) : Prop :=
  forall i, (S i < List.length stamps)%nat ->
            (nth (S i) stamps 0 - nth i stamps 0 = step)%Z.

Definition acceptable_input (df : InputFrame) (expected_timestep_minutes : Z) : Prop :=
  (exists stamps,
      index df = DatetimeIndex stamps /\
      ((List.length stamps <= 1)%nat \/
       ((0 < expected_timestep_minutes)%Z /\
        equally_spaced stamps (Timedelta_minutes expected_timestep_minutes)))) /\
  column_with (Forall non_negative_number) df "load_kw" /\
  column_with (Forall non_negative_number) df "pv_kw" /\
  column_with (Forall is_number) df "import_price_gbp_per_kwh" /\
  column_with (Forall is_number) df "export_price_gbp_per_kwh".

(** Two rows, at 00:00 and at 00:15, with a negative export price. *)
Definition quarter_hour_frame : InputFrame :=
  {| index := DatetimeIndex [0; 900000000000]%Z;
     columns := [ ("load_kw", [Some 5; Some 5]);
                  ("pv_kw", [Some 3; Some 3]);
                  ("import_price_gbp_per_kwh", [Some (10 # 100); Some (30 # 100)]);
                  ("export_price_gbp_per_kwh", [Some (- (1 # 100)); Some (5 # 100)]) ]%string |}.

(** ** Timesteps *)

(** The positive divisors of 60. *)
Definition divisors_of_60 : list Z := [1; 2; 3; 4; 5; 6; 10; 12; 15; 20; 30; 60]%Z.

(** ** Dispatches as points of the model *)



(** The value of the objective of a model at an assignment. *)
Definition objective_value (rho : lp_var -> Q) (m : Model) : Q :=
  match objective m with
  | Some (obj, _) => eval rho obj
  | None => 0
  end.

(** An assignment the solver may return: it satisfies the constraints
    and the lower bound 0 of every variable. *)
Definition admissible (rho : lp_var -> Q) (m : Model) (n : nat) : Prop :=
  feasible rho m /\ flows_non_negative rho n /\ 0 <= rho peak_demand.

(** An admissible assignment with the least objective. *)
Definition optimal (rho : lp_var -> Q) (m : Model) (n : nat) : Prop :=
  admissible rho m n /\
  forall rho', admissible rho' m n -> objective_value rho m <= objective_value rho' m.





(** ** The backtest *)

(** A [DataFrame] keeps every column at the length of its index. *)
Definition frame_shape (df : InputFrame) : Prop :=
  Forall (fun c => List.length (snd c) = frame_len df) (columns df).

(** A solver that reports success with the idle dispatch of two steps. *)
Definition idle_solver (_ : Model) (_ : Q) : solver_run :=
  SolverFinished "ok" None 0 (dispatch_of idle_assignment 2).

(** A frame with the four columns, a [DatetimeIndex] and no row. *)
Definition empty_frame : InputFrame :=
  {| index := DatetimeIndex [];
     columns := [ ("load_kw", []); ("pv_kw", []);
                  ("import_price_gbp_per_kwh", []);
                  ("export_price_gbp_per_kwh", []) ]%string |}.

(** A frame without price columns. *)
Definition unpriced_frame : InputFrame :=
  {| index := DatetimeIndex [0; 900000000000]%Z;
     columns := [ ("load_kw", [Some 5; Some 5]); ("pv_kw", [Some 3; Some 3]) ]%string |}.

(** What the backtest returns on the two-row frame with the idle solver. *)
Definition sample_backtest : PricedDispatch * Metrics :=
  Eval vm_compute in
    match run_backtest idle_solver 0 default_site demand_run quarter_hour_frame with
    | BacktestReturns r => r
    | _ => ([], compute_metrics [] [] default_site demand_run 0)
    end.

(** ** Forecasts *)

(** The historical frame of a provider. *)
Definition history (stamps : list Z) (cols : list (string * list cell)) : InputFrame :=
  {| index := DatetimeIndex stamps; columns := cols |}.

(** Each timestamp is below all the later ones. *)
Fixpoint strictly_increasing (stamps : list Z) : Prop :=
  match stamps with
  | [] => True
  | a :: rest => Forall (fun c => (a < c)%Z) rest /\ strictly_increasing rest
  end.

(** [a <= s < b]. *)
Definition in_window (a b s : Z) : bool := ((a <=? s) && (s <? b))%Z.

(** The values of a column at the rows whose timestamp satisfies [p]. *)
Definition rows_where {X : Type} (p : Z -> bool) (stamps : list Z) (values : list X)
    : list X :=
  map snd (filter (fun row => p (fst row)) (combine stamps values)).

(** The rows of the history from [a] up to, not including, [b]. *)
Definition replayed (stamps : list Z) (cols : list (string * list cell)) (a b : Z)
    : InputFrame :=
  {| index := DatetimeIndex (filter (in_window a b) stamps);
     columns := map (fun c => (fst c, rows_where (in_window a b) stamps (snd c))) cols |}.

(** Row [i] is the latest row of the history that is not after [ts]. *)
Definition latest_not_after (stamps : list Z) (ts : Z) (i : nat) : Prop :=
  (i < List.length stamps)%nat /\
  (nth i stamps 0 <= ts)%Z /\
  forall j, (j < List.length stamps)%nat -> (nth j stamps 0 <= ts)%Z -> (j <= i)%nat.

(** Row [i] of the history, repeated at the [n] timestamps that follow
    [ts] at a distance of [m] minutes from each other. *)
Definition persisted (cols : list (string * list cell)) (i : nat) (ts : Z) (m : Z) (n : nat)
    : InputFrame :=
  {| index := DatetimeIndex
                (map (fun k => (ts + Z.of_nat k * Timedelta_minutes m)%Z) (seq 1 n));
     columns := map (fun c => (fst c, repeat (nth i (snd c) None) n)) cols |}.

(** A frame of three quarter hours. *)
Definition three_quarter_hours : list Z := [0; 900000000000; 1800000000000]%Z.

Definition three_rows : list (string * list cell) :=
  [ ("load_kw", [Some 5; Some 6; Some 7]);
    ("pv_kw", [Some 3; Some 2; Some 1]);
    ("import_price_gbp_per_kwh", [Some (10 # 100); Some (30 # 100); Some (20 # 100)]);
    ("export_price_gbp_per_kwh", [Some (- (1 # 100)); Some (5 # 100); Some (5 # 100)]) ]%string.

End EngineSpec.

(** * Specification vocabulary for the frontier generator *)

Module FrontierSpec.

Import MultiObjective.

Definition sample_front : list ParetoPoint :=
  [ {| energy_cost := 4; peak_demand_kw := 1; total_cost := 19; dispatch := None |};
    {| energy_cost := 3; peak_demand_kw := 2; total_cost := 33; dispatch := None |};
    {| energy_cost := 2; peak_demand_kw := 3; total_cost := 47; dispatch := None |} ].

(** Every two neighbours of a front differ in energy cost by more than 1e-6. *)
Fixpoint neighbours_apart (front : list ParetoPoint) : Prop :=
  match front with
  | a :: (b :: _) as rest =>
      (1 # 1000000) < Qabs (energy_cost b - energy_cost a) /\ neighbours_apart rest
  | _ => True
  end.

(** A one-step site on which every peak limit is feasible and import
    beyond 3 kW gains nothing. *)
Definition toy_linprog (_ : Config) (_ _ _ _ : list Q) (peak_limit : Q)
    : option (Q * list Q) :=
  let grid := Qmin peak_limit 3 in
  Some ((3 - grid) * (1 # 10), [grid; 0; 0; 3 - grid; 5]).

Definition toy_config : Config :=
  {| capacity_kwh := 10; max_charge_kw := 5; max_discharge_kw := 5;
     efficiency := 95 # 100; min_soc_frac := 1 # 10; max_soc_frac := 9 # 10;
     initial_soc_frac := 1 # 2; demand_charge_per_kw := 15;
     timestep_hours := 1 # 4 |}.

Definition toy_front : list ParetoPoint :=
  Eval vm_compute in
    match compute_pareto_front toy_linprog toy_config [3] [0] [1 # 10] [0] 12 with
    | Returns front => front
    | _ => []
    end.

(** ** Vocabulary for selection and for the points of a front *)

(** [p] is the first member of [xs] with the least [key]: what
    [min(xs, key=key)] returns. *)
Definition first_least {A : Type} (key : A -> Q) (xs : list A) (p : A) : Prop :=
  exists before after,
    xs = before ++ p :: after /\
    (forall q, In q before -> key p < key q) /\
    (forall q, In q after -> key p <= key q).

(** [q] is better than [p] on both objectives. *)
Definition beats (q p : ParetoPoint) : Prop :=
  energy_cost q < energy_cost p /\ peak_demand_kw q < peak_demand_kw p.

(** [q] is no worse than [p] on both objectives and better on one. *)
Definition dominates (q p : ParetoPoint) : Prop :=
  energy_cost q <= energy_cost p /\ peak_demand_kw q <= peak_demand_kw p /\
  (energy_cost q < energy_cost p \/ peak_demand_kw q < peak_demand_kw p).

(** The solver hands back one value per decision variable: [5 * T] of
    them, as [scipy.optimize.linprog] does for a program in [n = 5 * T]
    variables. *)
Definition one_value_per_variable
    (linprog : Config -> list Q -> list Q -> list Q -> list Q -> Q -> option (Q * list Q))
    (cfg : Config) (load pv import_price export_price : list Q) : Prop :=
  forall peak_limit result_fun x,
    linprog cfg load pv import_price export_price peak_limit = Some (result_fun, x) ->
    List.length x = (5 * List.length load)%nat.

(** A solver that never succeeds. *)
Definition failing_linprog (_ : Config) (_ _ _ _ : list Q) (_ : Q)
    : option (Q * list Q) := None.

(** A two-step solution vector and its point. *)
Definition two_step_x : list Q := [2; 3; 0; 0; 0; 1; 1; 0; 5; 4].

Definition two_step_linprog (_ : Config) (_ _ _ _ : list Q) (_ : Q)
    : option (Q * list Q) := Some (7 # 10, two_step_x).

(** ** What the program of [solve_with_peak_limit] asks of a solution *)

(** The product of a row of a matrix with the vector of decision variables. *)
Fixpoint dot (a x : list Q) : Q :=
  match a, x with
  | u :: a', v :: x' => u * v + dot a' x'
  | _, _ => 0
  end.

Definition within_bound (bound : Q * option Q) (v : Q) : Prop :=
  fst bound <= v /\
  match snd bound with
  | Some upper => v <= upper
  | None => True
  end.

(** [x] satisfies [A_eq x = b_eq], [A_ub x <= b_ub] and the bounds. *)
Definition satisfies (P : Program) (x : list Q) : Prop :=
  (forall r, (r < List.length (lp_A_eq P))%nat ->
     dot (nth r (lp_A_eq P) []) x == nth r (lp_b_eq P) 0) /\
  (forall r, (r < List.length (lp_A_ub P))%nat ->
     dot (nth r (lp_A_ub P) []) x <= nth r (lp_b_ub P) 0) /\
  (forall j, (j < List.length (lp_bounds P))%nat ->
     within_bound (nth j (lp_bounds P) (0, None)) (nth j x 0)).

(** The constraints at step [t], on the five blocks of [x]. *)
Definition physics_at (cfg : Config) (load pv : list Q) (peak_limit : Q)
    (x : list Q) (t : nat) : Prop :=
  let T := List.length load in
  let grid_import := nth (i_imp T t) x 0 in
  let grid_export := nth (i_exp T t) x 0 in
  let charge := nth (i_chg T t) x 0 in
  let discharge := nth (i_dis T t) x 0 in
  let soc := nth (i_soc T t) x 0 in
  let soc_before :=
    match t with
    | O => initial_soc_frac cfg * capacity_kwh cfg
    | S t' => nth (i_soc T t') x 0
    end in
  nth t load 0 + charge + grid_export == nth t pv 0 + discharge + grid_import /\
  soc == soc_before + charge * efficiency cfg * timestep_hours cfg
         - discharge * (timestep_hours cfg / efficiency cfg) /\
  (min_soc_frac cfg * capacity_kwh cfg <= soc /\
   soc <= max_soc_frac cfg * capacity_kwh cfg) /\
  (0 <= grid_import /\ grid_import <= peak_limit) /\
  0 <= grid_export /\
  (0 <= charge /\ charge <= max_charge_kw cfg) /\
  (0 <= discharge /\ discharge <= max_discharge_kw cfg) /\
  (0 <= soc /\ soc <= capacity_kwh cfg).

(** The energy cost of [x]: imports at the import price less exports at
    the export price. *)
Definition energy_cost_of (cfg : Config) (T : nat) (import_price export_price x : list Q)
    : Q :=
  fold_right (fun t acc =>
                (nth t import_price 0 * nth (i_imp T t) x 0
                 - nth t export_price 0 * nth (i_exp T t) x 0) * timestep_hours cfg + acc)
             0 (seq 0 T).

(** Two steps: import 2 kW at each, battery idle at 5 kWh. *)
Definition idle_x : list Q := [2; 2; 0; 0; 0; 0; 0; 0; 5; 5].

Definition two_step_program : Program :=
  Eval vm_compute in
    match build_program toy_config [5; 5] [3; 3] [1 # 10; 3 # 10] [0; 0] 4 with
    | Built P => P
    | Fails _ => {| lp_c := []; lp_A_ub := []; lp_b_ub := [];
                    lp_A_eq := []; lp_b_eq := []; lp_bounds := [] |}
    end.

(** ** The loops that write the program down *)

(** After [k] rounds of the objective loop: the entries of the rounds to
    come are still 0, and [c . x] is the energy cost of the first [k]
    steps. *)
Definition objective_inv (cfg : Config) (T : nat) (import_price export_price : list Q)
    (k : nat) (c : list Q) : Prop :=
  List.length c = (5 * T)%nat /\
  (forall j, (k <= j)%nat -> (j < T)%nat -> nth j c 0 = 0 /\ nth (T + j) c 0 = 0) /\
  ((k <= T)%nat ->
   (k <= List.length import_price)%nat /\ (k <= List.length export_price)%nat) /\
  forall x, List.length x = (5 * T)%nat ->
    dot c x
    == fold_right (fun t acc =>
                     (nth t import_price 0 * timestep_hours cfg * nth (i_imp T t) x 0
                      + - nth t export_price 0 * timestep_hours cfg * nth (i_exp T t) x 0)
                     + acc)
                  0 (seq 0 k).

(** After [k] rounds of the loop over [A_eq] and [b_eq]: the rows of the
    rounds to come are still 0, and the rows of the first [k] steps are
    the energy balance and the SOC dynamics. *)
Definition equality_inv (cfg : Config) (T : nat) (load pv : list Q)
    (k : nat) (s : list (list Q) * list Q) : Prop :=
  List.length (fst s) = (2 * T)%nat /\
  (forall r, (r < 2 * T)%nat -> List.length (nth r (fst s) []) = (5 * T)%nat) /\
  List.length (snd s) = (2 * T)%nat /\
  (forall u, (k <= u)%nat -> (u < T)%nat ->
     nth u (fst s) [] = zeros (5 * T) /\ nth (T + u) (fst s) [] = zeros (5 * T) /\
     nth u (snd s) 0 = 0 /\ nth (T + u) (snd s) 0 = 0) /\
  forall u, (u < k)%nat ->
    (forall x, List.length x = (5 * T)%nat ->
       dot (nth u (fst s) []) x
       == - nth (i_imp T u) x 0 + nth (i_exp T u) x 0 + nth (i_chg T u) x 0
          - nth (i_dis T u) x 0) /\
    nth u (snd s) 0 = nth u pv 0 - nth u load 0 /\
    (forall x, List.length x = (5 * T)%nat ->
       dot (nth (T + u) (fst s) []) x
       == nth (i_soc T u) x 0
          + - efficiency cfg * timestep_hours cfg * nth (i_chg T u) x 0
          + timestep_hours cfg / efficiency cfg * nth (i_dis T u) x 0
          + match u with
            | O => 0
            | S u' => - nth (i_soc T u') x 0
            end) /\
    nth (T + u) (snd s) 0
    = match u with
      | O => initial_soc_frac cfg * capacity_kwh cfg
      | S _ => 0
      end.

(** After [k] rounds of the loop over [A_ub] and [b_ub]. *)
Definition inequality_inv (cfg : Config) (T : nat)
    (k : nat) (s : list (list Q) * list Q) : Prop :=
  List.length (fst s) = (2 * T)%nat /\
  List.length (snd s) = (2 * T)%nat /\
  (forall u, (k <= u)%nat -> (u < T)%nat ->
     nth u (fst s) [] = zeros (5 * T) /\ nth (T + u) (fst s) [] = zeros (5 * T)) /\
  forall u, (u < k)%nat ->
    (forall x, List.length x = (5 * T)%nat ->
       dot (nth u (fst s) []) x == nth (i_soc T u) x 0) /\
    nth u (snd s) 0 = max_soc_frac cfg * capacity_kwh cfg /\
    (forall x, List.length x = (5 * T)%nat ->
       dot (nth (T + u) (fst s) []) x == - nth (i_soc T u) x 0) /\
    nth (T + u) (snd s) 0 = - (min_soc_frac cfg * capacity_kwh cfg).

(** A configuration whose efficiency is 0. *)
Definition broken_config : Config :=
  {| capacity_kwh := 10; max_charge_kw := 5; max_discharge_kw := 5;
     efficiency := 0; min_soc_frac := 1 # 10; max_soc_frac := 9 # 10;
     initial_soc_frac := 1 # 2; demand_charge_per_kw := 15;
     timestep_hours := 1 # 4 |}.

End FrontierSpec.

(** * General facts *)

Lemma Qlt_bool_iff (x y : Q) : Qlt_bool x y = true <-> x < y.
Proof.
  unfold Qlt_bool. rewrite negb_true_iff.
  split; intro H.
  - apply Qnot_le_lt. intro Hle. apply Qle_bool_iff in Hle. congruence.
  - destruct (Qle_bool y x) eqn:E; [|reflexivity].
    apply Qle_bool_iff in E. exfalso. apply (Qlt_not_le _ _ H E).
Qed.

Lemma Qlt_bool_false_iff (x y : Q) : Qlt_bool x y = false <-> y <= x.
Proof.
  unfold Qlt_bool. rewrite negb_false_iff. apply Qle_bool_iff.
Qed.

Lemma bind_Returns {A B : Type} (m : outcome A) (k : A -> outcome B) (b : B) :
  bind m k = Returns b -> exists a, m = Returns a /\ k a = Returns b.
Proof.
  destruct m as [a| |]; cbn; intro H; try discriminate.
  exists a. split; [reflexivity | exact H].
Qed.
(** * Properties of the dispatch engine *)

Module EngineFacts.

Import Engine EngineSpec.

(** ** Solver adapter *)

(** C3, as the specification states it, fails: a solver exception and an
    infeasible termination both surface as the one class [RuntimeError],
    so the exception type does not tell them apart. *)
Lemma solve_model_crash_and_infeasible_share_class :
  raised_class (solve_model crashing_solver 0 empty_model default_run)
    = Some RuntimeError_class /\
  raised_class (solve_model infeasible_solver 0 empty_model default_run)
    = Some RuntimeError_class /\
  raised_class (solve_model crashing_solver 0 empty_model default_run)
    = raised_class (solve_model infeasible_solver 0 empty_model default_run).
Proof.
  repeat split.
Qed.

Lemma string_app_inj_l (a b c : string) : (a ++ b = a ++ c)%string -> b = c.
Proof.
  induction a as [|ch a IH]; cbn; intro H; [exact H|].
  injection H as H. apply IH, H.
Qed.

(** C3, amended: [solve_model] raises [RuntimeError] in both cases, with
    the text ["Solver failed: ..."] when the solver raised and
    ["Solver returned non-optimal status: ..."] when it came back with a
    status other than ["ok"]; the two texts are never equal, and with the
    status ["ok"] the call returns the solution. *)
Theorem solve_model_failures_are_runtime_errors
    (highs : Model -> Q -> solver_run) (solve_time : Q)
    (model : Model) (run_config : RunConfig) :
  (forall e,
      highs model (solver_time_limit_seconds run_config) = SolverRaised e ->
      solve_model highs solve_time model run_config
        = Raises (RuntimeError ("Solver failed: " ++ e))) /\
  (forall status tc value solution,
      highs model (solver_time_limit_seconds run_config)
        = SolverFinished status tc value solution ->
      status <> "ok"%string ->
      solve_model highs solve_time model run_config
        = Raises (RuntimeError ("Solver returned non-optimal status: " ++ status))) /\
  (forall tc value solution,
      highs model (solver_time_limit_seconds run_config)
        = SolverFinished "ok" tc value solution ->
      exists report,
        solve_model highs solve_time model run_config = Returns (solution, report) /\
        objective_value_gbp report = value /\ solver_status report = "ok"%string) /\
  (forall e status,
      ("Solver failed: " ++ e)%string
        <> ("Solver returned non-optimal status: " ++ status)%string).
Proof.
  repeat split.
  - intros e H. unfold solve_model. rewrite H. reflexivity.
  - intros status tc value solution H Hne. unfold solve_model. rewrite H.
    destruct (String.eqb status "ok") eqn:E; [|reflexivity].
    apply String.eqb_eq in E. contradiction.
  - intros tc value solution H. unfold solve_model. rewrite H. cbn.
    eexists. split; [reflexivity|]. split; reflexivity.
  - intros e status H.
    change ("Solver failed: " ++ e)%string
      with ("Solver " ++ ("failed: " ++ e))%string in H.
    change ("Solver returned non-optimal status: " ++ status)%string
      with ("Solver " ++ ("returned non-optimal status: " ++ status))%string in H.
    apply string_app_inj_l in H. discriminate H.
Qed.

(** ** Metrics *)

(** C9, as the specification states it, fails on the dispatch with no rows: the
    peak of an empty import column is NaN, and so is the peak reduction. *)
Lemma compute_metrics_of_empty_dispatch_is_nan :
  peak_reduction_kw (compute_metrics [] [] default_site default_run (1 # 4)) = NaN /\
  ~ np_is_zero (peak_reduction_kw (compute_metrics [] [] default_site default_run (1 # 4))).
Proof.
  split; [reflexivity | intros []].
Qed.

Lemma series_max_finite (col : list Q) :
  col <> [] -> exists m, series_max col = Finite m.
Proof.
  destruct col as [|x rest]; [congruence|]. intros _. eexists. reflexivity.
Qed.

Lemma compute_cost_finite dispatch site run dt :
  dispatch <> [] -> exists c, compute_cost dispatch site run dt = Finite c.
Proof.
  intros Hne. unfold compute_cost.
  destruct (demand_charge_enabled (tariff run)).
  - destruct (series_max_finite (map (fun r => grid_import_kw (flows r)) dispatch))
      as (m & ->).
    + destruct dispatch; [congruence | discriminate].
    + eexists. reflexivity.
  - eexists. reflexivity.
Qed.

(** C9, amended: for a dispatch with at least one row, [compute_metrics]
    of the dispatch against itself has [savings_gbp] and
    [peak_reduction_kw] equal to 0. *)
Theorem compute_metrics_against_itself
    (d : PricedDispatch) (site : SiteConfig) (run : RunConfig) (dt : Q) :
  d <> [] ->
  np_is_zero (savings_gbp (compute_metrics d d site run dt)) /\
  np_is_zero (peak_reduction_kw (compute_metrics d d site run dt)).
Proof.
  intros Hne. unfold compute_metrics. cbn [savings_gbp peak_reduction_kw].
  destruct (compute_cost_finite d site run dt Hne) as (c & ->).
  destruct (series_max_finite (map (fun r => grid_import_kw (flows r)) d)) as (m & ->).
  { destruct d; [congruence | discriminate]. }
  cbn. split; ring.
Qed.

Lemma compute_metrics_against_itself_witness :
  [sample_priced_row] <> [] /\
  np_is_zero (savings_gbp (compute_metrics [sample_priced_row] [sample_priced_row]
                             default_site default_run (1 # 4))) /\
  np_is_zero (peak_reduction_kw (compute_metrics [sample_priced_row] [sample_priced_row]
                                   default_site default_run (1 # 4))).
Proof.
  split; [discriminate|].
  apply (compute_metrics_against_itself [sample_priced_row] default_site default_run (1 # 4)).
  discriminate.
Defined.

(** ** Physical validator *)

Lemma any_below_true f df bound :
  any_below (column f df) bound = true <-> exists r, In r df /\ f r < bound.
Proof.
  unfold any_below, column. rewrite existsb_exists. split.
  - intros (v & Hin & Hlt). apply in_map_iff in Hin. destruct Hin as (r & <- & Hr).
    exists r. split; [exact Hr | apply Qlt_bool_iff, Hlt].
  - intros (r & Hr & Hlt). exists (f r). split; [apply in_map, Hr | apply Qlt_bool_iff, Hlt].
Qed.

Lemma any_below_false f df bound :
  any_below (column f df) bound = false <-> Forall (fun r => bound <= f r) df.
Proof.
  rewrite Forall_forall. split.
  - intros H r Hr. apply Qnot_lt_le. intro Hlt.
    assert (any_below (column f df) bound = true) as E
      by (apply any_below_true; exists r; split; assumption).
    congruence.
  - intros H. destruct (any_below (column f df) bound) eqn:E; [|reflexivity].
    apply any_below_true in E. destruct E as (r & Hr & Hlt).
    exfalso. apply (Qlt_not_le _ _ Hlt), H, Hr.
Qed.

Lemma any_above_true f df bound :
  any_above (column f df) bound = true <-> exists r, In r df /\ bound < f r.
Proof.
  unfold any_above, column. rewrite existsb_exists. split.
  - intros (v & Hin & Hlt). apply in_map_iff in Hin. destruct Hin as (r & <- & Hr).
    exists r. split; [exact Hr | apply Qlt_bool_iff, Hlt].
  - intros (r & Hr & Hlt). exists (f r). split; [apply in_map, Hr | apply Qlt_bool_iff, Hlt].
Qed.

Lemma any_above_false f df bound :
  any_above (column f df) bound = false <-> Forall (fun r => f r <= bound) df.
Proof.
  rewrite Forall_forall. split.
  - intros H r Hr. apply Qnot_lt_le. intro Hlt.
    assert (any_above (column f df) bound = true) as E
      by (apply any_above_true; exists r; split; assumption).
    congruence.
  - intros H. destruct (any_above (column f df) bound) eqn:E; [|reflexivity].
    apply any_above_true in E. destruct E as (r & Hr & Hlt).
    exfalso. apply (Qlt_not_le _ _ Hlt), H, Hr.
Qed.

Lemma not_Forall_of_witness {A : Type} (P : A -> Prop) (l : list A) (x : A) :
  In x l -> ~ P x -> ~ Forall P l.
Proof.
  intros Hin Hn HF. rewrite Forall_forall in HF. apply Hn, HF, Hin.
Qed.

Lemma validate_dispatch_result_trace df site :
  validation_trace df site (validate_dispatch_result df site).
Proof.
  unfold validate_dispatch_result, power_cols, check_non_negative.
  destruct (any_below (column grid_import_kw df) _) eqn:E1.
  { apply any_below_true in E1. destruct E1 as (r & Hr & Hlt). cbn [bind].
    apply trace_reject.
    - exists grid_import_kw. split; [left; reflexivity|]. exists r. split; assumption.
    - intros (H & _). apply (not_Forall_of_witness _ _ _ Hr) in H; [exact H|].
      apply Qlt_not_le, Hlt. }
  destruct (any_below (column grid_export_kw df) _) eqn:E2.
  { apply any_below_true in E2. destruct E2 as (r & Hr & Hlt). cbn [bind].
    apply trace_reject.
    - exists grid_export_kw. split; [right; left; reflexivity|]. exists r. split; assumption.
    - intros (_ & H & _). apply (not_Forall_of_witness _ _ _ Hr) in H; [exact H|].
      apply Qlt_not_le, Hlt. }
  destruct (any_below (column battery_charge_kw df) _) eqn:E3.
  { apply any_below_true in E3. destruct E3 as (r & Hr & Hlt). cbn [bind].
    apply trace_reject.
    - exists battery_charge_kw. split; [right; right; left; reflexivity|].
      exists r. split; assumption.
    - intros (_ & _ & H & _). apply (not_Forall_of_witness _ _ _ Hr) in H; [exact H|].
      apply Qlt_not_le, Hlt. }
  destruct (any_below (column battery_discharge_kw df) _) eqn:E4.
  { apply any_below_true in E4. destruct E4 as (r & Hr & Hlt). cbn [bind].
    apply trace_reject.
    - exists battery_discharge_kw. split; [right; right; right; left; reflexivity|].
      exists r. split; assumption.
    - intros (_ & _ & _ & H & _). apply (not_Forall_of_witness _ _ _ Hr) in H; [exact H|].
      apply Qlt_not_le, Hlt. }
  cbn [bind].
  apply any_below_false in E1, E2, E3, E4.
  destruct (any_below (column soc_kwh df) _) eqn:E5.
  { apply any_below_true in E5. destruct E5 as (r & Hr & Hlt).
    apply trace_reject.
    - split; [reflexivity|]. exists r. split; assumption.
    - intros (_ & _ & _ & _ & H & _). apply (not_Forall_of_witness _ _ _ Hr) in H; [exact H|].
      apply Qlt_not_le, Hlt. }
  destruct (any_above (column soc_kwh df) _) eqn:E6.
  { apply any_above_true in E6. destruct E6 as (r & Hr & Hlt).
    apply trace_reject.
    - split; [reflexivity|]. exists r. split; assumption.
    - intros (_ & _ & _ & _ & _ & H & _).
      apply (not_Forall_of_witness _ _ _ Hr) in H; [exact H|].
      apply Qlt_not_le, Hlt. }
  destruct (any_above (column battery_charge_kw df) _) eqn:E7.
  { apply any_above_true in E7. destruct E7 as (r & Hr & Hlt).
    apply trace_reject.
    - split; [reflexivity|]. exists r. split; assumption.
    - intros (_ & _ & _ & _ & _ & _ & H & _).
      apply (not_Forall_of_witness _ _ _ Hr) in H; [exact H|].
      apply Qlt_not_le, Hlt. }
  destruct (any_above (column battery_discharge_kw df) _) eqn:E8.
  { apply any_above_true in E8. destruct E8 as (r & Hr & Hlt).
    apply trace_reject.
    - split; [reflexivity|]. exists r. split; assumption.
    - intros (_ & _ & _ & _ & _ & _ & _ & H & _).
      apply (not_Forall_of_witness _ _ _ Hr) in H; [exact H|].
      apply Qlt_not_le, Hlt. }
  apply any_below_false in E5. apply any_above_false in E6, E7, E8.
  unfold check_cap_above.
  destruct (max_grid_import_kw site) as [ci|] eqn:Ci.
  - destruct (any_above (column grid_import_kw df) _) eqn:E9.
    { apply any_above_true in E9. destruct E9 as (r & Hr & Hlt). cbn [bind].
      apply trace_reject.
      - split; [exact Ci|]. exists r. split; assumption.
      - intros (_ & _ & _ & _ & _ & _ & _ & _ & H & _). rewrite Ci in H. cbn in H.
        apply (not_Forall_of_witness _ _ _ Hr) in H; [exact H|].
        apply Qlt_not_le, Hlt. }
    apply any_above_false in E9. cbn [bind].
    destruct (max_grid_export_kw site) as [ce|] eqn:Ce.
    + destruct (any_above (column grid_export_kw df) _) eqn:E10.
      { apply any_above_true in E10. destruct E10 as (r & Hr & Hlt).
        apply trace_reject.
        - split; [exact Ce|]. exists r. split; assumption.
        - intros (_ & _ & _ & _ & _ & _ & _ & _ & _ & H). rewrite Ce in H. cbn in H.
          apply (not_Forall_of_witness _ _ _ Hr) in H; [exact H|].
          apply Qlt_not_le, Hlt. }
      apply any_above_false in E10.
      apply trace_accept. unfold within_bounds. rewrite Ci, Ce. cbn [cap_within].
      repeat split; assumption.
    + apply trace_accept. unfold within_bounds. rewrite Ci, Ce. cbn [cap_within].
      repeat split; assumption.
  - cbn [bind].
    destruct (max_grid_export_kw site) as [ce|] eqn:Ce.
    + destruct (any_above (column grid_export_kw df) _) eqn:E10.
      { apply any_above_true in E10. destruct E10 as (r & Hr & Hlt).
        apply trace_reject.
        - split; [exact Ce|]. exists r. split; assumption.
        - intros (_ & _ & _ & _ & _ & _ & _ & _ & _ & H). rewrite Ce in H. cbn in H.
          apply (not_Forall_of_witness _ _ _ Hr) in H; [exact H|].
          apply Qlt_not_le, Hlt. }
      apply any_above_false in E10.
      apply trace_accept. unfold within_bounds. rewrite Ci, Ce. cbn [cap_within].
      repeat split; assumption.
    + apply trace_accept. unfold within_bounds. rewrite Ci, Ce. cbn [cap_within].
      repeat split; assumption.
Qed.

(** C1, as the specification states it, fails.  The validator accepts a dispatch
    that serves a load of 1 kW from nothing and whose SOC rises from 5 to
    6 kWh with the battery idle: energy balance and SOC dynamics are not
    among its checks.  It also accepts an import of -0.0000005 kW: each
    bound is checked with a tolerance of 1e-6. *)
Lemma validate_dispatch_result_accepts_broken_physics :
  validate_dispatch_result [idle_row 5; idle_row 6] default_site = Returns tt /\
  ~ energy_balanced 1 0 (idle_row 5) /\
  (forall dt, ~ soc_dynamics default_battery dt (initial_soc default_battery)
                  [idle_row 5; idle_row 6]) /\
  validate_dispatch_result
    [{| grid_import_kw := - (1 # 2000000); grid_export_kw := 0;
        battery_charge_kw := 0; battery_discharge_kw := 0; soc_kwh := 5 |}]
    default_site = Returns tt.
Proof.
  split; [reflexivity|]. split; [|split; [|reflexivity]].
  - unfold energy_balanced. cbn. intro H. discriminate H.
  - intros dt (_ & H & _). cbn in H.
    assert (6 == 5) as E by (rewrite H; field; discriminate).
    discriminate E.
Qed.

(** C1, amended: [validate_dispatch_result] returns exactly when every
    flow is at least -1e-6, every SOC lies in
    [min_soc - 1e-6, max_soc + 1e-6], charge and discharge are at most
    their power limits plus 1e-6, and grid import and export are at most
    their caps plus 1e-6 where a cap is set; otherwise it raises
    [ValidationError], naming a column or a bound that some row is
    beyond.  Energy balance and the SOC recurrence are not checked. *)
Theorem validate_dispatch_result_checks_bounds (df : Dispatch) (site : SiteConfig) :
  (validate_dispatch_result df site = Returns tt <-> within_bounds df site) /\
  ((exists e, validate_dispatch_result df site = Raises e) <-> ~ within_bounds df site) /\
  (forall e, validate_dispatch_result df site = Raises e ->
             exists v, e = ValidationError v /\ violated df site v).
Proof.
  pose proof (validate_dispatch_result_trace df site) as T.
  split; [|split].
  - split; intro H.
    + rewrite H in T. inversion T. assumption.
    + inversion T as [Hw E | v Hv Hn E]; [reflexivity | contradiction].
  - split.
    + intros (e & H). rewrite H in T. inversion T. assumption.
    + intros Hn. inversion T as [Hw E | v Hv Hn' E]; [contradiction|].
      eexists. reflexivity.
  - intros e H. rewrite H in T. inversion T as [| v Hv Hn E]. subst.
    exists v. split; [reflexivity | exact Hv].
Qed.

(** ** Baseline heuristic *)

Lemma clamp_unchanged (lo hi x : Q) :
  lo <= x -> x <= hi -> Qmax lo (Qmin hi x) == x.
Proof.
  intros H1 H2. rewrite Q.min_r by exact H2. apply Q.max_r. exact H1.
Qed.

Lemma div_mul_cancel (a d : Q) : ~ d == 0 -> a / d * d == a.
Proof.
  intros Hd. field. exact Hd.
Qed.

Lemma py_div_Returns (a k q : Q) :
  py_div a k = Returns q -> ~ k == 0 /\ q = a / k.
Proof.
  unfold py_div. destruct (Qeq_bool k 0) eqn:E; [discriminate|].
  intros H. injection H as <-. split; [apply Qeq_bool_neq, E | reflexivity].
Qed.

Lemma py_div_nonzero (a k : Q) : ~ k == 0 -> py_div a k = Returns (a / k).
Proof.
  intros Hk. unfold py_div. destruct (Qeq_bool k 0) eqn:E; [|reflexivity].
  apply Qeq_bool_iff in E. contradiction.
Qed.

Section Baseline.

Variable site : SiteConfig.
Variable dt : Q.

Let b : BatteryConfig := battery site.

Hypothesis Hschema : battery_schema b.
Hypothesis Hfrac : min_soc_frac b < max_soc_frac b.
Hypothesis Hdt : 0 < dt.

(** The headroom bound times its divisor stays within the headroom. *)
Lemma headroom_limit_spec first limit num den x :
  0 < limit -> 0 <= num -> 0 <= den ->
  headroom_limit first limit num den = Returns x ->
  0 <= x /\ x <= limit /\ x * den <= num.
Proof.
  intros Hl Hn Hd. unfold headroom_limit.
  destruct (Qeq_bool den 0) eqn:E.
  - apply Qeq_bool_iff in E.
    destruct first; [discriminate|].
    destruct (Qle_bool 0 num); [|discriminate].
    intros H. injection H as <-.
    split; [lra|]. split; [lra|]. rewrite E. lra.
  - apply Qeq_bool_neq in E. intros H. injection H as <-.
    assert (0 < den) as Hpos by (destruct (Qlt_le_dec 0 den); [assumption | exfalso; apply E; lra]).
    assert (0 <= num / den) as Hq by (apply Qle_shift_div_l; lra).
    split; [apply Q.min_glb; lra|].
    split; [apply Q.le_min_l|].
    apply Qle_trans with (num / den * den).
    + apply Qmult_le_compat_r; [apply Q.le_min_r | lra].
    + rewrite div_mul_cancel by exact E. lra.
Qed.

Lemma baseline_flows_spec first s load pv c d i e :
  min_soc b <= s -> s <= max_soc b ->
  baseline_flows b dt first s load pv = Returns (c, d, i, e) ->
  (0 <= c /\ c <= max_charge_kw b) /\
  (0 <= d /\ d <= max_discharge_kw b) /\
  0 <= i /\ 0 <= e /\
  load + c + e == pv + d + i /\
  c * (dt * charge_efficiency b) <= max_soc b - s /\
  (~ discharge_efficiency b == 0 -> d * (dt / discharge_efficiency b) <= s - min_soc b).
Proof.
  intros Hlo Hhi.
  destruct Hschema as (Hcap & Hmc & Hmd & (Hec0 & Hec1) & (Hed0 & Hed1) & _).
  unfold baseline_flows, min_soc, max_soc in *.
  destruct (Qlt_bool 0 (pv - load)) eqn:Enet.
  - apply Qlt_bool_iff in Enet. intros H.
    apply bind_Returns in H as (x & Hx & H). injection H as <- <- <- <-.
    apply headroom_limit_spec in Hx as (Hx0 & Hx1 & Hx2); [|lra|lra|nra].
    assert (0 <= Qmin (pv - load) x) by (apply Q.min_glb; lra).
    assert (Qmin (pv - load) x <= pv - load) by apply Q.le_min_l.
    assert (Qmin (pv - load) x <= x) by apply Q.le_min_r.
    repeat split; try lra.
    apply Qle_trans with (x * (dt * charge_efficiency b)); [|exact Hx2].
    apply Qmult_le_compat_r; [assumption | nra].
  - apply Qlt_bool_false_iff in Enet. intros H.
    apply bind_Returns in H as (den & Hden & H).
    apply bind_Returns in H as (x & Hx & H). injection H as <- <- <- <-.
    apply py_div_Returns in Hden as (Hne & ->).
    assert (0 < discharge_efficiency b) as Hpos
      by (destruct (Qlt_le_dec 0 (discharge_efficiency b)); [assumption | exfalso; apply Hne; lra]).
    assert (0 <= dt / discharge_efficiency b) as Hden by (apply Qle_shift_div_l; lra).
    apply headroom_limit_spec in Hx as (Hx0 & Hx1 & Hx2); [|lra|lra|exact Hden].
    assert (0 <= Qmin (- (pv - load)) x) by (apply Q.min_glb; lra).
    assert (Qmin (- (pv - load)) x <= - (pv - load)) by apply Q.le_min_l.
    assert (Qmin (- (pv - load)) x <= x) by apply Q.le_min_r.
    repeat split; try lra.
    intros _.
    apply Qle_trans with (x * (dt / discharge_efficiency b)); [|exact Hx2].
    apply Qmult_le_compat_r; assumption.
Qed.

Lemma apply_cap_le (flow : Q) (cap : option Q) : apply_cap flow cap <= flow.
Proof.
  destruct cap as [c|]; cbn; [apply Q.le_min_l | apply Qle_refl].
Qed.

Lemma apply_cap_nonneg (flow : Q) (cap : option Q) :
  0 <= flow -> cap_schema cap -> 0 <= apply_cap flow cap.
Proof.
  intros Hf Hc. destruct cap as [c|]; cbn in *; [apply Q.min_glb; lra | exact Hf].
Qed.

Lemma apply_cap_within (flow : Q) (cap : option Q) :
  match cap with Some c => apply_cap flow cap <= c | None => True end.
Proof.
  destruct cap as [c|]; cbn; [apply Q.le_min_r | exact I].
Qed.

Lemma apply_cap_slack (flow : Q) (cap : option Q) :
  below_cap (apply_cap flow cap) cap -> apply_cap flow cap == flow.
Proof.
  destruct cap as [c|]; cbn; [|reflexivity].
  intros H. destruct (Qlt_le_dec c flow) as [Hlt|Hle].
  - rewrite Q.min_r in H by lra. exfalso. apply (Qlt_irrefl c), H.
  - apply Q.min_l, Hle.
Qed.

Lemma baseline_step_ok prev load pv r :
  min_soc b <= soc_before b prev -> soc_before b prev <= max_soc b ->
  baseline_step site dt prev load pv = Returns r ->
  step_ok site dt prev load pv r.
Proof.
  intros Hlo Hhi H. unfold baseline_step in H. fold b in H.
  apply bind_Returns in H as ([[[c d] i] e] & Hflows & H).
  apply bind_Returns in H as (drawn & Hdrawn & H).
  injection H as <-.
  apply py_div_Returns in Hdrawn as (Hne & ->).
  assert (Hflows' : baseline_flows b dt (is_first prev) (soc_before b prev) load pv
                    = Returns (c, d, i, e)).
  { destruct prev; exact Hflows. }
  clear Hflows.
  apply baseline_flows_spec in Hflows'
    as ((Hc0 & Hc1) & (Hd0 & Hd1) & Hi & He & Hbal & Hup & Hdown); [|assumption|assumption].
  specialize (Hdown Hne).
  set (s := soc_before b prev) in *.
  assert (Es : match prev with
               | Some s0 => s0
               | None => initial_soc_frac b * capacity_kwh b
               end = s) by (destruct prev; reflexivity).
  rewrite Es. clear Es.
  assert (Eup : c * dt * charge_efficiency b == c * (dt * charge_efficiency b)) by ring.
  assert (Edn : d * dt / discharge_efficiency b == d * (dt / discharge_efficiency b))
    by (field; exact Hne).
  destruct Hschema as (_ & _ & _ & (Hec0 & _) & (Hed0 & _) & _).
  assert (0 <= c * (dt * charge_efficiency b)) as Hup0
    by (apply Qmult_le_0_compat; [lra | apply Qmult_le_0_compat; lra]).
  assert (0 < discharge_efficiency b) as Hpos
    by (destruct (Qlt_le_dec 0 (discharge_efficiency b)); [assumption | exfalso; apply Hne; lra]).
  assert (0 <= dt / discharge_efficiency b) as Hden by (apply Qle_shift_div_l; lra).
  assert (0 <= d * (dt / discharge_efficiency b)) as Hdn0
    by (apply Qmult_le_0_compat; lra).
  assert (Hclamp :
    Qmax (min_soc_frac b * capacity_kwh b)
         (Qmin (max_soc_frac b * capacity_kwh b)
               (s + c * dt * charge_efficiency b - d * dt / discharge_efficiency b))
    == s + c * dt * charge_efficiency b - d * dt / discharge_efficiency b).
  { unfold min_soc, max_soc in *. apply clamp_unchanged; rewrite Eup, Edn; lra. }
  constructor; cbn [grid_import_kw grid_export_kw battery_charge_kw
                    battery_discharge_kw soc_kwh]; fold b.
  - split; assumption.
  - split; assumption.
  - unfold min_soc, max_soc in *. rewrite Hclamp, Eup, Edn. split; lra.
  - rewrite Hclamp. unfold s. field. exact Hne.
  - apply apply_cap_within.
  - apply apply_cap_within.
  - intros Hci Hce. split; apply apply_cap_nonneg; assumption.
  - intros Hsi Hse. unfold energy_balanced.
    cbn [grid_import_kw grid_export_kw battery_charge_kw battery_discharge_kw].
    rewrite (apply_cap_slack _ _ Hsi), (apply_cap_slack _ _ Hse). exact Hbal.
Qed.

Lemma baseline_loop_ok (rows : list (Q * Q)) :
  forall prev d,
    min_soc b <= soc_before b prev -> soc_before b prev <= max_soc b ->
    baseline_loop site dt prev rows = Returns d ->
    rows_ok site dt prev rows d.
Proof.
  induction rows as [|[load pv] rows IH]; intros prev d Hlo Hhi H.
  - cbn in H. injection H as <-. exact I.
  - cbn [baseline_loop] in H.
    apply bind_Returns in H as (r & Hr & H).
    apply bind_Returns in H as (rs & Hrs & H).
    injection H as <-.
    pose proof (baseline_step_ok prev load pv r Hlo Hhi Hr) as Hok.
    split; [exact Hok|].
    apply IH; [apply (ok_soc _ _ _ _ _ _ Hok) | apply (ok_soc _ _ _ _ _ _ Hok) | exact Hrs].
Qed.

Lemma rows_ok_dynamics (rows : list (Q * Q)) :
  forall prev d, rows_ok site dt prev rows d -> soc_dynamics b dt (soc_before b prev) d.
Proof.
  induction rows as [|[load pv] rows IH]; intros prev [|r d] H; cbn in H; try contradiction.
  - exact I.
  - destruct H as (Hok & Hrest). split.
    + apply (ok_dynamics _ _ _ _ _ _ Hok).
    + apply (IH (Some (soc_kwh r)) d Hrest).
Qed.

Lemma rows_ok_hard_bounds (rows : list (Q * Q)) :
  cap_schema (max_grid_import_kw site) -> cap_schema (max_grid_export_kw site) ->
  forall prev d, rows_ok site dt prev rows d ->
                 Forall (hard_bounds site) d /\ List.length d = List.length rows.
Proof.
  intros Hci Hce.
  induction rows as [|[load pv] rows IH]; intros prev [|r d] H; cbn in H; try contradiction.
  - split; [constructor | reflexivity].
  - destruct H as (Hok & Hrest). destruct (IH _ _ Hrest) as (HF & Hlen).
    split; [|cbn; rewrite Hlen; reflexivity].
    constructor; [|exact HF].
    unfold hard_bounds.
    split; [apply (ok_charge _ _ _ _ _ _ Hok)|].
    split; [apply (ok_discharge _ _ _ _ _ _ Hok)|].
    split; [apply (ok_grid_nonneg _ _ _ _ _ _ Hok Hci Hce)|].
    split; [apply (ok_soc _ _ _ _ _ _ Hok)|].
    split; [apply (ok_import_cap _ _ _ _ _ _ Hok) | apply (ok_export_cap _ _ _ _ _ _ Hok)].
Qed.

Lemma hard_bounds_within (d : Dispatch) :
  Forall (hard_bounds site) d -> within_bounds d site.
Proof.
  intros HF. rewrite Forall_forall in HF.
  assert (Htol : 0 < NUMERICAL_TOLERANCE) by reflexivity.
  unfold within_bounds, cap_within. cbv zeta.
  repeat match goal with |- _ /\ _ => split end;
    try (destruct (max_grid_import_kw site) eqn:Ei; [|exact I]);
    try (destruct (max_grid_export_kw site) eqn:Ee; [|exact I]);
    apply Forall_forall; intros r Hr;
    destruct (HF r Hr) as ((? & ?) & (? & ?) & (? & ?) & (? & ?) & Hi & He);
    try rewrite Ei in Hi; try rewrite Ee in He; lra.
Qed.

(** With positive efficiencies no division of the loop meets a zero. *)
Lemma baseline_step_returns prev load pv :
  0 < charge_efficiency b -> 0 < discharge_efficiency b ->
  exists r, baseline_step site dt prev load pv = Returns r.
Proof.
  intros Hc Hd.
  assert (Hdc : ~ dt * charge_efficiency b == 0) by (intro E; nra).
  assert (Hdd : ~ discharge_efficiency b == 0) by (intro E; lra).
  assert (Hdiv : ~ dt / discharge_efficiency b == 0).
  { intro E. assert (0 < dt / discharge_efficiency b) by (apply Qlt_shift_div_l; lra). lra. }
  unfold baseline_step, baseline_flows. fold b.
  destruct (Qlt_bool 0 (pv - load)).
  - unfold headroom_limit.
    destruct (Qeq_bool (dt * charge_efficiency b) 0) eqn:E;
      [apply Qeq_bool_iff in E; contradiction|].
    cbn [bind]. rewrite (py_div_nonzero _ _ Hdd). cbn [bind]. eexists. reflexivity.
  - rewrite (py_div_nonzero _ _ Hdd). cbn [bind]. unfold headroom_limit.
    destruct (Qeq_bool (dt / discharge_efficiency b) 0) eqn:E;
      [apply Qeq_bool_iff in E; contradiction|].
    cbn [bind]. rewrite (py_div_nonzero _ _ Hdd). cbn [bind]. eexists. reflexivity.
Qed.

Lemma baseline_loop_returns (rows : list (Q * Q)) :
  0 < charge_efficiency b -> 0 < discharge_efficiency b ->
  forall prev, exists d, baseline_loop site dt prev rows = Returns d.
Proof.
  intros Hc Hd. induction rows as [|[load pv] rows IH]; intros prev.
  - exists []. reflexivity.
  - destruct (baseline_step_returns prev load pv Hc Hd) as (r & Hr).
    destruct (IH (Some (soc_kwh r))) as (d & Hd').
    exists (r :: d). cbn [baseline_loop]. rewrite Hr. cbn [bind]. rewrite Hd'. reflexivity.
Qed.

End Baseline.

(** Energy balance needs nothing of the configuration: import and export
    are what is left of the net position, until a cap cuts them. *)
Lemma baseline_flows_balance b dt first s load pv c d i e :
  baseline_flows b dt first s load pv = Returns (c, d, i, e) ->
  load + c + e == pv + d + i.
Proof.
  unfold baseline_flows. destruct (Qlt_bool 0 (pv - load)); intros H.
  - apply bind_Returns in H as (x & _ & H). injection H as <- <- <- <-. ring.
  - apply bind_Returns in H as (den & _ & H).
    apply bind_Returns in H as (x & _ & H). injection H as <- <- <- <-. ring.
Qed.

Lemma baseline_step_balance site dt prev load pv r :
  baseline_step site dt prev load pv = Returns r ->
  caps_slack site r -> energy_balanced load pv r.
Proof.
  intros H (Hsi & Hse). unfold baseline_step in H.
  apply bind_Returns in H as ([[[c d] i] e] & Hflows & H).
  apply bind_Returns in H as (drawn & _ & H).
  injection H as <-.
  apply baseline_flows_balance in Hflows.
  unfold energy_balanced.
  cbn [grid_import_kw grid_export_kw battery_charge_kw battery_discharge_kw] in *.
  rewrite (apply_cap_slack _ _ Hsi), (apply_cap_slack _ _ Hse). exact Hflows.
Qed.

Lemma baseline_loop_balance site dt (rows : list (Q * Q)) :
  forall prev d,
    baseline_loop site dt prev rows = Returns d ->
    Forall2 (balanced_unless_capped site) rows d.
Proof.
  induction rows as [|[load pv] rows IH]; intros prev d H.
  - cbn in H. injection H as <-. constructor.
  - cbn [baseline_loop] in H.
    apply bind_Returns in H as (r & Hr & H).
    apply bind_Returns in H as (rs & Hrs & H).
    injection H as <-.
    constructor; [|apply (IH _ _ Hrs)].
    intros Hs. pose proof (baseline_step_balance _ _ _ _ _ _ Hr Hs) as Hb.
    split; [exact Hb|]. cbn [fst snd] in *.
    unfold energy_balanced in Hb. unfold imbalance.
    apply Qabs_Qlt_condition.
    assert (Htol : 0 < NUMERICAL_TOLERANCE) by reflexivity.
    split; lra.
Qed.

Lemma initial_soc_in_range (site : SiteConfig) :
  well_formed_site site ->
  min_soc (battery site) <= initial_soc (battery site) /\
  initial_soc (battery site) <= max_soc (battery site).
Proof.
  intros ((Hb & _) & _ & Hlo & Hhi).
  destruct Hb as (Hcap & _).
  unfold min_soc, initial_soc, max_soc.
  split; apply Qmult_le_compat_r; lra.
Qed.

(** *** Energy balance *)

(** C2, as the specification states it, fails under a binding import cap: with a
    load of 10 kW, no PV, the default battery (5 kW of discharge) and an
    import cap of 1 kW, the stored import is 1 kW and 4 kW of load are
    left unserved. *)
Lemma baseline_breaks_balance_under_binding_cap :
  well_formed_site capped_site /\ well_formed_timeseries evening_peak /\
  exists r,
    compute_baseline_dispatch evening_peak capped_site (1 # 4) = Returns [r] /\
    grid_import_kw r = 1 /\ battery_discharge_kw r = 5 /\
    imbalance 10 0 r == 4 /\
    ~ Qabs (imbalance 10 0 r) < NUMERICAL_TOLERANCE.
Proof.
  split; [|split].
  - unfold well_formed_site, site_schema, battery_schema, cap_schema. cbn.
    repeat split; try discriminate; exact I.
  - unfold well_formed_timeseries. cbn. repeat split; repeat constructor; discriminate.
  - eexists. split; [vm_compute; reflexivity|].
    split; [reflexivity|]. split; [reflexivity|]. split; [reflexivity|].
    cbn. intro H. discriminate H.
Qed.

(** C2, amended: for a timeseries of numbers (a [Timeseries] holds
    rationals, so no NaN; the signs of load and PV are not used) and
    whatever the configuration, in every dispatch
    [compute_baseline_dispatch] returns energy balance holds exactly (so
    the imbalance is below 1e-6) at every timestep whose stored import
    and export are not sitting at a configured cap; in particular at
    every timestep when no cap is configured. *)
Theorem baseline_energy_balance_unless_capped
    (ts : Timeseries) (site : SiteConfig) (dt : Q) (d : Dispatch) :
  compute_baseline_dispatch ts site dt = Returns d ->
  Forall2 (balanced_unless_capped site) (ts_rows ts) d /\
  (max_grid_import_kw site = None -> max_grid_export_kw site = None ->
   Forall2 (fun row r => energy_balanced (fst row) (snd row) r /\
                         Qabs (imbalance (fst row) (snd row) r) < NUMERICAL_TOLERANCE)
           (ts_rows ts) d).
Proof.
  intros H. pose proof (baseline_loop_balance _ _ _ _ _ H) as HF.
  split; [exact HF|].
  intros Hi He.
  refine (Forall2_impl _ _ HF).
  intros row r Hb. apply Hb. unfold caps_slack. rewrite Hi, He. split; exact I.
Qed.

Lemma baseline_energy_balance_unless_capped_witness :
  compute_baseline_dispatch sunny_afternoon default_site (1 # 4)
    = Returns sunny_afternoon_dispatch /\
  Forall2 (fun row r => energy_balanced (fst row) (snd row) r /\
                        Qabs (imbalance (fst row) (snd row) r) < NUMERICAL_TOLERANCE)
          (ts_rows sunny_afternoon) sunny_afternoon_dispatch.
Proof.
  split; [vm_compute; reflexivity|].
  apply (baseline_energy_balance_unless_capped sunny_afternoon default_site (1 # 4)
           sunny_afternoon_dispatch);
    [vm_compute; reflexivity | reflexivity | reflexivity].
Defined.

(** *** SOC recurrence *)

(** C5: for a well-formed configuration and a positive timestep, every
    dispatch [compute_baseline_dispatch] returns satisfies the SOC
    recurrence exactly, started from [initial_soc_frac * capacity]: the
    final clamp never changes the value of the dynamics update.  With
    positive efficiencies a dispatch is returned. *)
Theorem baseline_soc_recurrence_exact
    (ts : Timeseries) (site : SiteConfig) (dt : Q) :
  well_formed_site site -> 0 < dt ->
  (forall d, compute_baseline_dispatch ts site dt = Returns d ->
             soc_dynamics (battery site) dt (initial_soc (battery site)) d) /\
  (0 < charge_efficiency (battery site) -> 0 < discharge_efficiency (battery site) ->
   exists d, compute_baseline_dispatch ts site dt = Returns d).
Proof.
  intros Hwf Hdt.
  pose proof (initial_soc_in_range site Hwf) as (Hlo & Hhi).
  destruct Hwf as ((Hb & _) & Hfrac & _).
  split.
  - intros d H.
    apply (rows_ok_dynamics site dt (ts_rows ts) None d).
    apply (baseline_loop_ok site dt Hb Hdt (ts_rows ts) None d Hlo Hhi H).
  - intros Hc Hd. apply (baseline_loop_returns site dt Hdt (ts_rows ts) Hc Hd None).
Qed.

Lemma default_site_well_formed : well_formed_site default_site.
Proof.
  unfold well_formed_site, site_schema, battery_schema, cap_schema. cbn.
  repeat split; try discriminate; exact I.
Qed.

Lemma baseline_soc_recurrence_exact_witness :
  soc_dynamics default_battery (1 # 4) (initial_soc default_battery)
    sunny_afternoon_dispatch.
Proof.
  apply (baseline_soc_recurrence_exact sunny_afternoon default_site (1 # 4)
           default_site_well_formed eq_refl).
  vm_compute. reflexivity.
Defined.

(** *** Hard bounds *)

(** C6, as the specification states it, fails: a discharge efficiency of 0 is
    within the schema's range [0, 1], and with it the first deficit step
    divides [timestep_hours] by zero. *)
Lemma baseline_raises_on_zero_discharge_efficiency :
  well_formed_site lossy_site /\ well_formed_timeseries evening_peak /\
  compute_baseline_dispatch evening_peak lossy_site (1 # 4) = Raises ZeroDivisionError.
Proof.
  split; [|split].
  - unfold well_formed_site, site_schema, battery_schema, cap_schema. cbn.
    repeat split; try discriminate; exact I.
  - unfold well_formed_timeseries. cbn. repeat split; repeat constructor; discriminate.
  - reflexivity.
Qed.

(** C6, amended: for a well-formed configuration whose charge and
    discharge efficiencies are positive, a positive timestep and a
    timeseries of numbers (a [Timeseries] holds rationals, so no NaN;
    the signs of load and PV are not used),
    [compute_baseline_dispatch] returns a dispatch with one row per
    timestep; every row has charge in [0, max_charge_kw], discharge in
    [0, max_discharge_kw], import and export at least 0, SOC in
    [min_soc, max_soc] and grid flows within the configured caps; and
    [validate_dispatch_result] accepts it. *)
Theorem baseline_returns_a_valid_dispatch
    (ts : Timeseries) (site : SiteConfig) (dt : Q) :
  well_formed_site site -> 0 < dt ->
  0 < charge_efficiency (battery site) -> 0 < discharge_efficiency (battery site) ->
  exists d,
    compute_baseline_dispatch ts site dt = Returns d /\
    List.length d = List.length (ts_rows ts) /\
    Forall (hard_bounds site) d /\
    validate_dispatch_result d site = Returns tt.
Proof.
  intros Hwf Hdt Hc Hd.
  pose proof (initial_soc_in_range site Hwf) as (Hlo & Hhi).
  destruct Hwf as ((Hb & Hci & Hce) & Hfrac & _).
  destruct (baseline_loop_returns site dt Hdt (ts_rows ts) Hc Hd None) as (d & Hrun).
  exists d. split; [exact Hrun|].
  pose proof (baseline_loop_ok site dt Hb Hdt (ts_rows ts) None d Hlo Hhi Hrun) as Hok.
  destruct (rows_ok_hard_bounds site dt (ts_rows ts) Hci Hce None d Hok) as (HF & Hlen).
  split; [exact Hlen|]. split; [exact HF|].
  pose proof (hard_bounds_within site d HF) as Hw.
  pose proof (validate_dispatch_result_trace d site) as T.
  inversion T as [Hw' E | v Hv Hn E]; [reflexivity | contradiction].
Qed.

Lemma baseline_returns_a_valid_dispatch_witness :
  exists d,
    compute_baseline_dispatch sunny_afternoon default_site (1 # 4) = Returns d /\
    List.length d = List.length (ts_rows sunny_afternoon) /\
    Forall (hard_bounds default_site) d /\
    validate_dispatch_result d default_site = Returns tt.
Proof.
  apply (baseline_returns_a_valid_dispatch sunny_afternoon default_site (1 # 4)
           default_site_well_formed);
    reflexivity.
Defined.

(** ** The model builder *)

Lemma eval_terms_app rho (a b : list (Q * lp_var)) :
  fold_right (fun cv acc => fst cv * rho (snd cv) + acc) 0 (a ++ b)
  == fold_right (fun cv acc => fst cv * rho (snd cv) + acc) 0 a
     + fold_right (fun cv acc => fst cv * rho (snd cv) + acc) 0 b.
Proof.
  induction a as [|cv a IH]; cbn [app fold_right].
  - ring.
  - rewrite IH. ring.
Qed.

Lemma eval_add rho a b : eval rho (le_add a b) == eval rho a + eval rho b.
Proof.
  unfold eval, le_add. cbn [le_terms le_const]. rewrite eval_terms_app. ring.
Qed.

Lemma eval_scale rho a k : eval rho (le_scale a k) == eval rho a * k.
Proof.
  unfold eval, le_scale. cbn [le_terms le_const].
  assert (E : fold_right (fun cv acc => fst cv * rho (snd cv) + acc) 0
                (map (fun cv => (fst cv * k, snd cv)) (le_terms a))
              == fold_right (fun cv acc => fst cv * rho (snd cv) + acc) 0 (le_terms a) * k).
  { induction (le_terms a) as [|cv l IH]; cbn [map fold_right fst snd].
    - ring.
    - rewrite IH. ring. }
  rewrite E. ring.
Qed.

Lemma eval_sub rho a b : eval rho (le_sub a b) == eval rho a - eval rho b.
Proof.
  unfold le_sub. rewrite eval_add, eval_scale. ring.
Qed.

Lemma eval_var rho v : eval rho (le_var v) == rho v.
Proof.
  unfold eval, le_var. cbn. ring.
Qed.

Lemma eval_fold_add rho (es : list linexpr) :
  forall acc,
    eval rho (fold_left le_add es acc)
    == eval rho acc + fold_right (fun e s => eval rho e + s) 0 es.
Proof.
  induction es as [|e es IH]; intros acc; cbn [fold_left fold_right].
  - ring.
  - rewrite IH, eval_add. ring.
Qed.

Lemma eval_py_sum rho (T : list nat) (f : nat -> linexpr) :
  eval rho (py_sum (map f T)) == sum_over T (fun t => eval rho (f t)).
Proof.
  unfold py_sum. rewrite eval_fold_add.
  assert (E : fold_right (fun e s => eval rho e + s) 0 (map f T)
              == sum_over T (fun t => eval rho (f t))).
  { unfold sum_over. induction T as [|t T IH]; cbn [map fold_right].
    - reflexivity.
    - rewrite IH. reflexivity. }
  rewrite E. unfold eval, le_num. cbn. ring.
Qed.

Lemma sum_over_ext (T : list nat) (f g : nat -> Q) :
  (forall t, f t == g t) -> sum_over T f == sum_over T g.
Proof.
  intros H. unfold sum_over. induction T as [|t T IH]; cbn [fold_right].
  - reflexivity.
  - rewrite IH, H. reflexivity.
Qed.

Lemma sum_over_scale (T : list nat) (f : nat -> Q) (k : Q) :
  sum_over T (fun t => f t * k) == k * sum_over T f.
Proof.
  unfold sum_over. induction T as [|t T IH]; cbn [fold_right].
  - ring.
  - rewrite IH. ring.
Qed.

(** The objective [add_objective] installs, evaluated. *)
Lemma add_objective_eval rho m T ip ep dt deg rate peak :
  exists obj,
    objective (add_objective m T ip ep dt deg rate peak) = Some (obj, Minimize) /\
    variables (add_objective m T ip ep dt deg rate peak) = variables m /\
    constraints (add_objective m T ip ep dt deg rate peak) = constraints m /\
    eval rho obj
    == sum_over T (fun t => rho (grid_import t) * at_ ip t * dt)
       - sum_over T (fun t => rho (grid_export t) * at_ ep t * dt)
       + deg * sum_over T (fun t => (rho (battery_charge t) + rho (battery_discharge t)) * dt)
       + (if peak then rho peak_demand * rate else 0).
Proof.
  unfold add_objective, set_objective. cbn [objective variables constraints].
  eexists. split; [reflexivity|]. split; [reflexivity|]. split; [reflexivity|].
  assert (Ebase : forall e,
    eval rho e
    == sum_over T (fun t => rho (grid_import t) * at_ ip t * dt)
       - sum_over T (fun t => rho (grid_export t) * at_ ep t * dt)
       + deg * sum_over T (fun t => (rho (battery_charge t) + rho (battery_discharge t)) * dt)
    ->
    eval rho (if peak then le_add e (le_scale (le_var peak_demand) rate) else e)
    == sum_over T (fun t => rho (grid_import t) * at_ ip t * dt)
       - sum_over T (fun t => rho (grid_export t) * at_ ep t * dt)
       + deg * sum_over T (fun t => (rho (battery_charge t) + rho (battery_discharge t)) * dt)
       + (if peak then rho peak_demand * rate else 0)).
  { intros e He. destruct peak.
    - rewrite eval_add, eval_scale, eval_var, He. reflexivity.
    - rewrite He. ring. }
  apply Ebase.
  rewrite eval_add, eval_sub, !eval_py_sum.
  rewrite <- (sum_over_scale T _ deg).
  assert (E1 : sum_over T (fun t => eval rho
                 (le_scale (le_scale (le_var (grid_import t)) (at_ ip t)) dt))
               == sum_over T (fun t => rho (grid_import t) * at_ ip t * dt)).
  { apply sum_over_ext. intros t. rewrite !eval_scale, eval_var. reflexivity. }
  assert (E2 : sum_over T (fun t => eval rho
                 (le_scale (le_scale (le_var (grid_export t)) (at_ ep t)) dt))
               == sum_over T (fun t => rho (grid_export t) * at_ ep t * dt)).
  { apply sum_over_ext. intros t. rewrite !eval_scale, eval_var. reflexivity. }
  assert (E3 : sum_over T (fun t => eval rho
                 (le_scale (le_scale (le_add (le_var (battery_charge t))
                                             (le_var (battery_discharge t))) dt) deg))
               == sum_over T (fun t => (rho (battery_charge t) + rho (battery_discharge t))
                                       * dt * deg)).
  { apply sum_over_ext. intros t. rewrite !eval_scale, eval_add, !eval_var. reflexivity. }
  rewrite E1, E2, E3. reflexivity.
Qed.

Lemma plain_add_constraints V m lhs rel rhs name :
  plain V m ->
  existsb (fun cv => is_peak (snd cv)) (le_terms lhs ++ le_terms rhs) = false ->
  plain V (add_constraints m lhs rel rhs name).
Proof.
  intros (Hv & Hc) Hnew. split; [exact Hv|].
  unfold add_constraints. cbn [constraints].
  apply Forall_app. split; [exact Hc|]. constructor; [exact Hnew | constructor].
Qed.

Lemma plain_for_each V (body : Model -> nat -> Model) (T : list nat) :
  (forall m t, plain V m -> plain V (body m t)) ->
  forall m, plain V m -> plain V (for_each T body m).
Proof.
  intros Hbody. unfold for_each.
  induction T as [|t T IH]; intros m Hm; cbn [fold_left]; [exact Hm|].
  apply IH, Hbody, Hm.
Qed.

Lemma plain_for_each_raising V (body : Model -> nat -> outcome Model) (T : list nat) :
  (forall m t m', plain V m -> body m t = Returns m' -> plain V m') ->
  forall m m', plain V m -> for_each_raising T body m = Returns m' -> plain V m'.
Proof.
  intros Hbody.
  induction T as [|t T IH]; intros m m' Hm H; cbn [for_each_raising] in H.
  - injection H as <-. exact Hm.
  - apply bind_Returns in H as (m1 & H1 & H).
    apply (IH m1 m' (Hbody _ _ _ Hm H1) H).
Qed.

Lemma plain_add_site_balance V m T load_kw pv_kw :
  plain V m -> plain V (add_site_balance m T load_kw pv_kw).
Proof.
  intros Hm. unfold add_site_balance. apply plain_for_each; [|exact Hm].
  intros m0 t Hm0. apply plain_add_constraints; [exact Hm0 | reflexivity].
Qed.

Lemma plain_add_battery_constraints V m T b dt m' :
  plain V m -> add_battery_constraints m T b dt = Returns m' -> plain V m'.
Proof.
  intros Hm H. unfold add_battery_constraints in H.
  refine (plain_for_each_raising V _ T _ _ m' _ H).
  - intros m0 t m1 Hm0 Hbody.
    apply bind_Returns in Hbody as (drawn & Hd & Hbody). injection Hbody as <-.
    unfold le_div in Hd. apply bind_Returns in Hd as (inv & _ & Hd). injection Hd as <-.
    apply plain_add_constraints; [exact Hm0|].
    destruct t; reflexivity.
  - apply plain_for_each.
    + intros m0 t Hm0. repeat apply plain_add_constraints; try exact Hm0; reflexivity.
    + apply plain_for_each; [|exact Hm].
      intros m0 t Hm0. repeat apply plain_add_constraints; try exact Hm0; reflexivity.
Qed.

Lemma plain_add_grid_constraints V m T site :
  plain V m -> plain V (add_grid_constraints m T site).
Proof.
  intros Hm. unfold add_grid_constraints.
  destruct (max_grid_import_kw site), (max_grid_export_kw site);
    repeat (apply plain_for_each;
            [intros m0 t Hm0; apply plain_add_constraints; [exact Hm0 | reflexivity]|]);
    exact Hm.
Qed.

(** A loop that adds the constraint [c t] for each [t] appends [map c T]. *)
Lemma for_each_appends (c : nat -> constraint) (T : list nat) :
  forall m,
    variables (for_each T (fun m t =>
                 add_constraints m (con_lhs (c t)) (con_rel (c t)) (con_rhs (c t))
                   (con_name (c t))) m) = variables m /\
    constraints (for_each T (fun m t =>
                   add_constraints m (con_lhs (c t)) (con_rel (c t)) (con_rhs (c t))
                     (con_name (c t))) m) = constraints m ++ map c T.
Proof.
  unfold for_each. induction T as [|t T IH]; intros m; cbn [fold_left map].
  - split; [reflexivity | symmetry; apply app_nil_r].
  - destruct (IH (add_constraints m (con_lhs (c t)) (con_rel (c t)) (con_rhs (c t))
                    (con_name (c t)))) as (Hv & Hc).
    split; [rewrite Hv; reflexivity|].
    rewrite Hc. unfold add_constraints. cbn [constraints].
    rewrite <- app_assoc. cbn [app]. destruct (c t); reflexivity.
Qed.

(** What [assemble_model] builds. *)
Lemma assemble_model_spec site run ts ip ep m :
  assemble_model site run ts ip ep = Returns m ->
  let n := ts_len ts in
  let enabled := demand_charge_enabled (tariff run) in
  (exists obj,
      objective m = Some (obj, Minimize) /\
      forall rho,
        eval rho obj
        == objective_formula rho n ip ep (inject_Z (timestep_minutes run) / 60)
             (degradation_cost_gbp_per_kwh (battery site))
             (demand_charge_gbp_per_kw (tariff run)) enabled) /\
  variables m = base_variables n ++ (if enabled then [peak_variable] else []) /\
  (exists physical,
      constraints m
      = physical ++ (if enabled then map peak_constraint (seq 0 n) else []) /\
      Forall (fun c => mentions_peak c = false) physical).
Proof.
  intros H n enabled. unfold assemble_model in H. cbv zeta in H.
  fold n in H. fold enabled in H.
  apply bind_Returns in H as (m1 & Hm1 & H). injection H as <-.
  assert (Hplain : plain (base_variables n) (add_grid_constraints m1 (seq 0 n) site)).
  { apply plain_add_grid_constraints.
    refine (plain_add_battery_constraints _ _ _ _ _ m1 _ Hm1).
    apply plain_add_site_balance. split; [reflexivity | constructor]. }
  destruct Hplain as (Hv & Hc).
  set (m2 := add_grid_constraints m1 (seq 0 n) site) in *.
  split; [|split].
  - unfold objective_formula.
    destruct enabled.
    + set (m3 := for_each _ _ _).
      destruct (add_objective_eval (fun _ => 0) m3 (seq 0 n) ip ep
                  (inject_Z (timestep_minutes run) / 60)
                  (degradation_cost_gbp_per_kwh (battery site))
                  (demand_charge_gbp_per_kw (tariff run)) true) as (obj & Hobj & _).
      exists obj. split; [exact Hobj|]. intros rho.
      destruct (add_objective_eval rho m3 (seq 0 n) ip ep
                  (inject_Z (timestep_minutes run) / 60)
                  (degradation_cost_gbp_per_kwh (battery site))
                  (demand_charge_gbp_per_kw (tariff run)) true) as (obj' & Hobj' & _ & _ & He).
      rewrite Hobj in Hobj'. injection Hobj' as <-. exact He.
    + destruct (add_objective_eval (fun _ => 0) m2 (seq 0 n) ip ep
                  (inject_Z (timestep_minutes run) / 60)
                  (degradation_cost_gbp_per_kwh (battery site)) 0 false) as (obj & Hobj & _).
      exists obj. split; [exact Hobj|]. intros rho.
      destruct (add_objective_eval rho m2 (seq 0 n) ip ep
                  (inject_Z (timestep_minutes run) / 60)
                  (degradation_cost_gbp_per_kwh (battery site)) 0 false)
        as (obj' & Hobj' & _ & _ & He).
      rewrite Hobj in Hobj'. injection Hobj' as <-. exact He.
  - destruct enabled.
    + unfold add_objective, set_objective. cbn [variables].
      destruct (for_each_appends peak_constraint (seq 0 n)
                  (add_variables m2 0 None "peak_demand_kw")) as (Hv' & _).
      refine (eq_trans Hv' _). unfold add_variables. cbn [variables]. rewrite Hv. reflexivity.
    + unfold add_objective, set_objective. cbn [variables]. rewrite Hv.
      symmetry. apply app_nil_r.
  - exists (constraints m2). split; [|exact Hc].
    destruct enabled.
    + unfold add_objective, set_objective. cbn [constraints].
      destruct (for_each_appends peak_constraint (seq 0 n)
                  (add_variables m2 0 None "peak_demand_kw")) as (_ & Hc').
      refine (eq_trans Hc' _). reflexivity.
    + unfold add_objective, set_objective. cbn [constraints].
      symmetry. apply app_nil_r.
Qed.

Lemma choose_price_in_use col flat n msg prices :
  choose_price col flat n msg = Returns prices -> price_in_use col flat n prices.
Proof.
  unfold choose_price, price_in_use.
  destruct col as [c|]; [intros H; injection H as <-; left; reflexivity|].
  destruct flat as [p|]; [|discriminate].
  intros H. injection H as <-. right. split; [reflexivity|]. exists p. split; reflexivity.
Qed.

(** C4: the objective of a built model is, at every assignment of the
    decision variables, the sum of import costs minus the sum of export
    revenues plus the degradation rate times the throughput, plus
    [peak * demand_rate] exactly when demand charges are enabled, and it
    is minimised; with demand charges the builder adds the one scalar
    variable [peak_demand_kw] after the five arrays and [T] constraints,
    one for each step [t], and the constraint of step [t] holds of an
    assignment exactly when its [peak] is at least its [import[t]]; no
    other constraint has a term in [peak]; without demand charges the
    builder adds neither. *)
Theorem build_model_objective_and_peak
    (site : SiteConfig) (run : RunConfig) (ts : Timeseries) (m : Model) :
  build_model site run ts = Returns m ->
  let n := ts_len ts in
  let enabled := demand_charge_enabled (tariff run) in
  exists price_import price_export obj,
    price_in_use (ts_import_price ts) (flat_import_price_gbp_per_kwh (tariff run)) n
      price_import /\
    price_in_use (ts_export_price ts) (flat_export_price_gbp_per_kwh (tariff run)) n
      price_export /\
    objective m = Some (obj, Minimize) /\
    (forall rho,
        eval rho obj
        == objective_formula rho n price_import price_export
             (inject_Z (timestep_minutes run) / 60)
             (degradation_cost_gbp_per_kwh (battery site))
             (demand_charge_gbp_per_kw (tariff run)) enabled) /\
    variables m = base_variables n ++ (if enabled then [peak_variable] else []) /\
    (exists physical,
        constraints m
        = physical ++ (if enabled then map peak_constraint (seq 0 n) else []) /\
        Forall (fun c => mentions_peak c = false) physical) /\
    (forall t rho,
        holds rho (peak_constraint t) <-> rho (grid_import t) <= rho peak_demand).
Proof.
  intros H n enabled. unfold build_model in H.
  apply bind_Returns in H as (ip & Hip & H).
  apply bind_Returns in H as (ep & Hep & H).
  apply choose_price_in_use in Hip. apply choose_price_in_use in Hep.
  destruct (assemble_model_spec site run ts ip ep m H) as ((obj & Hobj & Heval) & Hv & Hc).
  exists ip, ep, obj.
  split; [exact Hip|]. split; [exact Hep|]. split; [exact Hobj|].
  split; [exact Heval|]. split; [exact Hv|]. split; [exact Hc|].
  intros t rho. unfold holds, peak_constraint. cbn [con_rel con_lhs con_rhs].
  rewrite !eval_var. reflexivity.
Qed.

Lemma build_model_objective_and_peak_witness :
  build_model default_site demand_run two_steps = Returns two_step_model /\
  variables two_step_model = base_variables 2 ++ [peak_variable] /\
  exists obj,
    objective two_step_model = Some (obj, Minimize) /\
    forall rho,
      eval rho obj
      == objective_formula rho 2 [10 # 100; 30 # 100] [5 # 100; 5 # 100]
           (15 / 60) 0 15 true.
Proof.
  split; [vm_compute; reflexivity|].
  destruct (build_model_objective_and_peak default_site demand_run two_steps
              two_step_model eq_refl)
    as (ip & ep & obj & [Hip|(Hip & _)] & [Hep|(_ & q & Hq & Hep)] & Hobj & Heval & Hv & _);
    try discriminate.
  injection Hip as <-. injection Hq as <-. cbn in Hep. subst ep.
  split; [exact Hv|].
  exists obj. split; [exact Hobj | exact Heval].
Defined.

(** ** Price selection in the model builder *)

Lemma assemble_model_ignores_flat_prices site run ts fi fe ip ep :
  assemble_model site (with_flat_prices run fi fe) ts ip ep
  = assemble_model site run ts ip ep.
Proof.
  reflexivity.
Qed.

Lemma assemble_model_ignores_price_columns site run ts ci ce ip ep :
  assemble_model site run (with_price_columns ts ci ce) ip ep
  = assemble_model site run ts ip ep.
Proof.
  reflexivity.
Qed.

(** C10: a price column of the timeseries is what [build_model] uses,
    whatever flat price the tariff gives for that direction: the model
    built is the one assembled from the column, its objective prices
    imports and exports by the columns, and changing the flat prices
    changes nothing.  A flat price is used, repeated [len(ts)] times,
    only when the column is absent; with neither, [ValueError]. *)
Theorem build_model_prefers_timeseries_prices
    (site : SiteConfig) (run : RunConfig) (ts : Timeseries)
    (import_col export_col : list Q) (flat_import flat_export : option Q) (p : Q) :
  let n := ts_len ts in
  (* both columns present: the flat prices are ignored *)
  (build_model site (with_flat_prices run flat_import flat_export)
     (with_price_columns ts (Some import_col) (Some export_col))
    = assemble_model site run ts import_col export_col /\
   forall m,
     build_model site (with_flat_prices run flat_import flat_export)
       (with_price_columns ts (Some import_col) (Some export_col)) = Returns m ->
     exists obj,
       objective m = Some (obj, Minimize) /\
       forall rho,
         eval rho obj
         == objective_formula rho n import_col export_col
              (inject_Z (timestep_minutes run) / 60)
              (degradation_cost_gbp_per_kwh (battery site))
              (demand_charge_gbp_per_kw (tariff run))
              (demand_charge_enabled (tariff run))) /\
  (* import column present, export column absent: flat export price used *)
  build_model site (with_flat_prices run flat_import (Some p))
     (with_price_columns ts (Some import_col) None)
    = assemble_model site run ts import_col (repeat p n) /\
  (* import column absent: flat import price used *)
  build_model site (with_flat_prices run (Some p) flat_export)
     (with_price_columns ts None (Some export_col))
    = assemble_model site run ts (repeat p n) export_col /\
  (* no import price at all *)
  build_model site (with_flat_prices run None flat_export)
     (with_price_columns ts None (Some export_col))
    = Raises (ValueError "No import price provided in timeseries or tariff config") /\
  (* no export price at all *)
  build_model site (with_flat_prices run flat_import None)
     (with_price_columns ts (Some import_col) None)
    = Raises (ValueError "No export price provided in timeseries or tariff config").
Proof.
  cbv zeta. split; [split|]; [reflexivity | | repeat split].
  intros m H.
  change (assemble_model site run ts import_col export_col = Returns m) in H.
  destruct (assemble_model_spec site run ts import_col export_col m H) as (Hobj & _).
  exact Hobj.
Qed.

(** ** The constraints of a built model *)

Lemma eval_num rho c : eval rho (le_num c) == c.
Proof.
  unfold eval, le_num. cbn. ring.
Qed.

Lemma for_each_rows (rows : nat -> list constraint) (body : Model -> nat -> Model)
    (T : list nat) :
  (forall m t, variables (body m t) = variables m /\
               constraints (body m t) = constraints m ++ rows t) ->
  forall m,
    variables (for_each T body m) = variables m /\
    constraints (for_each T body m) = constraints m ++ flat_map rows T.
Proof.
  intros Hbody. unfold for_each.
  induction T as [|t T IH]; intros m; cbn [fold_left flat_map].
  - split; [reflexivity | symmetry; apply app_nil_r].
  - destruct (IH (body m t)) as (Hv & Hc). destruct (Hbody m t) as (Hv1 & Hc1).
    split; [congruence|]. rewrite Hc, Hc1, app_assoc. reflexivity.
Qed.

Lemma for_each_raising_rows (rows : nat -> list constraint)
    (body : Model -> nat -> outcome Model) (T : list nat) :
  (forall m t m', body m t = Returns m' ->
                  variables m' = variables m /\
                  constraints m' = constraints m ++ rows t) ->
  forall m m',
    for_each_raising T body m = Returns m' ->
    variables m' = variables m /\
    constraints m' = constraints m ++ flat_map rows T.
Proof.
  intros Hbody.
  induction T as [|t T IH]; intros m m' H; cbn [for_each_raising flat_map] in *.
  - injection H as <-. split; [reflexivity | symmetry; apply app_nil_r].
  - apply bind_Returns in H as (m1 & H1 & H).
    destruct (IH _ _ H) as (Hv & Hc). destruct (Hbody _ _ _ H1) as (Hv1 & Hc1).
    split; [congruence|]. rewrite Hc, Hc1, app_assoc. reflexivity.
Qed.

Lemma flat_map_singleton {A B : Type} (f : A -> B) (l : list A) :
  flat_map (fun x => [f x]) l = map f l.
Proof.
  induction l as [|x l IH]; cbn; [reflexivity | rewrite IH; reflexivity].
Qed.

Lemma add_site_balance_rows m T load_kw pv_kw :
  variables (add_site_balance m T load_kw pv_kw) = variables m /\
  constraints (add_site_balance m T load_kw pv_kw)
  = constraints m ++ map (site_balance_constraint load_kw pv_kw) T.
Proof.
  unfold add_site_balance. rewrite <- flat_map_singleton.
  apply for_each_rows. intros m0 t. split; reflexivity.
Qed.

Lemma add_battery_constraints_rows m T b dt m' :
  add_battery_constraints m T b dt = Returns m' ->
  variables m' = variables m /\
  constraints m'
  = constraints m ++ flat_map (soc_bound_rows b) T ++ flat_map (power_limit_rows b) T
    ++ map (soc_dynamics_row b dt) T.
Proof.
  intros H. unfold add_battery_constraints in H.
  apply (for_each_raising_rows (fun t => [soc_dynamics_row b dt t])) in H.
  - destruct H as (Hv & Hc).
    match type of Hv with _ = variables (for_each T ?body2 (for_each T ?body1 m)) =>
      destruct (for_each_rows (power_limit_rows b) body2 T
                  (fun m0 t => conj eq_refl (eq_sym (app_assoc _ _ _)))
                  (for_each T body1 m)) as (Hv2 & Hc2);
      destruct (for_each_rows (soc_bound_rows b) body1 T
                  (fun m0 t => conj eq_refl (eq_sym (app_assoc _ _ _))) m) as (Hv1 & Hc1)
    end.
    split; [congruence|].
    rewrite Hc, Hc2, Hc1, flat_map_singleton, <- !app_assoc. reflexivity.
  - intros m0 t m1 Hbody.
    apply bind_Returns in Hbody as (drawn & Hd & Hbody). injection Hbody as <-.
    unfold le_div in Hd. apply bind_Returns in Hd as (inv & Hinv & Hd). injection Hd as <-.
    apply py_div_Returns in Hinv as (_ & ->).
    split; reflexivity.
Qed.

Lemma add_grid_constraints_rows m T site :
  variables (add_grid_constraints m T site) = variables m /\
  constraints (add_grid_constraints m T site)
  = constraints m
    ++ grid_limit_rows "grid_import_limit_" grid_import (max_grid_import_kw site) T
    ++ grid_limit_rows "grid_export_limit_" grid_export (max_grid_export_kw site) T.
Proof.
  unfold add_grid_constraints, grid_limit_rows.
  destruct (max_grid_import_kw site) as [ci|], (max_grid_export_kw site) as [ce|].
  - match goal with |- variables (for_each T ?b2 (for_each T ?b1 m)) = _ /\ _ =>
      destruct (for_each_rows (fun t => [ {| con_name := fmt_index "grid_export_limit_" t;
                                            con_lhs := le_var (grid_export t);
                                            con_rel := LE; con_rhs := le_num ce |} ])
                  b2 T (fun m0 t => conj eq_refl eq_refl) (for_each T b1 m)) as (Hv2 & Hc2);
      destruct (for_each_rows (fun t => [ {| con_name := fmt_index "grid_import_limit_" t;
                                            con_lhs := le_var (grid_import t);
                                            con_rel := LE; con_rhs := le_num ci |} ])
                  b1 T (fun m0 t => conj eq_refl eq_refl) m) as (Hv1 & Hc1)
    end.
    split; [congruence|].
    rewrite Hc2, Hc1, !flat_map_singleton, <- app_assoc. reflexivity.
  - match goal with |- variables (for_each T ?b1 m) = _ /\ _ =>
      destruct (for_each_rows (fun t => [ {| con_name := fmt_index "grid_import_limit_" t;
                                            con_lhs := le_var (grid_import t);
                                            con_rel := LE; con_rhs := le_num ci |} ])
                  b1 T (fun m0 t => conj eq_refl eq_refl) m) as (Hv1 & Hc1)
    end.
    split; [congruence|].
    rewrite Hc1, !flat_map_singleton, app_nil_r. reflexivity.
  - match goal with |- variables (for_each T ?b2 m) = _ /\ _ =>
      destruct (for_each_rows (fun t => [ {| con_name := fmt_index "grid_export_limit_" t;
                                            con_lhs := le_var (grid_export t);
                                            con_rel := LE; con_rhs := le_num ce |} ])
                  b2 T (fun m0 t => conj eq_refl eq_refl) m) as (Hv2 & Hc2)
    end.
    split; [congruence|].
    rewrite Hc2, !flat_map_singleton. reflexivity.
  - split; [reflexivity|]. rewrite !app_nil_r. reflexivity.
Qed.

(** The rows of an assembled model, in the order they were added. *)
Lemma assemble_model_rows site run ts ip ep m :
  assemble_model site run ts ip ep = Returns m ->
  constraints m
  = physical_rows site (inject_Z (timestep_minutes run) / 60)
      (ts_load_kw ts) (ts_pv_kw ts) (seq 0 (ts_len ts))
    ++ (if demand_charge_enabled (tariff run)
        then map peak_constraint (seq 0 (ts_len ts)) else []).
Proof.
  intros H. unfold assemble_model in H. cbv zeta in H.
  apply bind_Returns in H as (m1 & Hm1 & H). injection H as <-.
  apply add_battery_constraints_rows in Hm1 as (_ & Hc1).
  match type of Hc1 with _ = constraints (add_site_balance ?m0 _ _ _) ++ _ =>
    destruct (add_site_balance_rows m0 (seq 0 (ts_len ts)) (ts_load_kw ts) (ts_pv_kw ts))
      as (_ & Hc0)
  end.
  rewrite Hc0 in Hc1. cbn [constraints add_variables empty_model app] in Hc1.
  destruct (add_grid_constraints_rows m1 (seq 0 (ts_len ts)) site) as (_ & Hc2).
  rewrite Hc1 in Hc2.
  unfold physical_rows.
  destruct (demand_charge_enabled (tariff run)).
  - unfold add_objective, set_objective. cbn [constraints].
    destruct (for_each_appends peak_constraint (seq 0 (ts_len ts))
                (add_variables (add_grid_constraints m1 (seq 0 (ts_len ts)) site)
                   0 None "peak_demand_kw")) as (_ & Hc3).
    refine (eq_trans Hc3 _). cbn [constraints add_variables].
    rewrite Hc2, <- !app_assoc. reflexivity.
  - unfold add_objective, set_objective. cbn [constraints].
    rewrite Hc2, app_nil_r, <- !app_assoc. reflexivity.
Qed.

Lemma Forall_map_seq {A : Type} (P : A -> Prop) (f : nat -> A) (n : nat) :
  Forall P (map f (seq 0 n)) <-> forall t, (t < n)%nat -> P (f t).
Proof.
  rewrite Forall_forall. split.
  - intros H t Ht. apply H. apply in_map. apply in_seq. lia.
  - intros H x Hx. apply in_map_iff in Hx as (t & <- & Ht). apply H.
    apply in_seq in Ht. lia.
Qed.

Lemma Forall_flat_map_seq {A : Type} (P : A -> Prop) (f : nat -> list A) (n : nat) :
  Forall P (flat_map f (seq 0 n)) <-> forall t, (t < n)%nat -> Forall P (f t).
Proof.
  rewrite Forall_forall. split.
  - intros H t Ht. apply Forall_forall. intros x Hx. apply H.
    apply in_flat_map. exists t. split; [apply in_seq; lia | exact Hx].
  - intros H x Hx. apply in_flat_map in Hx as (t & Ht & Hx).
    apply in_seq in Ht. assert (Hlt : (t < n)%nat) by lia.
    specialize (H t Hlt). rewrite Forall_forall in H. apply H, Hx.
Qed.

Lemma holds_site_balance rho load_kw pv_kw t :
  holds rho (site_balance_constraint load_kw pv_kw t) <->
  at_ load_kw t + rho (battery_charge t) + rho (grid_export t)
  == at_ pv_kw t + rho (battery_discharge t) + rho (grid_import t).
Proof.
  unfold holds, site_balance_constraint. cbn [con_rel con_lhs con_rhs].
  rewrite !eval_add, !eval_num, !eval_var. reflexivity.
Qed.

Lemma holds_soc_bounds rho b t :
  Forall (holds rho) (soc_bound_rows b t) <->
  min_soc b <= rho (soc t) /\ rho (soc t) <= max_soc b.
Proof.
  unfold soc_bound_rows, min_soc, max_soc. split.
  - intros H. inversion H as [|? ? H1 H']; subst. inversion H' as [|? ? H2 _]; subst.
    unfold holds in H1, H2. cbn [con_rel con_lhs con_rhs] in H1, H2.
    rewrite eval_num, eval_var in H1, H2. split; assumption.
  - intros (H1 & H2). repeat constructor; unfold holds; cbn [con_rel con_lhs con_rhs];
      rewrite eval_num, eval_var; assumption.
Qed.

Lemma holds_power_limits rho b t :
  Forall (holds rho) (power_limit_rows b t) <->
  rho (battery_charge t) <= max_charge_kw b /\
  rho (battery_discharge t) <= max_discharge_kw b.
Proof.
  unfold power_limit_rows. split.
  - intros H. inversion H as [|? ? H1 H']; subst. inversion H' as [|? ? H2 _]; subst.
    unfold holds in H1, H2. cbn [con_rel con_lhs con_rhs] in H1, H2.
    rewrite eval_num, eval_var in H1, H2. split; assumption.
  - intros (H1 & H2). repeat constructor; unfold holds; cbn [con_rel con_lhs con_rhs];
      rewrite eval_num, eval_var; assumption.
Qed.

Lemma holds_soc_dynamics rho b dt t :
  holds rho (soc_dynamics_row b dt t) <->
  rho (soc t)
  == match t with
     | O => initial_soc b
     | S t' => rho (soc t')
     end
     + rho (battery_charge t) * charge_efficiency b * dt
     - rho (battery_discharge t) * dt / discharge_efficiency b.
Proof.
  unfold holds, soc_dynamics_row, initial_soc. cbn [con_rel con_lhs con_rhs].
  rewrite eval_sub, eval_add, !eval_scale, !eval_var.
  assert (E : rho (battery_discharge t) * dt * (1 / discharge_efficiency b)
              == rho (battery_discharge t) * dt / discharge_efficiency b)
    by (unfold Qdiv; ring).
  rewrite E. destruct t; [rewrite eval_num | rewrite eval_var]; reflexivity.
Qed.

Lemma holds_grid_limits rho prefix (v : nat -> lp_var) cap n :
  Forall (holds rho) (grid_limit_rows prefix v cap (seq 0 n)) <->
  forall t, (t < n)%nat ->
    match cap with Some c => rho (v t) <= c | None => True end.
Proof.
  unfold grid_limit_rows. destruct cap as [c|].
  - rewrite Forall_map_seq. split; intros H t Ht; specialize (H t Ht);
      unfold holds in *; cbn [con_rel con_lhs con_rhs] in *;
      rewrite eval_num, eval_var in *; exact H.
  - split; [intros _ t _; exact I | intros _; constructor].
Qed.

Lemma holds_peak rho t :
  holds rho (peak_constraint t) <-> rho (grid_import t) <= rho peak_demand.
Proof.
  unfold holds, peak_constraint. cbn [con_rel con_lhs con_rhs].
  rewrite !eval_var. reflexivity.
Qed.

Lemma feasible_physical_rows rho site dt load_kw pv_kw n :
  Forall (holds rho) (physical_rows site dt load_kw pv_kw (seq 0 n)) <->
  forall t, (t < n)%nat -> physical_at site dt load_kw pv_kw rho t.
Proof.
  unfold physical_rows, physical_at. rewrite !Forall_app.
  rewrite Forall_map_seq, !Forall_flat_map_seq, Forall_map_seq, !holds_grid_limits.
  split.
  - intros (H1 & H2 & H3 & H4 & H5 & H6) t Ht. cbv zeta.
    split; [apply holds_site_balance, H1, Ht|].
    split; [apply holds_soc_dynamics, H4, Ht|].
    split; [apply holds_soc_bounds, H2, Ht|].
    destruct (proj1 (holds_power_limits _ _ _) (H3 t Ht)) as (Hc & Hd).
    split; [exact Hc|]. split; [exact Hd|].
    split; [apply H5, Ht | apply H6, Ht].
  - intros H.
    repeat split; intros t Ht; destruct (H t Ht) as (H1 & H2 & H3 & H4 & H5 & H6 & H7).
    + apply holds_site_balance, H1.
    + apply holds_soc_bounds, H3.
    + apply holds_power_limits. split; assumption.
    + apply holds_soc_dynamics, H2.
    + exact H6.
    + exact H7.
Qed.

Lemma build_model_feasible_physical
    (site : SiteConfig) (run : RunConfig) (ts : Timeseries) (m : Model)
    (rho : lp_var -> Q) :
  build_model site run ts = Returns m ->
  feasible rho m ->
  forall t, (t < ts_len ts)%nat ->
    physical_at site (inject_Z (timestep_minutes run) / 60)
      (ts_load_kw ts) (ts_pv_kw ts) rho t.
Proof.
  intros H Hf. unfold build_model in H.
  apply bind_Returns in H as (ip & _ & H). apply bind_Returns in H as (ep & _ & H).
  apply assemble_model_rows in H. unfold feasible in Hf.
  rewrite H, Forall_app in Hf. destruct Hf as (Hf & _).
  apply feasible_physical_rows, Hf.
Qed.

Lemma idle_assignment_physical :
  (forall t, (t < ts_len two_steps)%nat ->
     physical_at default_site (inject_Z (timestep_minutes demand_run) / 60)
       (ts_load_kw two_steps) (ts_pv_kw two_steps) idle_assignment t) /\
  (demand_charge_enabled (tariff demand_run) = true ->
   forall t, (t < ts_len two_steps)%nat ->
     idle_assignment (grid_import t) <= idle_assignment peak_demand).
Proof.
  split.
  - intros [|[|t]] Ht; [| |cbn in Ht; lia];
      unfold physical_at; cbn; repeat split; try reflexivity; discriminate.
  - intros _ t _. cbn. discriminate.
Qed.

Lemma idle_assignment_feasible : feasible idle_assignment two_step_model.
Proof.
  unfold feasible, two_step_model. cbn [constraints].
  repeat (constructor; [unfold holds; cbn; try reflexivity; discriminate|]).
  constructor.
Qed.

(** X1: an assignment of the decision variables satisfies every
    constraint of a built model exactly when, at every timestep, it keeps
    energy balance, the SOC dynamics from [initial_soc_frac * capacity],
    the SOC range, the two power limits and the configured grid caps, and
    (with demand charges) [peak_demand] is at least every import. *)
Theorem built_model_feasible_iff_physical
    (site : SiteConfig) (run : RunConfig) (ts : Timeseries) (m : Model)
    (rho : lp_var -> Q) :
  build_model site run ts = Returns m ->
  (feasible rho m <->
   (forall t, (t < ts_len ts)%nat ->
      physical_at site (inject_Z (timestep_minutes run) / 60)
        (ts_load_kw ts) (ts_pv_kw ts) rho t) /\
   (demand_charge_enabled (tariff run) = true ->
    forall t, (t < ts_len ts)%nat -> rho (grid_import t) <= rho peak_demand)).
Proof.
  intros H. unfold build_model in H.
  apply bind_Returns in H as (ip & _ & H). apply bind_Returns in H as (ep & _ & H).
  apply assemble_model_rows in H. unfold feasible. rewrite H, Forall_app.
  rewrite feasible_physical_rows.
  destruct (demand_charge_enabled (tariff run)).
  - rewrite Forall_map_seq. split.
    + intros (Hp & Hk). split; [exact Hp|]. intros _ t Ht. apply holds_peak, Hk, Ht.
    + intros (Hp & Hk). split; [exact Hp|]. intros t Ht. apply holds_peak, (Hk eq_refl t Ht).
  - split.
    + intros (Hp & _). split; [exact Hp | discriminate].
    + intros (Hp & _). split; [exact Hp | constructor].
Qed.

Lemma built_model_feasible_iff_physical_witness :
  feasible idle_assignment two_step_model.
Proof.
  apply (proj2 (built_model_feasible_iff_physical default_site demand_run two_steps
                  two_step_model idle_assignment eq_refl)).
  exact idle_assignment_physical.
Defined.

Lemma within_bounds_dispatch_of rho site n :
  (forall t, (t < n)%nat ->
     (0 <= rho (grid_import t) /\ 0 <= rho (grid_export t) /\
      0 <= rho (battery_charge t) /\ 0 <= rho (battery_discharge t)) /\
     (min_soc (battery site) <= rho (soc t) /\ rho (soc t) <= max_soc (battery site)) /\
     rho (battery_charge t) <= max_charge_kw (battery site) /\
     rho (battery_discharge t) <= max_discharge_kw (battery site) /\
     match max_grid_import_kw site with
     | Some c => rho (grid_import t) <= c
     | None => True
     end /\
     match max_grid_export_kw site with
     | Some c => rho (grid_export t) <= c
     | None => True
     end) ->
  within_bounds (dispatch_of rho n) site.
Proof.
  intros H. assert (Htol : 0 < NUMERICAL_TOLERANCE) by reflexivity.
  unfold within_bounds, cap_within, dispatch_of. cbv zeta.
  repeat match goal with |- _ /\ _ => split end;
    try (destruct (max_grid_import_kw site) eqn:Ei; [|exact I]);
    try (destruct (max_grid_export_kw site) eqn:Ee; [|exact I]);
    apply Forall_map_seq; intros t Ht;
    destruct (H t Ht) as ((? & ? & ? & ?) & (? & ?) & ? & ? & Hi & He);
    cbn [grid_import_kw grid_export_kw battery_charge_kw battery_discharge_kw soc_kwh];
    try rewrite Ei in Hi; try rewrite Ee in He; lra.
Qed.

(** X2: the dispatch read off any solution of a built model -- an
    assignment that satisfies its constraints and the lower bound 0 of
    the five arrays -- is accepted by [validate_dispatch_result]. *)
Theorem feasible_solution_passes_validation
    (site : SiteConfig) (run : RunConfig) (ts : Timeseries) (m : Model)
    (rho : lp_var -> Q) :
  build_model site run ts = Returns m ->
  feasible rho m ->
  flows_non_negative rho (ts_len ts) ->
  validate_dispatch_result (dispatch_of rho (ts_len ts)) site = Returns tt.
Proof.
  intros Hm Hf Hpos.
  pose proof (build_model_feasible_physical site run ts m rho Hm Hf) as Hphys.
  assert (Hw : within_bounds (dispatch_of rho (ts_len ts)) site).
  { apply within_bounds_dispatch_of. intros t Ht.
    destruct (Hphys t Ht) as (_ & _ & Hsoc & Hc & Hd & Hi & He).
    destruct (Hpos t Ht) as (P1 & P2 & P3 & P4 & _).
    repeat split; try assumption; apply Hsoc. }
  pose proof (validate_dispatch_result_trace (dispatch_of rho (ts_len ts)) site) as T.
  inversion T as [Hw' E | v Hv Hn E]; [reflexivity | contradiction].
Qed.

Lemma feasible_solution_passes_validation_witness :
  validate_dispatch_result (dispatch_of idle_assignment 2) default_site = Returns tt.
Proof.
  apply (feasible_solution_passes_validation default_site demand_run two_steps
           two_step_model idle_assignment eq_refl).
  - exact idle_assignment_feasible.
  - intros t _. cbn. repeat split; discriminate.
Defined.

Lemma filter_all {A : Type} (p : A -> bool) (l : list A) :
  (forall x, In x l -> p x = true) -> filter p l = l.
Proof.
  induction l as [|x l IH]; intros H; cbn; [reflexivity|].
  rewrite (H x (or_introl eq_refl)), IH; [reflexivity|].
  intros y Hy. apply H. right. exact Hy.
Qed.

Lemma filter_none {A : Type} (p : A -> bool) (l : list A) :
  (forall x, In x l -> p x = false) -> filter p l = [].
Proof.
  induction l as [|x l IH]; intros H; cbn; [reflexivity|].
  rewrite (H x (or_introl eq_refl)). apply IH.
  intros y Hy. apply H. right. exact Hy.
Qed.

Lemma length_flat_map_pairs {A B : Type} (f : A -> list B) (l : list A) :
  (forall x, List.length (f x) = 2%nat) ->
  List.length (flat_map f l) = (2 * List.length l)%nat.
Proof.
  intros H. induction l as [|x l IH]; cbn [flat_map List.length]; [reflexivity|].
  rewrite length_app, H, IH. lia.
Qed.

Lemma length_grid_limit_rows prefix v cap T :
  List.length (grid_limit_rows prefix v cap T) = cap_rows cap (List.length T).
Proof.
  unfold grid_limit_rows, cap_rows. destruct cap; [apply length_map | reflexivity].
Qed.

(** X3: a built model has, for a horizon of [T] steps, [2T] equality
    constraints (one energy balance and one SOC dynamics per step) and in
    all [6T] rows plus [T] per configured grid cap plus [T] when demand
    charges are enabled. *)
Theorem built_model_row_counts
    (site : SiteConfig) (run : RunConfig) (ts : Timeseries) (m : Model) :
  build_model site run ts = Returns m ->
  let n := ts_len ts in
  List.length (filter is_equality (constraints m)) = (2 * n)%nat /\
  List.length (constraints m)
  = (6 * n + cap_rows (max_grid_import_kw site) n
     + cap_rows (max_grid_export_kw site) n
     + (if demand_charge_enabled (tariff run) then n else 0))%nat.
Proof.
  intros H n. unfold build_model in H.
  apply bind_Returns in H as (ip & _ & H). apply bind_Returns in H as (ep & _ & H).
  apply assemble_model_rows in H. fold n in H. rewrite H. unfold physical_rows.
  split.
  - rewrite !filter_app.
    rewrite (filter_all is_equality (map (site_balance_constraint _ _) _)).
    2:{ intros c Hc. apply in_map_iff in Hc as (t & <- & _). reflexivity. }
    rewrite (filter_none is_equality (flat_map (soc_bound_rows _) _)).
    2:{ intros c Hc. apply in_flat_map in Hc as (t & _ & [<-|[<-|[]]]); reflexivity. }
    rewrite (filter_none is_equality (flat_map (power_limit_rows _) _)).
    2:{ intros c Hc. apply in_flat_map in Hc as (t & _ & [<-|[<-|[]]]); reflexivity. }
    rewrite (filter_all is_equality (map (soc_dynamics_row _ _) _)).
    2:{ intros c Hc. apply in_map_iff in Hc as (t & <- & _). reflexivity. }
    rewrite (filter_none is_equality (grid_limit_rows "grid_import_limit_" _ _ _)).
    2:{ intros c Hc. unfold grid_limit_rows in Hc.
        destruct (max_grid_import_kw site); [|contradiction].
        apply in_map_iff in Hc as (t & <- & _). reflexivity. }
    rewrite (filter_none is_equality (grid_limit_rows "grid_export_limit_" _ _ _)).
    2:{ intros c Hc. unfold grid_limit_rows in Hc.
        destruct (max_grid_export_kw site); [|contradiction].
        apply in_map_iff in Hc as (t & <- & _). reflexivity. }
    rewrite (filter_none is_equality
               (if demand_charge_enabled (tariff run)
                then map peak_constraint (seq 0 n) else [])).
    2:{ intros c Hc. destruct (demand_charge_enabled (tariff run)); [|contradiction].
        apply in_map_iff in Hc as (t & <- & _). reflexivity. }
    rewrite !length_app, !length_map, length_seq. cbn [List.length]. lia.
  - rewrite !length_app, !length_map, !length_grid_limit_rows, length_seq.
    rewrite (length_flat_map_pairs (soc_bound_rows (battery site)) _ (fun _ => eq_refl)).
    rewrite (length_flat_map_pairs (power_limit_rows (battery site)) _ (fun _ => eq_refl)).
    rewrite length_seq.
    destruct (demand_charge_enabled (tariff run)); [rewrite length_map, length_seq|];
      cbn [List.length]; lia.
Qed.

Lemma built_model_row_counts_witness :
  List.length (filter is_equality (constraints two_step_model)) = 4%nat /\
  List.length (constraints two_step_model) = 14%nat.
Proof.
  apply (built_model_row_counts default_site demand_run two_steps two_step_model eq_refl).
Defined.

(** ** Cost and metrics *)

Lemma fold_left_Qplus (l : list Q) :
  forall a, fold_left Qplus l a == a + series_sum l.
Proof.
  unfold series_sum. induction l as [|x l IH]; intros a; cbn [fold_left].
  - ring.
  - rewrite (IH (a + x)), (IH (0 + x)). ring.
Qed.

Lemma series_sum_cons (x : Q) (l : list Q) : series_sum (x :: l) == x + series_sum l.
Proof.
  unfold series_sum at 1. cbn [fold_left]. rewrite fold_left_Qplus. ring.
Qed.

Lemma series_sum_app (l1 l2 : list Q) :
  series_sum (l1 ++ l2) == series_sum l1 + series_sum l2.
Proof.
  induction l1 as [|x l1 IH]; cbn [app].
  - unfold series_sum at 2. cbn. ring.
  - rewrite !series_sum_cons, IH. ring.
Qed.

Lemma sum_over_shift (n k : nat) (f : nat -> Q) :
  sum_over (seq (S k) n) f == sum_over (seq k n) (fun t => f (S t)).
Proof.
  unfold sum_over. revert k. induction n as [|n IH]; intros k; cbn [seq fold_right].
  - reflexivity.
  - rewrite IH. reflexivity.
Qed.

(** A sum over the rows of a frame, by position. *)
Lemma series_sum_by_position {A : Type} (g : A -> Q) (l : list A) (dflt : A) :
  series_sum (map g l) == sum_over (seq 0 (List.length l)) (fun t => g (nth t l dflt)).
Proof.
  induction l as [|x l IH]; cbn [map List.length seq].
  - reflexivity.
  - rewrite series_sum_cons, IH. unfold sum_over at 2. cbn [fold_right].
    fold (sum_over (seq 1 (List.length l)) (fun t => g (nth t (x :: l) dflt))).
    rewrite sum_over_shift. reflexivity.
Qed.

Lemma fold_Qmax_upper (rest : list Q) :
  forall x,
    In (fold_left Qmax rest x) (x :: rest) /\
    forall y, In y (x :: rest) -> y <= fold_left Qmax rest x.
Proof.
  induction rest as [|z rest IH]; intros x; cbn [fold_left].
  - split; [left; reflexivity|]. intros y [<-|[]]. apply Qle_refl.
  - destruct (IH (Qmax x z)) as (Hin & Hle). split.
    + destruct Hin as [E|Hin]; [|right; right; exact Hin].
      rewrite <- E. unfold Qmax, GenericMinMax.gmax.
      destruct (x ?= z); [left | right; left | left]; reflexivity.
    + intros y [<-|[<-|Hy]].
      * apply Qle_trans with (Qmax x z); [apply Q.le_max_l | apply Hle; left; reflexivity].
      * apply Qle_trans with (Qmax x z); [apply Q.le_max_r | apply Hle; left; reflexivity].
      * apply Hle. right. exact Hy.
Qed.

(** [compute_cost] as the objective formula, at the largest import. *)
Lemma compute_cost_formula (d : PricedDispatch) (site : SiteConfig) (run : RunConfig)
    (dt peak : Q) :
  series_max (import_column d) = Finite peak ->
  exists cost,
    compute_cost d site run dt = Finite cost /\
    cost == objective_formula (assignment_of d peak) (List.length d)
              (map import_price_gbp_per_kwh d) (map export_price_gbp_per_kwh d) dt
              (degradation_cost_gbp_per_kwh (battery site))
              (demand_charge_gbp_per_kw (tariff run))
              (demand_charge_enabled (tariff run)).
Proof.
  intros Hmax.
  assert (E1 : series_sum (map (fun r => grid_import_kw (flows r)
                                          * import_price_gbp_per_kwh r * dt) d)
               == sum_over (seq 0 (List.length d))
                    (fun t => assignment_of d peak (grid_import t)
                              * at_ (map import_price_gbp_per_kwh d) t * dt)).
  { rewrite (series_sum_by_position _ d zero_priced_row).
    apply sum_over_ext. intros t. unfold at_, assignment_of.
    change 0 with (import_price_gbp_per_kwh zero_priced_row) at 1.
    rewrite map_nth. reflexivity. }
  assert (E2 : series_sum (map (fun r => grid_export_kw (flows r)
                                          * export_price_gbp_per_kwh r * dt) d)
               == sum_over (seq 0 (List.length d))
                    (fun t => assignment_of d peak (grid_export t)
                              * at_ (map export_price_gbp_per_kwh d) t * dt)).
  { rewrite (series_sum_by_position _ d zero_priced_row).
    apply sum_over_ext. intros t. unfold at_, assignment_of.
    change 0 with (export_price_gbp_per_kwh zero_priced_row) at 1.
    rewrite map_nth. reflexivity. }
  assert (E3 : series_sum (map (fun r => (battery_charge_kw (flows r)
                                           + battery_discharge_kw (flows r)) * dt) d)
               == sum_over (seq 0 (List.length d))
                    (fun t => (assignment_of d peak (battery_charge t)
                               + assignment_of d peak (battery_discharge t)) * dt)).
  { rewrite (series_sum_by_position _ d zero_priced_row). reflexivity. }
  unfold compute_cost, objective_formula.
  fold (import_column d). rewrite Hmax.
  destruct (demand_charge_enabled (tariff run)); cbn [np_add np_mul np_lift2];
    eexists; (split; [reflexivity|]); rewrite E1, E2, E3;
    cbn [assignment_of]; ring.
Qed.

(** X4: for a dispatch with at least one row, [compute_cost] is the
    objective of the model builder evaluated at that dispatch, with the
    peak variable at the largest import of the dispatch, which is the
    least value the constraints [peak >= import[t]] allow. *)
Theorem compute_cost_is_the_objective
    (d : PricedDispatch) (site : SiteConfig) (run : RunConfig) (dt : Q) :
  d <> [] ->
  exists peak cost,
    series_max (import_column d) = Finite peak /\
    In peak (import_column d) /\
    (forall v, In v (import_column d) -> v <= peak) /\
    compute_cost d site run dt = Finite cost /\
    cost == objective_formula (assignment_of d peak) (List.length d)
              (map import_price_gbp_per_kwh d) (map export_price_gbp_per_kwh d) dt
              (degradation_cost_gbp_per_kwh (battery site))
              (demand_charge_gbp_per_kw (tariff run))
              (demand_charge_enabled (tariff run)).
Proof.
  intros Hne.
  destruct d as [|r0 rest]; [congruence|]. clear Hne.
  destruct (fold_Qmax_upper (import_column rest) (grid_import_kw (flows r0)))
    as (Hin & Hub).
  exists (fold_left Qmax (import_column rest) (grid_import_kw (flows r0))).
  destruct (compute_cost_formula (r0 :: rest) site run dt
              (fold_left Qmax (import_column rest) (grid_import_kw (flows r0))) eq_refl)
    as (cost & Hcost & Hformula).
  exists cost. split; [reflexivity|]. split; [exact Hin|]. split; [exact Hub|].
  split; [exact Hcost | exact Hformula].
Qed.

Lemma compute_cost_is_the_objective_witness :
  exists peak cost,
    series_max (import_column [sample_priced_row]) = Finite peak /\
    In peak (import_column [sample_priced_row]) /\
    (forall v, In v (import_column [sample_priced_row]) -> v <= peak) /\
    compute_cost [sample_priced_row] default_site demand_run (1 # 4) = Finite cost /\
    cost == objective_formula (assignment_of [sample_priced_row] peak) 1
              [15 # 100] [5 # 100] (1 # 4) 0 15 true.
Proof.
  apply (compute_cost_is_the_objective [sample_priced_row] default_site demand_run (1 # 4)).
  discriminate.
Defined.

(** X5: on two dispatches with at least one row each, no metric of
    [compute_metrics] is NaN: both costs are finite, [savings_gbp] is
    their difference, [savings_pct] is 0 when the baseline cost is 0 and
    otherwise [100 * savings / baseline_cost], and the peak reduction is
    finite. *)
Theorem compute_metrics_finite_and_consistent
    (optimal baseline : PricedDispatch) (site : SiteConfig) (run : RunConfig) (dt : Q) :
  optimal <> [] -> baseline <> [] ->
  let M := compute_metrics optimal baseline site run dt in
  exists co cb s p,
    optimal_cost_gbp M = Finite co /\
    baseline_cost_gbp M = Finite cb /\
    savings_gbp M = Finite s /\ s == cb - co /\
    savings_pct M = Finite p /\
    (cb == 0 -> p == 0) /\
    (~ cb == 0 -> p * cb == 100 * s) /\
    np_finite (optimal_peak_import_kw M) /\
    np_finite (baseline_peak_import_kw M) /\
    np_finite (peak_reduction_kw M).
Proof.
  intros Ho Hb M. subst M. unfold compute_metrics.
  cbn [optimal_cost_gbp baseline_cost_gbp savings_gbp savings_pct
       optimal_peak_import_kw baseline_peak_import_kw peak_reduction_kw].
  destruct (compute_cost_finite optimal site run dt Ho) as (co & ->).
  destruct (compute_cost_finite baseline site run dt Hb) as (cb & ->).
  destruct (series_max_finite (map (fun r => grid_import_kw (flows r)) optimal))
    as (po & ->); [destruct optimal; [congruence | discriminate]|].
  destruct (series_max_finite (map (fun r => grid_import_kw (flows r)) baseline))
    as (pb & ->); [destruct baseline; [congruence | discriminate]|].
  cbn [np_sub np_lift2 np_finite].
  destruct (Qeq_bool cb 0) eqn:E; cbn [negb np_mul np_div np_lift2].
  - apply Qeq_bool_iff in E.
    exists co, cb, (cb - co), 0.
    repeat split; try reflexivity. intros Hn. contradiction.
  - apply Qeq_bool_neq in E.
    exists co, cb, (cb - co), ((cb - co) / cb * 100).
    repeat split; try reflexivity.
    + intros Hz. contradiction.
    + intros _. field. exact E.
Qed.

Lemma compute_metrics_finite_and_consistent_witness :
  exists co cb s p,
    optimal_cost_gbp (compute_metrics [sample_priced_row] [sample_priced_row]
                        default_site demand_run (1 # 4)) = Finite co /\
    baseline_cost_gbp (compute_metrics [sample_priced_row] [sample_priced_row]
                         default_site demand_run (1 # 4)) = Finite cb /\
    savings_gbp (compute_metrics [sample_priced_row] [sample_priced_row]
                   default_site demand_run (1 # 4)) = Finite s /\ s == cb - co /\
    savings_pct (compute_metrics [sample_priced_row] [sample_priced_row]
                   default_site demand_run (1 # 4)) = Finite p /\
    (cb == 0 -> p == 0) /\
    (~ cb == 0 -> p * cb == 100 * s) /\
    np_finite (optimal_peak_import_kw
                 (compute_metrics [sample_priced_row] [sample_priced_row]
                    default_site demand_run (1 # 4))) /\
    np_finite (baseline_peak_import_kw
                 (compute_metrics [sample_priced_row] [sample_priced_row]
                    default_site demand_run (1 # 4))) /\
    np_finite (peak_reduction_kw
                 (compute_metrics [sample_priced_row] [sample_priced_row]
                    default_site demand_run (1 # 4))).
Proof.
  apply (compute_metrics_finite_and_consistent [sample_priced_row] [sample_priced_row]
           default_site demand_run (1 # 4));
    discriminate.
Defined.

(** X6: exchanging the two dispatches of [compute_metrics] negates
    [savings_gbp] and [peak_reduction_kw] (both dispatches with at least
    one row). *)
Theorem compute_metrics_swap_negates
    (a b : PricedDispatch) (site : SiteConfig) (run : RunConfig) (dt : Q) :
  a <> [] -> b <> [] ->
  np_eq (savings_gbp (compute_metrics a b site run dt))
        (np_opp (savings_gbp (compute_metrics b a site run dt))) /\
  np_eq (peak_reduction_kw (compute_metrics a b site run dt))
        (np_opp (peak_reduction_kw (compute_metrics b a site run dt))).
Proof.
  intros Ha Hb. unfold compute_metrics. cbn [savings_gbp peak_reduction_kw].
  destruct (compute_cost_finite a site run dt Ha) as (ca & ->).
  destruct (compute_cost_finite b site run dt Hb) as (cb & ->).
  destruct (series_max_finite (map (fun r => grid_import_kw (flows r)) a))
    as (pa & ->); [destruct a; [congruence | discriminate]|].
  destruct (series_max_finite (map (fun r => grid_import_kw (flows r)) b))
    as (pb & ->); [destruct b; [congruence | discriminate]|].
  cbn. split; ring.
Qed.

Lemma compute_metrics_swap_negates_witness :
  np_eq (savings_gbp (compute_metrics [sample_priced_row] [zero_priced_row]
                        default_site demand_run (1 # 4)))
        (np_opp (savings_gbp (compute_metrics [zero_priced_row] [sample_priced_row]
                                default_site demand_run (1 # 4)))) /\
  np_eq (peak_reduction_kw (compute_metrics [sample_priced_row] [zero_priced_row]
                              default_site demand_run (1 # 4)))
        (np_opp (peak_reduction_kw (compute_metrics [zero_priced_row] [sample_priced_row]
                                      default_site demand_run (1 # 4)))).
Proof.
  apply (compute_metrics_swap_negates [sample_priced_row] [zero_priced_row]
           default_site demand_run (1 # 4));
    discriminate.
Defined.

(** X7: without demand charges the cost of two dispatches laid end to
    end is the sum of their costs. *)
Theorem compute_cost_adds_over_concatenation
    (d1 d2 : PricedDispatch) (site : SiteConfig) (run : RunConfig) (dt : Q) :
  without_demand_charge run ->
  np_eq (compute_cost (d1 ++ d2) site run dt)
        (np_add (compute_cost d1 site run dt) (compute_cost d2 site run dt)).
Proof.
  unfold without_demand_charge. intros Hoff. unfold compute_cost. rewrite Hoff.
  cbn [np_add np_lift2 np_eq]. rewrite !map_app, !series_sum_app. ring.
Qed.

Lemma compute_cost_adds_over_concatenation_witness :
  np_eq (compute_cost ([sample_priced_row] ++ [sample_priced_row])
           default_site default_run (1 # 4))
        (np_add (compute_cost [sample_priced_row] default_site default_run (1 # 4))
                (compute_cost [sample_priced_row] default_site default_run (1 # 4))).
Proof.
  apply (compute_cost_adds_over_concatenation [sample_priced_row] [sample_priced_row]
           default_site default_run (1 # 4)).
  reflexivity.
Defined.

(** ** The baseline policy *)

(** The two branches of the loop body. *)
Lemma baseline_flows_branches b dt first s load pv c d i e :
  baseline_flows b dt first s load pv = Returns (c, d, i, e) ->
  (0 < pv - load -> d = 0 /\ i = 0 /\ c <= pv - load /\ e = pv - load - c) /\
  (pv - load <= 0 -> c = 0 /\ e = 0 /\ d <= - (pv - load) /\ i = - (pv - load) - d).
Proof.
  unfold baseline_flows. destruct (Qlt_bool 0 (pv - load)) eqn:E; intros H.
  - apply Qlt_bool_iff in E.
    apply bind_Returns in H as (x & _ & H). injection H as <- <- <- <-.
    split; [|intros Hle; exfalso; apply (Qlt_not_le _ _ E Hle)].
    intros _. repeat split; try reflexivity. apply Q.le_min_l.
  - apply Qlt_bool_false_iff in E.
    apply bind_Returns in H as (den & _ & H).
    apply bind_Returns in H as (x & _ & H). injection H as <- <- <- <-.
    split; [intros Hlt; exfalso; apply (Qlt_not_le _ _ Hlt E)|].
    intros _. repeat split; try reflexivity. apply Q.le_min_l.
Qed.

(** A property of single steps that start within the SOC range holds
    along every dispatch the loop returns. *)
Lemma baseline_loop_along (P : Q -> Q * Q -> DispatchRow -> Prop)
    (site : SiteConfig) (dt : Q) :
  battery_schema (battery site) -> 0 < dt ->
  (forall prev load pv r,
      min_soc (battery site) <= soc_before (battery site) prev ->
      soc_before (battery site) prev <= max_soc (battery site) ->
      baseline_step site dt prev load pv = Returns r ->
      P (soc_before (battery site) prev) (load, pv) r) ->
  forall rows prev d,
    min_soc (battery site) <= soc_before (battery site) prev ->
    soc_before (battery site) prev <= max_soc (battery site) ->
    baseline_loop site dt prev rows = Returns d ->
    along P (soc_before (battery site) prev) rows d.
Proof.
  intros Hb Hdt Hstep.
  induction rows as [|[load pv] rows IH]; intros prev d Hlo Hhi H.
  - cbn in H. injection H as <-. exact I.
  - cbn [baseline_loop] in H.
    apply bind_Returns in H as (r & Hr & H).
    apply bind_Returns in H as (rs & Hrs & H).
    injection H as <-.
    pose proof (baseline_step_ok site dt Hb Hdt prev load pv r Hlo Hhi Hr) as Hok.
    split; [apply (Hstep prev load pv r Hlo Hhi Hr)|].
    apply (IH (Some (soc_kwh r)) rs); [apply (ok_soc _ _ _ _ _ _ Hok) .. | exact Hrs].
Qed.

Lemma baseline_step_self_consumption site dt prev load pv r :
  battery_schema (battery site) -> 0 < dt ->
  cap_schema (max_grid_import_kw site) -> cap_schema (max_grid_export_kw site) ->
  min_soc (battery site) <= soc_before (battery site) prev ->
  soc_before (battery site) prev <= max_soc (battery site) ->
  baseline_step site dt prev load pv = Returns r ->
  self_consumption (soc_before (battery site) prev) (load, pv) r.
Proof.
  intros Hb Hdt Hci Hce Hlo Hhi H. unfold baseline_step in H.
  apply bind_Returns in H as ([[[c d] i] e] & Hflows & H).
  apply bind_Returns in H as (drawn & _ & H). injection H as <-.
  assert (Hflows' : baseline_flows (battery site) dt (is_first prev)
                      (soc_before (battery site) prev) load pv = Returns (c, d, i, e))
    by (destruct prev; exact Hflows).
  clear Hflows.
  destruct (baseline_flows_branches _ _ _ _ _ _ _ _ _ _ Hflows') as (Hsur & Hdef).
  apply (baseline_flows_spec site dt Hb Hdt) in Hflows'
    as ((Hc0 & _) & (Hd0 & _) & Hi0 & He0 & _); [|assumption|assumption].
  pose proof (apply_cap_le i (max_grid_import_kw site)) as Hi1.
  pose proof (apply_cap_le e (max_grid_export_kw site)) as He1.
  pose proof (apply_cap_nonneg i (max_grid_import_kw site) Hi0 Hci) as Hi2.
  pose proof (apply_cap_nonneg e (max_grid_export_kw site) He0 Hce) as He2.
  unfold self_consumption.
  cbn [fst snd grid_import_kw grid_export_kw battery_charge_kw battery_discharge_kw].
  split.
  - intros Hnet. destruct (Hsur Hnet) as (-> & -> & Hc1 & ->).
    repeat split; try lra.
  - intros Hnet. destruct (Hdef Hnet) as (-> & -> & Hd1 & ->).
    repeat split; try lra.
Qed.

(** X8: in every dispatch the baseline returns for a well-formed
    configuration, each step is pure self-consumption: at a PV surplus
    the battery does not discharge and nothing is imported, the charge is
    between 0 and the surplus and the export between 0 and what the
    charge leaves of it; at a deficit the battery does not charge and
    nothing is exported, the discharge is between 0 and the deficit and
    the import between 0 and what the discharge leaves of it. *)
Theorem baseline_is_self_consumption
    (ts : Timeseries) (site : SiteConfig) (dt : Q) (d : Dispatch) :
  well_formed_site site -> 0 < dt ->
  compute_baseline_dispatch ts site dt = Returns d ->
  along self_consumption (initial_soc (battery site)) (ts_rows ts) d.
Proof.
  intros Hwf Hdt H.
  pose proof (initial_soc_in_range site Hwf) as (Hlo & Hhi).
  destruct Hwf as ((Hb & Hci & Hce) & _).
  apply (baseline_loop_along self_consumption site dt Hb Hdt) with (prev := None);
    [|exact Hlo|exact Hhi|exact H].
  intros prev load pv r Hl Hh Hr.
  apply (baseline_step_self_consumption site dt prev load pv r Hb Hdt Hci Hce Hl Hh Hr).
Qed.

Lemma baseline_is_self_consumption_witness :
  along self_consumption (initial_soc default_battery) (ts_rows sunny_afternoon)
    sunny_afternoon_dispatch.
Proof.
  apply (baseline_is_self_consumption sunny_afternoon default_site (1 # 4)
           sunny_afternoon_dispatch default_site_well_formed eq_refl).
  vm_compute. reflexivity.
Defined.

Lemma baseline_step_soc_follows_net site dt prev load pv r :
  battery_schema (battery site) -> 0 < dt ->
  min_soc (battery site) <= soc_before (battery site) prev ->
  soc_before (battery site) prev <= max_soc (battery site) ->
  baseline_step site dt prev load pv = Returns r ->
  soc_follows_net (soc_before (battery site) prev) (load, pv) r.
Proof.
  intros Hb Hdt Hlo Hhi H.
  pose proof (baseline_step_ok site dt Hb Hdt prev load pv r Hlo Hhi H) as Hok.
  pose proof (ok_dynamics _ _ _ _ _ _ Hok) as Hdyn.
  destruct (ok_charge _ _ _ _ _ _ Hok) as (Hc0 & _).
  destruct (ok_discharge _ _ _ _ _ _ Hok) as (Hd0 & _).
  unfold baseline_step in H.
  apply bind_Returns in H as ([[[c d] i] e] & Hflows & H).
  apply bind_Returns in H as (drawn & Hdrawn & H). injection H as <-.
  apply py_div_Returns in Hdrawn as (Hne & _).
  assert (Hflows' : baseline_flows (battery site) dt (is_first prev)
                      (soc_before (battery site) prev) load pv = Returns (c, d, i, e))
    by (destruct prev; exact Hflows).
  destruct (baseline_flows_branches _ _ _ _ _ _ _ _ _ _ Hflows') as (Hsur & Hdef).
  cbn [battery_charge_kw battery_discharge_kw soc_kwh] in Hdyn, Hc0, Hd0.
  destruct Hb as (_ & _ & _ & (Hec & _) & (Hed & _) & _).
  assert (0 < discharge_efficiency (battery site)) as Hpos
    by (destruct (Qlt_le_dec 0 (discharge_efficiency (battery site)));
        [assumption | exfalso; apply Hne; lra]).
  unfold soc_follows_net. cbn [fst snd soc_kwh]. split.
  - intros Hnet. destruct (Hsur Hnet) as (-> & _).
    rewrite Hdyn.
    assert (0 <= c * charge_efficiency (battery site) * dt)
      by (repeat apply Qmult_le_0_compat; lra).
    assert (0 * dt / discharge_efficiency (battery site) == 0) by (field; lra).
    lra.
  - intros Hnet. destruct (Hdef Hnet) as (-> & _).
    rewrite Hdyn.
    assert (0 <= d * dt / discharge_efficiency (battery site)).
    { apply Qle_shift_div_l; [exact Hpos|].
      assert (0 <= d * dt) by (apply Qmult_le_0_compat; lra). lra. }
    lra.
Qed.

(** X9: in every dispatch the baseline returns for a well-formed
    configuration, the stored SOC never falls at a step with a PV surplus
    and never rises at a step with a deficit: the battery is never
    charged from the grid and never discharged into a surplus. *)
Theorem baseline_soc_follows_net_position
    (ts : Timeseries) (site : SiteConfig) (dt : Q) (d : Dispatch) :
  well_formed_site site -> 0 < dt ->
  compute_baseline_dispatch ts site dt = Returns d ->
  along soc_follows_net (initial_soc (battery site)) (ts_rows ts) d.
Proof.
  intros Hwf Hdt H.
  pose proof (initial_soc_in_range site Hwf) as (Hlo & Hhi).
  destruct Hwf as ((Hb & _) & _).
  apply (baseline_loop_along soc_follows_net site dt Hb Hdt) with (prev := None);
    [|exact Hlo|exact Hhi|exact H].
  intros prev load pv r Hl Hh Hr.
  apply (baseline_step_soc_follows_net site dt prev load pv r Hb Hdt Hl Hh Hr).
Qed.

Lemma baseline_soc_follows_net_position_witness :
  along soc_follows_net (initial_soc default_battery) (ts_rows sunny_afternoon)
    sunny_afternoon_dispatch.
Proof.
  apply (baseline_soc_follows_net_position sunny_afternoon default_site (1 # 4)
           sunny_afternoon_dispatch default_site_well_formed eq_refl).
  vm_compute. reflexivity.
Defined.

Lemma baseline_loop_firstn site dt (rows : list (Q * Q)) :
  forall k prev d,
    baseline_loop site dt prev rows = Returns d ->
    baseline_loop site dt prev (firstn k rows) = Returns (firstn k d).
Proof.
  induction rows as [|[load pv] rows IH]; intros k prev d H.
  - cbn in H. injection H as <-. rewrite !firstn_nil. reflexivity.
  - cbn [baseline_loop] in H.
    apply bind_Returns in H as (r & Hr & H).
    apply bind_Returns in H as (rs & Hrs & H).
    injection H as <-.
    destruct k as [|k]; [reflexivity|].
    cbn [firstn baseline_loop]. rewrite Hr. cbn [bind].
    rewrite (IH k _ _ Hrs). reflexivity.
Qed.

(** X10: the baseline does not look ahead: on the first [k] rows of a
    timeseries it returns the first [k] rows of the dispatch it returns
    on the whole timeseries. *)
Theorem baseline_has_no_lookahead
    (ts : Timeseries) (site : SiteConfig) (dt : Q) (d : Dispatch) (k : nat) :
  compute_baseline_dispatch ts site dt = Returns d ->
  compute_baseline_dispatch (truncate k ts) site dt = Returns (firstn k d).
Proof.
  intros H. unfold compute_baseline_dispatch, ts_rows, truncate in *.
  cbn [ts_load_kw ts_pv_kw]. rewrite <- combine_firstn.
  apply baseline_loop_firstn, H.
Qed.

Lemma baseline_has_no_lookahead_witness :
  compute_baseline_dispatch (truncate 2 sunny_afternoon) default_site (1 # 4)
  = Returns (firstn 2 sunny_afternoon_dispatch).
Proof.
  apply (baseline_has_no_lookahead sunny_afternoon default_site (1 # 4)
           sunny_afternoon_dispatch 2).
  vm_compute. reflexivity.
Defined.

Lemma Qeq_bool_true (x y : Q) : x == y -> Qeq_bool x y = true.
Proof.
  apply Qeq_bool_iff.
Qed.

Lemma Qeq_bool_false (x y : Q) : ~ x == y -> Qeq_bool x y = false.
Proof.
  intros H. destruct (Qeq_bool x y) eqn:E; [|reflexivity].
  apply Qeq_bool_iff in E. contradiction.
Qed.

(** A step returns unless it meets a zero divisor. *)
Lemma baseline_step_returns_unless_zero site dt prev load pv :
  battery_schema (battery site) -> 0 < dt ->
  min_soc (battery site) <= soc_before (battery site) prev ->
  soc_before (battery site) prev <= max_soc (battery site) ->
  ~ discharge_efficiency (battery site) == 0 ->
  (~ charge_efficiency (battery site) == 0 \/ prev <> None \/ pv - load <= 0) ->
  exists r, baseline_step site dt prev load pv = Returns r.
Proof.
  intros Hb Hdt Hlo Hhi Hd Hcase.
  destruct Hb as (_ & _ & _ & (Hec & _) & (Hed & _) & _).
  assert (0 < discharge_efficiency (battery site)) as Hpos
    by (destruct (Qlt_le_dec 0 (discharge_efficiency (battery site)));
        [assumption | exfalso; apply Hd; lra]).
  assert (Hdiv : ~ dt / discharge_efficiency (battery site) == 0).
  { intro E.
    assert (0 < dt / discharge_efficiency (battery site))
      by (apply Qlt_shift_div_l; lra).
    lra. }
  unfold baseline_step, baseline_flows.
  destruct (Qlt_bool 0 (pv - load)) eqn:Enet.
  - apply Qlt_bool_iff in Enet. unfold headroom_limit.
    destruct (Qeq_bool (dt * charge_efficiency (battery site)) 0) eqn:E.
    + apply Qeq_bool_iff in E.
      assert (Hc0 : charge_efficiency (battery site) == 0).
      { destruct (Qlt_le_dec 0 (charge_efficiency (battery site))) as [Hp|Hn]; [|lra].
        exfalso. assert (0 < dt * charge_efficiency (battery site)) by nra. lra. }
      destruct prev as [s|].
      * cbn [soc_before] in Hlo, Hhi. unfold max_soc in Hhi.
        assert (Hle : Qle_bool 0 (max_soc_frac (battery site) * capacity_kwh (battery site) - s)
                      = true) by (apply Qle_bool_iff; lra).
        rewrite Hle. cbn [bind]. rewrite (py_div_nonzero _ _ Hd). cbn [bind].
        eexists. reflexivity.
      * exfalso. destruct Hcase as [Hc|[Hp|Hn]]; [contradiction | congruence | lra].
    + cbn [bind]. rewrite (py_div_nonzero _ _ Hd). cbn [bind]. eexists. reflexivity.
  - rewrite (py_div_nonzero _ _ Hd). cbn [bind]. unfold headroom_limit.
    rewrite (Qeq_bool_false _ _ Hdiv). cbn [bind].
    rewrite (py_div_nonzero _ _ Hd). cbn [bind]. eexists. reflexivity.
Qed.

Lemma baseline_loop_returns_unless_zero site dt :
  battery_schema (battery site) -> 0 < dt ->
  ~ discharge_efficiency (battery site) == 0 ->
  forall rows prev,
    min_soc (battery site) <= soc_before (battery site) prev ->
    soc_before (battery site) prev <= max_soc (battery site) ->
    (~ charge_efficiency (battery site) == 0 \/ prev <> None \/
     match rows with
     | (load, pv) :: _ => pv - load <= 0
     | [] => True
     end) ->
    exists d, baseline_loop site dt prev rows = Returns d.
Proof.
  intros Hb Hdt Hd.
  induction rows as [|[load pv] rows IH]; intros prev Hlo Hhi Hcase.
  - exists []. reflexivity.
  - destruct (baseline_step_returns_unless_zero site dt prev load pv Hb Hdt Hlo Hhi Hd Hcase)
      as (r & Hr).
    pose proof (baseline_step_ok site dt Hb Hdt prev load pv r Hlo Hhi Hr) as Hok.
    destruct (IH (Some (soc_kwh r))) as (rs & Hrs).
    + apply (ok_soc _ _ _ _ _ _ Hok).
    + apply (ok_soc _ _ _ _ _ _ Hok).
    + right. left. discriminate.
    + exists (r :: rs). cbn [baseline_loop]. rewrite Hr. cbn [bind]. rewrite Hrs.
      reflexivity.
Qed.

Lemma baseline_first_step_raises site dt load pv :
  0 < dt -> 0 <= charge_efficiency (battery site) ->
  discharge_efficiency (battery site) == 0 \/
  (charge_efficiency (battery site) == 0 /\ 0 < pv - load) ->
  baseline_step site dt None load pv = Raises ZeroDivisionError.
Proof.
  intros Hdt Hec Hcase. unfold baseline_step, baseline_flows, headroom_limit, py_div.
  destruct (Qlt_bool 0 (pv - load)) eqn:Enet.
  - destruct (Qeq_bool (dt * charge_efficiency (battery site)) 0) eqn:E; [reflexivity|].
    cbn [bind]. destruct Hcase as [Hd|(Hc & _)].
    + rewrite (Qeq_bool_true _ _ Hd). reflexivity.
    + exfalso. apply Qeq_bool_neq in E. apply E. rewrite Hc. ring.
  - destruct Hcase as [Hd|(_ & Hnet)].
    + rewrite (Qeq_bool_true _ _ Hd). reflexivity.
    + apply Qlt_bool_iff in Hnet. congruence.
Qed.

(** X11: for a well-formed configuration and a positive timestep the
    baseline either returns a dispatch or raises [ZeroDivisionError], and
    it raises exactly when the timeseries has a first step and either the
    discharge efficiency is 0, or the charge efficiency is 0 and the
    first step has a PV surplus. *)
Theorem baseline_raises_only_on_zero_efficiency
    (ts : Timeseries) (site : SiteConfig) (dt : Q) :
  well_formed_site site -> 0 < dt ->
  (compute_baseline_dispatch ts site dt = Raises ZeroDivisionError <->
   division_by_zero_reached site ts) /\
  ((exists d, compute_baseline_dispatch ts site dt = Returns d) <->
   ~ division_by_zero_reached site ts).
Proof.
  intros Hwf Hdt.
  pose proof (initial_soc_in_range site Hwf) as (Hlo & Hhi).
  destruct Hwf as ((Hb & _) & _).
  assert (Hec : 0 <= charge_efficiency (battery site)) by apply Hb.
  unfold compute_baseline_dispatch, division_by_zero_reached, starts_with_surplus.
  destruct (ts_rows ts) as [|[load pv] rows] eqn:Erows.
  - cbn. split; split.
    + discriminate.
    + intros (Hn & _). congruence.
    + intros _ (Hn & _). congruence.
    + intros _. exists []. reflexivity.
  - assert (Hdec : (discharge_efficiency (battery site) == 0 \/
                    (charge_efficiency (battery site) == 0 /\ 0 < pv - load)) \/
                   (~ discharge_efficiency (battery site) == 0 /\
                    (~ charge_efficiency (battery site) == 0 \/ pv - load <= 0))).
    { destruct (Qeq_dec (discharge_efficiency (battery site)) 0) as [Hd|Hd];
        [left; left; exact Hd|].
      destruct (Qeq_dec (charge_efficiency (battery site)) 0) as [Hc|Hc];
        [|right; split; [exact Hd | left; exact Hc]].
      destruct (Qlt_le_dec 0 (pv - load)) as [Hn|Hn];
        [left; right; split; assumption | right; split; [exact Hd | right; exact Hn]]. }
    destruct Hdec as [Hzero|(Hd & Hc)].
    + assert (Hraise : baseline_loop site dt None ((load, pv) :: rows)
                       = Raises ZeroDivisionError).
      { cbn [baseline_loop].
        rewrite (baseline_first_step_raises site dt load pv Hdt Hec Hzero). reflexivity. }
      rewrite Hraise. split; split.
      * intros _. split; [discriminate | exact Hzero].
      * reflexivity.
      * intros (d & Hd). discriminate.
      * intros Hn. exfalso. apply Hn. split; [discriminate | exact Hzero].
    + destruct (baseline_loop_returns_unless_zero site dt Hb Hdt Hd
                  ((load, pv) :: rows) None Hlo Hhi) as (d & Hret).
      { destruct Hc as [Hc|Hc]; [left; exact Hc | right; right; exact Hc]. }
      rewrite Hret. split; split.
      * discriminate.
      * intros (_ & [Hz|(Hz & Hn)]); [contradiction|].
        destruct Hc as [Hc|Hc]; [contradiction | exfalso; lra].
      * intros _ (_ & [Hz|(Hz & Hn)]); [contradiction|].
        destruct Hc as [Hc|Hc]; [contradiction | lra].
      * intros _. exists d. reflexivity.
Qed.

Lemma baseline_raises_only_on_zero_efficiency_witness :
  (compute_baseline_dispatch evening_peak lossy_site (1 # 4) = Raises ZeroDivisionError <->
   division_by_zero_reached lossy_site evening_peak) /\
  ((exists d, compute_baseline_dispatch evening_peak lossy_site (1 # 4) = Returns d) <->
   ~ division_by_zero_reached lossy_site evening_peak).
Proof.
  apply (baseline_raises_only_on_zero_efficiency evening_peak lossy_site (1 # 4));
    [|reflexivity].
  unfold well_formed_site, site_schema, battery_schema, cap_schema. cbn.
  repeat split; try discriminate; exact I.
Defined.

(** ** More on the validator *)

Lemma validate_accepts_iff_within_bounds df site :
  validate_dispatch_result df site = Returns tt <-> within_bounds df site.
Proof.
  pose proof (validate_dispatch_result_trace df site) as T. split; intro H.
  - rewrite H in T. inversion T. assumption.
  - inversion T as [Hw E | v Hv Hn E]; [reflexivity | contradiction].
Qed.

Lemma within_bounds_app d1 d2 site :
  within_bounds (d1 ++ d2) site <-> within_bounds d1 site /\ within_bounds d2 site.
Proof.
  unfold within_bounds, cap_within. cbv zeta.
  destruct (max_grid_import_kw site), (max_grid_export_kw site);
    rewrite !Forall_app; tauto.
Qed.

(** X12: [validate_dispatch_result] judges a dispatch row by row: two
    dispatches laid end to end are accepted exactly when each of them is,
    and the dispatch with no rows is accepted. *)
Theorem validate_dispatch_result_is_rowwise
    (d1 d2 : Dispatch) (site : SiteConfig) :
  (validate_dispatch_result (d1 ++ d2) site = Returns tt <->
   validate_dispatch_result d1 site = Returns tt /\
   validate_dispatch_result d2 site = Returns tt) /\
  validate_dispatch_result [] site = Returns tt.
Proof.
  split.
  - rewrite !validate_accepts_iff_within_bounds. apply within_bounds_app.
  - apply validate_accepts_iff_within_bounds.
    unfold within_bounds, cap_within. cbv zeta.
    destruct (max_grid_import_kw site), (max_grid_export_kw site);
      repeat split; constructor.
Qed.

Lemma not_Forall_ge_exists (f : DispatchRow -> Q) (bound : Q) (df : Dispatch) :
  ~ Forall (fun r => bound <= f r) df -> exists r, In r df /\ f r < bound.
Proof.
  intros H. apply any_below_true.
  destruct (any_below (column f df) bound) eqn:E; [reflexivity|].
  apply any_below_false in E. contradiction.
Qed.

(** X13: a negative flow is reported before anything else, and an SOC
    below its minimum before the remaining checks: the validator raises a
    "has negative values" error exactly when some flow of some row is
    below -1e-6, and the "SOC below minimum" error exactly when no flow
    is and some SOC is below [min_soc - 1e-6]. *)
Theorem validate_dispatch_result_reports_flows_first
    (df : Dispatch) (site : SiteConfig) :
  ((exists col, validate_dispatch_result df site
                = Raises (ValidationError (HasNegativeValues col))) <->
   some_flow_negative df) /\
  (validate_dispatch_result df site
   = Raises (ValidationError (SocBelowMinimum (min_soc (battery site)))) <->
   flows_within_tolerance df /\ some_soc_below df site).
Proof.
  unfold some_flow_negative, flows_within_tolerance, some_soc_below.
  unfold validate_dispatch_result, power_cols, check_non_negative.
  destruct (any_below (column grid_import_kw df) _) eqn:E1.
  { apply any_below_true in E1 as (r & Hr & Hlt). cbn [bind]. split; split.
    - intros _. exists r. split; [exact Hr | left; exact Hlt].
    - intros _. eexists. reflexivity.
    - discriminate.
    - intros ((H & _) & _). exfalso.
      apply (not_Forall_of_witness _ _ _ Hr) in H; [exact H | apply Qlt_not_le, Hlt]. }
  destruct (any_below (column grid_export_kw df) _) eqn:E2.
  { apply any_below_true in E2 as (r & Hr & Hlt). cbn [bind]. split; split.
    - intros _. exists r. split; [exact Hr | right; left; exact Hlt].
    - intros _. eexists. reflexivity.
    - discriminate.
    - intros ((_ & H & _) & _). exfalso.
      apply (not_Forall_of_witness _ _ _ Hr) in H; [exact H | apply Qlt_not_le, Hlt]. }
  destruct (any_below (column battery_charge_kw df) _) eqn:E3.
  { apply any_below_true in E3 as (r & Hr & Hlt). cbn [bind]. split; split.
    - intros _. exists r. split; [exact Hr | right; right; left; exact Hlt].
    - intros _. eexists. reflexivity.
    - discriminate.
    - intros ((_ & _ & H & _) & _). exfalso.
      apply (not_Forall_of_witness _ _ _ Hr) in H; [exact H | apply Qlt_not_le, Hlt]. }
  destruct (any_below (column battery_discharge_kw df) _) eqn:E4.
  { apply any_below_true in E4 as (r & Hr & Hlt). cbn [bind]. split; split.
    - intros _. exists r. split; [exact Hr | right; right; right; exact Hlt].
    - intros _. eexists. reflexivity.
    - discriminate.
    - intros ((_ & _ & _ & H) & _). exfalso.
      apply (not_Forall_of_witness _ _ _ Hr) in H; [exact H | apply Qlt_not_le, Hlt]. }
  cbn [bind]. apply any_below_false in E1, E2, E3, E4.
  assert (Hno : ~ exists r, In r df /\
                  (grid_import_kw r < - NUMERICAL_TOLERANCE \/
                   grid_export_kw r < - NUMERICAL_TOLERANCE \/
                   battery_charge_kw r < - NUMERICAL_TOLERANCE \/
                   battery_discharge_kw r < - NUMERICAL_TOLERANCE)).
  { intros (r & Hr & Hneg). rewrite Forall_forall in E1, E2, E3, E4.
    specialize (E1 r Hr). specialize (E2 r Hr). specialize (E3 r Hr). specialize (E4 r Hr).
    cbv beta in *. lra. }
  assert (Hnot : forall (o : outcome unit),
             (forall col, o <> Raises (ValidationError (HasNegativeValues col))) ->
             ((exists col, o = Raises (ValidationError (HasNegativeValues col))) <->
              exists r, In r df /\
                (grid_import_kw r < - NUMERICAL_TOLERANCE \/
                 grid_export_kw r < - NUMERICAL_TOLERANCE \/
                 battery_charge_kw r < - NUMERICAL_TOLERANCE \/
                 battery_discharge_kw r < - NUMERICAL_TOLERANCE))).
  { intros o Ho. split; [intros (col & Hc); exfalso; apply (Ho col Hc) | intros H; contradiction]. }
  destruct (any_below (column soc_kwh df) _) eqn:E5.
  { apply any_below_true in E5. split.
    - apply Hnot. intros col. discriminate.
    - split; [intros _; split; [repeat split; assumption | exact E5] | reflexivity]. }
  assert (Hsoc : ~ exists r, In r df /\
                   soc_kwh r < min_soc (battery site) - NUMERICAL_TOLERANCE).
  { intros H. apply any_below_true in H. unfold min_soc in H. congruence. }
  destruct (any_above (column soc_kwh df) _);
    [split; [apply Hnot; intros col; discriminate
            | split; [discriminate | intros (_ & H); contradiction]]|].
  destruct (any_above (column battery_charge_kw df) _);
    [split; [apply Hnot; intros col; discriminate
            | split; [discriminate | intros (_ & H); contradiction]]|].
  destruct (any_above (column battery_discharge_kw df) _);
    [split; [apply Hnot; intros col; discriminate
            | split; [discriminate | intros (_ & H); contradiction]]|].
  unfold check_cap_above.
  destruct (max_grid_import_kw site) as [ci|];
    [destruct (any_above (column grid_import_kw df) _)|];
    cbn [bind];
    try (split; [apply Hnot; intros col; discriminate
                | split; [discriminate | intros (_ & H); contradiction]]);
    destruct (max_grid_export_kw site) as [ce|];
    try destruct (any_above (column grid_export_kw df) _);
    (split; [apply Hnot; intros col; discriminate
            | split; [discriminate | intros (_ & H); contradiction]]).
Qed.

(** ** Errors of the model builder *)

Lemma for_each_raising_never (bad : exn) T body :
  (forall m t, body m t <> Raises bad) ->
  forall m, for_each_raising T body m <> Raises bad.
Proof.
  intros Hbody. induction T as [|t T IH]; intros m; cbn [for_each_raising].
  - discriminate.
  - specialize (Hbody m t). destruct (body m t) as [m1|e|]; cbn [bind].
    + apply IH.
    + exact Hbody.
    + discriminate.
Qed.

Lemma for_each_raising_returns T body :
  (forall m t, exists m1, body m t = Returns m1) ->
  forall m, exists m1, for_each_raising T body m = Returns m1.
Proof.
  intros Hbody. induction T as [|t T IH]; intros m; cbn [for_each_raising].
  - eexists. reflexivity.
  - destruct (Hbody m t) as (m1 & ->). cbn [bind]. apply IH.
Qed.

Lemma add_battery_constraints_no_value_error m T b dt msg :
  add_battery_constraints m T b dt <> Raises (ValueError msg).
Proof.
  unfold add_battery_constraints. cbv zeta.
  apply for_each_raising_never. intros m0 t.
  unfold le_div, py_div.
  destruct (Qeq_bool (discharge_efficiency b) 0); cbn [bind]; discriminate.
Qed.

Lemma add_battery_constraints_returns m T b dt :
  ~ discharge_efficiency b == 0 ->
  exists m1, add_battery_constraints m T b dt = Returns m1.
Proof.
  intros Hd. unfold add_battery_constraints. cbv zeta.
  apply for_each_raising_returns. intros m0 t.
  unfold le_div. rewrite (py_div_nonzero _ _ Hd). cbn [bind].
  eexists. reflexivity.
Qed.

Lemma assemble_model_no_value_error site run ts ip ep msg :
  assemble_model site run ts ip ep <> Raises (ValueError msg).
Proof.
  unfold assemble_model. cbv zeta.
  match goal with
  | |- bind ?a _ <> _ =>
      pose proof (add_battery_constraints_no_value_error
                    _ _ _ _ msg : a <> _) as H;
      destruct a as [m1|e|]
  end; cbn [bind].
  - discriminate.
  - exact H.
  - discriminate.
Qed.

Lemma assemble_model_returns site run ts ip ep :
  ~ discharge_efficiency (battery site) == 0 ->
  exists m, assemble_model site run ts ip ep = Returns m.
Proof.
  intros Hd. unfold assemble_model. cbv zeta.
  match goal with
  | |- exists m, bind ?a _ = _ =>
      destruct (add_battery_constraints_returns _ _ _ _ Hd : exists m1, a = Returns m1)
        as (m1 & ->)
  end.
  cbn [bind]. eexists. reflexivity.
Qed.

(** X14: [build_model] raises the "no import price" [ValueError]
    exactly when the timeseries has no import price column and the tariff
    no flat import price; it raises the "no export price" [ValueError]
    exactly when an import price is available and neither an export price
    column nor a flat export price is; and with prices for both
    directions and a discharge efficiency other than 0 it returns a
    model. *)
Theorem build_model_price_errors
    (site : SiteConfig) (run : RunConfig) (ts : Timeseries) :
  (build_model site run ts
   = Raises (ValueError "No import price provided in timeseries or tariff config") <->
   ~ price_available (ts_import_price ts) (flat_import_price_gbp_per_kwh (tariff run))) /\
  (build_model site run ts
   = Raises (ValueError "No export price provided in timeseries or tariff config") <->
   price_available (ts_import_price ts) (flat_import_price_gbp_per_kwh (tariff run)) /\
   ~ price_available (ts_export_price ts) (flat_export_price_gbp_per_kwh (tariff run))) /\
  (price_available (ts_import_price ts) (flat_import_price_gbp_per_kwh (tariff run)) ->
   price_available (ts_export_price ts) (flat_export_price_gbp_per_kwh (tariff run)) ->
   ~ discharge_efficiency (battery site) == 0 ->
   exists m, build_model site run ts = Returns m).
Proof.
  unfold price_available, build_model, choose_price.
  destruct (ts_import_price ts) as [ci|], (flat_import_price_gbp_per_kwh (tariff run)) as [fi|],
           (ts_export_price ts) as [ce|], (flat_export_price_gbp_per_kwh (tariff run)) as [fe|];
    cbn [bind];
    (split; [split | split; [split|]]);
    try (intros H; exfalso; exact (assemble_model_no_value_error _ _ _ _ _ _ H));
    try (intros _ _ Hd; apply assemble_model_returns; exact Hd);
    try discriminate;
    try reflexivity;
    try (intros H; exfalso; apply H; (left; discriminate) || (right; discriminate));
    try (intros (_ & H); exfalso; apply H; (left; discriminate) || (right; discriminate));
    try (intros (H & _); exfalso; destruct H as [H|H]; congruence);
    try (intros _ H _; exfalso; destruct H as [H|H]; congruence);
    try (intros H _ _; exfalso; destruct H as [H|H]; congruence);
    try (intros _; split; [(left; discriminate) || (right; discriminate)
                          | intros [H|H]; congruence]);
    try (intros _ [H|H]; congruence).
Qed.

Lemma build_model_price_errors_witness :
  exists m, build_model default_site demand_run two_steps = Returns m.
Proof.
  apply (proj2 (proj2 (build_model_price_errors default_site demand_run two_steps))).
  - left. discriminate.
  - right. discriminate.
  - cbn. intros H. discriminate H.
Defined.

(** ** Input validation *)

Lemma time_diffs_spaced (step : Z) (stamps : list Z) :
  forallb (fun d => Z.eqb d step) (time_diffs stamps) = true <->
  equally_spaced stamps step.
Proof.
  unfold equally_spaced.
  induction stamps as [|a [|b rest] IH].
  - cbn. split; [intros _ i Hi; lia | reflexivity].
  - cbn. split; [intros _ i Hi; lia | reflexivity].
  - change (time_diffs (a :: b :: rest)) with ((b - a)%Z :: time_diffs (b :: rest)).
    cbn [forallb]. rewrite andb_true_iff, IH, Z.eqb_eq. split.
    + intros (Hab & Hrest) [|i] Hi; [exact Hab|].
      apply (Hrest i). cbn [List.length] in *. lia.
    + intros H. split; [apply (H 0%nat); cbn; lia|].
      intros i Hi. apply (H (S i)). cbn [List.length] in *. lia.
Qed.

Lemma equally_spaced_tail (step a : Z) (rest : list Z) :
  equally_spaced (a :: rest) step -> equally_spaced rest step.
Proof.
  intros H i Hi. apply (H (S i)). cbn [List.length]. lia.
Qed.

Lemma equally_spaced_after (step a : Z) (rest : list Z) :
  (0 < step)%Z -> equally_spaced (a :: rest) step ->
  Forall (fun b => (a < b)%Z) rest.
Proof.
  intros Hstep. revert a. induction rest as [|b rest IH]; intros a H.
  - constructor.
  - assert (Hab : (b - a = step)%Z) by (apply (H 0%nat); cbn; lia).
    constructor; [lia|].
    apply equally_spaced_tail in H. specialize (IH b H).
    apply (Forall_impl _ (fun c Hc => Z.lt_trans a b c ltac:(lia) Hc) IH).
Qed.

Lemma spaced_is_monotonic (step : Z) (stamps : list Z) :
  (0 < step)%Z -> equally_spaced stamps step ->
  is_monotonic_increasing stamps = true /\ has_duplicates stamps = false.
Proof.
  intros Hstep. induction stamps as [|a rest IH]; intros H.
  - split; reflexivity.
  - pose proof (equally_spaced_after step a rest Hstep H) as Hafter.
    destruct (IH (equally_spaced_tail _ _ _ H)) as (Hm & Hd). split.
    + destruct rest as [|b rest]; [reflexivity|].
      change (is_monotonic_increasing (a :: b :: rest))
        with ((a <=? b)%Z && is_monotonic_increasing (b :: rest)).
      rewrite Hm, andb_true_r. apply Z.leb_le.
      inversion Hafter; subst. lia.
    + cbn [has_duplicates]. rewrite Hd, orb_false_r.
      destruct (existsb (Z.eqb a) rest) eqn:E; [|reflexivity].
      apply existsb_exists in E as (b & Hb & Hab). apply Z.eqb_eq in Hab.
      rewrite Forall_forall in Hafter. specialize (Hafter b Hb). lia.
Qed.

Lemma index_checks (stamps : list Z) (step : Z) :
  (is_monotonic_increasing stamps = true /\ has_duplicates stamps = false /\
   ((1 <? List.length stamps)%nat
    && negb (forallb (fun d => Z.eqb d step) (time_diffs stamps)) = false)) <->
  ((List.length stamps <= 1)%nat \/ ((0 < step)%Z /\ equally_spaced stamps step)).
Proof.
  split.
  - intros (Hm & Hd & Ht).
    destruct (1 <? List.length stamps)%nat eqn:El.
    + right. apply Nat.ltb_lt in El. cbn [andb] in Ht.
      apply negb_false_iff in Ht. apply time_diffs_spaced in Ht.
      split; [|exact Ht].
      destruct stamps as [|a [|b rest]]; cbn [List.length] in El; try lia.
      assert (Hab : (b - a = step)%Z) by (apply (Ht 0%nat); cbn; lia).
      change (is_monotonic_increasing (a :: b :: rest))
        with ((a <=? b)%Z && is_monotonic_increasing (b :: rest)) in Hm.
      apply andb_true_iff in Hm as (Hle & _). apply Z.leb_le in Hle.
      cbn [has_duplicates existsb] in Hd.
      apply orb_false_iff in Hd as (Hd & _). apply orb_false_iff in Hd as (Hne & _).
      apply Z.eqb_neq in Hne. lia.
    + left. apply Nat.ltb_ge in El. exact El.
  - intros [Hshort|(Hstep & Hsp)].
    + destruct stamps as [|a [|b rest]]; cbn [List.length] in Hshort; try lia;
        repeat split; reflexivity.
    + destruct (spaced_is_monotonic step stamps Hstep Hsp) as (Hm & Hd).
      split; [exact Hm|]. split; [exact Hd|].
      apply (proj2 (time_diffs_spaced step stamps)) in Hsp. rewrite Hsp.
      apply andb_false_r.
Qed.

Lemma Timedelta_minutes_positive (m : Z) :
  (0 < Timedelta_minutes m)%Z <-> (0 < m)%Z.
Proof.
  unfold Timedelta_minutes. lia.
Qed.

Lemma any_nan_false (values : list cell) :
  any_nan values = false <-> Forall is_number values.
Proof.
  unfold any_nan, is_number. induction values as [|c values IH]; cbn [existsb].
  - split; [constructor | reflexivity].
  - rewrite orb_false_iff, IH. split.
    + intros (Hc & Hrest). constructor; [|exact Hrest]. destruct c; [discriminate | discriminate].
    + intros H. inversion H as [|? ? Hc Hrest]; subst. split; [|exact Hrest].
      destruct c; [reflexivity | congruence].
Qed.

Lemma no_negative_no_nan (values : list cell) :
  any_negative values = false /\ any_nan values = false <->
  Forall non_negative_number values.
Proof.
  unfold any_negative, any_nan, non_negative_number.
  induction values as [|c values IH]; cbn [existsb].
  - split; [constructor | split; reflexivity].
  - rewrite !orb_false_iff. split.
    + intros ((Hc & Hn) & (Hc' & Hn')). constructor; [|apply IH; split; assumption].
      destruct c as [v|]; [|discriminate].
      exists v. split; [reflexivity|]. apply Qlt_bool_false_iff in Hc. exact Hc.
    + intros H. inversion H as [|? ? (v & -> & Hv) Hrest]; subst.
      apply IH in Hrest as (Hn & Hn').
      repeat split; try assumption.
      apply Qlt_bool_false_iff. exact Hv.
Qed.

(** The three column loops of the validator, on the four required columns. *)
Lemma missing_cols_none (df : InputFrame) :
  filter (fun col => negb (has_column df col)) REQUIRED_INPUT_COLUMNS = [] <->
  has_column df "load_kw" = true /\ has_column df "pv_kw" = true /\
  has_column df "import_price_gbp_per_kwh" = true /\
  has_column df "export_price_gbp_per_kwh" = true.
Proof.
  unfold REQUIRED_INPUT_COLUMNS. cbn [filter].
  destruct (has_column df "load_kw"), (has_column df "pv_kw"),
           (has_column df "import_price_gbp_per_kwh"),
           (has_column df "export_price_gbp_per_kwh"); cbn [negb];
    split; try discriminate; try (intros (? & ? & ? & ?); discriminate);
    try reflexivity; intros _; repeat split.
Qed.

Lemma first_negative_power_column_none (df : InputFrame) :
  has_column df "load_kw" = true -> has_column df "pv_kw" = true ->
  has_column df "import_price_gbp_per_kwh" = true ->
  has_column df "export_price_gbp_per_kwh" = true ->
  (first_negative_power_column df (filter (has_column df) REQUIRED_INPUT_COLUMNS) = None <->
   any_negative (column_values df "load_kw") = false /\
   any_negative (column_values df "pv_kw") = false).
Proof.
  intros H1 H2 H3 H4. unfold REQUIRED_INPUT_COLUMNS. cbn [filter].
  rewrite H1, H2, H3, H4. cbn [first_negative_power_column].
  change (endswith "load_kw" "_kw") with true.
  change (endswith "pv_kw" "_kw") with true.
  change (endswith "import_price_gbp_per_kwh" "_kw") with false.
  change (endswith "export_price_gbp_per_kwh" "_kw") with false.
  cbn [andb].
  destruct (any_negative (column_values df "load_kw")),
           (any_negative (column_values df "pv_kw"));
    split; try discriminate; try (intros (? & ?); discriminate);
    try reflexivity; intros _; split; reflexivity.
Qed.

Lemma nan_cols_none (df : InputFrame) :
  filter (fun col => any_nan (column_values df col)) REQUIRED_INPUT_COLUMNS = [] <->
  any_nan (column_values df "load_kw") = false /\
  any_nan (column_values df "pv_kw") = false /\
  any_nan (column_values df "import_price_gbp_per_kwh") = false /\
  any_nan (column_values df "export_price_gbp_per_kwh") = false.
Proof.
  unfold REQUIRED_INPUT_COLUMNS. cbn [filter].
  destruct (any_nan (column_values df "load_kw")),
           (any_nan (column_values df "pv_kw")),
           (any_nan (column_values df "import_price_gbp_per_kwh")),
           (any_nan (column_values df "export_price_gbp_per_kwh"));
    split; try discriminate; try (intros (? & ? & ? & ?); discriminate);
    try reflexivity; intros _; repeat split.
Qed.

Lemma has_column_values (df : InputFrame) (col : string) :
  has_column df col = true <->
  lookup_column (columns df) col = Some (column_values df col).
Proof.
  unfold has_column, column_values.
  destruct (lookup_column (columns df) col); split; try discriminate; reflexivity.
Qed.

Lemma column_with_values (P : list cell -> Prop) (df : InputFrame) (col : string) :
  column_with P df col <-> has_column df col = true /\ P (column_values df col).
Proof.
  unfold column_with, has_column, column_values.
  destruct (lookup_column (columns df) col) as [values|]; split.
  - intros (v & E & H). injection E as <-. split; [reflexivity | exact H].
  - intros (_ & H). exists values. split; [reflexivity | exact H].
  - intros (v & E & _). discriminate.
  - intros (E & _). discriminate.
Qed.

(** The validator accepts exactly when its seven checks all pass. *)
Lemma validate_timeseries_checks (df : InputFrame) (m : Z) :
  validate_timeseries df m = InputAccepted <->
  (has_column df "load_kw" = true /\ has_column df "pv_kw" = true /\
   has_column df "import_price_gbp_per_kwh" = true /\
   has_column df "export_price_gbp_per_kwh" = true) /\
  (exists stamps,
      index df = DatetimeIndex stamps /\
      is_monotonic_increasing stamps = true /\ has_duplicates stamps = false /\
      ((1 <? List.length stamps)%nat
       && negb (forallb (fun d => Z.eqb d (Timedelta_minutes m)) (time_diffs stamps))
       = false)) /\
  (any_negative (column_values df "load_kw") = false /\
   any_negative (column_values df "pv_kw") = false) /\
  (any_nan (column_values df "load_kw") = false /\
   any_nan (column_values df "pv_kw") = false /\
   any_nan (column_values df "import_price_gbp_per_kwh") = false /\
   any_nan (column_values df "export_price_gbp_per_kwh") = false).
Proof.
  unfold validate_timeseries. cbv zeta.
  rewrite <- missing_cols_none, <- nan_cols_none.
  destruct (filter (fun col => negb (has_column df col)) REQUIRED_INPUT_COLUMNS)
    as [|c0 cs] eqn:Emiss.
  2:{ split; [discriminate | intros (E & _); discriminate]. }
  pose proof (proj1 (missing_cols_none df) Emiss) as (H1 & H2 & H3 & H4).
  rewrite <- (first_negative_power_column_none df H1 H2 H3 H4).
  destruct (index df) as [stamps|size].
  2:{ split; [discriminate | intros (_ & (s & E & _) & _); discriminate]. }
  destruct (is_monotonic_increasing stamps) eqn:Em; cbn [negb].
  2:{ split; [discriminate|].
      intros (_ & (s & E & Hm & _) & _). injection E as <-. congruence. }
  destruct (has_duplicates stamps) eqn:Ed.
  { split; [discriminate|].
    intros (_ & (s & E & _ & Hd & _) & _). injection E as <-. congruence. }
  destruct ((1 <? List.length stamps)%nat
            && negb (forallb (fun d => Z.eqb d (Timedelta_minutes m)) (time_diffs stamps)))
    eqn:Et.
  { split; [discriminate|].
    intros (_ & (s & E & _ & _ & Ht) & _). injection E as <-. congruence. }
  destruct (first_negative_power_column df _) as [col|].
  { split; [discriminate | intros (_ & _ & E & _); discriminate]. }
  destruct (filter (fun col => any_nan (column_values df col)) REQUIRED_INPUT_COLUMNS).
  - split; [|reflexivity]. intros _.
    split; [reflexivity|]. split; [|split; reflexivity].
    exists stamps. repeat split; assumption.
  - split; [discriminate | intros (_ & _ & _ & E); discriminate].
Qed.

(** What acceptance guarantees. *)
Lemma validate_timeseries_acceptable (df : InputFrame) (m : Z) :
  validate_timeseries df m = InputAccepted -> acceptable_input df m.
Proof.
  rewrite validate_timeseries_checks. unfold acceptable_input.
  rewrite !column_with_values, <- !no_negative_no_nan, <- !any_nan_false.
  intros ((H1 & H2 & H3 & H4) & (stamps & E & Hidx) & (N1 & N2) & (A1 & A2 & A3 & A4)).
  split; [|repeat split; assumption].
  exists stamps. split; [exact E|].
  apply index_checks in Hidx.
  destruct Hidx as [Hs|(Hp & Hsp)]; [left; exact Hs | right].
  split; [apply Timedelta_minutes_positive, Hp | exact Hsp].
Qed.

(** X21: [validate_timeseries] accepts a frame exactly when it has the
    four required columns and a [DatetimeIndex], the index has at most
    one timestamp or the expected timestep is positive and every
    timestamp is that timestep after the one before, [load_kw] and
    [pv_kw] hold non-negative numbers and the two price columns hold
    numbers.  Prices may be negative, and the expected timestep is not
    looked at for a frame of at most one row. *)
Theorem validate_timeseries_accepts_iff (df : InputFrame) (expected_timestep_minutes : Z) :
  validate_timeseries df expected_timestep_minutes = InputAccepted <->
  acceptable_input df expected_timestep_minutes.
Proof.
  split; [apply validate_timeseries_acceptable|].
  rewrite validate_timeseries_checks. unfold acceptable_input.
  rewrite !column_with_values, <- !no_negative_no_nan, <- !any_nan_false.
  intros ((stamps & E & Hidx) & (H1 & N1 & A1) & (H2 & N2 & A2) & (H3 & A3) & (H4 & A4)).
  split; [repeat split; assumption|].
  split; [|repeat split; assumption].
  exists stamps. split; [exact E|].
  apply index_checks.
  destruct Hidx as [Hs|(Hp & Hsp)]; [left; exact Hs | right].
  split; [apply Timedelta_minutes_positive, Hp | exact Hsp].
Qed.

Lemma validate_timeseries_accepts_iff_witness :
  acceptable_input quarter_hour_frame 15.
Proof.
  apply (proj1 (validate_timeseries_accepts_iff quarter_hour_frame 15)).
  vm_compute. reflexivity.
Defined.

(** ** Timesteps *)

Lemma divisors_up_to_60 :
  forallb (fun v => Bool.eqb (60 mod v =? 0)%Z (existsb (Z.eqb v) divisors_of_60))
          (map Z.of_nat (seq 1 60)) = true.
Proof. vm_compute. reflexivity. Qed.

Lemma divides_60 (v : Z) :
  (0 < v)%Z -> ((60 mod v =? 0)%Z = true <-> In v divisors_of_60).
Proof.
  intros Hv. destruct (v <=? 60)%Z eqn:Hc; [apply Z.leb_le in Hc | apply Z.leb_gt in Hc].
  - pose proof divisors_up_to_60 as H. rewrite forallb_forall in H.
    specialize (H v). rewrite Bool.eqb_true_iff in H.
    rewrite H.
    + rewrite existsb_exists. split.
      * intros (d & Hd & E). apply Z.eqb_eq in E. subst d. exact Hd.
      * intros Hd. exists v. split; [exact Hd | apply Z.eqb_refl].
    + apply in_map_iff. exists (Z.to_nat v). split; [lia|].
      apply in_seq. lia.
  - rewrite Z.mod_small by lia. split; [discriminate|].
    intros Hd. unfold divisors_of_60 in Hd. cbn [In] in Hd. lia.
Qed.

(** X22: on a positive timestep, [validate_timestep] returns it when it
    is one of the twelve divisors of 60 and raises [ValueError]
    otherwise; a timestep it returns is at most an hour and cuts the
    hour into a whole number of steps. *)
Theorem validate_timestep_accepts_divisors (v : Z) :
  (0 < v)%Z ->
  (In v divisors_of_60 -> validate_timestep v = Returns v) /\
  (~ In v divisors_of_60 -> exists msg, validate_timestep v = Raises (ValueError msg)) /\
  (validate_timestep v = Returns v ->
   0 < inject_Z v / 60 /\ inject_Z v / 60 <= 1 /\
   exists steps : Z, inject_Z steps * (inject_Z v / 60) == 1).
Proof.
  intros Hv. unfold validate_timestep.
  replace (v =? 0)%Z with false by (symmetry; apply Z.eqb_neq; lia).
  pose proof (divides_60 v Hv) as Hdiv.
  destruct (60 mod v =? 0)%Z eqn:E; cbn [negb].
  - split; [reflexivity|]. split; [intros Hn; exfalso; apply Hn, Hdiv; reflexivity|].
    intros _. apply Z.eqb_eq in E.
    assert (Hq : 0 < inject_Z v) by (change 0 with (inject_Z 0); rewrite <- Zlt_Qlt; exact Hv).
    assert (Hle : (v <= 60)%Z).
    { pose proof (proj1 Hdiv eq_refl) as Hd.
      unfold divisors_of_60 in Hd. cbn [In] in Hd. lia. }
    assert (Hq' : inject_Z v <= 60).
    { change 60 with (inject_Z 60). rewrite <- Zle_Qle. exact Hle. }
    split; [apply Qlt_shift_div_l; lra|].
    split; [apply Qle_shift_div_r; lra|].
    exists (60 / v)%Z.
    assert (Hmul : (60 = v * (60 / v))%Z) by (apply Z.div_exact; lia).
    assert (Hmul' : inject_Z 60 == inject_Z v * inject_Z (60 / v)).
    { rewrite <- inject_Z_mult, <- Hmul. reflexivity. }
    change (inject_Z 60) with 60 in Hmul'.
    transitivity ((inject_Z v * inject_Z (60 / v)) / 60); [field|].
    rewrite <- Hmul'. reflexivity.
  - split; [intros Hd; apply Hdiv in Hd; discriminate|].
    split; [intros _; eexists; reflexivity | discriminate].
Qed.

Lemma validate_timestep_accepts_divisors_witness :
  validate_timestep 15 = Returns 15%Z /\
  0 < inject_Z 15 / 60 /\ inject_Z 15 / 60 <= 1.
Proof.
  destruct (validate_timestep_accepts_divisors 15 eq_refl) as (Hin & _ & Hdt).
  assert (H : validate_timestep 15 = Returns 15%Z).
  { apply Hin. unfold divisors_of_60. cbn [In]. do 8 right. left. reflexivity. }
  split; [exact H|]. destruct (Hdt H) as (H1 & H2 & _). split; assumption.
Defined.

(** ** The baseline as a point of the model *)









(** ** Savings against the baseline *)





Lemma combine_fst {A B : Type} (a : list A) (b : list B) :
  List.length b = List.length a -> map fst (combine a b) = a.
Proof.
  revert b. induction a as [|x a IH]; intros [|y b] H; cbn in *; try discriminate.
  - reflexivity.
  - rewrite IH; [reflexivity | lia].
Qed.

Lemma combine_snd {A B : Type} (a : list A) (b : list B) :
  List.length b = List.length a -> map snd (combine a b) = b.
Proof.
  revert b. induction a as [|x a IH]; intros [|y b] H; cbn in *; try discriminate.
  - reflexivity.
  - rewrite IH; [reflexivity | lia].
Qed.

Lemma with_prices_columns (d : Dispatch) (ip ep : list Q) :
  List.length ip = List.length d -> List.length ep = List.length d ->
  map flows (with_prices d ip ep) = d /\
  map import_price_gbp_per_kwh (with_prices d ip ep) = ip /\
  map export_price_gbp_per_kwh (with_prices d ip ep) = ep /\
  List.length (with_prices d ip ep) = List.length d.
Proof.
  intros Hi He. unfold with_prices.
  assert (Hc : List.length (combine ip ep) = List.length d).
  { rewrite length_combine, Hi, He. apply Nat.min_id. }
  rewrite !map_map. cbn [flows import_price_gbp_per_kwh export_price_gbp_per_kwh].
  split; [apply (combine_fst d (combine ip ep) Hc)|].
  split.
  { rewrite <- (map_map snd fst), (combine_snd d (combine ip ep) Hc).
    apply combine_fst. congruence. }
  split.
  { rewrite <- (map_map snd snd), (combine_snd d (combine ip ep) Hc).
    apply combine_snd. congruence. }
  rewrite length_map, length_combine, Hc. apply Nat.min_id.
Qed.









(** ** The backtest *)

Lemma propagate_Returns {A : Type} (o : outcome A) (a : A) :
  propagate o = BacktestReturns a -> o = Returns a.
Proof.
  destruct o; cbn; intros H; try discriminate. injection H as <-. reflexivity.
Qed.

Lemma numbers_length (values : list cell) (l : list Q) :
  numbers values = Some l -> List.length l = List.length values.
Proof.
  revert l. induction values as [|[v|] values IH]; intros l H; cbn in H.
  - injection H as <-. reflexivity.
  - destruct (numbers values) as [l'|]; [|discriminate].
    injection H as <-. cbn. rewrite (IH l' eq_refl). reflexivity.
  - discriminate.
Qed.

Lemma frame_shape_lookup (df : InputFrame) (col : string) (values : list cell) :
  frame_shape df -> lookup_column (columns df) col = Some values ->
  List.length values = frame_len df.
Proof.
  unfold frame_shape. generalize (frame_len df). intros n.
  induction (columns df) as [|[name vs] cols IH]; intros HF H; cbn in H.
  - discriminate.
  - apply Forall_cons_iff in HF as (Hc & Hrest). cbn [snd] in Hc.
    destruct (String.eqb name col).
    + injection H as <-. exact Hc.
    + apply (IH Hrest H).
Qed.

Lemma required_columns_lengths (df : InputFrame) (l p i e : list Q) :
  frame_shape df -> required_columns df = Some (l, p, i, e) ->
  List.length l = frame_len df /\ List.length p = frame_len df /\
  List.length i = frame_len df /\ List.length e = frame_len df.
Proof.
  intros Hs H. unfold required_columns in H.
  destruct (lookup_column (columns df) "load_kw") as [cl|] eqn:El; [|discriminate].
  destruct (lookup_column (columns df) "pv_kw") as [cp|] eqn:Ep; [|discriminate].
  destruct (lookup_column (columns df) "import_price_gbp_per_kwh") as [ci|] eqn:Ei;
    [|discriminate].
  destruct (lookup_column (columns df) "export_price_gbp_per_kwh") as [ce|] eqn:Ee;
    [|discriminate].
  destruct (numbers cl) as [l'|] eqn:Nl; [|discriminate].
  destruct (numbers cp) as [p'|] eqn:Np; [|discriminate].
  destruct (numbers ci) as [i'|] eqn:Ni; [|discriminate].
  destruct (numbers ce) as [e'|] eqn:Ne; [|discriminate].
  injection H as <- <- <- <-.
  rewrite (numbers_length _ _ Nl), (numbers_length _ _ Np),
          (numbers_length _ _ Ni), (numbers_length _ _ Ne).
  rewrite (frame_shape_lookup df _ _ Hs El), (frame_shape_lookup df _ _ Hs Ep),
          (frame_shape_lookup df _ _ Hs Ei), (frame_shape_lookup df _ _ Hs Ee).
  repeat split; reflexivity.
Qed.

Lemma merge_prices_Returns (d : Dispatch) (ip ep : list Q) (pd : PricedDispatch) :
  merge_prices d ip ep = Returns pd ->
  List.length ip = List.length d /\ List.length ep = List.length d /\
  pd = with_prices d ip ep.
Proof.
  unfold merge_prices.
  destruct (List.length ip =? List.length d)%nat eqn:Ei; [|discriminate].
  destruct (List.length ep =? List.length d)%nat eqn:Ee; [|discriminate].
  cbn [andb]. intros H. injection H as <-.
  apply Nat.eqb_eq in Ei, Ee. repeat split; assumption.
Qed.

Lemma numbers_of_numbers (values : list cell) :
  Forall is_number values -> exists l, numbers values = Some l.
Proof.
  induction values as [|c values IH]; intros H.
  - exists []. reflexivity.
  - apply Forall_cons_iff in H as (Hc & Hrest). destruct (IH Hrest) as (l & E).
    destruct c as [v|]; [|exfalso; apply Hc; reflexivity].
    exists (v :: l). cbn [numbers]. rewrite E. reflexivity.
Qed.

Lemma non_negative_is_number (values : list cell) :
  Forall non_negative_number values -> Forall is_number values.
Proof.
  apply Forall_impl. intros c (v & -> & _). discriminate.
Qed.

(** A frame [validate_timeseries] accepts has its four columns, without NaN. *)
Lemma acceptable_input_columns (df : InputFrame) (m : Z) :
  acceptable_input df m -> exists cols, required_columns df = Some cols.
Proof.
  intros (_ & (cl & El & Hl) & (cp & Ep & Hp) & (ci & Ei & Hi) & (ce & Ee & He)).
  unfold required_columns. rewrite El, Ep, Ei, Ee.
  destruct (numbers_of_numbers cl (non_negative_is_number _ Hl)) as (l & ->).
  destruct (numbers_of_numbers cp (non_negative_is_number _ Hp)) as (p & ->).
  destruct (numbers_of_numbers ci Hi) as (i & ->).
  destruct (numbers_of_numbers ce He) as (e & ->).
  eexists. reflexivity.
Qed.

Section BacktestFacts.

Variable highs : Model -> Q -> solver_run.
Variable solve_time : Q.

(** X25: [run_backtest] never uses the flat prices of the tariff:
    changing them changes nothing of what it returns or raises, and a
    frame without one of the price columns is rejected with the
    "missing required columns" error even when the tariff gives flat
    prices, which [build_model] alone would have fallen back to. *)
Theorem run_backtest_ignores_flat_prices
    (site : SiteConfig) (run : RunConfig) (df : InputFrame)
    (flat_import flat_export : option Q) :
  run_backtest highs solve_time site (with_flat_prices run flat_import flat_export) df
  = run_backtest highs solve_time site run df /\
  (has_column df "import_price_gbp_per_kwh" = false \/
   has_column df "export_price_gbp_per_kwh" = false ->
   exists missing,
     run_backtest highs solve_time site run df
     = BacktestRaises (InputValidationError (MissingRequiredColumns missing))).
Proof.
  split.
  - unfold run_backtest. cbn [timestep_minutes with_flat_prices].
    destruct (validate_timeseries df (timestep_minutes run)); [|reflexivity].
    destruct (frame_len df =? 0)%nat; [reflexivity|].
    destruct (required_columns df) as [[[[l p] i] e]|]; [|reflexivity].
    reflexivity.
  - intros Hmiss. unfold run_backtest, validate_timeseries. cbv zeta.
    destruct (filter (fun col => negb (has_column df col)) REQUIRED_INPUT_COLUMNS)
      as [|c cs] eqn:E.
    + exfalso. apply missing_cols_none in E as (_ & _ & Hi & He).
      destruct Hmiss as [H|H]; congruence.
    + eexists. reflexivity.
Qed.

(** X26: a frame that passes [validate_timeseries] has its four required
    columns free of NaN, and [run_backtest] raises [IndexError] on such a
    frame when it has no row.  When [run_backtest] returns, the frame was
    acceptable and has rows; the dispatch it returns has one row per
    timestep, carries the price columns of the frame and is within the
    bounds [validate_dispatch_result] checks; and the two costs and the
    savings of the metrics are numbers, the savings being their
    difference. *)
Theorem run_backtest_outcome
    (site : SiteConfig) (run : RunConfig) (df : InputFrame) :
  (validate_timeseries df (timestep_minutes run) = InputAccepted ->
   exists cols, required_columns df = Some cols) /\
  (validate_timeseries df (timestep_minutes run) = InputAccepted ->
   frame_len df = 0%nat ->
   run_backtest highs solve_time site run df = BacktestRaises IndexError) /\
  (forall d M,
     frame_shape df ->
     run_backtest highs solve_time site run df = BacktestReturns (d, M) ->
     acceptable_input df (timestep_minutes run) /\
     (0 < frame_len df)%nat /\
     List.length d = frame_len df /\
     (exists load_kw pv_kw,
        required_columns df
        = Some (load_kw, pv_kw,
                map import_price_gbp_per_kwh d, map export_price_gbp_per_kwh d)) /\
     within_bounds (map flows d) site /\
     exists co cb,
       optimal_cost_gbp M = Finite co /\ baseline_cost_gbp M = Finite cb /\
       savings_gbp M = Finite (cb - co)).
Proof.
  split; [|split].
  - intros Hv. apply validate_timeseries_acceptable in Hv.
    apply (acceptable_input_columns df _ Hv).
  - intros Hv Hlen. unfold run_backtest. rewrite Hv, Hlen. reflexivity.
  - intros d M Hshape H. unfold run_backtest in H.
    destruct (validate_timeseries df (timestep_minutes run)) eqn:Ev; [|discriminate].
    destruct (frame_len df =? 0)%nat eqn:El; [discriminate|]. apply Nat.eqb_neq in El.
    destruct (required_columns df) as [[[[l p] i] e]|] eqn:Er; [|discriminate].
    apply propagate_Returns in H.
    apply bind_Returns in H as (model & Hm & H).
    apply bind_Returns in H as (solved & Hs & H). cbv zeta in H.
    apply bind_Returns in H as (u & Hv & H).
    apply bind_Returns in H as (pd & Hmerge & H).
    apply bind_Returns in H as (bl & Hbl & H).
    apply bind_Returns in H as (pbl & Hmb & H).
    injection H as <- <-.
    destruct (required_columns_lengths df l p i e Hshape Er) as (Hl & Hp & Hi & He).
    apply merge_prices_Returns in Hmerge as (Hi1 & He1 & ->).
    apply merge_prices_Returns in Hmb as (Hi2 & He2 & ->).
    destruct (with_prices_columns (fst solved) i e Hi1 He1) as (Hf & Hip & Hep & Hn).
    destruct (with_prices_columns bl i e Hi2 He2) as (_ & _ & _ & Hn2).
    split; [apply validate_timeseries_acceptable, Ev|].
    split; [lia|].
    split; [rewrite Hn; congruence|].
    split; [exists l, p; rewrite Hip, Hep; reflexivity|].
    split.
    { rewrite Hf. apply validate_accepts_iff_within_bounds. destruct u. exact Hv. }
    unfold compute_metrics. cbn [optimal_cost_gbp baseline_cost_gbp savings_gbp].
    destruct (compute_cost_finite (with_prices (fst solved) i e) site run
                (inject_Z (timestep_minutes run) / 60)) as (co & ->).
    { intros E. rewrite E in Hn. cbn in Hn. lia. }
    destruct (compute_cost_finite (with_prices bl i e) site run
                (inject_Z (timestep_minutes run) / 60)) as (cb & ->).
    { intros E. rewrite E in Hn2. cbn in Hn2. lia. }
    exists co, cb. repeat split; reflexivity.
Qed.

End BacktestFacts.

Lemma run_backtest_ignores_flat_prices_witness :
  exists missing,
    run_backtest idle_solver 0 default_site demand_run unpriced_frame
    = BacktestRaises (InputValidationError (MissingRequiredColumns missing)).
Proof.
  apply (proj2 (run_backtest_ignores_flat_prices idle_solver 0 default_site demand_run
                  unpriced_frame None None)).
  left. reflexivity.
Defined.

Lemma run_backtest_outcome_witness :
  run_backtest idle_solver 0 default_site demand_run empty_frame
  = BacktestRaises IndexError /\
  run_backtest idle_solver 0 default_site demand_run quarter_hour_frame
  = BacktestReturns (fst sample_backtest, snd sample_backtest) /\
  List.length (fst sample_backtest) = 2%nat /\
  within_bounds (map flows (fst sample_backtest)) default_site.
Proof.
  assert (Hrun : run_backtest idle_solver 0 default_site demand_run quarter_hour_frame
                 = BacktestReturns (fst sample_backtest, snd sample_backtest))
    by (vm_compute; reflexivity).
  assert (Hshape : frame_shape quarter_hour_frame) by (repeat constructor).
  split.
  - apply (proj1 (proj2 (run_backtest_outcome idle_solver 0 default_site demand_run
                           empty_frame)));
      reflexivity.
  - split; [exact Hrun|].
    destruct (proj2 (proj2 (run_backtest_outcome idle_solver 0 default_site demand_run
                              quarter_hour_frame))
                (fst sample_backtest) (snd sample_backtest) Hshape Hrun)
      as (_ & _ & Hlen & _ & Hw & _).
    split; [exact Hlen | exact Hw].
Defined.

(** ** Forecasts *)

(** A validated index is strictly increasing. *)
Lemma validated_index_sorted (stamps : list Z) :
  is_monotonic_increasing stamps = true -> has_duplicates stamps = false ->
  strictly_increasing stamps.
Proof.
  induction stamps as [|a rest IH]; intros Hm Hd; [exact I|].
  cbn [has_duplicates] in Hd. apply orb_false_iff in Hd as (Ha & Hd).
  assert (Hrest : is_monotonic_increasing rest = true).
  { destruct rest as [|b rest]; [reflexivity|].
    change (is_monotonic_increasing (a :: b :: rest))
      with ((a <=? b)%Z && is_monotonic_increasing (b :: rest)) in Hm.
    apply andb_true_iff in Hm as (_ & Hm). exact Hm. }
  specialize (IH Hrest Hd). split; [|exact IH].
  destruct rest as [|b rest]; [constructor|].
  change (is_monotonic_increasing (a :: b :: rest))
    with ((a <=? b)%Z && is_monotonic_increasing (b :: rest)) in Hm.
  apply andb_true_iff in Hm as (Hab & _). apply Z.leb_le in Hab.
  destruct IH as (Hb & _).
  assert (Hle : Forall (fun c => (a <= c)%Z) (b :: rest)).
  { constructor; [exact Hab|].
    apply (Forall_impl _ (fun c (Hc : (b < c)%Z) => Z.le_trans a b c Hab (Z.lt_le_incl _ _ Hc)) Hb). }
  apply Forall_forall. intros c Hc.
  rewrite Forall_forall in Hle. specialize (Hle c Hc).
  assert (Hne : (a =? c)%Z = false).
  { destruct (a =? c)%Z eqn:E; [|reflexivity].
    assert (existsb (Z.eqb a) (b :: rest) = true)
      by (apply existsb_exists; exists c; split; assumption).
    congruence. }
  apply Z.eqb_neq in Hne. lia.
Qed.

Section Rows.

Variable X : Type.

Implicit Types rows : list (Z * X).

Lemma count_leading_le (p : Z -> bool) (stamps : list Z) :
  (count_leading p stamps <= List.length stamps)%nat.
Proof.
  induction stamps as [|s rest IH]; cbn; [lia|].
  destruct (p s); cbn; lia.
Qed.

Lemma filter_rows_none (p : Z * X -> bool) rows :
  Forall (fun r => p r = false) rows -> filter p rows = [].
Proof.
  induction 1 as [|r rest Hr _ IH]; [reflexivity|].
  cbn. rewrite Hr. exact IH.
Qed.

Lemma keys_after rows (k : Z) :
  Forall (fun c => (k < c)%Z) (map fst rows) ->
  Forall (fun r => (k < fst r)%Z) rows.
Proof.
  rewrite Forall_map. exact (fun H => H).
Qed.

(** On a sorted index the label slice [a:b] holds the rows from [a] to
    [b], both included. *)
Lemma loc_slice rows (a b : Z) :
  strictly_increasing (map fst rows) ->
  iloc (searchsorted_left (map fst rows) a) (searchsorted_right (map fst rows) b) rows
  = filter (fun r => (a <=? fst r)%Z && (fst r <=? b)%Z) rows.
Proof.
  unfold searchsorted_left, searchsorted_right, iloc.
  induction rows as [|r rest IH]; intros Hs; [reflexivity|].
  cbn [map] in Hs. destruct Hs as (Hafter & Hs).
  apply keys_after in Hafter. specialize (IH Hs).
  cbn [map count_leading filter].
  destruct (fst r <? a)%Z eqn:Ea, (fst r <=? b)%Z eqn:Eb.
  - apply Z.ltb_lt in Ea.
    replace (a <=? fst r)%Z with false by (symmetry; apply Z.leb_gt; exact Ea).
    cbn [andb]. cbn [Nat.sub skipn]. exact IH.
  - apply Z.ltb_lt in Ea. apply Z.leb_gt in Eb.
    replace (a <=? fst r)%Z with false by (symmetry; apply Z.leb_gt; exact Ea).
    cbn [andb Nat.sub firstn]. symmetry. apply filter_rows_none.
    revert Hafter. apply Forall_impl. intros r' Hr'.
    apply andb_false_iff. right. apply Z.leb_gt. lia.
  - apply Z.ltb_ge in Ea. apply Z.leb_le in Eb.
    replace (a <=? fst r)%Z with true by (symmetry; apply Z.leb_le; exact Ea).
    cbn [andb Nat.sub skipn firstn]. f_equal.
    assert (E0 : count_leading (fun s => (s <? a)%Z) (map fst rest) = 0%nat).
    { destruct rest as [|r' rest']; [reflexivity|]. cbn [map count_leading].
      inversion Hafter as [|? ? Hr' _]; subst.
      replace (fst r' <? a)%Z with false by (symmetry; apply Z.ltb_ge; lia).
      reflexivity. }
    rewrite E0 in IH. rewrite Nat.sub_0_r in IH. cbn [skipn] in IH. exact IH.
  - apply Z.leb_gt in Eb. cbn [Nat.sub firstn skipn].
    rewrite andb_false_r. symmetry. apply filter_rows_none.
    revert Hafter. apply Forall_impl. intros r' Hr'.
    apply andb_false_iff. right. apply Z.leb_gt. lia.
Qed.

(** Leaving out the last row of the slice when it is at [b] gives the
    rows from [a] up to, not including, [b]. *)
Lemma drop_end rows (a b : Z) :
  strictly_increasing (map fst rows) ->
  (if (0 <? List.length (filter (fun r => (a <=? fst r)%Z && (fst r <=? b)%Z) rows))%nat
      && (b <=? last (map fst (filter (fun r => (a <=? fst r)%Z && (fst r <=? b)%Z) rows))
                     0)%Z
   then removelast (filter (fun r => (a <=? fst r)%Z && (fst r <=? b)%Z) rows)
   else filter (fun r => (a <=? fst r)%Z && (fst r <=? b)%Z) rows)
  = filter (fun r => in_window a b (fst r)) rows.
Proof.
  induction rows as [|r rest IH]; intros Hs; [reflexivity|].
  cbn [map] in Hs. destruct Hs as (Hafter & Hs).
  apply keys_after in Hafter. specialize (IH Hs).
  cbn [filter]. unfold in_window at 1.
  destruct ((a <=? fst r)%Z && (fst r <=? b)%Z) eqn:Ec.
  - apply andb_true_iff in Ec as (Ea & Eb). rewrite Ea. cbn [andb].
    apply Z.leb_le in Eb.
    destruct (filter (fun r0 => (a <=? fst r0)%Z && (fst r0 <=? b)%Z) rest)
      as [|r' sl] eqn:Esl.
    + assert (Enone : filter (fun r0 => in_window a b (fst r0)) rest = []).
      { destruct (filter (fun r0 => in_window a b (fst r0)) rest) as [|x l] eqn:E;
          [reflexivity|].
        assert (Hx : In x (filter (fun r0 => in_window a b (fst r0)) rest))
          by (rewrite E; left; reflexivity).
        apply filter_In in Hx as (Hin & Hw). unfold in_window in Hw.
        apply andb_true_iff in Hw as (Hw1 & Hw2). apply Z.ltb_lt in Hw2.
        assert (Hx : In x (filter (fun r0 => (a <=? fst r0)%Z && (fst r0 <=? b)%Z) rest)).
        { apply filter_In. split; [exact Hin|]. rewrite Hw1. apply Z.leb_le. lia. }
        rewrite Esl in Hx. contradiction. }
      rewrite Enone. cbn [List.length map last Nat.ltb Nat.leb andb fst].
      destruct (b <=? fst r)%Z eqn:Eend.
      * apply Z.leb_le in Eend.
        replace (fst r <? b)%Z with false by (symmetry; apply Z.ltb_ge; lia).
        reflexivity.
      * apply Z.leb_gt in Eend.
        replace (fst r <? b)%Z with true by (symmetry; apply Z.ltb_lt; lia).
        reflexivity.
    + assert (Hr' : In r' (filter (fun r0 => (a <=? fst r0)%Z && (fst r0 <=? b)%Z) rest))
        by (rewrite Esl; left; reflexivity).
      apply filter_In in Hr' as (Hin & Hc).
      apply andb_true_iff in Hc as (_ & Hb). apply Z.leb_le in Hb.
      rewrite Forall_forall in Hafter. specialize (Hafter r' Hin).
      replace (fst r <? b)%Z with true by (symmetry; apply Z.ltb_lt; lia).
      change (last (map fst (r :: r' :: sl)) 0%Z) with (last (map fst (r' :: sl)) 0%Z).
      change (0 <? List.length (r :: r' :: sl))%nat with true.
      change (0 <? List.length (r' :: sl))%nat with true in IH.
      cbn [andb] in *. rewrite <- IH.
      destruct (b <=? last (map fst (r' :: sl)) 0)%Z; reflexivity.
  - replace ((a <=? fst r)%Z && (fst r <? b)%Z) with false; [exact IH|].
    symmetry. apply andb_false_iff. apply andb_false_iff in Ec as [Ec|Ec].
    + left. exact Ec.
    + right. apply Z.leb_gt in Ec. apply Z.ltb_ge. lia.
Qed.

End Rows.

Lemma iloc_removelast {A : Type} (l : list A) (lo hi : nat) :
  (hi <= List.length l)%nat -> removelast (iloc lo hi l) = iloc lo (hi - 1) l.
Proof.
  intros Hhi. unfold iloc.
  destruct (hi - lo)%nat as [|n] eqn:E.
  - replace (hi - 1 - lo)%nat with 0%nat by lia. reflexivity.
  - replace (hi - 1 - lo)%nat with n by lia.
    apply removelast_firstn. rewrite length_skipn. lia.
Qed.

Lemma iloc_map {A B : Type} (f : A -> B) (l : list A) (lo hi : nat) :
  iloc lo hi (map f l) = map f (iloc lo hi l).
Proof.
  unfold iloc. rewrite skipn_map, firstn_map. reflexivity.
Qed.

Lemma filter_keys {A : Type} (p : Z -> bool) (rows : list (Z * A)) :
  map fst (filter (fun r => p (fst r)) rows) = filter p (map fst rows).
Proof.
  induction rows as [|r rest IH]; [reflexivity|].
  cbn. destruct (p (fst r)); cbn; rewrite IH; reflexivity.
Qed.

(** The rows the replay provider keeps, for an index and a column of
    its length. *)
Lemma replay_rows {A : Type} (rows : list (Z * A)) (a b : Z) :
  strictly_increasing (map fst rows) ->
  let stamps := map fst rows in
  let lo := searchsorted_left stamps a in
  let hi := searchsorted_right stamps b in
  let hi' :=
    if (0 <? List.length (iloc lo hi stamps))%nat && (b <=? last (iloc lo hi stamps) 0)%Z
    then (hi - 1)%nat
    else hi in
  iloc lo hi' rows = filter (fun r => in_window a b (fst r)) rows.
Proof.
  intros Hs stamps lo hi hi'.
  rewrite <- (drop_end A rows a b Hs), <- (loc_slice A rows a b Hs).
  fold stamps. fold lo. fold hi. subst hi'.
  unfold stamps at 1 2. rewrite !iloc_map, length_map. fold stamps.
  destruct ((0 <? List.length (iloc lo hi rows))%nat
            && (b <=? last (map fst (iloc lo hi rows)) 0)%Z).
  - symmetry. apply iloc_removelast.
    unfold hi, searchsorted_right.
    rewrite <- (length_map fst rows). apply count_leading_le.
  - reflexivity.
Qed.

Lemma replay_index (stamps : list Z) (a b : Z) :
  strictly_increasing stamps ->
  let lo := searchsorted_left stamps a in
  let hi := searchsorted_right stamps b in
  let hi' :=
    if (0 <? List.length (iloc lo hi stamps))%nat && (b <=? last (iloc lo hi stamps) 0)%Z
    then (hi - 1)%nat
    else hi in
  iloc lo hi' stamps = filter (in_window a b) stamps.
Proof.
  intros Hs.
  assert (Ek : map fst (combine stamps stamps) = stamps) by (apply combine_fst; reflexivity).
  pose proof (replay_rows (combine stamps stamps) a b) as H.
  rewrite Ek in H. specialize (H Hs). cbv zeta in *.
  apply (f_equal (map fst)) in H.
  rewrite <- iloc_map, filter_keys, Ek in H. exact H.
Qed.

Lemma replay_column {A : Type} (stamps : list Z) (values : list A) (a b : Z) :
  strictly_increasing stamps -> List.length values = List.length stamps ->
  let lo := searchsorted_left stamps a in
  let hi := searchsorted_right stamps b in
  let hi' :=
    if (0 <? List.length (iloc lo hi stamps))%nat && (b <=? last (iloc lo hi stamps) 0)%Z
    then (hi - 1)%nat
    else hi in
  iloc lo hi' values = rows_where (in_window a b) stamps values.
Proof.
  intros Hs Hlen.
  assert (Ek : map fst (combine stamps values) = stamps) by (apply combine_fst; exact Hlen).
  pose proof (replay_rows (combine stamps values) a b) as H.
  rewrite Ek in H. specialize (H Hs). cbv zeta in *.
  apply (f_equal (map snd)) in H.
  rewrite <- iloc_map, (combine_snd stamps values Hlen) in H. exact H.
Qed.

Lemma lookup_column_map (g : list cell -> list cell) (cols : list (string * list cell))
    (col : string) :
  lookup_column (map (fun c => (fst c, g (snd c))) cols) col
  = option_map g (lookup_column cols col).
Proof.
  induction cols as [|[name values] cols IH]; [reflexivity|].
  cbn. destruct (String.eqb name col); [reflexivity | exact IH].
Qed.

(** A frame made from an accepted one column by column, under the same
    names, is accepted when its index passes and the columns keep
    their values non-negative and free of NaN. *)
Lemma validate_timeseries_mapped (stamps stamps' : list Z) (cols : list (string * list cell))
    (g : list cell -> list cell) (m m' : Z) :
  validate_timeseries (history stamps cols) m = InputAccepted ->
  ((List.length stamps' <= 1)%nat \/
   ((0 < m')%Z /\ equally_spaced stamps' (Timedelta_minutes m'))) ->
  (forall col values, lookup_column cols col = Some values ->
                      any_negative values = false -> any_negative (g values) = false) ->
  (forall col values, lookup_column cols col = Some values ->
                      any_nan values = false -> any_nan (g values) = false) ->
  validate_timeseries
    {| index := DatetimeIndex stamps';
       columns := map (fun c => (fst c, g (snd c))) cols |} m' = InputAccepted.
Proof.
  intros H Hidx Hneg Hnan.
  apply validate_timeseries_checks in H.
  destruct H as ((H1 & H2 & H3 & H4) & _ & (N1 & N2) & (A1 & A2 & A3 & A4)).
  apply validate_timeseries_checks.
  unfold has_column, column_values in *. cbn [columns history index] in *.
  rewrite !lookup_column_map.
  destruct (lookup_column cols "load_kw") as [v1|] eqn:E1; [|discriminate].
  destruct (lookup_column cols "pv_kw") as [v2|] eqn:E2; [|discriminate].
  destruct (lookup_column cols "import_price_gbp_per_kwh") as [v3|] eqn:E3; [|discriminate].
  destruct (lookup_column cols "export_price_gbp_per_kwh") as [v4|] eqn:E4; [|discriminate].
  cbn [option_map].
  split; [repeat split|]. split.
  - exists stamps'. split; [reflexivity|].
    apply index_checks.
    destruct Hidx as [Hs|(Hp & Hsp)]; [left; exact Hs | right].
    split; [apply Timedelta_minutes_positive, Hp | exact Hsp].
  - split; [split|repeat split]; eauto.
Qed.

Lemma existsb_firstn {A : Type} (p : A -> bool) (n : nat) (l : list A) :
  existsb p l = false -> existsb p (firstn n l) = false.
Proof.
  revert l. induction n as [|n IH]; intros [|x l] H; try reflexivity.
  cbn in *. apply orb_false_iff in H as (Hx & Hl). rewrite Hx. apply IH, Hl.
Qed.

Lemma existsb_skipn {A : Type} (p : A -> bool) (n : nat) (l : list A) :
  existsb p l = false -> existsb p (skipn n l) = false.
Proof.
  revert l. induction n as [|n IH]; intros [|x l] H; try reflexivity; try exact H.
  cbn in *. apply orb_false_iff in H as (Hx & Hl). apply IH, Hl.
Qed.

Lemma existsb_iloc {A : Type} (p : A -> bool) (lo hi : nat) (l : list A) :
  existsb p l = false -> existsb p (iloc lo hi l) = false.
Proof.
  intros H. apply existsb_firstn, existsb_skipn, H.
Qed.

Lemma length_iloc {A : Type} (lo hi : nat) (l : list A) :
  List.length (iloc lo hi l) = Nat.min (hi - lo) (List.length l - lo).
Proof.
  unfold iloc. rewrite length_firstn, length_skipn. reflexivity.
Qed.

Lemma equally_spaced_iloc (stamps : list Z) (step : Z) (lo hi : nat) :
  equally_spaced stamps step -> equally_spaced (iloc lo hi stamps) step.
Proof.
  intros H i Hi. rewrite length_iloc in Hi. unfold iloc.
  rewrite !nth_firstn, !nth_skipn.
  replace (S i <? hi - lo)%nat with true by (symmetry; apply Nat.ltb_lt; lia).
  replace (i <? hi - lo)%nat with true by (symmetry; apply Nat.ltb_lt; lia).
  replace (lo + S i)%nat with (S (lo + i)) by lia.
  apply H. lia.
Qed.

(** X29: on a history whose index [validate_timeseries] would pass
    (increasing, no duplicates), the replay provider returns the rows
    whose timestamp [t] has [ts_now <= t < ts_now + horizon_hours], the
    end of the window left out, in every column; it raises [ValueError]
    exactly when there is no such row; and a forecast cut from a
    history that [validate_timeseries] accepts is accepted with the
    same timestep. *)
Theorem replay_forecast_is_the_window
    (stamps : list Z) (cols : list (string * list cell)) (ts_now horizon_hours : Z) :
  is_monotonic_increasing stamps = true ->
  has_duplicates stamps = false ->
  frame_shape (history stamps cols) ->
  let end_time := (ts_now + Timedelta_hours horizon_hours)%Z in
  (filter (in_window ts_now end_time) stamps = [] ->
   exists msg, HistoricalReplayProvider_forecast stamps cols ts_now horizon_hours
               = Raises (ValueError msg)) /\
  (filter (in_window ts_now end_time) stamps <> [] ->
   HistoricalReplayProvider_forecast stamps cols ts_now horizon_hours
   = Returns (replayed stamps cols ts_now end_time)) /\
  (forall m df,
      validate_timeseries (history stamps cols) m = InputAccepted ->
      HistoricalReplayProvider_forecast stamps cols ts_now horizon_hours = Returns df ->
      validate_timeseries df m = InputAccepted).
Proof.
  intros Hm Hd Hshape end_time.
  pose proof (validated_index_sorted stamps Hm Hd) as Hs.
  pose proof (replay_index stamps ts_now end_time Hs) as Hidx.
  unfold HistoricalReplayProvider_forecast. cbv zeta in *. fold end_time.
  set (lo := searchsorted_left stamps ts_now) in *.
  set (hi := if (0 <? List.length (iloc lo (searchsorted_right stamps end_time) stamps))%nat
                && (end_time <=? last (iloc lo (searchsorted_right stamps end_time) stamps) 0)%Z
             then (searchsorted_right stamps end_time - 1)%nat
             else searchsorted_right stamps end_time) in *.
  split; [|split].
  - intros E. rewrite Hidx, E. cbn. eexists. reflexivity.
  - intros E. rewrite Hidx.
    destruct (filter (in_window ts_now end_time) stamps) as [|s w] eqn:Ew; [congruence|].
    cbn [List.length Nat.eqb]. f_equal.
    unfold iloc_frame, replayed. rewrite Hidx, Ew. f_equal.
    apply map_ext_in. intros c Hc. f_equal.
    unfold frame_shape in Hshape. rewrite Forall_forall in Hshape.
    specialize (Hshape c Hc). cbn in Hshape.
    apply (replay_column stamps (snd c) ts_now end_time Hs Hshape).
  - intros m df Hv.
    destruct (List.length (iloc lo hi stamps) =? 0)%nat; [discriminate|].
    intros E. injection E as <-. unfold iloc_frame.
    apply (validate_timeseries_mapped stamps _ cols (iloc lo hi) m m Hv).
    + apply validate_timeseries_checks in Hv.
      destruct Hv as (_ & (st & Est & Hchecks) & _).
      cbn in Est. injection Est as <-.
      apply index_checks in Hchecks.
      destruct Hchecks as [Hshort|(Hp & Hsp)].
      * left. rewrite length_iloc. lia.
      * right. split; [apply Timedelta_minutes_positive, Hp|].
        apply equally_spaced_iloc, Hsp.
    + intros col values _. apply existsb_iloc.
    + intros col values _. apply existsb_iloc.
Qed.

Lemma replay_forecast_is_the_window_witness :
  HistoricalReplayProvider_forecast three_quarter_hours three_rows 900000000000 1
  = Returns (replayed three_quarter_hours three_rows 900000000000
                      (900000000000 + Timedelta_hours 1)).
Proof.
  refine (proj1 (proj2 (replay_forecast_is_the_window
                          three_quarter_hours three_rows 900000000000 1 _ _ _)) _).
  - reflexivity.
  - reflexivity.
  - repeat constructor.
  - vm_compute. discriminate.
Defined.

(** On a sorted index the rows not after [ts] are the leading ones. *)
Lemma searchsorted_right_spec (stamps : list Z) (ts : Z) :
  strictly_increasing stamps ->
  forall j, (j < List.length stamps)%nat ->
            ((j < searchsorted_right stamps ts)%nat <-> (nth j stamps 0 <= ts)%Z).
Proof.
  unfold searchsorted_right.
  induction stamps as [|s rest IH]; intros Hs j Hj; [cbn in Hj; lia|].
  destruct Hs as (Hafter & Hs). specialize (IH Hs).
  cbn [count_leading]. destruct (s <=? ts)%Z eqn:E.
  - apply Z.leb_le in E. destruct j as [|j]; cbn [nth].
    + split; [intros _; exact E | intros _; lia].
    + cbn [List.length] in Hj.
      assert (Hj' : (j < List.length rest)%nat) by lia.
      rewrite <- (IH j Hj'). lia.
  - apply Z.leb_gt in E. split; [lia|]. intros Hle. exfalso.
    destruct j as [|j]; cbn [nth] in Hle; [lia|].
    rewrite Forall_forall in Hafter.
    cbn [List.length] in Hj.
    assert (Hj' : (j < List.length rest)%nat) by lia.
    specialize (Hafter (nth j rest 0%Z) (nth_In rest 0%Z Hj')). lia.
Qed.

Lemma latest_is_last_prior (stamps : list Z) (ts : Z) (i : nat) :
  strictly_increasing stamps -> latest_not_after stamps ts i ->
  searchsorted_right stamps ts = S i.
Proof.
  intros Hs (Hi & Hle & Hmax).
  pose proof (searchsorted_right_spec stamps ts Hs) as Hspec.
  pose proof (count_leading_le (fun s => (s <=? ts)%Z) stamps) as Hc.
  fold (searchsorted_right stamps ts) in Hc.
  apply (Hspec i Hi) in Hle.
  destruct (Nat.eq_dec (searchsorted_right stamps ts) (S i)) as [E|E]; [exact E|].
  assert (HS : (S i < searchsorted_right stamps ts)%nat) by lia.
  assert (HSl : (S i < List.length stamps)%nat) by lia.
  apply (Hspec (S i) HSl) in HS. specialize (Hmax (S i) HSl HS). lia.
Qed.

Lemma get_loc_is_last_prior (stamps : list Z) (ts : Z) :
  strictly_increasing stamps -> existsb (Z.eqb ts) stamps = true ->
  searchsorted_right stamps ts = S (get_loc stamps ts).
Proof.
  unfold searchsorted_right.
  induction stamps as [|s rest IH]; intros Hs Hex; [discriminate|].
  destruct Hs as (Hafter & Hs). cbn [existsb] in Hex. cbn [count_leading get_loc].
  destruct (s =? ts)%Z eqn:E.
  - apply Z.eqb_eq in E. subst s. rewrite Z.leb_refl. f_equal.
    destruct rest as [|r rest]; [reflexivity|]. cbn [count_leading].
    inversion Hafter; subst.
    replace (r <=? ts)%Z with false by (symmetry; apply Z.leb_gt; lia). reflexivity.
  - rewrite Z.eqb_sym, E in Hex. cbn [orb] in Hex.
    rewrite (IH Hs Hex).
    apply existsb_exists in Hex as (x & Hx & Ex). apply Z.eqb_eq in Ex. subst x.
    rewrite Forall_forall in Hafter. specialize (Hafter ts Hx).
    replace (s <=? ts)%Z with true by (symmetry; apply Z.leb_le; lia). reflexivity.
Qed.

Lemma none_prior (stamps : list Z) (ts : Z) :
  Forall (fun s => (ts < s)%Z) stamps ->
  existsb (Z.eqb ts) stamps = false /\ searchsorted_right stamps ts = 0%nat.
Proof.
  intros H. split.
  - induction H as [|s rest Hs _ IH]; [reflexivity|].
    cbn [existsb]. rewrite IH.
    replace (ts =? s)%Z with false by (symmetry; apply Z.eqb_neq; lia). reflexivity.
  - unfold searchsorted_right. destruct H as [|s rest Hs _]; [reflexivity|].
    cbn [count_leading].
    replace (s <=? ts)%Z with false by (symmetry; apply Z.leb_gt; lia). reflexivity.
Qed.

Lemma prior_or_none (stamps : list Z) (ts : Z) :
  strictly_increasing stamps ->
  Forall (fun s => (ts < s)%Z) stamps \/ exists i, latest_not_after stamps ts i.
Proof.
  intros Hs.
  pose proof (searchsorted_right_spec stamps ts Hs) as Hspec.
  pose proof (count_leading_le (fun s => (s <=? ts)%Z) stamps) as Hc.
  fold (searchsorted_right stamps ts) in Hc.
  destruct (searchsorted_right stamps ts) as [|i] eqn:E.
  - left. apply Forall_forall. intros s Hin.
    apply (In_nth _ _ 0%Z) in Hin as (j & Hj & <-).
    destruct (Z.lt_ge_cases ts (nth j stamps 0%Z)) as [Hlt|Hge]; [exact Hlt|].
    apply (Hspec j Hj) in Hge. lia.
  - right. exists i. split; [lia|]. split.
    + apply (Hspec i); lia.
    + intros j Hj Hle. apply (Hspec j Hj) in Hle. lia.
Qed.

Lemma date_range_from_next (ts m : Z) (n : nat) :
  date_range (ts + Timedelta_minutes m) n m
  = map (fun k => (ts + Z.of_nat k * Timedelta_minutes m)%Z) (seq 1 n).
Proof.
  unfold date_range. rewrite <- seq_shift, map_map.
  apply map_ext. intros k. rewrite Znat.Nat2Z.inj_succ. lia.
Qed.

Lemma date_range_spaced (start m : Z) (n : nat) :
  equally_spaced (date_range start n m) (Timedelta_minutes m).
Proof.
  intros i Hi. unfold date_range in *. rewrite length_map, length_seq in Hi.
  rewrite !(nth_indep _ 0%Z (start + Z.of_nat 0 * Timedelta_minutes m)%Z)
    by (rewrite length_map, length_seq; lia).
  rewrite !(map_nth (fun k => (start + Z.of_nat k * Timedelta_minutes m)%Z)).
  rewrite !seq_nth by lia. cbn [Nat.add].
  rewrite Znat.Nat2Z.inj_succ. lia.
Qed.

Lemma existsb_repeat {A : Type} (p : A -> bool) (v : A) (n : nat) :
  p v = false -> existsb p (repeat v n) = false.
Proof.
  intros H. induction n as [|n IH]; [reflexivity|].
  cbn. rewrite H. exact IH.
Qed.

Lemma lookup_column_In (cols : list (string * list cell)) (col : string)
    (values : list cell) :
  lookup_column cols col = Some values -> exists name, In (name, values) cols.
Proof.
  induction cols as [|[name vs] cols IH]; [discriminate|].
  cbn. destruct (String.eqb name col).
  - intros E. injection E as <-. exists name. left. reflexivity.
  - intros H. destruct (IH H) as (nm & Hin). exists nm. right. exact Hin.
Qed.

(** X30: on a history whose index [validate_timeseries] would pass, with
    a positive timestep and a non-negative horizon, the persistence
    provider raises [ValueError] when every row is after [ts_now];
    otherwise it returns [horizon_hours * 60 // timestep_minutes] rows
    at [ts_now] plus one, two, ... timesteps, each a copy of the latest
    row of the history not after [ts_now]; and for a history that
    [validate_timeseries] accepts, with whatever timestep, the
    forecast is accepted with the provider's timestep. *)
Theorem persistence_forecast_repeats_latest_row
    (negative_periods : outcome InputFrame)
    (stamps : list Z) (cols : list (string * list cell))
    (timestep_minutes ts_now horizon_hours : Z) :
  is_monotonic_increasing stamps = true ->
  has_duplicates stamps = false ->
  (0 < timestep_minutes)%Z ->
  (0 <= horizon_hours)%Z ->
  let n := Z.to_nat (horizon_hours * 60 / timestep_minutes) in
  (Forall (fun s => (ts_now < s)%Z) stamps ->
   exists msg, PersistenceProvider_forecast negative_periods stamps cols timestep_minutes
                 ts_now horizon_hours = Raises (ValueError msg)) /\
  (forall i, latest_not_after stamps ts_now i ->
             PersistenceProvider_forecast negative_periods stamps cols timestep_minutes
               ts_now horizon_hours
             = Returns (persisted cols i ts_now timestep_minutes n)) /\
  (forall m df,
      frame_shape (history stamps cols) ->
      validate_timeseries (history stamps cols) m = InputAccepted ->
      PersistenceProvider_forecast negative_periods stamps cols timestep_minutes
        ts_now horizon_hours = Returns df ->
      validate_timeseries df timestep_minutes = InputAccepted).
Proof.
  intros Hm Hd Htm Hh n.
  pose proof (validated_index_sorted stamps Hm Hd) as Hs.
  assert (Hnone : Forall (fun s => (ts_now < s)%Z) stamps ->
                  exists msg, PersistenceProvider_forecast negative_periods stamps cols
                                timestep_minutes ts_now horizon_hours
                              = Raises (ValueError msg)).
  { intros Hall. destruct (none_prior stamps ts_now Hall) as (Hex & Hc).
    unfold PersistenceProvider_forecast. rewrite Hex, Hc. cbn. eexists. reflexivity. }
  assert (Hlatest : forall i, latest_not_after stamps ts_now i ->
             PersistenceProvider_forecast negative_periods stamps cols timestep_minutes
               ts_now horizon_hours
             = Returns (persisted cols i ts_now timestep_minutes n)).
  { intros i Hi.
    pose proof (latest_is_last_prior stamps ts_now i Hs Hi) as Hc.
    unfold PersistenceProvider_forecast.
    destruct (existsb (Z.eqb ts_now) stamps) eqn:Eex; cbn [negb]; cbv zeta;
      [ replace (get_loc stamps ts_now) with i
          by (pose proof (get_loc_is_last_prior stamps ts_now Hs Eex); lia)
      | rewrite Hc; cbn [Nat.eqb]; replace (S i - 1)%nat with i by lia ];
      cbn [bind];
      (replace (timestep_minutes =? 0)%Z with false by (symmetry; apply Z.eqb_neq; lia));
      cbn [bind]; rewrite Z.quot_div_nonneg by lia;
      (replace (horizon_hours * 60 / timestep_minutes <? 0)%Z with false
        by (symmetry; apply Z.ltb_ge; apply Z.div_pos; lia));
      fold n; unfold persisted; rewrite date_range_from_next; reflexivity. }
  split; [exact Hnone|]. split; [exact Hlatest|].
  intros m df Hshape Hv Hdf.
  destruct (prior_or_none stamps ts_now Hs) as [Hall|(i & Hi)].
  { destruct (Hnone Hall) as (msg & E). congruence. }
  rewrite (Hlatest i Hi) in Hdf. injection Hdf as <-.
  unfold persisted. rewrite <- date_range_from_next.
  apply (validate_timeseries_mapped stamps _ cols
           (fun values => repeat (nth i values None) n) m timestep_minutes Hv).
  - right. split; [exact Htm | apply date_range_spaced].
  - intros col values _ Hneg. apply existsb_repeat.
    destruct (Nat.lt_ge_cases i (List.length values)) as [Hlt|Hge].
    + apply (existsb_nth _ _ None Hlt Hneg).
    + rewrite nth_overflow by exact Hge. reflexivity.
  - intros col values Hcol Hnan. apply existsb_repeat.
    assert (Hlen : List.length values = List.length stamps)
      by (apply (frame_shape_lookup (history stamps cols) col values Hshape Hcol)).
    destruct Hi as (Hi & _). rewrite <- Hlen in Hi.
    apply (existsb_nth _ _ None Hi Hnan).
Qed.

Lemma persistence_forecast_repeats_latest_row_witness :
  PersistenceProvider_forecast NonFinite three_quarter_hours three_rows 15 1000000000000 1
  = Returns (persisted three_rows 1 1000000000000 15 4).
Proof.
  refine (proj1 (proj2 (persistence_forecast_repeats_latest_row
                          NonFinite three_quarter_hours three_rows 15 1000000000000 1
                          _ _ _ _)) 1%nat _).
  - reflexivity.
  - reflexivity.
  - lia.
  - lia.
  - unfold latest_not_after, three_quarter_hours. cbn [List.length].
    split; [lia|]. split; [cbn; lia|].
    intros [|[|[|j]]] Hj Hle; cbn in *; lia.
Defined.

End EngineFacts.

(** * Properties of the frontier generator *)

Module FrontierFacts.

Import MultiObjective FrontierSpec.

(** ** Operating-point selection *)

Lemma Qdiv_le_cancel (a b d : Q) : 0 < d -> a / d <= b / d -> a <= b.
Proof.
  intros Hd H. unfold Qdiv in H.
  apply (Qmult_le_r a b (/ d)); [apply Qinv_lt_0_compat; exact Hd | exact H].
Qed.

(** The fold behind [min(xs, key=...)] returns a member with the least key. *)
Lemma fold_min_by_least {A : Type} (key : A -> Q) (rest : list A) :
  forall x,
    let r := fold_left (fun best y => if Qlt_bool (key y) (key best) then y else best)
                       rest x in
    In r (x :: rest) /\ forall y, In y (x :: rest) -> key r <= key y.
Proof.
  induction rest as [|z rest IH]; intros x; cbn zeta.
  - cbn. split; [left; reflexivity|]. intros y [<-|[]]. apply Qle_refl.
  - cbn [fold_left].
    destruct (Qlt_bool (key z) (key x)) eqn:E.
    + apply Qlt_bool_iff in E.
      destruct (IH z) as [Hin Hle]. split.
      * destruct Hin as [<-|Hin]; [right; left; reflexivity | right; right; exact Hin].
      * intros y [<-|[<-|Hy]].
        -- apply Qle_trans with (key z); [apply Hle; left; reflexivity | apply Qlt_le_weak, E].
        -- apply Hle. left. reflexivity.
        -- apply Hle. right. exact Hy.
    + apply Qlt_bool_false_iff in E.
      destruct (IH x) as [Hin Hle]. split.
      * destruct Hin as [<-|Hin]; [left; reflexivity | right; right; exact Hin].
      * intros y [<-|[<-|Hy]].
        -- apply Hle. left. reflexivity.
        -- apply Qle_trans with (key x); [apply Hle; left; reflexivity | exact E].
        -- apply Hle. right. exact Hy.
Qed.

Lemma py_min_by_least {A : Type} (key : A -> Q) (xs : list A) :
  xs <> [] ->
  exists r, py_min_by key xs = Returns r /\ In r xs /\
            forall y, In y xs -> key r <= key y.
Proof.
  destruct xs as [|x rest]; [congruence|]. intros _.
  eexists. split; [reflexivity|]. apply (fold_min_by_least key rest x).
Qed.

Lemma fold_max_greatest (rest : list Q) :
  forall x,
    let r := fold_left (fun best y => if Qlt_bool best y then y else best) rest x in
    In r (x :: rest) /\ forall y, In y (x :: rest) -> y <= r.
Proof.
  induction rest as [|z rest IH]; intros x; cbn zeta.
  - cbn. split; [left; reflexivity|]. intros y [<-|[]]. apply Qle_refl.
  - cbn [fold_left].
    destruct (Qlt_bool x z) eqn:E.
    + apply Qlt_bool_iff in E.
      destruct (IH z) as [Hin Hle]. split.
      * destruct Hin as [<-|Hin]; [right; left; reflexivity | right; right; exact Hin].
      * intros y [<-|[<-|Hy]].
        -- apply Qle_trans with z; [apply Qlt_le_weak, E | apply Hle; left; reflexivity].
        -- apply Hle. left. reflexivity.
        -- apply Hle. right. exact Hy.
    + apply Qlt_bool_false_iff in E.
      destruct (IH x) as [Hin Hle]. split.
      * destruct Hin as [<-|Hin]; [left; reflexivity | right; right; exact Hin].
      * intros y [<-|[<-|Hy]].
        -- apply Hle. left. reflexivity.
        -- apply Qle_trans with x; [exact E | apply Hle; left; reflexivity].
        -- apply Hle. right. exact Hy.
Qed.

Lemma py_max_greatest (xs : list Q) :
  xs <> [] ->
  exists r, py_max xs = Returns r /\ In r xs /\ forall y, In y xs -> y <= r.
Proof.
  destruct xs as [|x rest]; [congruence|]. intros _.
  eexists. split; [reflexivity|]. apply (fold_max_greatest rest x).
Qed.

(** The spread [max - min + 1e-9] of a column of the front is positive. *)
Lemma spread_positive (xs : list Q) (lo hi : Q) :
  py_min xs = Returns lo -> py_max xs = Returns hi ->
  0 < hi - lo + (1 # 1000000000).
Proof.
  intros Hlo Hhi.
  destruct xs as [|x rest]; [discriminate|].
  destruct (py_min_by_least (fun v => v) (x :: rest)) as (lo' & E1 & _ & Hmin); [discriminate|].
  destruct (py_max_greatest (x :: rest)) as (hi' & E2 & _ & Hmax); [discriminate|].
  unfold py_min in Hlo. rewrite E1 in Hlo. rewrite E2 in Hhi.
  injection Hlo as <-. injection Hhi as <-.
  assert (lo' <= x) by (apply Hmin; left; reflexivity).
  assert (x <= hi') by (apply Hmax; left; reflexivity).
  lra.
Qed.

(** The minimum by [f] of a front, through its column [map f front]. *)
Lemma least_in_column (f : ParetoPoint -> Q) (front : list ParetoPoint)
    (p : ParetoPoint) (m : Q) :
  In p front -> (forall q, In q front -> f p <= f q) ->
  py_min (map f front) = Returns m -> f p == m.
Proof.
  intros Hp Hle Hm.
  destruct (py_min_by_least (fun v => v) (map f front)) as (m' & E & Hin & Hmin).
  { destruct front; [contradiction | discriminate]. }
  unfold py_min in Hm. rewrite E in Hm. injection Hm as <-.
  apply in_map_iff in Hin. destruct Hin as (q & Hq & Hqin).
  apply Qle_antisym.
  - rewrite <- Hq. apply Hle, Hqin.
  - apply Hmin. apply in_map. exact Hp.
Qed.

(** C7: on a non-empty front, preference 0 selects a point whose energy
    cost is the least of the front (it equals the [e_min] the function
    computes), and preference 1 selects a point whose peak demand is the
    least of the front (it equals [p_min]). *)
Theorem select_operating_point_boundary (front : list ParetoPoint) :
  front <> [] ->
  (exists p m,
      select_operating_point front 0 = Returns p /\
      py_min (map energy_cost front) = Returns m /\
      In p front /\ energy_cost p == m /\
      forall q, In q front -> energy_cost p <= energy_cost q) /\
  (exists p m,
      select_operating_point front 1 = Returns p /\
      py_min (map peak_demand_kw front) = Returns m /\
      In p front /\ peak_demand_kw p == m /\
      forall q, In q front -> peak_demand_kw p <= peak_demand_kw q).
Proof.
  intros Hne.
  assert (Hne_e : map energy_cost front <> []) by (destruct front; [congruence | discriminate]).
  assert (Hne_p : map peak_demand_kw front <> []) by (destruct front; [congruence | discriminate]).
  destruct (py_min_by_least (fun v => v) _ Hne_e) as (e_min & Ee1 & _ & _).
  destruct (py_max_greatest _ Hne_e) as (e_max & Ee2 & _ & _).
  destruct (py_min_by_least (fun v => v) _ Hne_p) as (p_min & Ep1 & _ & _).
  destruct (py_max_greatest _ Hne_p) as (p_max & Ep2 & _ & _).
  fold (py_min (map energy_cost front)) in Ee1.
  fold (py_min (map peak_demand_kw front)) in Ep1.
  pose proof (spread_positive _ _ _ Ee1 Ee2) as He.
  pose proof (spread_positive _ _ _ Ep1 Ep2) as Hp.
  split.
  - destruct (py_min_by_least (score 0 e_min e_max p_min p_max) front Hne)
      as (p & Esel & Hin & Hleast).
    assert (Hmin : forall q, In q front -> energy_cost p <= energy_cost q).
    { intros q Hq. specialize (Hleast q Hq). unfold score in Hleast.
      apply (Qdiv_le_cancel (energy_cost p - e_min) (energy_cost q - e_min)) in He as Hc.
      - lra.
      - lra. }
    exists p, e_min. repeat split; try assumption.
    + unfold select_operating_point.
      change (Qeq_bool 0 (1 # 2)) with false. cbv iota.
      rewrite Ee1, Ee2, Ep1, Ep2. cbn [bind]. exact Esel.
    + apply (least_in_column energy_cost front p e_min Hin Hmin Ee1).
  - destruct (py_min_by_least (score 1 e_min e_max p_min p_max) front Hne)
      as (p & Esel & Hin & Hleast).
    assert (Hmin : forall q, In q front -> peak_demand_kw p <= peak_demand_kw q).
    { intros q Hq. specialize (Hleast q Hq). unfold score in Hleast.
      apply (Qdiv_le_cancel (peak_demand_kw p - p_min) (peak_demand_kw q - p_min)) in Hp as Hc.
      - lra.
      - lra. }
    exists p, p_min. repeat split; try assumption.
    + unfold select_operating_point.
      change (Qeq_bool 1 (1 # 2)) with false. cbv iota.
      rewrite Ee1, Ee2, Ep1, Ep2. cbn [bind]. exact Esel.
    + apply (least_in_column peak_demand_kw front p p_min Hin Hmin Ep1).
Qed.

Lemma select_operating_point_boundary_witness :
  sample_front <> [] /\
  (exists p m,
      select_operating_point sample_front 0 = Returns p /\
      py_min (map energy_cost sample_front) = Returns m /\
      In p sample_front /\ energy_cost p == m /\
      forall q, In q sample_front -> energy_cost p <= energy_cost q) /\
  (exists p m,
      select_operating_point sample_front 1 = Returns p /\
      py_min (map peak_demand_kw sample_front) = Returns m /\
      In p sample_front /\ peak_demand_kw p == m /\
      forall q, In q sample_front -> peak_demand_kw p <= peak_demand_kw q).
Proof.
  split; [discriminate|].
  apply (select_operating_point_boundary sample_front). discriminate.
Defined.

(** ** The epsilon sweep *)

Lemma last_point_snoc (front : list ParetoPoint) (p : ParetoPoint) :
  last_point (front ++ [p]) = Some p.
Proof.
  unfold last_point. rewrite rev_unit. reflexivity.
Qed.

Lemma last_point_cons (a b : ParetoPoint) (rest : list ParetoPoint) :
  last_point (a :: b :: rest) = last_point (b :: rest).
Proof.
  unfold last_point. cbn [rev].
  destruct (rev rest) as [|z zs]; reflexivity.
Qed.

Lemma neighbours_apart_snoc (p : ParetoPoint) (front : list ParetoPoint) :
  neighbours_apart front ->
  (forall prev, last_point front = Some prev ->
                (1 # 1000000) < Qabs (energy_cost p - energy_cost prev)) ->
  neighbours_apart (front ++ [p]).
Proof.
  induction front as [|a [|b rest] IH]; intros Hap Hlast.
  - exact I.
  - cbn. split; [apply Hlast; reflexivity | exact I].
  - destruct Hap as [Hab Hrest].
    change ((a :: b :: rest) ++ [p]) with (a :: (b :: rest) ++ [p]).
    change (((b :: rest) ++ [p])) with (b :: (rest ++ [p])).
    split; [exact Hab|].
    apply IH; [exact Hrest|].
    intros prev Hprev. apply Hlast. rewrite last_point_cons. exact Hprev.
Qed.

Lemma snoc_not_same {A : Type} (l : list A) (x : A) : l ++ [x] <> l.
Proof.
  intro H. apply (f_equal (@List.length A)) in H.
  rewrite length_app in H. cbn in H. lia.
Qed.

Section Sweep.

Variable linprog :
  Config -> list Q -> list Q -> list Q -> list Q -> Q -> option (Q * list Q).

Lemma sweep_step_apart (front : list ParetoPoint) (point : option ParetoPoint) :
  neighbours_apart front -> neighbours_apart (sweep_step front point).
Proof.
  intros Hap. destruct point as [p|]; [|exact Hap].
  unfold sweep_step. destruct (accepts front (Some p)) eqn:E; [|exact Hap].
  apply neighbours_apart_snoc; [exact Hap|].
  intros prev Hprev. unfold accepts in E. rewrite Hprev in E.
  apply Qlt_bool_iff. exact E.
Qed.

Lemma sweep_apart (solve : Q -> outcome (option ParetoPoint)) (epsilons : list Q) :
  forall front result,
    neighbours_apart front ->
    sweep solve epsilons front = Returns result ->
    neighbours_apart result.
Proof.
  induction epsilons as [|eps rest IH]; intros front result Hap Hrun.
  - cbn in Hrun. injection Hrun as <-. exact Hap.
  - cbn [sweep] in Hrun. destruct (solve eps) as [point| |]; cbn [bind] in Hrun;
      try discriminate.
    apply (IH _ _ (sweep_step_apart front point Hap) Hrun).
Qed.

(** C8: in the sweep a solved point is appended exactly when the front
    is empty or its energy cost differs from the last accepted point's by
    more than 1e-6 (an unsolved epsilon appends nothing); hence every two
    consecutive points of the front [compute_pareto_front] returns differ
    in energy cost by more than 1e-6. *)
Theorem sweep_appends_only_distinct_costs :
  (forall front p,
      (sweep_step front (Some p) = front ++ [p] <->
       (front = [] \/
        exists prev, last_point front = Some prev /\
                     (1 # 1000000) < Qabs (energy_cost p - energy_cost prev))) /\
      (sweep_step front (Some p) = front ++ [p] \/ sweep_step front (Some p) = front)) /\
  (forall front, sweep_step front None = front) /\
  (forall cfg load pv import_price export_price n_points front,
      compute_pareto_front linprog cfg load pv import_price export_price n_points
        = Returns front ->
      neighbours_apart front).
Proof.
  split; [|split].
  - intros front p. split.
    + unfold sweep_step, accepts.
      destruct (last_point front) as [prev|] eqn:El.
      * destruct (Qlt_bool (1 # 1000000) (Qabs (energy_cost p - energy_cost prev))) eqn:E.
        -- split; [|reflexivity]. intros _. right. exists prev. split; [reflexivity|].
           apply Qlt_bool_iff. exact E.
        -- split.
           ++ intro H. symmetry in H. exfalso. apply (snoc_not_same _ _ H).
           ++ intros [->|(prev' & Hp & Hlt)]; [discriminate|].
              injection Hp as <-. apply Qlt_bool_iff in Hlt. congruence.
      * split; [|reflexivity]. intros _. left.
        unfold last_point in El. destruct (rev front) eqn:Er; [|discriminate].
        apply (f_equal (@rev ParetoPoint)) in Er. rewrite rev_involutive in Er. exact Er.
    + unfold sweep_step. destruct (accepts front (Some p)); [left|right]; reflexivity.
  - reflexivity.
  - intros cfg load pv import_price export_price n_points front Hrun.
    unfold compute_pareto_front in Hrun.
    apply bind_Returns in Hrun as (net & _ & Hrun).
    apply bind_Returns in Hrun as (top & _ & Hrun).
    apply bind_Returns in Hrun as (bounds & _ & Hrun).
    apply bind_Returns in Hrun as (unc & _ & Hrun).
    apply (sweep_apart _ _ [] front I Hrun).
Qed.

End Sweep.

(** Twelve epsilons are swept; the last two buy the same energy cost and
    are collapsed into one point. *)
Lemma sweep_appends_only_distinct_costs_witness :
  compute_pareto_front toy_linprog toy_config [3] [0] [1 # 10] [0] 12 = Returns toy_front /\
  List.length toy_front = 11%nat /\
  neighbours_apart toy_front.
Proof.
  split; [vm_compute; reflexivity|]. split; [reflexivity|].
  apply (proj2 (proj2 (sweep_appends_only_distinct_costs toy_linprog))
           toy_config [3] [0] [1 # 10] [0] 12%nat toy_front).
  vm_compute. reflexivity.
Defined.

(** ** More on operating-point selection *)

Lemma fold_min_by_first {A : Type} (key : A -> Q) (rest : list A) :
  forall x,
    first_least key (x :: rest)
      (fold_left (fun best y => if Qlt_bool (key y) (key best) then y else best) rest x).
Proof.
  induction rest as [|z rest IH]; intros x; cbn [fold_left].
  - exists [], []. repeat split; intros q [].
  - destruct (Qlt_bool (key z) (key x)) eqn:E.
    + apply Qlt_bool_iff in E.
      specialize (IH z). revert IH.
      generalize (fold_left (fun best y => if Qlt_bool (key y) (key best) then y else best)
                            rest z).
      intros r (before & after & Heq & Hb & Ha).
      exists (x :: before), after. split; [cbn [app]; rewrite <- Heq; reflexivity|].
      split; [|exact Ha].
      intros q [<-|Hq]; [|apply Hb, Hq].
      destruct before as [|b before]; cbn [app] in Heq; injection Heq as Hz _.
      * rewrite <- Hz. exact E.
      * apply Qlt_trans with (key z); [apply Hb; left; symmetry; exact Hz | exact E].
    + apply Qlt_bool_false_iff in E.
      specialize (IH x). revert IH.
      generalize (fold_left (fun best y => if Qlt_bool (key y) (key best) then y else best)
                            rest x).
      intros r (before & after & Heq & Hb & Ha).
      destruct before as [|b before]; cbn [app] in Heq; injection Heq as Hx Hrest.
      * exists [], (z :: after). split; [cbn [app]; rewrite <- Hx, Hrest; reflexivity|].
        split; [intros q []|].
        intros q [<-|Hq]; [rewrite <- Hx; exact E | apply Ha, Hq].
      * exists (b :: z :: before), after.
        split; [cbn [app]; rewrite <- Hx, Hrest; reflexivity|].
        split; [|exact Ha].
        intros q [<-|[<-|Hq]].
        -- apply Hb. left. reflexivity.
        -- apply Qlt_le_trans with (key x); [apply Hb; left; symmetry; exact Hx | exact E].
        -- apply Hb. right. exact Hq.
Qed.

Lemma py_min_by_first {A : Type} (key : A -> Q) (xs : list A) (r : A) :
  py_min_by key xs = Returns r -> first_least key xs r.
Proof.
  destruct xs as [|x rest]; [discriminate|]. intros H. injection H as <-.
  apply fold_min_by_first.
Qed.

Lemma first_least_member {A : Type} (key : A -> Q) (xs : list A) (p : A) :
  first_least key xs p -> In p xs /\ forall q, In q xs -> key p <= key q.
Proof.
  intros (before & after & -> & Hb & Ha). split.
  - apply in_or_app. right. left. reflexivity.
  - intros q Hq. apply in_app_or in Hq as [Hq|[<-|Hq]].
    + apply Qlt_le_weak, Hb, Hq.
    + apply Qle_refl.
    + apply Ha, Hq.
Qed.

Lemma py_min_raises_on_empty :
  py_min [] = Raises (ValueError "min() arg is an empty sequence").
Proof. reflexivity. Qed.

Lemma select_operating_point_scores (front : list ParetoPoint) (preference : Q)
    (p : ParetoPoint) :
  ~ preference == 1 # 2 ->
  select_operating_point front preference = Returns p ->
  exists e_min e_max p_min p_max,
    0 < e_max - e_min + (1 # 1000000000) /\
    0 < p_max - p_min + (1 # 1000000000) /\
    first_least (score preference e_min e_max p_min p_max) front p.
Proof.
  intros Hpref H. unfold select_operating_point in H.
  rewrite (EngineFacts.Qeq_bool_false _ _ Hpref) in H.
  apply bind_Returns in H as (e_min & Ee1 & H).
  apply bind_Returns in H as (e_max & Ee2 & H).
  apply bind_Returns in H as (p_min & Ep1 & H).
  apply bind_Returns in H as (p_max & Ep2 & H).
  exists e_min, e_max, p_min, p_max.
  split; [apply (spread_positive _ _ _ Ee1 Ee2)|].
  split; [apply (spread_positive _ _ _ Ep1 Ep2)|].
  apply py_min_by_first, H.
Qed.

Lemma score_difference (preference e_min e_max p_min p_max : Q) (p q : ParetoPoint) :
  0 < e_max - e_min + (1 # 1000000000) ->
  0 < p_max - p_min + (1 # 1000000000) ->
  score preference e_min e_max p_min p_max p - score preference e_min e_max p_min p_max q
  == (1 - preference) * ((energy_cost p - energy_cost q)
                         / (e_max - e_min + (1 # 1000000000)))
     + preference * ((peak_demand_kw p - peak_demand_kw q)
                     / (p_max - p_min + (1 # 1000000000))).
Proof.
  intros He Hp. unfold score. cbv zeta. field. split; lra.
Qed.

Lemma Qdiv_pos (a d : Q) : 0 < a -> 0 < d -> 0 < a / d.
Proof.
  intros Ha Hd. apply Qlt_shift_div_l; [exact Hd | lra].
Qed.

Lemma Qdiv_nonneg (a d : Q) : 0 <= a -> 0 < d -> 0 <= a / d.
Proof.
  intros Ha Hd. apply Qle_shift_div_l; [exact Hd | lra].
Qed.

(** X15: [select_operating_point] raises [ValueError] on an empty front
    whatever the preference, and otherwise returns a member of the front;
    at preference 0.5 that member is the first one with the least
    [total_cost]. *)
Theorem select_operating_point_returns_a_member
    (front : list ParetoPoint) (preference : Q) :
  (front = [] ->
   exists msg, select_operating_point front preference = Raises (ValueError msg)) /\
  (front <> [] ->
   exists p, select_operating_point front preference = Returns p /\ In p front /\
             (preference == 1 # 2 -> first_least total_cost front p)).
Proof.
  split.
  - intros ->. unfold select_operating_point.
    destruct (Qeq_bool preference (1 # 2)); eexists; reflexivity.
  - intros Hne. unfold select_operating_point.
    destruct (Qeq_bool preference (1 # 2)) eqn:E.
    + destruct (py_min_by_least total_cost front Hne) as (p & Hp & Hin & _).
      exists p. split; [exact Hp|]. split; [exact Hin|].
      intros _. apply py_min_by_first, Hp.
    + assert (Hne_e : map energy_cost front <> [])
        by (destruct front; [congruence | discriminate]).
      assert (Hne_p : map peak_demand_kw front <> [])
        by (destruct front; [congruence | discriminate]).
      destruct (py_min_by_least (fun v => v) _ Hne_e) as (e_min & Ee1 & _ & _).
      destruct (py_max_greatest _ Hne_e) as (e_max & Ee2 & _ & _).
      destruct (py_min_by_least (fun v => v) _ Hne_p) as (p_min & Ep1 & _ & _).
      destruct (py_max_greatest _ Hne_p) as (p_max & Ep2 & _ & _).
      fold (py_min (map energy_cost front)) in Ee1.
      fold (py_min (map peak_demand_kw front)) in Ep1.
      rewrite Ee1, Ee2, Ep1, Ep2. cbn [bind].
      destruct (py_min_by_least (score preference e_min e_max p_min p_max) front Hne)
        as (p & Hp & Hin & _).
      exists p. split; [exact Hp|]. split; [exact Hin|].
      intros Hhalf. apply Qeq_bool_neq in E. contradiction.
Qed.

Lemma select_operating_point_returns_a_member_witness :
  exists p, select_operating_point sample_front (1 # 2) = Returns p /\ In p sample_front /\
            first_least total_cost sample_front p.
Proof.
  destruct (proj2 (select_operating_point_returns_a_member sample_front (1 # 2)))
    as (p & Hp & Hin & Hfirst); [discriminate|].
  exists p. split; [exact Hp|]. split; [exact Hin|]. apply Hfirst. reflexivity.
Defined.

(** X16: for a preference between 0 and 1 other than 0.5, the point
    [select_operating_point] returns is beaten on both objectives by no
    point of the front; strictly between 0 and 1 it is not even
    dominated: no point is at least as good on both and better on one. *)
Theorem select_operating_point_is_not_dominated
    (front : list ParetoPoint) (preference : Q) (p : ParetoPoint) :
  0 <= preference -> preference <= 1 -> ~ preference == 1 # 2 ->
  select_operating_point front preference = Returns p ->
  (forall q, In q front -> ~ beats q p) /\
  (0 < preference -> preference < 1 -> forall q, In q front -> ~ dominates q p).
Proof.
  intros H0 H1 Hhalf Hsel.
  destruct (select_operating_point_scores front preference p Hhalf Hsel)
    as (e_min & e_max & p_min & p_max & He & Hp & Hfirst).
  apply first_least_member in Hfirst as (_ & Hleast).
  split.
  - intros q Hq (Hbe & Hbp). specialize (Hleast q Hq).
    pose proof (score_difference preference e_min e_max p_min p_max p q He Hp) as D.
    assert (De : 0 < (energy_cost p - energy_cost q) / (e_max - e_min + (1 # 1000000000)))
      by (apply Qdiv_pos; [lra | exact He]).
    assert (Dp : 0 < (peak_demand_kw p - peak_demand_kw q) / (p_max - p_min + (1 # 1000000000)))
      by (apply Qdiv_pos; [lra | exact Hp]).
    set (de := (energy_cost p - energy_cost q) / (e_max - e_min + (1 # 1000000000))) in *.
    set (dp := (peak_demand_kw p - peak_demand_kw q) / (p_max - p_min + (1 # 1000000000))) in *.
    assert (Ha : 0 <= (1 - preference) * de) by (apply Qmult_le_0_compat; lra).
    assert (Hb : 0 <= preference * dp) by (apply Qmult_le_0_compat; lra).
    destruct (Qlt_le_dec preference (1 # 2)) as [Hlow|Hhigh].
    + assert (0 < (1 - preference) * de) by (apply Qmult_lt_0_compat; lra). lra.
    + assert (0 < preference * dp) by (apply Qmult_lt_0_compat; lra). lra.
  - intros Hpos Hlt q Hq (Hde & Hdp & Hstrict). specialize (Hleast q Hq).
    pose proof (score_difference preference e_min e_max p_min p_max p q He Hp) as D.
    assert (De : 0 <= (energy_cost p - energy_cost q) / (e_max - e_min + (1 # 1000000000)))
      by (apply Qdiv_nonneg; [lra | exact He]).
    assert (Dp : 0 <= (peak_demand_kw p - peak_demand_kw q) / (p_max - p_min + (1 # 1000000000)))
      by (apply Qdiv_nonneg; [lra | exact Hp]).
    destruct Hstrict as [Hs|Hs].
    + assert (De' : 0 < (energy_cost p - energy_cost q) / (e_max - e_min + (1 # 1000000000)))
        by (apply Qdiv_pos; [lra | exact He]).
      set (de := (energy_cost p - energy_cost q) / (e_max - e_min + (1 # 1000000000))) in *.
      set (dp := (peak_demand_kw p - peak_demand_kw q) / (p_max - p_min + (1 # 1000000000))) in *.
      assert (0 < (1 - preference) * de) by (apply Qmult_lt_0_compat; lra).
      assert (0 <= preference * dp) by (apply Qmult_le_0_compat; lra).
      lra.
    + assert (Dp' : 0 < (peak_demand_kw p - peak_demand_kw q) / (p_max - p_min + (1 # 1000000000)))
        by (apply Qdiv_pos; [lra | exact Hp]).
      set (de := (energy_cost p - energy_cost q) / (e_max - e_min + (1 # 1000000000))) in *.
      set (dp := (peak_demand_kw p - peak_demand_kw q) / (p_max - p_min + (1 # 1000000000))) in *.
      assert (0 <= (1 - preference) * de) by (apply Qmult_le_0_compat; lra).
      assert (0 < preference * dp) by (apply Qmult_lt_0_compat; lra).
      lra.
Qed.

Lemma select_operating_point_is_not_dominated_witness :
  exists p, select_operating_point sample_front (1 # 4) = Returns p /\
            forall q, In q sample_front -> ~ dominates q p.
Proof.
  eexists. split; [vm_compute; reflexivity|].
  apply (select_operating_point_is_not_dominated sample_front (1 # 4)).
  - discriminate.
  - discriminate.
  - intros H. discriminate H.
  - vm_compute. reflexivity.
  - reflexivity.
  - reflexivity.
Defined.

(** ** Arrays *)

Lemma split_rows_length (rows cols : nat) (x : list Q) :
  List.length (split_rows rows cols x) = rows.
Proof.
  revert x. induction rows as [|r IH]; intros x; cbn [split_rows List.length].
  - reflexivity.
  - rewrite IH. reflexivity.
Qed.

Lemma split_rows_concat (rows cols : nat) :
  forall x, List.length x = (rows * cols)%nat ->
            List.concat (split_rows rows cols x) = x.
Proof.
  induction rows as [|r IH]; intros x Hx; cbn [split_rows List.concat].
  - destruct x; [reflexivity | discriminate].
  - rewrite IH; [apply firstn_skipn|].
    rewrite length_skipn, Hx. cbn [Nat.mul]. lia.
Qed.

Lemma split_rows_row_length (rows cols : nat) :
  forall x, List.length x = (rows * cols)%nat ->
            Forall (fun row => List.length row = cols) (split_rows rows cols x).
Proof.
  induction rows as [|r IH]; intros x Hx; cbn [split_rows].
  - constructor.
  - constructor.
    + rewrite length_firstn, Hx. cbn [Nat.mul]. lia.
    + apply IH. rewrite length_skipn, Hx. cbn [Nat.mul]. lia.
Qed.

Lemma linspace_length (start stop : Q) (num : nat) :
  List.length (linspace start stop num) = num.
Proof.
  destruct num as [|[|k]]; [reflexivity | reflexivity|].
  unfold linspace. rewrite length_map, length_seq. reflexivity.
Qed.

Lemma linspace_from_start (start stop : Q) (num : nat) (e : Q) :
  start <= stop -> In e (linspace start stop num) -> start <= e.
Proof.
  intros Hle Hin. destruct num as [|[|k]].
  - destruct Hin.
  - destruct Hin as [<-|[]]. apply Qle_refl.
  - unfold linspace in Hin. apply in_map_iff in Hin as (i & <- & _).
    destruct (i =? S k)%nat; [exact Hle|].
    assert (Hdiv : 0 < inject_Z (Z.of_nat (S k))).
    { change 0 with (inject_Z 0). rewrite <- Zlt_Qlt. lia. }
    assert (Hstep : 0 <= (stop - start) / inject_Z (Z.of_nat (S k)))
      by (apply Qdiv_nonneg; [lra | exact Hdiv]).
    assert (Hi : 0 <= inject_Z (Z.of_nat i)).
    { change 0 with (inject_Z 0). rewrite <- Zle_Qle. lia. }
    pose proof (Qmult_le_0_compat _ _ Hi Hstep). lra.
Qed.

(** ** The linear program *)

Lemma and_then_Built {A B : Type} (m : attempt A) (k : A -> attempt B) (b : B) :
  and_then m k = Built b -> exists a, m = Built a /\ k a = Built b.
Proof.
  destruct m as [a|e]; cbn; [|discriminate].
  intros H. exists a. split; [reflexivity | exact H].
Qed.

Lemma get_item_Built (arr : list Q) (i : nat) (v : Q) :
  get_item arr i = Built v -> (i < List.length arr)%nat /\ nth i arr 0 = v.
Proof.
  unfold get_item. destruct (nth_error arr i) as [w|] eqn:E; [|discriminate].
  intros H. injection H as <-. split.
  - apply nth_error_Some. congruence.
  - apply nth_error_nth, E.
Qed.

Lemma set_item_Built (arr : list Q) (i : nat) (v : Q) (arr' : list Q) :
  set_item arr i v = Built arr' -> (i < List.length arr)%nat /\ arr' = upd arr i v.
Proof.
  unfold set_item. destruct (i <? List.length arr)%nat eqn:E; [|discriminate].
  intros H. injection H as <-. apply Nat.ltb_lt in E. split; [exact E | reflexivity].
Qed.

Lemma set_entry_Built (A : list (list Q)) (r c : nat) (v : Q) (A' : list (list Q)) :
  set_entry A r c v = Built A' ->
  (r < List.length A)%nat /\ (c < List.length (nth r A []))%nat /\
  A' = upd A r (upd (nth r A []) c v).
Proof.
  unfold set_entry. destruct (nth_error A r) as [row|] eqn:E; [|discriminate].
  intros H. apply and_then_Built in H as (row' & Hrow & H). injection H as <-.
  apply set_item_Built in Hrow as (Hc & ->).
  assert (Hr : (r < List.length A)%nat) by (apply nth_error_Some; congruence).
  rewrite (nth_error_nth _ _ [] E). repeat split; assumption.
Qed.

Lemma float_div_Built (a b k : Q) :
  float_div a b = Built k -> ~ b == 0 /\ k = a / b.
Proof.
  unfold float_div. destruct (Qeq_bool b 0) eqn:E; [discriminate|].
  intros H. injection H as <-. split; [apply Qeq_bool_neq, E | reflexivity].
Qed.

Lemma length_upd {X : Type} (l : list X) (i : nat) (x : X) :
  List.length (upd l i x) = List.length l.
Proof.
  revert i. induction l as [|y l IH]; intros [|i]; cbn; try reflexivity.
  rewrite IH. reflexivity.
Qed.

Lemma nth_upd_same {X : Type} (l : list X) (i : nat) (x d : X) :
  (i < List.length l)%nat -> nth i (upd l i x) d = x.
Proof.
  revert i. induction l as [|y l IH]; intros [|i] H; cbn in *; try lia.
  - reflexivity.
  - apply IH. lia.
Qed.

Lemma nth_upd_other {X : Type} (l : list X) (i j : nat) (x d : X) :
  j <> i -> nth j (upd l i x) d = nth j l d.
Proof.
  revert i j. induction l as [|y l IH]; intros [|i] [|j] H; cbn; try reflexivity.
  - congruence.
  - apply IH. lia.
Qed.

Lemma nth_zeros (j n : nat) : nth j (zeros n) 0 = 0.
Proof.
  unfold zeros. revert j. induction n as [|n IH]; intros [|j]; cbn; try reflexivity.
  apply IH.
Qed.

Lemma length_zeros (n : nat) : List.length (zeros n) = n.
Proof.
  apply repeat_length.
Qed.

Lemma nth_zeros2 (r rows cols : nat) :
  (r < rows)%nat -> nth r (zeros2 rows cols) [] = zeros cols.
Proof.
  unfold zeros2. revert r. induction rows as [|rows IH]; intros [|r] H; cbn; try lia.
  - reflexivity.
  - apply IH. lia.
Qed.

Lemma dot_zeros (n : nat) (x : list Q) : dot (zeros n) x == 0.
Proof.
  unfold zeros. revert x. induction n as [|n IH]; intros [|v x]; cbn; try reflexivity.
  rewrite IH. ring.
Qed.

Lemma dot_upd (a : list Q) (i : nat) (v : Q) (x : list Q) :
  (i < List.length a)%nat -> (i < List.length x)%nat ->
  dot (upd a i v) x == dot a x + (v - nth i a 0) * nth i x 0.
Proof.
  revert i x. induction a as [|u a IH]; intros [|i] [|w x] Ha Hx; cbn in *; try lia.
  - ring.
  - rewrite IH by lia. ring.
Qed.

Lemma for_range_inv {S : Type} (Inv : nat -> S -> Prop)
    (body : nat -> S -> attempt S) (T : nat) (s0 sT : S) :
  Inv 0%nat s0 ->
  (forall t s s', (t < T)%nat -> Inv t s -> body t s = Built s' -> Inv (Datatypes.S t) s') ->
  for_range (seq 0 T) body s0 = Built sT ->
  Inv T sT.
Proof.
  intros H0 Hstep.
  assert (G : forall m k s, (k + m = T)%nat -> Inv k s ->
                            for_range (seq k m) body s = Built sT -> Inv T sT).
  { induction m as [|m IH]; intros k s Hk Hs H; cbn [seq for_range] in H.
    - injection H as <-. replace T with k by lia. exact Hs.
    - apply and_then_Built in H as (s' & Hb & H).
      apply (IH (Datatypes.S k) s'); [lia | | exact H].
      apply (Hstep k s s'); [lia | exact Hs | exact Hb]. }
  apply (G T 0%nat s0); [lia | exact H0].
Qed.

Lemma sum_from (g : nat -> Q) (l : list nat) (a : Q) :
  fold_right (fun t acc => g t + acc) a l
  == fold_right (fun t acc => g t + acc) 0 l + a.
Proof.
  induction l as [|t l IH]; cbn [fold_right].
  - ring.
  - rewrite IH. ring.
Qed.

Lemma sum_seq_S (g : nat -> Q) (k : nat) :
  fold_right (fun t acc => g t + acc) 0 (seq 0 (S k))
  == fold_right (fun t acc => g t + acc) 0 (seq 0 k) + g k.
Proof.
  rewrite seq_S, fold_right_app. cbn [fold_right Nat.add].
  rewrite sum_from. ring.
Qed.

Lemma sum_ext (g h : nat -> Q) (l : list nat) :
  (forall t, g t == h t) ->
  fold_right (fun t acc => g t + acc) 0 l == fold_right (fun t acc => h t + acc) 0 l.
Proof.
  intros E. induction l as [|t l IH]; cbn [fold_right].
  - reflexivity.
  - rewrite IH, E. reflexivity.
Qed.

(** *** The objective vector *)

Section ObjectiveLoop.

Variable cfg : Config.
Variable T : nat.
Variable import_price export_price : list Q.

Lemma objective_step_inv (t : nat) (c c' : list Q) :
  (t < T)%nat -> objective_inv cfg T import_price export_price t c ->
  objective_step cfg T import_price export_price t c = Built c' ->
  objective_inv cfg T import_price export_price (S t) c'.
Proof.
  intros Ht (Hlen & Hzero & Hprices & Hdot) H. unfold objective_step in H. cbv zeta in H.
  apply and_then_Built in H as (p & Hp & H). apply get_item_Built in Hp as (Hpl & Hp).
  apply and_then_Built in H as (c1 & Hc1 & H). apply set_item_Built in Hc1 as (Hi1 & ->).
  apply and_then_Built in H as (q & Hq & H). apply get_item_Built in Hq as (Hql & Hq).
  apply set_item_Built in H as (Hi2 & ->).
  unfold i_imp, i_exp in *. rewrite length_upd in Hi2.
  destruct (Hzero t (Nat.le_refl t) Ht) as (Z1 & Z2).
  split; [rewrite !length_upd; exact Hlen|].
  split.
  { intros j Hj HjT. destruct (Hzero j ltac:(lia) HjT) as (Y1 & Y2).
    rewrite !nth_upd_other by lia. split; assumption. }
  split; [intros _; split; lia|].
  intros x Hx. rewrite sum_seq_S, <- (Hdot x Hx).
  rewrite dot_upd by (rewrite ?length_upd; lia).
  rewrite dot_upd by lia.
  rewrite nth_upd_other by lia. rewrite Z1, Z2, Hp, Hq. unfold i_imp, i_exp. ring.
Qed.

Lemma objective_loop_spec (c : list Q) :
  for_range (seq 0 T) (objective_step cfg T import_price export_price) (zeros (5 * T)) = Built c ->
  List.length c = (5 * T)%nat /\
  (T <= List.length import_price)%nat /\ (T <= List.length export_price)%nat /\
  forall x, List.length x = (5 * T)%nat ->
    dot c x == energy_cost_of cfg T import_price export_price x.
Proof.
  intros H.
  apply (for_range_inv (objective_inv cfg T import_price export_price)) in H.
  - destruct H as (Hlen & _ & Hp & Hdot). destruct (Hp (Nat.le_refl T)) as (Hp1 & Hp2).
    repeat split; try assumption.
    intros x Hx. rewrite (Hdot x Hx). unfold energy_cost_of.
    apply sum_ext. intros t. ring.
  - split; [apply length_zeros|]. split; [intros j _ _; split; apply nth_zeros|].
    split; [intros _; split; lia|].
    intros x _. cbn [seq fold_right]. apply dot_zeros.
  - intros t s s' Ht. apply objective_step_inv. exact Ht.
Qed.

End ObjectiveLoop.

(** *** Matrices row by row *)

Lemma set_entry_rows (A : list (list Q)) (r c : nat) (v : Q) (A' : list (list Q)) :
  set_entry A r c v = Built A' ->
  (r < List.length A)%nat /\ (c < List.length (nth r A []))%nat /\
  List.length A' = List.length A /\
  nth r A' [] = upd (nth r A []) c v /\
  forall r', r' <> r -> nth r' A' [] = nth r' A [].
Proof.
  intros H. apply set_entry_Built in H as (Hr & Hc & ->).
  split; [exact Hr|]. split; [exact Hc|].
  split; [apply length_upd|].
  split; [apply nth_upd_same, Hr|].
  intros r' Hne. apply nth_upd_other, Hne.
Qed.

Lemma set_item_entries (b : list Q) (i : nat) (v : Q) (b' : list Q) :
  set_item b i v = Built b' ->
  (i < List.length b)%nat /\ List.length b' = List.length b /\
  nth i b' 0 = v /\ forall j, j <> i -> nth j b' 0 = nth j b 0.
Proof.
  intros H. apply set_item_Built in H as (Hi & ->).
  split; [exact Hi|]. split; [apply length_upd|].
  split; [apply nth_upd_same, Hi|].
  intros j Hne. apply nth_upd_other, Hne.
Qed.

Lemma dot_upd_fresh (a : list Q) (i : nat) (v : Q) (x : list Q) :
  (i < List.length a)%nat -> (i < List.length x)%nat -> nth i a 0 = 0 ->
  dot (upd a i v) x == dot a x + v * nth i x 0.
Proof.
  intros Ha Hx Hz. rewrite dot_upd by assumption. rewrite Hz. ring.
Qed.

Section EqualityLoop.

Variable cfg : Config.
Variable T : nat.
Variable load pv : list Q.

Lemma equality_step_inv (t : nat) (s s' : list (list Q) * list Q) :
  (t < T)%nat -> equality_inv cfg T load pv t s ->
  equality_step cfg T load pv t s = Built s' ->
  equality_inv cfg T load pv (S t) s'.
Proof.
  intros Ht (HlenA & Hrows & Hlenb & Hzero & Hdone) H.
  destruct s as [A b]. cbn [fst snd] in *.
  unfold equality_step in H. cbv zeta in H. cbn [fst snd] in H.
  unfold i_imp, i_exp, i_chg, i_dis, i_soc in *.
  apply and_then_Built in H as (A1 & W1 & H).
  apply set_entry_rows in W1 as (_ & C1 & L1 & R1 & O1).
  apply and_then_Built in H as (A2 & W2 & H).
  apply set_entry_rows in W2 as (_ & C2 & L2 & R2 & O2).
  apply and_then_Built in H as (A3 & W3 & H).
  apply set_entry_rows in W3 as (_ & C3 & L3 & R3 & O3).
  apply and_then_Built in H as (A4 & W4 & H).
  apply set_entry_rows in W4 as (_ & C4 & L4 & R4 & O4).
  apply and_then_Built in H as (g & Hg & H). apply get_item_Built in Hg as (_ & Hg).
  apply and_then_Built in H as (l & Hl & H). apply get_item_Built in Hl as (_ & Hl).
  apply and_then_Built in H as (b1 & B1 & H).
  apply set_item_entries in B1 as (_ & Lb1 & Eb1 & Ob1).
  apply and_then_Built in H as (A5 & W5 & H).
  apply set_entry_rows in W5 as (_ & C5 & L5 & R5 & O5).
  apply and_then_Built in H as (A6 & W6 & H).
  apply set_entry_rows in W6 as (_ & C6 & L6 & R6 & O6).
  apply and_then_Built in H as (q & Hq & H). apply float_div_Built in Hq as (_ & ->).
  apply and_then_Built in H as (A7 & W7 & H).
  apply set_entry_rows in W7 as (_ & C7 & L7 & R7 & O7).
  destruct (Hzero t (Nat.le_refl t) Ht) as (Zt & ZTt & Zbt & ZbTt).
  (* row t after the four writes *)
  assert (Rt : nth t A7 []
               = upd (upd (upd (upd (zeros (5 * T)) t (- (1))) (T + t) 1) (2 * T + t) 1)
                     (3 * T + t) (- (1))).
  { rewrite O7, O6, O5 by lia. rewrite R4, R3, R2, R1, Zt. reflexivity. }
  assert (Rt' : forall x, List.length x = (5 * T)%nat ->
                dot (nth t A7 []) x
                == - nth t x 0 + nth (T + t) x 0 + nth (2 * T + t) x 0
                   - nth (3 * T + t) x 0).
  { intros x Hx. rewrite Rt.
    rewrite dot_upd_fresh;
      [| rewrite !length_upd, length_zeros; lia | lia
       | rewrite !nth_upd_other by lia; apply nth_zeros].
    rewrite dot_upd_fresh;
      [| rewrite !length_upd, length_zeros; lia | lia
       | rewrite !nth_upd_other by lia; apply nth_zeros].
    rewrite dot_upd_fresh;
      [| rewrite !length_upd, length_zeros; lia | lia
       | rewrite !nth_upd_other by lia; apply nth_zeros].
    rewrite dot_upd_fresh;
      [| rewrite length_zeros; lia | lia | apply nth_zeros].
    rewrite dot_zeros. ring. }
  (* row T + t after its three writes *)
  assert (RT : nth (T + t) A7 []
               = upd (upd (upd (zeros (5 * T)) (4 * T + t) 1) (2 * T + t)
                          (- efficiency cfg * timestep_hours cfg))
                     (3 * T + t) (timestep_hours cfg / efficiency cfg)).
  { rewrite R7, R6, R5. rewrite O4, O3, O2, O1 by lia. rewrite ZTt. reflexivity. }
  assert (RT' : forall x, List.length x = (5 * T)%nat ->
                dot (nth (T + t) A7 []) x
                == nth (4 * T + t) x 0
                   + - efficiency cfg * timestep_hours cfg * nth (2 * T + t) x 0
                   + timestep_hours cfg / efficiency cfg * nth (3 * T + t) x 0).
  { intros x Hx. rewrite RT.
    rewrite dot_upd_fresh;
      [| rewrite !length_upd, length_zeros; lia | lia
       | rewrite !nth_upd_other by lia; apply nth_zeros].
    rewrite dot_upd_fresh;
      [| rewrite !length_upd, length_zeros; lia | lia
       | rewrite !nth_upd_other by lia; apply nth_zeros].
    rewrite dot_upd_fresh;
      [| rewrite length_zeros; lia | lia | apply nth_zeros].
    rewrite dot_zeros. ring. }
  assert (Oth : forall r, r <> t -> r <> (T + t)%nat -> nth r A7 [] = nth r A []).
  { intros r H1 H2. rewrite O7, O6, O5, O4, O3, O2, O1 by lia. reflexivity. }
  assert (LA7 : List.length A7 = (2 * T)%nat)
    by (rewrite L7, L6, L5, L4, L3, L2, L1; exact HlenA).
  assert (Hrows7 : forall r, (r < 2 * T)%nat -> List.length (nth r A7 []) = (5 * T)%nat).
  { intros r Hr. destruct (Nat.eq_dec r t) as [->|N1].
    - rewrite Rt, !length_upd. apply length_zeros.
    - destruct (Nat.eq_dec r (T + t)) as [->|N2].
      + rewrite RT, !length_upd. apply length_zeros.
      + rewrite Oth by assumption. apply Hrows, Hr. }
  destruct t as [|t'].
  - (* the first step stores the initial SOC *)
    cbn [Nat.eqb] in H.
    apply and_then_Built in H as (b2 & B2 & H). injection H as <-.
    apply set_item_entries in B2 as (_ & Lb2 & Eb2 & Ob2).
    unfold equality_inv, i_imp, i_exp, i_chg, i_dis, i_soc. cbn [fst snd].
    split; [exact LA7|]. split; [exact Hrows7|]. split; [rewrite Lb2, Lb1; exact Hlenb|].
    split.
    { intros u Hu HuT. destruct (Hzero u ltac:(lia) HuT) as (Y1 & Y2 & Y3 & Y4).
      rewrite !Oth by lia. rewrite !Ob2, !Ob1 by lia. repeat split; assumption. }
    intros u Hu. assert (u = 0%nat) by lia. subst u.
    split; [exact Rt'|].
    split; [rewrite Ob2 by lia; rewrite Eb1, Hg, Hl; reflexivity|].
    split; [|exact Eb2].
    intros x Hx. rewrite (RT' x Hx). ring.
  - (* a later step links to the SOC before *)
    replace (S t' =? 0)%nat with false in H by reflexivity.
    apply and_then_Built in H as (A8 & W8 & H). injection H as <-.
    apply set_entry_rows in W8 as (_ & C8 & L8 & R8 & O8).
    replace (S t' - 1)%nat with t' in * by lia.
    unfold equality_inv, i_imp, i_exp, i_chg, i_dis, i_soc. cbn [fst snd].
    split; [rewrite L8; exact LA7|].
    split.
    { intros r Hr. destruct (Nat.eq_dec r (T + S t')) as [->|N2].
      - rewrite R8, length_upd. apply Hrows7. lia.
      - rewrite O8 by exact N2. apply Hrows7, Hr. }
    split; [rewrite Lb1; exact Hlenb|].
    split.
    { intros u Hu HuT. destruct (Hzero u ltac:(lia) HuT) as (Y1 & Y2 & Y3 & Y4).
      rewrite !O8 by lia. rewrite !Oth by lia. rewrite !Ob1 by lia.
      repeat split; assumption. }
    intros u Hu. destruct (Nat.eq_dec u (S t')) as [->|Hne].
    + split; [intros x Hx; rewrite O8 by lia; apply (Rt' x Hx)|].
      split; [rewrite Eb1, Hg, Hl; reflexivity|].
      split; [|rewrite Ob1 by lia; exact ZbTt].
      intros x Hx. rewrite R8.
      rewrite dot_upd_fresh;
        [| rewrite RT, !length_upd, length_zeros; lia | lia
         | rewrite RT, !nth_upd_other by lia; apply nth_zeros].
      rewrite (RT' x Hx). ring.
    + destruct (Hdone u ltac:(lia)) as (D1 & D2 & D3 & D4).
      rewrite !O8 by lia. rewrite !Oth by lia. rewrite !Ob1 by lia.
      repeat split; assumption.
Qed.

Lemma equality_loop_spec (s : list (list Q) * list Q) :
  for_range (seq 0 T) (equality_step cfg T load pv) (zeros2 (2 * T) (5 * T), zeros (2 * T))
  = Built s ->
  equality_inv cfg T load pv T s.
Proof.
  intros H. apply (for_range_inv (equality_inv cfg T load pv)) in H; [exact H | |].
  - unfold equality_inv. cbn [fst snd].
    split; [unfold zeros2; apply repeat_length|].
    split; [intros r Hr; rewrite (nth_zeros2 r _ _ Hr); apply length_zeros|].
    split; [apply length_zeros|].
    split; [|intros u Hu; lia].
    intros u _ HuT.
    rewrite !nth_zeros2 by lia. rewrite !nth_zeros. repeat split; reflexivity.
  - intros t s0 s1 Ht. apply equality_step_inv. exact Ht.
Qed.

End EqualityLoop.

Section InequalityLoop.

Variable cfg : Config.
Variable T : nat.

Lemma inequality_step_inv (t : nat) (s s' : list (list Q) * list Q) :
  (t < T)%nat -> inequality_inv cfg T t s ->
  inequality_step cfg T t s = Built s' ->
  inequality_inv cfg T (S t) s'.
Proof.
  intros Ht (HlenA & Hlenb & Hzero & Hdone) H.
  destruct s as [A b]. cbn [fst snd] in *.
  unfold inequality_step in H. cbv zeta in H. cbn [fst snd] in H.
  unfold i_soc in *.
  apply and_then_Built in H as (A1 & W1 & H).
  apply set_entry_rows in W1 as (_ & C1 & L1 & R1 & O1).
  apply and_then_Built in H as (b1 & B1 & H).
  apply set_item_entries in B1 as (_ & Lb1 & Eb1 & Ob1).
  apply and_then_Built in H as (A2 & W2 & H).
  apply set_entry_rows in W2 as (_ & C2 & L2 & R2 & O2).
  apply and_then_Built in H as (b2 & B2 & H).
  apply set_item_entries in B2 as (_ & Lb2 & Eb2 & Ob2).
  injection H as <-.
  destruct (Hzero t (Nat.le_refl t) Ht) as (Zt & ZTt).
  unfold inequality_inv, i_soc. cbn [fst snd].
  split; [rewrite L2, L1; exact HlenA|].
  split; [rewrite Lb2, Lb1; exact Hlenb|].
  split.
  { intros u Hu HuT. destruct (Hzero u ltac:(lia) HuT) as (Y1 & Y2).
    rewrite !O2, !O1 by lia. split; assumption. }
  intros u Hu. destruct (Nat.eq_dec u t) as [->|Hne].
  - split.
    { intros x Hx. rewrite O2 by lia. rewrite R1, Zt.
      rewrite dot_upd_fresh;
        [| rewrite length_zeros; lia | lia | apply nth_zeros].
      rewrite dot_zeros. ring. }
    split; [rewrite Ob2 by lia; exact Eb1|].
    split; [|exact Eb2].
    intros x Hx. rewrite R2, O1 by lia. rewrite ZTt.
    rewrite dot_upd_fresh;
      [| rewrite length_zeros; lia | lia | apply nth_zeros].
    rewrite dot_zeros. ring.
  - destruct (Hdone u ltac:(lia)) as (D1 & D2 & D3 & D4).
    rewrite !O2, !O1 by lia. rewrite !Ob2, !Ob1 by lia.
    repeat split; assumption.
Qed.

Lemma inequality_loop_spec (s : list (list Q) * list Q) :
  for_range (seq 0 T) (inequality_step cfg T) (zeros2 (2 * T) (5 * T), zeros (2 * T))
  = Built s ->
  inequality_inv cfg T T s.
Proof.
  intros H. apply (for_range_inv (inequality_inv cfg T)) in H; [exact H | |].
  - unfold inequality_inv. cbn [fst snd].
    split; [unfold zeros2; apply repeat_length|].
    split; [apply length_zeros|].
    split; [|intros u Hu; lia].
    intros u _ HuT. rewrite !nth_zeros2 by lia. split; reflexivity.
  - intros t s0 s1 Ht. apply inequality_step_inv. exact Ht.
Qed.

End InequalityLoop.

(** *** The bounds *)

Lemma nth_repeat_at {X : Type} (a d : X) (m j : nat) :
  (j < m)%nat -> nth j (repeat a m) d = a.
Proof.
  revert j. induction m as [|m IH]; intros [|j] H; cbn; try lia.
  - reflexivity.
  - apply IH. lia.
Qed.

Lemma nth_block {X : Type} (front : list X) (a d : X) (rest : list X) (T t : nat) :
  (t < T)%nat ->
  nth (List.length front + t) (front ++ repeat a T ++ rest) d = a.
Proof.
  intros Ht. rewrite app_nth2_plus, app_nth1 by (rewrite repeat_length; exact Ht).
  apply nth_repeat_at, Ht.
Qed.

Lemma bounds_blocks (T t : nat) (b0 b1 b2 b3 b4 d : Q * option Q) :
  (t < T)%nat ->
  let bounds := repeat b0 T ++ repeat b1 T ++ repeat b2 T ++ repeat b3 T ++ repeat b4 T in
  List.length bounds = (5 * T)%nat /\
  nth (i_imp T t) bounds d = b0 /\ nth (i_exp T t) bounds d = b1 /\
  nth (i_chg T t) bounds d = b2 /\ nth (i_dis T t) bounds d = b3 /\
  nth (i_soc T t) bounds d = b4.
Proof.
  intros Ht bounds. subst bounds. unfold i_imp, i_exp, i_chg, i_dis, i_soc.
  split; [rewrite !length_app, !repeat_length; lia|].
  split; [apply (nth_block [] b0 d _ T t Ht)|].
  split.
  { pose proof (nth_block (repeat b0 T) b1 d
                  (repeat b2 T ++ repeat b3 T ++ repeat b4 T) T t Ht) as H.
    rewrite repeat_length in H. exact H. }
  split.
  { pose proof (nth_block (repeat b0 T ++ repeat b1 T) b2 d
                  (repeat b3 T ++ repeat b4 T) T t Ht) as H.
    rewrite length_app, !repeat_length, <- !app_assoc in H.
    replace (2 * T + t)%nat with (T + T + t)%nat by lia. exact H. }
  split.
  { pose proof (nth_block (repeat b0 T ++ repeat b1 T ++ repeat b2 T) b3 d
                  (repeat b4 T) T t Ht) as H.
    rewrite !length_app, !repeat_length, <- !app_assoc in H.
    replace (3 * T + t)%nat with (T + (T + T) + t)%nat by lia. exact H. }
  pose proof (nth_block (repeat b0 T ++ repeat b1 T ++ repeat b2 T ++ repeat b3 T) b4 d
                [] T t Ht) as H.
  rewrite !length_app, !repeat_length, app_nil_r, <- !app_assoc in H.
  replace (4 * T + t)%nat with (T + (T + (T + T)) + t)%nat by lia. exact H.
Qed.

Lemma block_cases (T j : nat) :
  (j < 5 * T)%nat ->
  exists t, (t < T)%nat /\
            (j = i_imp T t \/ j = i_exp T t \/ j = i_chg T t \/ j = i_dis T t \/
             j = i_soc T t).
Proof.
  intros Hj. unfold i_imp, i_exp, i_chg, i_dis, i_soc.
  destruct (Nat.lt_ge_cases j T) as [H0|H0]; [exists j; lia|].
  destruct (Nat.lt_ge_cases j (2 * T)) as [H1|H1]; [exists (j - T)%nat; lia|].
  destruct (Nat.lt_ge_cases j (3 * T)) as [H2|H2]; [exists (j - 2 * T)%nat; lia|].
  destruct (Nat.lt_ge_cases j (4 * T)) as [H3|H3]; [exists (j - 3 * T)%nat; lia|].
  exists (j - 4 * T)%nat. lia.
Qed.

(** *** The program as a whole *)

Lemma build_program_parts (cfg : Config) (load pv import_price export_price : list Q)
    (peak_limit : Q) (P : Program) :
  build_program cfg load pv import_price export_price peak_limit = Built P ->
  let T := List.length load in
  (List.length (lp_c P) = (5 * T)%nat /\
   (T <= List.length import_price)%nat /\ (T <= List.length export_price)%nat /\
   forall x, List.length x = (5 * T)%nat ->
     dot (lp_c P) x == energy_cost_of cfg T import_price export_price x) /\
  equality_inv cfg T load pv T (lp_A_eq P, lp_b_eq P) /\
  inequality_inv cfg T T (lp_A_ub P, lp_b_ub P) /\
  lp_bounds P
  = repeat (0, Some peak_limit) T
    ++ repeat (0, None) T
    ++ repeat (0, Some (max_charge_kw cfg)) T
    ++ repeat (0, Some (max_discharge_kw cfg)) T
    ++ repeat (0, Some (capacity_kwh cfg)) T.
Proof.
  intros H T. unfold build_program in H. cbv zeta in H. fold T in H.
  apply and_then_Built in H as (c & Hc & H).
  apply and_then_Built in H as (eq & Heq & H).
  apply and_then_Built in H as (ub & Hub & H).
  injection H as <-. cbn [lp_c lp_A_eq lp_b_eq lp_A_ub lp_b_ub lp_bounds].
  split; [apply (objective_loop_spec cfg T import_price export_price c Hc)|].
  split; [destruct eq; apply (equality_loop_spec cfg T load pv _ Heq)|].
  split; [destruct ub; apply (inequality_loop_spec cfg T _ Hub) | reflexivity].
Qed.

(** X27: the program [solve_with_peak_limit] hands to [linprog] says
    what its comments say.  A vector [x] of [5T] values satisfies
    [A_eq x = b_eq], [A_ub x <= b_ub] and the bounds exactly when at
    every step the energy balance holds, the SOC follows the dynamics
    from [initial_soc_frac * capacity], and SOC, import, export, charge
    and discharge are within their limits (the import at most
    [peak_limit]); and [c . x] is the energy cost of [x]. *)
Theorem build_program_encodes_physics
    (cfg : Config) (load pv import_price export_price : list Q) (peak_limit : Q)
    (P : Program) (x : list Q) :
  build_program cfg load pv import_price export_price peak_limit = Built P ->
  List.length x = (5 * List.length load)%nat ->
  (satisfies P x <->
   forall t, (t < List.length load)%nat -> physics_at cfg load pv peak_limit x t) /\
  dot (lp_c P) x == energy_cost_of cfg (List.length load) import_price export_price x.
Proof.
  intros HP Hx.
  destruct (build_program_parts cfg load pv import_price export_price peak_limit P HP)
    as ((_ & _ & _ & Hc) & (EA & _ & Eb & _ & Eeq) & (UA & Ub & _ & Eub) & Hbounds).
  cbn [fst snd] in *.
  set (T := List.length load) in *.
  split; [|apply (Hc x Hx)].
  unfold satisfies. rewrite EA, UA, Hbounds.
  split.
  - intros (Heq & Hub & Hb) t Ht.
    destruct (Eeq t Ht) as (E1 & E2 & E3 & E4).
    destruct (Eub t Ht) as (U1 & U2 & U3 & U4).
    pose proof (Heq t ltac:(lia)) as Q1. rewrite (E1 x Hx), E2 in Q1.
    pose proof (Heq (T + t)%nat ltac:(lia)) as Q2. rewrite (E3 x Hx), E4 in Q2.
    pose proof (Hub t ltac:(lia)) as Q3. rewrite (U1 x Hx), U2 in Q3.
    pose proof (Hub (T + t)%nat ltac:(lia)) as Q4. rewrite (U3 x Hx), U4 in Q4.
    destruct (bounds_blocks T t (0, Some peak_limit) (0, None)
                (0, Some (max_charge_kw cfg)) (0, Some (max_discharge_kw cfg))
                (0, Some (capacity_kwh cfg)) (0, None) Ht)
      as (Lb & B0 & B1 & B2 & B3 & B4).
    rewrite Lb in Hb.
    pose proof (Hb (i_imp T t) ltac:(unfold i_imp; lia)) as W0. rewrite B0 in W0.
    pose proof (Hb (i_exp T t) ltac:(unfold i_exp; lia)) as W1. rewrite B1 in W1.
    pose proof (Hb (i_chg T t) ltac:(unfold i_chg; lia)) as W2. rewrite B2 in W2.
    pose proof (Hb (i_dis T t) ltac:(unfold i_dis; lia)) as W3. rewrite B3 in W3.
    pose proof (Hb (i_soc T t) ltac:(unfold i_soc; lia)) as W4. rewrite B4 in W4.
    unfold within_bound in W0, W1, W2, W3, W4. cbn [fst snd] in W0, W1, W2, W3, W4.
    unfold physics_at. cbv zeta. fold T.
    split; [lra|].
    split.
    { destruct t as [|t'].
      - transitivity (initial_soc_frac cfg * capacity_kwh cfg
                      - - efficiency cfg * timestep_hours cfg * nth (i_chg T 0) x 0
                      - timestep_hours cfg / efficiency cfg * nth (i_dis T 0) x 0);
          [lra | ring].
      - transitivity (nth (i_soc T t') x 0
                      - - efficiency cfg * timestep_hours cfg * nth (i_chg T (S t')) x 0
                      - timestep_hours cfg / efficiency cfg * nth (i_dis T (S t')) x 0);
          [lra | ring]. }
    split; [split; lra|].
    split; [exact W0|]. split; [apply W1|].
    split; [exact W2|]. split; [exact W3 | exact W4].
  - intros Hphys. split; [|split].
    + intros r Hr.
      destruct (Nat.lt_ge_cases r T) as [Hlt|Hge].
      * destruct (Eeq r Hlt) as (E1 & E2 & _).
        pose proof (Hphys r Hlt) as Hp. unfold physics_at in Hp. cbv zeta in Hp.
        fold T in Hp. destruct Hp as (Hbal & _).
        rewrite (E1 x Hx), E2. lra.
      * assert (Hu : (r - T < T)%nat) by lia.
        destruct (Eeq (r - T)%nat Hu) as (_ & _ & E3 & E4).
        pose proof (Hphys (r - T)%nat Hu) as Hp. unfold physics_at in Hp. cbv zeta in Hp.
        fold T in Hp. destruct Hp as (_ & Hdyn & _).
        replace (T + (r - T))%nat with r in * by lia.
        rewrite (E3 x Hx), E4.
        destruct (r - T)%nat as [|u'].
        -- transitivity (nth (i_soc T 0) x 0
                         - nth (i_chg T 0) x 0 * efficiency cfg * timestep_hours cfg
                         + nth (i_dis T 0) x 0 * (timestep_hours cfg / efficiency cfg));
             [ring | lra].
        -- transitivity (nth (i_soc T (S u')) x 0
                         - nth (i_chg T (S u')) x 0 * efficiency cfg * timestep_hours cfg
                         + nth (i_dis T (S u')) x 0 * (timestep_hours cfg / efficiency cfg)
                         - nth (i_soc T u') x 0);
             [ring | lra].
    + intros r Hr.
      destruct (Nat.lt_ge_cases r T) as [Hlt|Hge].
      * destruct (Eub r Hlt) as (U1 & U2 & _).
        pose proof (Hphys r Hlt) as Hp. unfold physics_at in Hp. cbv zeta in Hp.
        fold T in Hp. destruct Hp as (_ & _ & (_ & Hmax) & _).
        rewrite (U1 x Hx), U2. exact Hmax.
      * assert (Hu : (r - T < T)%nat) by lia.
        destruct (Eub (r - T)%nat Hu) as (_ & _ & U3 & U4).
        pose proof (Hphys (r - T)%nat Hu) as Hp. unfold physics_at in Hp. cbv zeta in Hp.
        fold T in Hp. destruct Hp as (_ & _ & (Hmin & _) & _).
        replace (T + (r - T))%nat with r in * by lia.
        rewrite (U3 x Hx), U4. lra.
    + intros j Hj.
      assert (Hj5 : (j < 5 * T)%nat).
      { rewrite !length_app, !repeat_length in Hj. lia. }
      destruct (block_cases T j Hj5) as (t & Ht & Hcase).
      destruct (bounds_blocks T t (0, Some peak_limit) (0, None)
                  (0, Some (max_charge_kw cfg)) (0, Some (max_discharge_kw cfg))
                  (0, Some (capacity_kwh cfg)) (0, None) Ht)
        as (_ & B0 & B1 & B2 & B3 & B4).
      pose proof (Hphys t Ht) as Hp. unfold physics_at in Hp. cbv zeta in Hp.
      fold T in Hp. destruct Hp as (_ & _ & _ & W0 & W1 & W2 & W3 & W4).
      destruct Hcase as [-> | [-> | [-> | [-> | ->]]]].
      * rewrite B0. exact W0.
      * rewrite B1. split; [exact W1 | exact I].
      * rewrite B2. exact W2.
      * rewrite B3. exact W3.
      * rewrite B4. exact W4.
Qed.

Lemma build_program_encodes_physics_witness :
  satisfies two_step_program idle_x /\
  dot (lp_c two_step_program) idle_x
  == energy_cost_of toy_config 2 [1 # 10; 3 # 10] [0; 0] idle_x.
Proof.
  destruct (build_program_encodes_physics toy_config [5; 5] [3; 3] [1 # 10; 3 # 10] [0; 0] 4
              two_step_program idle_x eq_refl eq_refl) as (Hiff & Hcost).
  split; [|exact Hcost].
  apply Hiff. intros [|[|t]] Ht; [| |cbn in Ht; lia];
    unfold physics_at; cbn; repeat split; try reflexivity; discriminate.
Defined.

(** *** When the program can be written down *)

Lemma and_then_Fails {A B : Type} (m : attempt A) (k : A -> attempt B) (e : lp_error) :
  and_then m k = Fails e ->
  m = Fails e \/ exists a, m = Built a /\ k a = Fails e.
Proof.
  destruct m as [a|e']; cbn; intros H.
  - right. exists a. split; [reflexivity | exact H].
  - left. injection H as ->. reflexivity.
Qed.

Lemma for_range_never {S : Type} (bad : lp_error) (body : nat -> S -> attempt S)
    (ts : list nat) :
  (forall t s, body t s <> Fails bad) ->
  forall s, for_range ts body s <> Fails bad.
Proof.
  intros Hbody. induction ts as [|t ts IH]; intros s; cbn [for_range].
  - discriminate.
  - specialize (Hbody t s). destruct (body t s) as [s'|e]; cbn [and_then].
    + apply IH.
    + exact Hbody.
Qed.

Lemma for_range_progress {S : Type} (Inv : nat -> S -> Prop)
    (body : nat -> S -> attempt S) (T : nat) (s0 : S) :
  Inv 0%nat s0 ->
  (forall t s, (t < T)%nat -> Inv t s ->
               exists s', body t s = Built s' /\ Inv (Datatypes.S t) s') ->
  exists sT, for_range (seq 0 T) body s0 = Built sT.
Proof.
  intros H0 Hstep.
  assert (G : forall m k s, (k + m = T)%nat -> Inv k s ->
                            exists sT, for_range (seq k m) body s = Built sT).
  { induction m as [|m IH]; intros k s Hk Hs; cbn [seq for_range].
    - eexists. reflexivity.
    - destruct (Hstep k s ltac:(lia) Hs) as (s' & -> & Hs'). cbn [and_then].
      apply (IH (Datatypes.S k) s'); [lia | exact Hs']. }
  apply (G T 0%nat s0); [lia | exact H0].
Qed.

Lemma get_item_ok (arr : list Q) (i : nat) :
  (i < List.length arr)%nat -> get_item arr i = Built (nth i arr 0).
Proof.
  intros H. unfold get_item.
  destruct (nth_error arr i) as [v|] eqn:E.
  - rewrite (nth_error_nth _ _ 0 E). reflexivity.
  - apply nth_error_None in E. lia.
Qed.

Lemma get_item_short (arr : list Q) (i : nat) :
  (List.length arr <= i)%nat -> get_item arr i = Fails ArrayIndexError.
Proof.
  intros H. unfold get_item.
  destruct (nth_error arr i) as [v|] eqn:E; [|reflexivity].
  assert (i < List.length arr)%nat by (apply nth_error_Some; congruence). lia.
Qed.

Lemma set_item_ok (arr : list Q) (i : nat) (v : Q) :
  (i < List.length arr)%nat -> set_item arr i v = Built (upd arr i v).
Proof.
  intros H. unfold set_item. apply Nat.ltb_lt in H. rewrite H. reflexivity.
Qed.

Lemma set_entry_ok (A : list (list Q)) (r c : nat) (v : Q) :
  (r < List.length A)%nat -> (c < List.length (nth r A []))%nat ->
  set_entry A r c v = Built (upd A r (upd (nth r A []) c v)).
Proof.
  intros Hr Hc. unfold set_entry.
  destruct (nth_error A r) as [row|] eqn:E.
  - rewrite (nth_error_nth _ _ [] E) in *. rewrite (set_item_ok _ _ _ Hc). reflexivity.
  - apply nth_error_None in E. lia.
Qed.

Lemma float_div_ok (a b : Q) : ~ b == 0 -> float_div a b = Built (a / b).
Proof.
  intros H. unfold float_div. rewrite (EngineFacts.Qeq_bool_false _ _ H). reflexivity.
Qed.

Lemma float_div_zero (a b : Q) : b == 0 -> float_div a b = Fails FloatDivisionByZero.
Proof.
  intros H. unfold float_div. rewrite (EngineFacts.Qeq_bool_true _ _ H). reflexivity.
Qed.

(** A matrix of [rows] rows of [cols] entries stays one under writes. *)
Lemma shape_upd (rows cols : nat) (A : list (list Q)) (r c : nat) (v : Q) :
  List.length A = rows ->
  (forall r', (r' < rows)%nat -> List.length (nth r' A []) = cols) ->
  List.length (upd A r (upd (nth r A []) c v)) = rows /\
  forall r', (r' < rows)%nat ->
             List.length (nth r' (upd A r (upd (nth r A []) c v)) []) = cols.
Proof.
  intros HA Hrows. split; [rewrite length_upd; exact HA|].
  intros r' Hr'. destruct (Nat.eq_dec r' r) as [->|Hne].
  - rewrite nth_upd_same by lia. rewrite length_upd. apply Hrows, Hr'.
  - rewrite nth_upd_other by exact Hne. apply Hrows, Hr'.
Qed.

Section Outcome.

Variable cfg : Config.
Variable T : nat.

Lemma objective_step_progress (import_price export_price : list Q) (t : nat) (c : list Q) :
  (t < T)%nat -> (T <= List.length import_price)%nat ->
  (T <= List.length export_price)%nat ->
  List.length c = (5 * T)%nat ->
  exists c', objective_step cfg T import_price export_price t c = Built c' /\
             List.length c' = (5 * T)%nat.
Proof.
  intros Ht Hi He Hc. unfold objective_step, i_imp, i_exp. cbv zeta.
  rewrite get_item_ok by lia. cbn [and_then].
  rewrite set_item_ok by lia. cbn [and_then].
  rewrite get_item_ok by lia. cbn [and_then].
  rewrite set_item_ok by (rewrite length_upd; lia).
  eexists. split; [reflexivity|]. rewrite !length_upd. exact Hc.
Qed.

Lemma objective_step_index_error (import_price export_price : list Q) (t : nat)
    (c : list Q) :
  objective_step cfg T import_price export_price t c <> Fails FloatDivisionByZero.
Proof.
  unfold objective_step, get_item, set_item. cbv zeta.
  destruct (nth_error import_price t); cbn [and_then]; [|discriminate].
  destruct (_ <? _)%nat; cbn [and_then]; [|discriminate].
  destruct (nth_error export_price t); cbn [and_then]; [|discriminate].
  destruct (_ <? _)%nat; discriminate.
Qed.

Lemma inequality_step_progress (t : nat) (s : list (list Q) * list Q) :
  (t < T)%nat ->
  (List.length (fst s) = (2 * T)%nat /\
   (forall r, (r < 2 * T)%nat -> List.length (nth r (fst s) []) = (5 * T)%nat) /\
   List.length (snd s) = (2 * T)%nat) ->
  exists s', inequality_step cfg T t s = Built s' /\
             (List.length (fst s') = (2 * T)%nat /\
              (forall r, (r < 2 * T)%nat -> List.length (nth r (fst s') []) = (5 * T)%nat) /\
              List.length (snd s') = (2 * T)%nat).
Proof.
  intros Ht (HA & Hrows & Hb). destruct s as [A b]. cbn [fst snd] in *.
  unfold inequality_step, i_soc. cbv zeta. cbn [fst snd].
  rewrite set_entry_ok by (rewrite ?Hrows; lia). cbn [and_then].
  destruct (shape_upd (2 * T) (5 * T) A t (4 * T + t) 1 HA Hrows) as (HA1 & Hrows1).
  rewrite set_item_ok by lia. cbn [and_then].
  rewrite set_entry_ok by (rewrite ?Hrows1; lia). cbn [and_then].
  match goal with
  | |- context [upd ?A1 (T + t) (upd (nth (T + t) ?A1 []) ?c ?v)] =>
      destruct (shape_upd (2 * T) (5 * T) A1 (T + t) c v HA1 Hrows1) as (HA2 & Hrows2)
  end.
  rewrite set_item_ok by (rewrite length_upd; lia). cbn [and_then].
  eexists. split; [reflexivity|]. cbn [fst snd].
  split; [exact HA2|]. split; [exact Hrows2|]. rewrite !length_upd. exact Hb.
Qed.

Lemma zeros2_shape (rows cols : nat) :
  List.length (zeros2 rows cols) = rows /\
  forall r, (r < rows)%nat -> List.length (nth r (zeros2 rows cols) []) = cols.
Proof.
  split; [apply repeat_length|].
  intros r Hr. rewrite (nth_zeros2 r _ _ Hr). apply length_zeros.
Qed.

Lemma inequality_loop_built :
  exists s, for_range (seq 0 T) (inequality_step cfg T)
              (zeros2 (2 * T) (5 * T), zeros (2 * T)) = Built s.
Proof.
  apply (for_range_progress
           (fun _ s => List.length (fst s) = (2 * T)%nat /\
                       (forall r, (r < 2 * T)%nat ->
                                  List.length (nth r (fst s) []) = (5 * T)%nat) /\
                       List.length (snd s) = (2 * T)%nat)).
  - cbn [fst snd]. destruct (zeros2_shape (2 * T) (5 * T)) as (H1 & H2).
    split; [exact H1|]. split; [exact H2 | apply length_zeros].
  - intros t s Ht Hs. apply (inequality_step_progress t s Ht Hs).
Qed.

(** The equality step, up to the division. *)
Lemma equality_step_progress (load pv : list Q) (t : nat) (s : list (list Q) * list Q) :
  (t < T)%nat -> (T <= List.length load)%nat -> (t < List.length pv)%nat ->
  (List.length (fst s) = (2 * T)%nat /\
   (forall r, (r < 2 * T)%nat -> List.length (nth r (fst s) []) = (5 * T)%nat) /\
   List.length (snd s) = (2 * T)%nat) ->
  (~ efficiency cfg == 0 ->
   exists s', equality_step cfg T load pv t s = Built s' /\
              (List.length (fst s') = (2 * T)%nat /\
               (forall r, (r < 2 * T)%nat ->
                          List.length (nth r (fst s') []) = (5 * T)%nat) /\
               List.length (snd s') = (2 * T)%nat)) /\
  (efficiency cfg == 0 ->
   equality_step cfg T load pv t s = Fails FloatDivisionByZero).
Proof.
  intros Ht Hload Hpv (HA & Hrows & Hb). destruct s as [A b]. cbn [fst snd] in *.
  unfold equality_step, i_imp, i_exp, i_chg, i_dis, i_soc. cbv zeta. cbn [fst snd].
  rewrite set_entry_ok by (rewrite ?Hrows; lia). cbn [and_then].
  destruct (shape_upd (2 * T) (5 * T) A t t (- (1)) HA Hrows) as (HA1 & Hrows1).
  set (A1 := upd A t (upd (nth t A []) t (- (1)))) in *.
  rewrite set_entry_ok by (rewrite ?Hrows1; lia). cbn [and_then].
  destruct (shape_upd (2 * T) (5 * T) A1 t (T + t) 1 HA1 Hrows1) as (HA2 & Hrows2).
  set (A2 := upd A1 t (upd (nth t A1 []) (T + t) 1)) in *.
  rewrite set_entry_ok by (rewrite ?Hrows2; lia). cbn [and_then].
  destruct (shape_upd (2 * T) (5 * T) A2 t (2 * T + t) 1 HA2 Hrows2) as (HA3 & Hrows3).
  set (A3 := upd A2 t (upd (nth t A2 []) (2 * T + t) 1)) in *.
  rewrite set_entry_ok by (rewrite ?Hrows3; lia). cbn [and_then].
  destruct (shape_upd (2 * T) (5 * T) A3 t (3 * T + t) (- (1)) HA3 Hrows3) as (HA4 & Hrows4).
  set (A4 := upd A3 t (upd (nth t A3 []) (3 * T + t) (- (1)))) in *.
  rewrite (get_item_ok pv t Hpv). cbn [and_then].
  rewrite (get_item_ok load t) by lia. cbn [and_then].
  rewrite set_item_ok by lia. cbn [and_then].
  rewrite set_entry_ok by (rewrite ?Hrows4; lia). cbn [and_then].
  destruct (shape_upd (2 * T) (5 * T) A4 (T + t) (4 * T + t) 1 HA4 Hrows4) as (HA5 & Hrows5).
  set (A5 := upd A4 (T + t) (upd (nth (T + t) A4 []) (4 * T + t) 1)) in *.
  rewrite set_entry_ok by (rewrite ?Hrows5; lia). cbn [and_then].
  destruct (shape_upd (2 * T) (5 * T) A5 (T + t) (2 * T + t)
              (- efficiency cfg * timestep_hours cfg) HA5 Hrows5) as (HA6 & Hrows6).
  set (A6 := upd A5 (T + t) (upd (nth (T + t) A5 []) (2 * T + t)
                                 (- efficiency cfg * timestep_hours cfg))) in *.
  split.
  - intros Heff. rewrite (float_div_ok _ _ Heff). cbn [and_then].
    rewrite set_entry_ok by (rewrite ?Hrows6; lia). cbn [and_then].
    destruct (shape_upd (2 * T) (5 * T) A6 (T + t) (3 * T + t)
                (timestep_hours cfg / efficiency cfg) HA6 Hrows6) as (HA7 & Hrows7).
    set (A7 := upd A6 (T + t) (upd (nth (T + t) A6 []) (3 * T + t)
                                   (timestep_hours cfg / efficiency cfg))) in *.
    destruct t as [|t'].
    + cbn [Nat.eqb]. rewrite set_item_ok by (rewrite length_upd; lia). cbn [and_then].
      eexists. split; [reflexivity|]. cbn [fst snd].
      split; [exact HA7|]. split; [exact Hrows7|]. rewrite !length_upd. exact Hb.
    + replace (S t' =? 0)%nat with false by reflexivity.
      rewrite set_entry_ok by (rewrite ?Hrows7; lia). cbn [and_then].
      destruct (shape_upd (2 * T) (5 * T) A7 (T + S t') (4 * T + (S t' - 1)) (- (1))
                  HA7 Hrows7) as (HA8 & Hrows8).
      eexists. split; [reflexivity|]. cbn [fst snd].
      split; [exact HA8|]. split; [exact Hrows8|]. rewrite !length_upd. exact Hb.
  - intros Heff. rewrite (float_div_zero _ _ Heff). reflexivity.
Qed.

Lemma equality_step_index_error (load pv : list Q) (t : nat) (s : list (list Q) * list Q) :
  (List.length pv <= t)%nat ->
  (List.length (fst s) = (2 * T)%nat /\
   (forall r, (r < 2 * T)%nat -> List.length (nth r (fst s) []) = (5 * T)%nat) /\
   List.length (snd s) = (2 * T)%nat) ->
  (t < T)%nat ->
  equality_step cfg T load pv t s = Fails ArrayIndexError.
Proof.
  intros Hpv (HA & Hrows & Hb) Ht. destruct s as [A b]. cbn [fst snd] in *.
  unfold equality_step, i_imp, i_exp, i_chg, i_dis, i_soc. cbv zeta. cbn [fst snd].
  rewrite set_entry_ok by (rewrite ?Hrows; lia). cbn [and_then].
  destruct (shape_upd (2 * T) (5 * T) A t t (- (1)) HA Hrows) as (HA1 & Hrows1).
  set (A1 := upd A t (upd (nth t A []) t (- (1)))) in *.
  rewrite set_entry_ok by (rewrite ?Hrows1; lia). cbn [and_then].
  destruct (shape_upd (2 * T) (5 * T) A1 t (T + t) 1 HA1 Hrows1) as (HA2 & Hrows2).
  set (A2 := upd A1 t (upd (nth t A1 []) (T + t) 1)) in *.
  rewrite set_entry_ok by (rewrite ?Hrows2; lia). cbn [and_then].
  destruct (shape_upd (2 * T) (5 * T) A2 t (2 * T + t) 1 HA2 Hrows2) as (HA3 & Hrows3).
  set (A3 := upd A2 t (upd (nth t A2 []) (2 * T + t) 1)) in *.
  rewrite set_entry_ok by (rewrite ?Hrows3; lia). cbn [and_then].
  rewrite (get_item_short pv t Hpv). reflexivity.
Qed.

Lemma equality_step_needs (load pv : list Q) (t : nat) (s s' : list (list Q) * list Q) :
  equality_step cfg T load pv t s = Built s' ->
  (t < List.length pv)%nat /\ ~ efficiency cfg == 0.
Proof.
  intros H. unfold equality_step in H. cbv zeta in H.
  apply and_then_Built in H as (A1 & _ & H).
  apply and_then_Built in H as (A2 & _ & H).
  apply and_then_Built in H as (A3 & _ & H).
  apply and_then_Built in H as (A4 & _ & H).
  apply and_then_Built in H as (g & Hg & H). apply get_item_Built in Hg as (Hg & _).
  apply and_then_Built in H as (l & _ & H).
  apply and_then_Built in H as (b1 & _ & H).
  apply and_then_Built in H as (A5 & _ & H).
  apply and_then_Built in H as (A6 & _ & H).
  apply and_then_Built in H as (q & Hq & H). apply float_div_Built in Hq as (Hq & _).
  split; assumption.
Qed.

End Outcome.

Lemma set_item_fails (arr : list Q) (i : nat) (v : Q) (e : lp_error) :
  set_item arr i v = Fails e -> e = ArrayIndexError.
Proof.
  unfold set_item. destruct (_ <? _)%nat; [discriminate|].
  intros H. injection H as <-. reflexivity.
Qed.

Lemma get_item_fails (arr : list Q) (i : nat) (e : lp_error) :
  get_item arr i = Fails e -> e = ArrayIndexError.
Proof.
  unfold get_item. destruct (nth_error arr i); [discriminate|].
  intros H. injection H as <-. reflexivity.
Qed.

Lemma set_entry_fails (A : list (list Q)) (r c : nat) (v : Q) (e : lp_error) :
  set_entry A r c v = Fails e -> e = ArrayIndexError.
Proof.
  unfold set_entry. destruct (nth_error A r) as [row|].
  - intros H. apply and_then_Fails in H as [H|(row' & _ & H)]; [|discriminate].
    apply (set_item_fails _ _ _ _ H).
  - intros H. injection H as <-. reflexivity.
Qed.

Lemma float_div_fails (a b : Q) (e : lp_error) :
  float_div a b = Fails e -> b == 0.
Proof.
  unfold float_div. destruct (Qeq_bool b 0) eqn:E; [|discriminate].
  intros _. apply Qeq_bool_iff, E.
Qed.

Section LoopOutcome.

Variable cfg : Config.
Variable T : nat.

Lemma equality_step_division (load pv : list Q) (t : nat) (s : list (list Q) * list Q) :
  equality_step cfg T load pv t s = Fails FloatDivisionByZero ->
  efficiency cfg == 0.
Proof.
  intros H. unfold equality_step in H. cbv zeta in H.
  repeat match type of H with
         | and_then (set_entry _ _ _ _) _ = Fails _ =>
             apply and_then_Fails in H as [H|(? & _ & H)];
             [apply set_entry_fails in H; discriminate|]
         | and_then (set_item _ _ _) _ = Fails _ =>
             apply and_then_Fails in H as [H|(? & _ & H)];
             [apply set_item_fails in H; discriminate|]
         | and_then (get_item _ _) _ = Fails _ =>
             apply and_then_Fails in H as [H|(? & _ & H)];
             [apply get_item_fails in H; discriminate|]
         end.
  apply and_then_Fails in H as [H|(q & _ & H)]; [apply (float_div_fails _ _ _ H)|].
  exfalso.
  apply and_then_Fails in H as [H|(A7 & _ & H)];
    [apply set_entry_fails in H; discriminate|].
  destruct (t =? 0)%nat.
  - apply and_then_Fails in H as [H|(? & _ & H)];
      [apply set_item_fails in H; discriminate | discriminate].
  - apply and_then_Fails in H as [H|(? & _ & H)];
      [apply set_entry_fails in H; discriminate | discriminate].
Qed.

Lemma objective_loop_built (import_price export_price : list Q) :
  (T <= List.length import_price)%nat -> (T <= List.length export_price)%nat ->
  exists c, for_range (seq 0 T) (objective_step cfg T import_price export_price)
              (zeros (5 * T)) = Built c.
Proof.
  intros Hi He.
  apply (for_range_progress (fun _ c => List.length c = (5 * T)%nat)).
  - apply length_zeros.
  - intros t c Ht Hc.
    apply (objective_step_progress cfg T import_price export_price t c Ht Hi He Hc).
Qed.

Lemma objective_loop_no_division (import_price export_price : list Q) :
  for_range (seq 0 T) (objective_step cfg T import_price export_price) (zeros (5 * T))
  <> Fails FloatDivisionByZero.
Proof.
  apply for_range_never. intros t c. apply objective_step_index_error.
Qed.

Lemma equality_loop_built (load pv : list Q) :
  (T <= List.length load)%nat -> (T <= List.length pv)%nat ->
  ~ efficiency cfg == 0 ->
  exists s, for_range (seq 0 T) (equality_step cfg T load pv)
              (zeros2 (2 * T) (5 * T), zeros (2 * T)) = Built s.
Proof.
  intros Hl Hp Heff.
  apply (for_range_progress
           (fun _ s => List.length (fst s) = (2 * T)%nat /\
                       (forall r, (r < 2 * T)%nat ->
                                  List.length (nth r (fst s) []) = (5 * T)%nat) /\
                       List.length (snd s) = (2 * T)%nat)).
  - cbn [fst snd]. destruct (zeros2_shape (2 * T) (5 * T)) as (H1 & H2).
    split; [exact H1|]. split; [exact H2 | apply length_zeros].
  - intros t s Ht Hs.
    apply (proj1 (equality_step_progress cfg T load pv t s Ht Hl ltac:(lia) Hs) Heff).
Qed.

Lemma equality_loop_needs (load pv : list Q) (s : list (list Q) * list Q) :
  for_range (seq 0 T) (equality_step cfg T load pv)
    (zeros2 (2 * T) (5 * T), zeros (2 * T)) = Built s ->
  (T <= List.length pv)%nat /\ ((0 < T)%nat -> ~ efficiency cfg == 0).
Proof.
  intros H.
  apply (for_range_inv
           (fun k _ => (k <= List.length pv)%nat /\
                       ((0 < k)%nat -> ~ efficiency cfg == 0))) in H; [exact H | |].
  - split; [lia | intros H0; lia].
  - intros t s0 s1 Ht (Hk & _) Hb.
    destruct (equality_step_needs cfg T load pv t s0 s1 Hb) as (Hp & He).
    split; [lia | intros _; exact He].
Qed.

Lemma equality_loop_first_step (load pv : list Q) :
  (0 < T)%nat -> (T <= List.length load)%nat ->
  (pv <> [] -> efficiency cfg == 0 ->
   for_range (seq 0 T) (equality_step cfg T load pv)
     (zeros2 (2 * T) (5 * T), zeros (2 * T)) = Fails FloatDivisionByZero) /\
  (pv = [] ->
   for_range (seq 0 T) (equality_step cfg T load pv)
     (zeros2 (2 * T) (5 * T), zeros (2 * T)) = Fails ArrayIndexError).
Proof.
  intros HT Hl.
  assert (Hshape : List.length (fst (zeros2 (2 * T) (5 * T), zeros (2 * T))) = (2 * T)%nat /\
                   (forall r, (r < 2 * T)%nat ->
                      List.length (nth r (fst (zeros2 (2 * T) (5 * T), zeros (2 * T))) [])
                      = (5 * T)%nat) /\
                   List.length (snd (zeros2 (2 * T) (5 * T), zeros (2 * T))) = (2 * T)%nat).
  { cbn [fst snd]. destruct (zeros2_shape (2 * T) (5 * T)) as (H1 & H2).
    split; [exact H1|]. split; [exact H2 | apply length_zeros]. }
  destruct T as [|T'] eqn:ET; [lia|]. rewrite <- ET in *.
  replace (seq 0 T) with (0%nat :: seq 1 T') by (rewrite ET; reflexivity).
  cbn [for_range]. split.
  - intros Hpv Heff.
    assert (Hp0 : (0 < List.length pv)%nat) by (destruct pv; [congruence | cbn; lia]).
    rewrite (proj2 (equality_step_progress cfg T load pv 0 _ HT Hl Hp0 Hshape) Heff).
    reflexivity.
  - intros ->.
    rewrite (equality_step_index_error cfg T load [] 0 _ (Nat.le_refl 0) Hshape HT).
    reflexivity.
Qed.

Lemma equality_loop_division (load pv : list Q) :
  for_range (seq 0 T) (equality_step cfg T load pv)
    (zeros2 (2 * T) (5 * T), zeros (2 * T)) = Fails FloatDivisionByZero ->
  efficiency cfg == 0.
Proof.
  intros H. destruct (Qeq_dec (efficiency cfg) 0) as [E|E]; [exact E|].
  exfalso. revert H. apply for_range_never. intros t s Hs.
  apply E, (equality_step_division load pv t s Hs).
Qed.

End LoopOutcome.

(** Each direction of the outcome of [build_program]. *)
Lemma build_program_built
    (cfg : Config) (load pv import_price export_price : list Q) (peak_limit : Q) :
  (List.length load <= List.length import_price)%nat ->
  (List.length load <= List.length export_price)%nat ->
  (List.length load <= List.length pv)%nat ->
  (List.length load = 0%nat \/ ~ efficiency cfg == 0) ->
  exists P, build_program cfg load pv import_price export_price peak_limit = Built P.
Proof.
  intros Hi He Hp Heff.
  unfold build_program. cbv zeta. set (T := List.length load) in *.
  destruct (objective_loop_built cfg T import_price export_price Hi He) as (c & ->).
  cbn [and_then].
  assert (Heq : exists s, for_range (seq 0 T) (equality_step cfg T load pv)
                            (zeros2 (2 * T) (5 * T), zeros (2 * T)) = Built s).
  { destruct Heff as [E|E].
    - rewrite E. eexists. reflexivity.
    - apply (equality_loop_built cfg T load pv (Nat.le_refl _) Hp E). }
  destruct Heq as (eq & ->). cbn [and_then].
  destruct (inequality_loop_built cfg T) as (ub & ->). cbn [and_then].
  eexists. reflexivity.
Qed.

Lemma build_program_built_needs
    (cfg : Config) (load pv import_price export_price : list Q) (peak_limit : Q)
    (P : Program) :
  build_program cfg load pv import_price export_price peak_limit = Built P ->
  (List.length load <= List.length import_price)%nat /\
  (List.length load <= List.length export_price)%nat /\
  (List.length load <= List.length pv)%nat /\
  (List.length load = 0%nat \/ ~ efficiency cfg == 0).
Proof.
  intros H.
  destruct (build_program_parts cfg load pv import_price export_price peak_limit P H)
    as ((_ & Hi & He & _) & _).
  unfold build_program in H. cbv zeta in H. set (T := List.length load) in *.
  apply and_then_Built in H as (c & _ & H).
  apply and_then_Built in H as (eq & Heq & _).
  destruct (equality_loop_needs cfg T load pv eq Heq) as (Hp & Heff).
  repeat split; try assumption.
  destruct T as [|T']; [left; reflexivity | right; apply Heff; lia].
Qed.

Lemma build_program_division
    (cfg : Config) (load pv import_price export_price : list Q) (peak_limit : Q) :
  (List.length load <= List.length import_price)%nat ->
  (List.length load <= List.length export_price)%nat ->
  (0 < List.length load)%nat -> pv <> [] -> efficiency cfg == 0 ->
  build_program cfg load pv import_price export_price peak_limit
  = Fails FloatDivisionByZero.
Proof.
  intros Hi He HT Hp Heff.
  unfold build_program. cbv zeta. set (T := List.length load) in *.
  destruct (objective_loop_built cfg T import_price export_price Hi He) as (c & ->).
  cbn [and_then].
  rewrite (proj1 (equality_loop_first_step cfg T load pv HT (Nat.le_refl _)) Hp Heff).
  reflexivity.
Qed.

Lemma build_program_division_needs
    (cfg : Config) (load pv import_price export_price : list Q) (peak_limit : Q) :
  build_program cfg load pv import_price export_price peak_limit
  = Fails FloatDivisionByZero ->
  (List.length load <= List.length import_price)%nat /\
  (List.length load <= List.length export_price)%nat /\
  (0 < List.length load)%nat /\ pv <> [] /\ efficiency cfg == 0.
Proof.
  intros H. unfold build_program in H. cbv zeta in H. set (T := List.length load) in *.
  apply and_then_Fails in H as [H|(c & Hc & H)].
  { exfalso. apply (objective_loop_no_division cfg T import_price export_price H). }
  destruct (objective_loop_spec cfg T import_price export_price c Hc)
    as (_ & Hi & He & _).
  apply and_then_Fails in H as [H|(eq & _ & H)].
  - pose proof (equality_loop_division cfg T load pv H) as Heff.
    assert (HT : (0 < T)%nat).
    { destruct T as [|T']; [discriminate H | lia]. }
    repeat split; try assumption.
    intros ->.
    rewrite (proj2 (equality_loop_first_step cfg T load [] HT (Nat.le_refl _)) eq_refl)
      in H.
    discriminate H.
  - exfalso. destruct (inequality_loop_built cfg T) as (ub & E).
    rewrite E in H. discriminate H.
Qed.

(** A short price array, or a short [pv] that is empty or met with an
    efficiency other than 0, stops the loops at an array read. *)
Lemma build_program_index_error
    (cfg : Config) (load pv import_price export_price : list Q) (peak_limit : Q) :
  (List.length import_price < List.length load)%nat \/
  (List.length export_price < List.length load)%nat \/
  ((List.length pv < List.length load)%nat /\ (pv = [] \/ ~ efficiency cfg == 0)) ->
  build_program cfg load pv import_price export_price peak_limit = Fails ArrayIndexError.
Proof.
  intros Hshort.
  destruct (build_program cfg load pv import_price export_price peak_limit)
    as [P|[|]] eqn:E.
  - exfalso.
    destruct (build_program_built_needs _ _ _ _ _ _ _ E) as (Hi & He & Hp & _).
    destruct Hshort as [H|[H|(H & _)]]; lia.
  - reflexivity.
  - exfalso.
    destruct (build_program_division_needs _ _ _ _ _ _ E) as (Hi & He & HT & Hp & Heff).
    destruct Hshort as [H|[H|(_ & [H|H])]]; [lia | lia | congruence | exact (H Heff)].
Qed.

(** X28: [solve_with_peak_limit] can write its program down exactly when
    [pv] and both price arrays have at least [len(load)] entries and,
    unless [load] is empty, the efficiency is not 0.  It raises
    [ZeroDivisionError] before any solver is called exactly when the
    price arrays are long enough, [load] and [pv] are not empty and the
    efficiency is 0; every other failure is an [IndexError]. *)
Theorem build_program_outcome
    (cfg : Config) (load pv import_price export_price : list Q) (peak_limit : Q) :
  let T := List.length load in
  ((exists P, build_program cfg load pv import_price export_price peak_limit = Built P) <->
   (T <= List.length import_price)%nat /\ (T <= List.length export_price)%nat /\
   (T <= List.length pv)%nat /\ (T = 0%nat \/ ~ efficiency cfg == 0)) /\
  (build_program cfg load pv import_price export_price peak_limit
   = Fails FloatDivisionByZero <->
   (T <= List.length import_price)%nat /\ (T <= List.length export_price)%nat /\
   (0 < T)%nat /\ pv <> [] /\ efficiency cfg == 0) /\
  (forall e, build_program cfg load pv import_price export_price peak_limit = Fails e ->
             e = FloatDivisionByZero \/ e = ArrayIndexError).
Proof.
  intros T. split; [|split].
  - split.
    + intros (P & H).
      apply (build_program_built_needs _ _ _ _ _ _ _ H).
    + intros (Hi & He & Hp & Heff).
      apply build_program_built; assumption.
  - split.
    + apply build_program_division_needs.
    + intros (Hi & He & HT & Hp & Heff).
      apply build_program_division; assumption.
  - intros [|] _; [right | left]; reflexivity.
Qed.

Lemma build_program_outcome_witness :
  (exists P, build_program toy_config [5; 5] [3; 3] [1 # 10; 3 # 10] [0; 0] 4 = Built P) /\
  build_program broken_config [5; 5] [3; 3] [1 # 10; 3 # 10] [0; 0] 4
  = Fails FloatDivisionByZero.
Proof.
  split.
  - apply (proj1 (build_program_outcome toy_config [5; 5] [3; 3] [1 # 10; 3 # 10] [0; 0] 4)).
    cbn. repeat split; try lia; right; discriminate.
  - apply (proj1 (proj2 (build_program_outcome broken_config [5; 5] [3; 3]
                           [1 # 10; 3 # 10] [0; 0] 4))).
    cbn. repeat split; try lia; try discriminate; reflexivity.
Defined.

(** ** The solves of the front *)

Section Points.

Variable linprog :
  Config -> list Q -> list Q -> list Q -> list Q -> Q -> option (Q * list Q).

(** ** One solve *)

(** X17: [solve_with_peak_limit] first fills the arrays of its program
    and only then calls the solver.  When [pv] and both price arrays are
    at least as long as [load], [load] is not empty and the efficiency
    is not 0, and the solver succeeds with one value per decision
    variable, it returns a point whose dispatch is the solution cut into
    five rows of [T] values (laid end to end they give the solution
    back), whose [peak_demand_kw] is the largest entry of the first row,
    the grid import, and whose [total_cost] is the energy cost plus that
    peak times the demand charge; when the solver does not succeed it
    returns [None].  With an efficiency of 0, price arrays long enough
    and [load] and [pv] not empty, it raises [ZeroDivisionError],
    whatever the solver; with a price array shorter than [load], or a
    [pv] shorter than [load] that is empty or met with an efficiency
    other than 0, it raises [IndexError]. *)
Theorem solve_with_peak_limit_point
    (cfg : Config) (load pv import_price export_price : list Q) (peak_limit : Q) :
  ((List.length load <= List.length import_price)%nat ->
   (List.length load <= List.length export_price)%nat ->
   (List.length load <= List.length pv)%nat ->
   ~ efficiency cfg == 0 ->
   load <> [] ->
   (linprog cfg load pv import_price export_price peak_limit = None ->
    solve_with_peak_limit linprog cfg load pv import_price export_price peak_limit
    = Returns None) /\
   (forall result_fun x,
       linprog cfg load pv import_price export_price peak_limit = Some (result_fun, x) ->
       List.length x = (5 * List.length load)%nat ->
       exists pt rows,
         solve_with_peak_limit linprog cfg load pv import_price export_price peak_limit
           = Returns (Some pt) /\
         energy_cost pt = result_fun /\
         dispatch pt = Some rows /\
         List.length rows = 5%nat /\
         Forall (fun row => List.length row = List.length load) rows /\
         List.concat rows = x /\
         In (peak_demand_kw pt) (nth 0 rows []) /\
         (forall v, In v (nth 0 rows []) -> v <= peak_demand_kw pt) /\
         total_cost pt = result_fun + peak_demand_kw pt * demand_charge_per_kw cfg)) /\
  ((List.length load <= List.length import_price)%nat ->
   (List.length load <= List.length export_price)%nat ->
   load <> [] -> pv <> [] -> efficiency cfg == 0 ->
   solve_with_peak_limit linprog cfg load pv import_price export_price peak_limit
   = Raises ZeroDivisionError) /\
  ((List.length import_price < List.length load)%nat \/
   (List.length export_price < List.length load)%nat \/
   ((List.length pv < List.length load)%nat /\ (pv = [] \/ ~ efficiency cfg == 0)) ->
   solve_with_peak_limit linprog cfg load pv import_price export_price peak_limit
   = Raises IndexError).
Proof.
  split; [|split].
  - intros Hi He Hp Heff Hload.
    destruct (build_program_built cfg load pv import_price export_price peak_limit
                Hi He Hp (or_intror Heff)) as (P & HP).
    unfold solve_with_peak_limit. cbv zeta. rewrite HP. split.
    + intros ->. reflexivity.
    + intros result_fun x Hlp Hlen. rewrite Hlp.
      destruct (firstn (List.length load) x) as [|g gs] eqn:Ef.
      { exfalso. apply (f_equal (@List.length Q)) in Ef.
        rewrite length_firstn, Hlen in Ef. cbn [List.length] in Ef.
        destruct load; [congruence | cbn [List.length] in Ef; lia]. }
      cbn [np_max bind]. unfold reshape.
      replace (List.length x =? 5 * List.length load)%nat with true
        by (symmetry; apply Nat.eqb_eq; exact Hlen).
      cbn [bind]. eexists. eexists. split; [reflexivity|].
      cbn [energy_cost dispatch peak_demand_kw total_cost].
      split; [reflexivity|]. split; [reflexivity|].
      split; [apply split_rows_length|].
      split; [apply split_rows_row_length; exact Hlen|].
      split; [apply split_rows_concat; exact Hlen|].
      assert (Hrow : nth 0 (split_rows 5 (List.length load) x) [] = g :: gs)
        by (cbn [split_rows nth]; exact Ef).
      rewrite Hrow.
      destruct (EngineFacts.fold_Qmax_upper gs g) as (Hin & Hub).
      split; [exact Hin|]. split; [exact Hub | reflexivity].
  - intros Hi He Hload Hpv Heff.
    assert (HT : (0 < List.length load)%nat)
      by (destruct load; [congruence | cbn; lia]).
    unfold solve_with_peak_limit. cbv zeta.
    rewrite (build_program_division cfg load pv import_price export_price peak_limit
               Hi He HT Hpv Heff).
    reflexivity.
  - intros Hshort.
    unfold solve_with_peak_limit. cbv zeta.
    rewrite (build_program_index_error cfg load pv import_price export_price peak_limit
               Hshort).
    reflexivity.
Qed.

Lemma solve_with_peak_limit_total_cost
    (cfg : Config) (load pv import_price export_price : list Q) (peak_limit : Q)
    (pt : ParetoPoint) :
  solve_with_peak_limit linprog cfg load pv import_price export_price peak_limit
    = Returns (Some pt) ->
  total_cost pt = energy_cost pt + peak_demand_kw pt * demand_charge_per_kw cfg.
Proof.
  unfold solve_with_peak_limit. cbv zeta.
  destruct (build_program _ _ _ _ _ _) as [P|e]; [|discriminate].
  destruct (linprog _ _ _ _ _ _) as [[f x]|]; [|discriminate].
  intros H. apply bind_Returns in H as (peak & _ & H).
  apply bind_Returns in H as (rows & _ & H).
  injection H as <-. reflexivity.
Qed.

Lemma solve_with_peak_limit_returns
    (cfg : Config) (load pv import_price export_price : list Q) (peak_limit : Q) :
  load <> [] ->
  (List.length load <= List.length import_price)%nat ->
  (List.length load <= List.length export_price)%nat ->
  (List.length load <= List.length pv)%nat ->
  ~ efficiency cfg == 0 ->
  one_value_per_variable linprog cfg load pv import_price export_price ->
  exists r, solve_with_peak_limit linprog cfg load pv import_price export_price peak_limit
            = Returns r.
Proof.
  intros Hload Hi He Hp Heff Hshape.
  destruct (build_program_built cfg load pv import_price export_price peak_limit
              Hi He Hp (or_intror Heff)) as (P & HP).
  unfold solve_with_peak_limit. cbv zeta. rewrite HP.
  destruct (linprog cfg load pv import_price export_price peak_limit) as [[f x]|] eqn:E.
  - pose proof (Hshape _ _ _ E) as Hlen.
    destruct (firstn (List.length load) x) as [|g gs] eqn:Ef.
    { exfalso. apply (f_equal (@List.length Q)) in Ef.
      rewrite length_firstn, Hlen in Ef. cbn [List.length] in Ef.
      destruct load; [congruence | cbn [List.length] in Ef; lia]. }
    cbn [np_max bind]. unfold reshape.
    replace (List.length x =? 5 * List.length load)%nat with true
      by (symmetry; apply Nat.eqb_eq; exact Hlen).
    cbn [bind]. eexists. reflexivity.
  - eexists. reflexivity.
Qed.

(** ** The binary search *)

Lemma pow2_succ (n : nat) :
  inject_Z (2 ^ Z.of_nat (S n)) == 2 * inject_Z (2 ^ Z.of_nat n).
Proof.
  rewrite Znat.Nat2Z.inj_succ, Z.pow_succ_r by apply Znat.Nat2Z.is_nonneg. rewrite inject_Z_mult. reflexivity.
Qed.

(** X18: the binary search keeps its bracket inside the one it started
    from and halves it every round.  The upper end it finishes with is
    the upper end it started with or a limit at which the solve
    succeeded; the lower end is the one it started with or a limit at
    which the solve failed. *)
Theorem bisect_brackets (solve : Q -> outcome (option ParetoPoint)) (rounds : nat) :
  forall lo hi lo' hi',
    lo <= hi ->
    bisect solve rounds lo hi = Returns (lo', hi') ->
    lo <= lo' /\ lo' <= hi' /\ hi' <= hi /\
    (hi' - lo') * inject_Z (2 ^ Z.of_nat rounds) == hi - lo /\
    (hi' = hi \/ exists pt, solve hi' = Returns (Some pt)) /\
    (lo' = lo \/ solve lo' = Returns None).
Proof.
  induction rounds as [|n IH]; intros lo hi lo' hi' Hle H.
  - cbn [bisect] in H. injection H as <- <-.
    repeat split; try lra; try (left; reflexivity).
    cbn. ring.
  - cbn [bisect] in H. cbv zeta in H.
    apply bind_Returns in H as (r & Hr & H).
    assert (Hmid1 : lo <= (lo + hi) / 2) by (apply Qle_shift_div_l; lra).
    assert (Hmid2 : (lo + hi) / 2 <= hi) by (apply Qle_shift_div_r; lra).
    destruct r as [pt|].
    + destruct (IH _ _ _ _ Hmid1 H) as (H1 & H2 & H3 & H4 & H5 & H6).
      repeat split; try lra.
      * rewrite pow2_succ.
        transitivity (2 * ((hi' - lo') * inject_Z (2 ^ Z.of_nat n))); [ring|].
        rewrite H4. field.
      * right. destruct H5 as [->|H5]; [exists pt; exact Hr | exact H5].
      * exact H6.
    + destruct (IH _ _ _ _ Hmid2 H) as (H1 & H2 & H3 & H4 & H5 & H6).
      repeat split; try lra.
      * rewrite pow2_succ.
        transitivity (2 * ((hi' - lo') * inject_Z (2 ^ Z.of_nat n))); [ring|].
        rewrite H4. field.
      * exact H5.
      * right. destruct H6 as [->|H6]; [exact Hr | exact H6].
Qed.

Lemma bisect_positive (solve : Q -> outcome (option ParetoPoint)) (rounds : nat)
    (lo hi lo' hi' : Q) :
  lo < hi -> bisect solve rounds lo hi = Returns (lo', hi') -> lo < hi'.
Proof.
  revert lo hi. induction rounds as [|n IH]; intros lo hi Hlt H.
  - cbn [bisect] in H. injection H as <- <-. exact Hlt.
  - cbn [bisect] in H. cbv zeta in H.
    apply bind_Returns in H as (r & Hr & H).
    assert (Hmid1 : lo < (lo + hi) / 2) by (apply Qlt_shift_div_l; lra).
    assert (Hmid2 : (lo + hi) / 2 < hi) by (apply Qlt_shift_div_r; lra).
    destruct r as [pt|].
    + apply (IH _ _ Hmid1 H).
    + apply Qlt_trans with ((lo + hi) / 2); [exact Hmid1 | apply (IH _ _ Hmid2 H)].
Qed.

Lemma bisect_returns (solve : Q -> outcome (option ParetoPoint)) (rounds : nat) :
  (forall limit, exists r, solve limit = Returns r) ->
  forall lo hi, exists b, bisect solve rounds lo hi = Returns b.
Proof.
  intros Hsolve. induction rounds as [|n IH]; intros lo hi; cbn [bisect].
  - eexists. reflexivity.
  - cbv zeta. destruct (Hsolve ((lo + hi) / 2)) as (r & ->). cbn [bind].
    destruct r; apply IH.
Qed.

Lemma bisect_raises (solve : Q -> outcome (option ParetoPoint)) (rounds : nat) (e : exn) :
  forall lo hi, bisect solve rounds lo hi = Raises e ->
                exists limit, solve limit = Raises e.
Proof.
  induction rounds as [|n IH]; intros lo hi; cbn [bisect].
  - discriminate.
  - cbv zeta. destruct (solve ((lo + hi) / 2)) as [r| e' |] eqn:E; cbn [bind].
    + destruct r; apply IH.
    + intros H. injection H as <-. eexists. exact E.
    + discriminate.
Qed.

Lemma bisect_first_raises (solve : Q -> outcome (option ParetoPoint)) (rounds : nat)
    (lo hi : Q) (e : exn) :
  solve ((lo + hi) / 2) = Raises e -> bisect solve (S rounds) lo hi = Raises e.
Proof.
  intros H. cbn [bisect]. cbv zeta. rewrite H. reflexivity.
Qed.

(** ** The sweep and the front *)

Lemma sweep_step_grows (front : list ParetoPoint) (point : option ParetoPoint) :
  (List.length (sweep_step front point) <= S (List.length front))%nat /\
  forall p, In p (sweep_step front point) -> In p front \/ point = Some p.
Proof.
  unfold sweep_step. destruct point as [q|]; [destruct (accepts front (Some q))|].
  - split; [rewrite length_app; cbn; lia|].
    intros p Hp. apply in_app_or in Hp as [Hp|[<-|[]]]; [left; exact Hp | right; reflexivity].
  - split; [lia|]. intros p Hp. left. exact Hp.
  - split; [lia|]. intros p Hp. left. exact Hp.
Qed.

Lemma sweep_points (solve : Q -> outcome (option ParetoPoint)) (epsilons : list Q) :
  forall front result,
    sweep solve epsilons front = Returns result ->
    (List.length result <= List.length front + List.length epsilons)%nat /\
    forall p, In p result ->
              In p front \/ exists eps, In eps epsilons /\ solve eps = Returns (Some p).
Proof.
  induction epsilons as [|eps rest IH]; intros front result Hrun.
  - cbn in Hrun. injection Hrun as <-. split; [cbn; lia|]. intros p Hp. left. exact Hp.
  - cbn [sweep] in Hrun. apply bind_Returns in Hrun as (point & Hpoint & Hrun).
    destruct (IH _ _ Hrun) as (Hlen & Hmem).
    destruct (sweep_step_grows front point) as (Hlen1 & Hmem1).
    split; [cbn [List.length]; lia|].
    intros p Hp. destruct (Hmem p Hp) as [Hin|(e & He & Hs)].
    + destruct (Hmem1 p Hin) as [Hf| ->]; [left; exact Hf|].
      right. exists eps. split; [left; reflexivity | exact Hpoint].
    + right. exists e. split; [right; exact He | exact Hs].
Qed.

Lemma sweep_returns (solve : Q -> outcome (option ParetoPoint)) (epsilons : list Q) :
  (forall limit, exists r, solve limit = Returns r) ->
  forall front, exists result, sweep solve epsilons front = Returns result.
Proof.
  intros Hsolve. induction epsilons as [|eps rest IH]; intros front; cbn [sweep].
  - eexists. reflexivity.
  - destruct (Hsolve eps) as (r & ->). cbn [bind]. apply IH.
Qed.

(** X19: a front that [compute_pareto_front] returns has at most
    [n_points] points, and each of them is what [solve_with_peak_limit]
    returned at some positive peak limit; its [total_cost] is its energy
    cost plus its peak times the demand charge. *)
Theorem compute_pareto_front_points
    (cfg : Config) (load pv import_price export_price : list Q) (n_points : nat)
    (front : list ParetoPoint) :
  compute_pareto_front linprog cfg load pv import_price export_price n_points
    = Returns front ->
  (List.length front <= n_points)%nat /\
  forall p, In p front ->
    (exists eps, 0 < eps /\
       solve_with_peak_limit linprog cfg load pv import_price export_price eps
         = Returns (Some p)) /\
    total_cost p = energy_cost p + peak_demand_kw p * demand_charge_per_kw cfg.
Proof.
  intros Hrun. unfold compute_pareto_front in Hrun. cbv zeta in Hrun.
  apply bind_Returns in Hrun as (net_load & _ & Hrun).
  apply bind_Returns in Hrun as (top & _ & Hrun).
  apply bind_Returns in Hrun as ([lo hi] & Hb & Hrun).
  apply bind_Returns in Hrun as (unc & _ & Hrun).
  cbn [snd] in Hrun.
  assert (Hpos : 0 < hi).
  { apply (bisect_positive _ _ _ _ _ _ (Qlt_le_trans _ _ _ (eq_refl : 0 < 1 # 10)
                                          (Q.le_max_r top (1 # 10))) Hb). }
  apply sweep_points in Hrun as (Hlen & Hmem).
  rewrite linspace_length in Hlen. cbn [List.length] in Hlen.
  split; [lia|].
  intros p Hp. destruct (Hmem p Hp) as [[]|(eps & Heps & Hs)].
  split; [|apply (solve_with_peak_limit_total_cost _ _ _ _ _ _ _ Hs)].
  exists eps. split; [|exact Hs].
  apply Qlt_le_trans with hi; [exact Hpos|].
  apply (linspace_from_start _ _ _ _) in Heps; [exact Heps|].
  destruct unc as [u|]; [|apply Qle_refl].
  apply Qle_trans with (hi * (3 # 2)); [lra | apply Q.le_max_r].
Qed.

(** X20: [compute_pareto_front] raises [ValueError] when [load] is empty,
    whatever the other arguments and the solver.  With a load and a [pv]
    of the same length: when both price arrays are at least as long, the
    efficiency is not 0 and the solver hands back one value per decision
    variable, it returns a front; when the price arrays are long enough
    and the efficiency is 0 it raises [ZeroDivisionError], and when a
    price array is shorter than [load] it raises [IndexError], both at
    the first solve of the binary search and whatever the solver. *)
Theorem compute_pareto_front_outcome
    (cfg : Config) (load pv import_price export_price : list Q) (n_points : nat) :
  (load = [] ->
   exists msg,
     compute_pareto_front linprog cfg load pv import_price export_price n_points
     = Raises (ValueError msg)) /\
  (load <> [] -> List.length pv = List.length load ->
   (List.length load <= List.length import_price)%nat ->
   (List.length load <= List.length export_price)%nat ->
   ~ efficiency cfg == 0 ->
   one_value_per_variable linprog cfg load pv import_price export_price ->
   exists front,
     compute_pareto_front linprog cfg load pv import_price export_price n_points
     = Returns front) /\
  (load <> [] -> List.length pv = List.length load ->
   (List.length load <= List.length import_price)%nat ->
   (List.length load <= List.length export_price)%nat ->
   efficiency cfg == 0 ->
   compute_pareto_front linprog cfg load pv import_price export_price n_points
   = Raises ZeroDivisionError) /\
  (load <> [] -> List.length pv = List.length load ->
   (List.length import_price < List.length load)%nat \/
   (List.length export_price < List.length load)%nat ->
   compute_pareto_front linprog cfg load pv import_price export_price n_points
   = Raises IndexError).
Proof.
  assert (Hstart : load <> [] -> List.length pv = List.length load ->
            exists top,
              compute_pareto_front linprog cfg load pv import_price export_price n_points
              = (bounds <- bisect (solve_with_peak_limit linprog cfg load pv import_price
                                     export_price) 20 0 (Qmax top (1 # 10)) ;;
                 unconstrained <- solve_with_peak_limit linprog cfg load pv import_price
                                    export_price 1000 ;;
                 sweep (solve_with_peak_limit linprog cfg load pv import_price export_price)
                       (linspace (snd bounds)
                          match unconstrained with
                          | Some u => Qmax (peak_demand_kw u * (11 # 10))
                                           (snd bounds * (3 # 2))
                          | None => snd bounds
                          end n_points) [])).
  { intros Hload Hpv. unfold compute_pareto_front. cbv zeta. unfold np_subtract.
    replace (List.length load =? List.length pv)%nat with true
      by (symmetry; apply Nat.eqb_eq; symmetry; exact Hpv).
    cbn [bind].
    destruct (zip_with Qminus load pv) as [|n0 ns] eqn:Ez.
    { exfalso. destruct load as [|l load']; [congruence|].
      destruct pv as [|v pv']; [discriminate | discriminate]. }
    cbn [np_max bind]. eexists. reflexivity. }
  split; [|split; [|split]].
  - intros ->. unfold compute_pareto_front. cbv zeta. unfold np_subtract.
    cbn [List.length map zip_with].
    destruct pv as [|a [|b pv']]; cbn [List.length Nat.eqb bind np_max];
      eexists; reflexivity.
  - intros Hload Hpv Hi He Heff Hshape.
    destruct (Hstart Hload Hpv) as (top & ->).
    assert (Hp : (List.length load <= List.length pv)%nat) by lia.
    pose proof (fun limit => solve_with_peak_limit_returns cfg load pv import_price
                               export_price limit Hload Hi He Hp Heff Hshape) as Hsolve.
    destruct (bisect_returns _ 20 Hsolve 0 (Qmax top (1 # 10))) as (b & ->).
    cbn [bind]. destruct (Hsolve 1000) as (unc & ->). cbn [bind].
    apply sweep_returns. exact Hsolve.
  - intros Hload Hpv Hi He Heff.
    destruct (Hstart Hload Hpv) as (top & ->).
    assert (HT : (0 < List.length load)%nat)
      by (destruct load; [congruence | cbn; lia]).
    assert (Hpv' : pv <> []) by (intros ->; cbn in Hpv; lia).
    rewrite (bisect_first_raises _ 19 0 (Qmax top (1 # 10)) ZeroDivisionError);
      [reflexivity|].
    unfold solve_with_peak_limit. cbv zeta.
    rewrite (build_program_division cfg load pv import_price export_price _
               Hi He HT Hpv' Heff).
    reflexivity.
  - intros Hload Hpv Hshort.
    destruct (Hstart Hload Hpv) as (top & ->).
    rewrite (bisect_first_raises _ 19 0 (Qmax top (1 # 10)) IndexError);
      [reflexivity|].
    unfold solve_with_peak_limit. cbv zeta.
    rewrite (build_program_index_error cfg load pv import_price export_price _).
    + reflexivity.
    + destruct Hshort as [H|H]; [left; exact H | right; left; exact H].
Qed.

End Points.

Lemma solve_with_peak_limit_point_witness :
  (exists pt rows,
      solve_with_peak_limit two_step_linprog toy_config [5; 5] [3; 3] [1 # 10; 3 # 10] [0; 0] 4
        = Returns (Some pt) /\
      energy_cost pt = 7 # 10 /\
      dispatch pt = Some rows /\
      List.length rows = 5%nat /\
      Forall (fun row => List.length row = 2%nat) rows /\
      List.concat rows = two_step_x /\
      In (peak_demand_kw pt) (nth 0 rows []) /\
      (forall v, In v (nth 0 rows []) -> v <= peak_demand_kw pt) /\
      total_cost pt = (7 # 10) + peak_demand_kw pt * demand_charge_per_kw toy_config) /\
  solve_with_peak_limit two_step_linprog broken_config [5; 5] [3; 3] [1 # 10; 3 # 10] [0; 0] 4
  = Raises ZeroDivisionError /\
  solve_with_peak_limit two_step_linprog toy_config [5; 5] [3; 3] [1 # 10] [0; 0] 4
  = Raises IndexError.
Proof.
  split; [|split].
  - refine (proj2 (proj1 (solve_with_peak_limit_point two_step_linprog toy_config
                            [5; 5] [3; 3] [1 # 10; 3 # 10] [0; 0] 4) _ _ _ _ _)
                  (7 # 10) two_step_x _ _).
    + cbn. lia.
    + cbn. lia.
    + cbn. lia.
    + cbn. discriminate.
    + discriminate.
    + reflexivity.
    + reflexivity.
  - refine (proj1 (proj2 (solve_with_peak_limit_point two_step_linprog broken_config
                            [5; 5] [3; 3] [1 # 10; 3 # 10] [0; 0] 4)) _ _ _ _ _).
    + cbn. lia.
    + cbn. lia.
    + discriminate.
    + discriminate.
    + reflexivity.
  - refine (proj2 (proj2 (solve_with_peak_limit_point two_step_linprog toy_config
                            [5; 5] [3; 3] [1 # 10] [0; 0] 4)) _).
    left. cbn. lia.
Defined.

Lemma bisect_brackets_witness :
  exists lo' hi',
    bisect (solve_with_peak_limit toy_linprog toy_config [3] [0] [1 # 10] [0]) 3 0 3
      = Returns (lo', hi') /\
    0 <= lo' /\ lo' <= hi' /\ hi' <= 3 /\ (hi' - lo') * 8 == 3.
Proof.
  eexists. eexists. split; [vm_compute; reflexivity|].
  destruct (bisect_brackets
              (solve_with_peak_limit toy_linprog toy_config [3] [0] [1 # 10] [0]) 3
              0 3 _ _ (fun H : (0 ?= 3 * 1)%Z = Gt => ltac:(discriminate H))
              ltac:(vm_compute; reflexivity))
    as (H1 & H2 & H3 & H4 & _).
  repeat split; assumption.
Defined.

Lemma compute_pareto_front_points_witness :
  (List.length toy_front <= 12)%nat /\
  forall p, In p toy_front ->
    (exists eps, 0 < eps /\
       solve_with_peak_limit toy_linprog toy_config [3] [0] [1 # 10] [0] eps
         = Returns (Some p)) /\
    total_cost p = energy_cost p + peak_demand_kw p * demand_charge_per_kw toy_config.
Proof.
  apply (compute_pareto_front_points toy_linprog toy_config [3] [0] [1 # 10] [0] 12 toy_front).
  vm_compute. reflexivity.
Defined.

Lemma compute_pareto_front_outcome_witness :
  (exists front,
      compute_pareto_front toy_linprog toy_config [3] [0] [1 # 10] [0] 12 = Returns front) /\
  compute_pareto_front toy_linprog broken_config [3] [0] [1 # 10] [0] 12
  = Raises ZeroDivisionError /\
  compute_pareto_front toy_linprog toy_config [3] [0] [] [0] 12 = Raises IndexError.
Proof.
  split; [|split].
  - apply (proj1 (proj2 (compute_pareto_front_outcome toy_linprog toy_config
                           [3] [0] [1 # 10] [0] 12))).
    + discriminate.
    + reflexivity.
    + cbn. lia.
    + cbn. lia.
    + cbn. discriminate.
    + intros limit f x H. unfold toy_linprog in H. injection H as _ <-. reflexivity.
  - apply (proj1 (proj2 (proj2 (compute_pareto_front_outcome toy_linprog broken_config
                                  [3] [0] [1 # 10] [0] 12)))).
    + discriminate.
    + reflexivity.
    + cbn. lia.
    + cbn. lia.
    + reflexivity.
  - apply (proj2 (proj2 (proj2 (compute_pareto_front_outcome toy_linprog toy_config
                                  [3] [0] [] [0] 12)))).
    + discriminate.
    + reflexivity.
    + left. cbn. lia.
Defined.

End FrontierFacts.
